(* ===== verification/_CoqProject ===== *)
-Q . S2P
Prelude.v
Machine.v
Memory.v
CString.v
Ring.v
Printf.v
Spinlock.v
Kalloc.v
Vm.v
VmTables.v
VmMap.v
VmUser.v
VmGrow.v
VmCopy.v
VmFork.v
UserMem.v
Pipe.v
Console.v
VmFree.v
VmProps.v
Bytes.v
Bio.v
Virtio.v
VirtioProps.v
Log.v
LogCrash.v
Txn.v
LogProps.v
Fs.v
FsPath.v
FsAlloc.v
FsData.v
FsName.v
Mkfs.v
MkfsImage.v
MkfsProps.v
Proc.v
ProcInv.v
ProcProps.v
File.v
Kernel.v
Sysarg.v
Sysproc.v
Exec.v
Sysfile.v
Syscall.v
Trap.v
TrapProps.v
Grep.v
Sh.v
ShRun.v
Utils.v
Eafitos.v
Umalloc.v
