(* ===== verification/Prelude.v ===== *)
(** * A verification of EAFITos, a teaching kernel derived from xv6-riscv

    ** The program

    src/kernel is a small Unix kernel for a multiprocessor RISC-V machine.  From
    the hardware up: spin locks (spinlock.c), a page allocator (kalloc.c), Sv39
    page tables (vm.c), processes and the scheduler (proc.c), sleep locks
    (sleeplock.c), pipes (pipe.c), the console and its UART (console.c, uart.c); a
    block cache (bio.c), a write-ahead log (log.c) and the file system on it
    (fs.c), open files (file.c), program loading (exec.c); and the ways in: traps
    (trap.c, plic.c), system calls (syscall.c, sysproc.c, sysfile.c).  To xv6 the
    repository adds lazy heap growth, a demand-filled region (mapzero), shared and
    read-only pages (shmem, map_ro), system-call tracing, page-table dumps and
    page-fault counters.  The disk is a virtio device (virtio_disk.c).  src/user has
    the programs, among them the shell sh, grep and the EAFITos shell; src/mkfs the
    host program that makes the disk image.

    ** The model

    A shallow embedding.  C integers are [Z] kept in their width by explicit
    wrap-around; structures are records, enums inductive types; the kernel's
    memory is a function from addresses to bytes ([Memory]), in which page tables
    and the free list live at the bit level.  A routine is a function of the
    monad [M S A] below: state passing with four outcomes, [Ok], [Panic] (a call of
    panic, or a fault in the kernel), [Sleep] (the caller must wait on a channel)
    and [Fuel] (a loop bound was too small).  [wp] is total correctness: a routine
    with a [wp] theorem terminates without panic.

    Files, in dependency order, with what they model:
    - [Prelude], [Machine], [Memory], [Bytes], [Ring]: the monad and its proof
      rules, machine integers, constants and macros of param.h, memlayout.h and
      riscv.h, byte memory, records inside byte arrays, ring buffers;
    - [CString] (string.c), [Printf] (kernel/printf.c, user/printf.c);
    - [Spinlock]: modules [Cpu] (push_off, pop_off), [Lock] (acquire and release as
      machine instructions of any number of processors), [SleepLock] (sleeplock.c,
      over the caller's sleep and wakeup, and any number of processes on one lock);
    - [Kalloc], [Vm]: kalloc.c and vm.c; their specifications are in [VmTables]
      (the tree of table pages), [VmMap] (walk, mappages), [VmUser] (address-space
      invariant), [VmGrow] (uvmalloc, uvmdealloc, vmfault), [VmCopy] (copyin,
      copyout, copyinstr), [VmFork] (uvmcopy), [VmFree] (freewalk, uvmfree), and
      the theorems in [VmProps];
    - [UserMem]: the interface by which pipes, the console and files reach user
      memory, with an instance from [Vm]; [Pipe], [Console] (with module [Uart]);
    - [Bio]: bio.c, and the interface [BufCache] it implements; it calls the driver
      by a contract, [virtio_disk_rw]; [Virtio]: virtio_disk.c and virtio.h, as
      threads, interrupts and a device that share the queue in memory, over the
      interface [VirtioDevice] (what the virtio specification says of the device);
      [VirtioProps]: the driver refines the contract; [Log]: log.c over
      that interface; [LogCrash] (what reaches the disk in which order), [Txn]
      (transactions), [LogProps];
    - [Fs]: fs.c; [FsPath], [FsAlloc], [FsData], [FsName]: paths, the block bitmap,
      contents, the way from a path to an inode; [Mkfs]: mkfs/mkfs.c; [MkfsImage]
      (the invariant of the image under each of its routines), [MkfsProps] (the
      kernel on the image);
    - [Proc]: proc.c, over the interface [FileOps] to the files; [ProcInv] (each
      routine's effect on the process table), [ProcProps] (the machine of all
      processors: [pstep], its invariant and its theorems);
    - [File] (file.c), [Kernel] (the state of the whole kernel, the instance of
      [FileOps] with its laws), [Sysarg], [Sysproc], [Exec], [Sysfile], [Syscall]:
      the system calls; [Trap]: trap.c; [TrapProps]: the page-fault contract;
    - [Grep] (user/grep.c), [Sh] (the parser of user/sh.c), [ShRun] (its execution
      of commands, as programs over system calls, and the descriptor tables they
      run on), [Utils] (cat, wc, echo, ls, ln, rm, mkdir and kill, over the
      interface [UtilSys]), [Eafitos] (user/eafitos.c, over the interface [UserSys]
      of its system calls), [Umalloc] (user/umalloc.c, over the interface [Sbrk]).

    ** What the theorems show

    - Memory: the allocator is a stack of distinct pages; mapping, growth, fork
      copy, teardown and the copies between kernel and user do what their callers
      need on every branch, the failing ones included, and keep the free list and
      the page tables well formed; teardown returns every page.
    - Page faults: a fault is served with one fresh page or the process is marked
      for killing with its memory as it was.
    - Locks: mutual exclusion of spin locks under every interleaving of their
      instructions; sleep locks exclude and lose no wakeup.
    - Processes: the invariant of the process table in every state the processors
      can reach; a parent in wait never misses the exit of a child; sleep passes
      all the checks of the scheduler.
    - Storage: the cache returns the current content of a block and evicts the
      least recently used; a commit is atomic under a crash between any two disk
      writes; the log never overflows its reservation; blocks are allocated once
      and zeroed; what is written to a file is read back; paths split into their
      components.
    - Disk: under every interleaving of callers, interrupts and device, each call of
      the driver reads or writes its block exactly once and returns when this is
      done; no index leaves its array, no descriptor is freed twice, and the one
      panic is the refusal of a request the device failed; a caller sleeps only
      while its request is pending or descriptors are taken.
    - The image: mkfs succeeds on every set of files that fits; the kernel finds
      each under its name and reads its bytes; the bitmap marks the blocks of the
      files and no others, and no block belongs to two.
    - Devices and text: pipes and the console are queues, and every way a read or
      a write of a pipe can end has its condition; both printfs print numbers exactly; the string routines handle overlap and bounds.
    - User programs: grep decides its pattern language and prints the matching
      lines; the shell's parser ends on every input, terminates its strings in
      place, and reads back every printed command; a command that was typed starts
      the programs it names, with the descriptors its pipes and redirections ask
      for, and no others; wc counts and cat copies whatever the pieces [read]
      delivers; the EAFITos shell keeps the
      last ten lines, and reads the numbers it prints; malloc and free keep the
      blocks in use apart and the free list merged, and lose no memory.
    - Four theorems state defects: a full log cannot be committed, kill(0) dooms
      the next process, a pipe writer that is killed between two bytes wakes
      nobody, and the EAFITos shell does not end with its input.

    ** Interleaving

    A critical section is one step: the routines hold the lock that protects the
    state they change, and interrupts are off meanwhile.  [Lock] justifies this at
    the level of instructions; [ProcProps.pstep] interleaves the critical sections
    of proc.c over the processors, with fork in its three sections.  A process that
    gives up its processor leaves the continuation of its call in [context].
    [Virtio.vstep] interleaves the driver between its lock operations, fences and
    rounds of the handler, with the device acting at any point.  The states of the
    cache, the log and the files have no processes in them: there a call that would
    sleep ends with [Sleep], to be run again, and a wakeup is counted ([Log]) or
    changes nothing ([wake_all]); the processes that sleep and are woken are those of
    [ProcProps], [SleepLock] and [Virtio].

    ** Bounds

    Loops that are not structural carry fuel computed from their arguments: the
    number of pages or bytes left for the copy and map loops, three levels for
    the page-table walks, the table sizes for scans, the length of the format, of
    the path or of the line for the parsers.  The theorems are total, so they show
    that the fuel is enough; the depth bound of the shell's parser is proved in
    [Sh.parser_terminates].  Where a loop runs as long as another party delivers
    (a spin lock, a file in a user program) the bound is a parameter.  The limits of
    mkfs ([NINODES], [FSSIZE], [MAXFILE]) are hypotheses of its theorems, the
    blocks a set of files takes being computed by [MkfsProps.blocks].

    ** Not modelled

    Assembly, boot, the initialisation of UART and interrupt controller and the
    linker script are outside; what they establish is [KernelImage] and the
    initial states.  The disk itself is any device that conforms to [VirtioDevice].
    An interrupt inside a critical section is excluded by push_off.  Of the user
    programs the ones above are modelled, not init and zombie, which are fixed
    sequences of system calls, nor the tests.  The recovery of the log and the
    reclaiming of inodes at mount are modelled, but the theorems on the image start
    after them. *)
From stdpp Require Export base tactics numbers list list_numbers strings sets option relations.
From Stdlib Require Export ZArith Lia.

#[global] Open Scope Z_scope.

(** ** Machine integers

    C integers are [Z] values kept inside their width by an explicit
    wrap-around: [u8] .. [u64] for the unsigned types of [kernel/types.h],
    [i32] for [int], [i64] for [long]. *)

Definition u8 (z : Z) : Z := z mod 2 ^ 8.
Definition u16 (z : Z) : Z := z mod 2 ^ 16.
Definition u32 (z : Z) : Z := z mod 2 ^ 32.
Definition u64 (z : Z) : Z := z mod 2 ^ 64.
Definition i16 (z : Z) : Z := (z + 2 ^ 15) mod 2 ^ 16 - 2 ^ 15.
Definition i32 (z : Z) : Z := (z + 2 ^ 31) mod 2 ^ 32 - 2 ^ 31.
Definition i64 (z : Z) : Z := (z + 2 ^ 63) mod 2 ^ 64 - 2 ^ 63.

#[global] Arguments u8 : simpl never.
#[global] Arguments u16 : simpl never.
#[global] Arguments u32 : simpl never.
#[global] Arguments u64 : simpl never.
#[global] Arguments i16 : simpl never.
#[global] Arguments i32 : simpl never.
#[global] Arguments i64 : simpl never.

Definition is_u8 (z : Z) : Prop := 0 <= z < 2 ^ 8.
Definition is_u32 (z : Z) : Prop := 0 <= z < 2 ^ 32.
Definition is_u64 (z : Z) : Prop := 0 <= z < 2 ^ 64.
Definition is_i32 (z : Z) : Prop := - 2 ^ 31 <= z < 2 ^ 31.

(** C's treatment of an integer as a condition. *)
Definition c_true (z : Z) : bool := negb (z =? 0).

(** ** The effect of kernel code

    A kernel routine either returns, panics with the message it prints
    ([panic] in kernel/printf.c never returns), goes to sleep on a channel, or
    has not finished within the iterations it was given. *)

Inductive outcome (A : Type) : Type :=
| Ok (a : A)
| Panic (msg : string)
| Sleep (chan : Z)
| Fuel.
Arguments Ok {A} a.
Arguments Panic {A} msg.
Arguments Sleep {A} chan.
Arguments Fuel {A}.

Definition M (S A : Type) : Type := S -> outcome (A * S).

Definition ret {S A} (a : A) : M S A := fun s => Ok (a, s).
Definition bind {S A B} (m : M S A) (k : A -> M S B) : M S B := fun s =>
  match m s with
  | Ok (a, s') => k a s'
  | Panic msg => Panic msg
  | Sleep c => Sleep c
  | Fuel => Fuel
  end.
Definition panic {S A} (msg : string) : M S A := fun _ => Panic msg.
Definition out_of_fuel {S A} : M S A := fun _ => Fuel.
Definition sleep_on {S A} (c : Z) : M S A := fun _ => Sleep c.
(** A call that sleeps is given up, and its caller runs it again once woken; a
    state without processes has nothing for [wakeup] to change. *)
Definition wake_all {S} : M S unit := ret tt.
Definition get {S} : M S S := fun s => Ok (s, s).
Definition gets {S A} (f : S -> A) : M S A := fun s => Ok (f s, s).
Definition modify {S} (f : S -> S) : M S unit := fun s => Ok (tt, f s).

(** Running a routine of a sub-component on the part of the state it owns. *)
Definition zoom {S T A} (g : S -> T) (p : T -> S -> S) (m : M T A) : M S A := fun s =>
  match m (g s) with
  | Ok (a, t) => Ok (a, p t s)
  | Panic msg => Panic msg
  | Sleep c => Sleep c
  | Fuel => Fuel
  end.

Declare Scope kernel_scope.
Delimit Scope kernel_scope with K.
Notation "'let!' x ':=' m 'in' k" := (bind m (fun x => k))
  (at level 10, x name, m at level 100, k at level 200,
   format "'[v' 'let!'  x  ':='  m  'in' '/' k ']'") : kernel_scope.
Notation "'let!' ' p ':=' m 'in' k" := (bind m (fun x => match x with p => k end))
  (at level 10, p pattern, m at level 100, k at level 200,
   format "'[v' 'let!'  ' p  ':='  m  'in' '/' k ']'") : kernel_scope.
Notation "m ;; k" := (bind m (fun _ => k))
  (at level 100, k at level 200, right associativity,
   format "'[v' m  ;; '/' k ']'") : kernel_scope.
#[global] Open Scope kernel_scope.

(** ** Total-correctness weakest preconditions

    [wp m Q s]: run from [s], the routine returns (no panic, no sleep, no
    missing iterations) and its value and final state satisfy [Q]. *)

Definition wp {S A} (m : M S A) (Q : A -> S -> Prop) (s : S) : Prop :=
  match m s with
  | Ok (a, s') => Q a s'
  | _ => False
  end.

Section WpRules.
Context {S A B : Type}.
Implicit Types (s : S).

Lemma wp_ret (a : A) Q s : wp (ret a) Q s <-> Q a s.
Proof. done. Qed.

Lemma wp_bind (m : M S A) (k : A -> M S B) Q s :
  wp (bind m k) Q s <-> wp m (fun a s' => wp (k a) Q s') s.
Proof. unfold wp, bind. destruct (m s) as [[a s']| | |]; done. Qed.

Lemma wp_mono (m : M S A) (P Q : A -> S -> Prop) s :
  wp m P s -> (forall a s', P a s' -> Q a s') -> wp m Q s.
Proof. unfold wp. destruct (m s) as [[a s']| | |]; naive_solver. Qed.

Lemma wp_run (m : M S A) Q s : wp m Q s -> wp m (fun a s' => Q a s' /\ m s = Ok (a, s')) s.
Proof. unfold wp. by destruct (m s) as [[? ?]| | |]. Qed.

Lemma wp_gets (f : S -> A) Q s : wp (gets f) Q s <-> Q (f s) s.
Proof. done. Qed.

Lemma wp_ok (m : M S A) Q s :
  wp m Q s <-> exists a s', m s = Ok (a, s') /\ Q a s'.
Proof.
  unfold wp. destruct (m s) as [[a s']| | |]; naive_solver.
Qed.
End WpRules.

Lemma wp_modify {S} (f : S -> S) Q (s : S) : wp (modify f) Q s <-> Q tt (f s).
Proof. done. Qed.

Lemma wp_get {S} Q (s : S) : wp get Q s <-> Q s s.
Proof. done. Qed.

Lemma wp_zoom {S T A} (g : S -> T) (p : T -> S -> S) (m : M T A) Q (s : S) :
  wp (zoom g p m) Q s <-> wp m (fun a t => Q a (p t s)) (g s).
Proof. unfold wp, zoom. destruct (m (g s)) as [[a t]| | |]; done. Qed.

(** Inversion of a bind that returned. *)
Lemma bind_ok {S A B} (m : M S A) (k : A -> M S B) s b s'' :
  bind m k s = Ok (b, s'') <-> exists a s', m s = Ok (a, s') /\ k a s' = Ok (b, s'').
Proof. unfold bind. destruct (m s) as [[a s']| | |]; naive_solver. Qed.

(** A call that returns, followed by one that panics. *)
Lemma bind_panic {S A B} (m : M S A) (k : A -> M S B) s msg :
  wp m (fun a s' => k a s' = Panic msg) s -> bind m k s = Panic msg.
Proof. unfold wp, bind. destruct (m s) as [[a s']| | |]; done. Qed.

(** The value and state of a routine that returns. *)
Definition run_or {S A} (m : M S A) (s : S) (a : A) : A * S :=
  match m s with Ok r => r | _ => (a, s) end.

Lemma run_or_wp {S A} (m : M S A) (s : S) (a : A) (Q : A -> S -> Prop) :
  wp m Q s -> Q (run_or m s a).1 (run_or m s a).2.
Proof. unfold wp, run_or. by destruct (m s) as [[? ?]| | |]. Qed.
Lemma run_or_ok {S A} (m : M S A) (s : S) (a : A) :
  (match m s with Ok _ => true | _ => false end) = true -> m s = Ok ((run_or m s a).1, (run_or m s a).2).
Proof. unfold run_or. by destruct (m s) as [[? ?]| | |]. Qed.
Lemma run_or_tt {S} (m : M S unit) (s : S) :
  (match m s with Ok _ => true | _ => false end) = true -> m s = Ok (tt, (run_or m s tt).2).
Proof. unfold run_or. by destruct (m s) as [[[] ?]| | |]. Qed.

(** [wp_step] pushes a weakest precondition through the monad's operations. *)
Ltac wp_step :=
  match goal with
  | |- wp (bind _ _) _ _ => rewrite wp_bind
  | |- wp (ret _) _ _ => rewrite wp_ret
  | |- wp (gets _) _ _ => rewrite wp_gets
  | |- wp get _ _ => rewrite wp_get
  | |- wp (modify _) _ _ => rewrite wp_modify
  | |- wp (zoom _ _ _) _ _ => rewrite wp_zoom
  end; cbn beta.
Ltac wp_steps := repeat wp_step.

(** [wp_use H] continues after a call specified by the [wp] fact [H]. *)
Tactic Notation "wp_use" uconstr(H) "as" simple_intropattern(p) :=
  eapply wp_mono; [eapply H | cbn beta; intros p].

(** Boolean tests of the code as facts for [lia] and rewriting. *)
Ltac breflect :=
  repeat match goal with
  | H : _ && _ = true |- _ => apply andb_prop in H; destruct H
  | H : _ || _ = false |- _ => apply orb_false_elim in H; destruct H
  | H : negb _ = true |- _ => apply negb_true_iff in H
  | H : negb _ = false |- _ => apply negb_false_iff in H
  | H : (_ =? _)%Z = true |- _ => apply Z.eqb_eq in H
  | H : (_ =? _)%Z = false |- _ => apply Z.eqb_neq in H
  | H : (_ <? _)%Z = true |- _ => apply Z.ltb_lt in H
  | H : (_ <? _)%Z = false |- _ => apply Z.ltb_ge in H
  | H : (_ <=? _)%Z = true |- _ => apply Z.leb_le in H
  | H : (_ <=? _)%Z = false |- _ => apply Z.leb_gt in H
  end.

(** Rule induction: what every step preserves holds of every reachable state. *)
Lemma rtc_inv {A} (R : A -> A -> Prop) (I : A -> Prop) x y :
  (forall a b, I a -> R a b -> I b) -> I x -> rtc R x y -> I y.
Proof. intros Hs Hx Hr. induction Hr as [|a b c Hab _ IH]; eauto. Qed.

Create HintDb xv6 discriminated.
Create Rewrite HintDb xv6_rw.

(** ** Facts about machine integers *)

Lemma u64_id z : is_u64 z -> u64 z = z.
Proof. unfold u64, is_u64. apply Z.mod_small. Qed.
Lemma u32_id z : is_u32 z -> u32 z = z.
Proof. unfold u32, is_u32. apply Z.mod_small. Qed.
Lemma u8_id z : is_u8 z -> u8 z = z.
Proof. unfold u8, is_u8. apply Z.mod_small. Qed.
Lemma i32_id z : is_i32 z -> i32 z = z.
Proof. unfold i32, is_i32. intros. rewrite Z.mod_small; lia. Qed.
Lemma u64_range z : is_u64 (u64 z).
Proof. unfold u64, is_u64. apply Z.mod_pos_bound. lia. Qed.
Lemma u32_range z : is_u32 (u32 z).
Proof. unfold u32, is_u32. apply Z.mod_pos_bound. lia. Qed.
Lemma u8_range z : is_u8 (u8 z).
Proof. unfold u8, is_u8. apply Z.mod_pos_bound. lia. Qed.
Lemma i32_range z : is_i32 (i32 z).
Proof. unfold i32, is_i32. pose proof (Z.mod_pos_bound (z + 2 ^ 31) (2 ^ 32)). lia. Qed.
Lemma u8_idem z : u8 (u8 z) = u8 z.
Proof. apply u8_id, u8_range. Qed.
#[export] Hint Resolve u64_range u32_range u8_range i32_range : xv6.
#[export] Hint Rewrite u8_idem : xv6_rw.

(** Masking the low bits and masking them away, as division facts. *)
Lemma land_low_mask a k : 0 <= k -> Z.land a (2 ^ k - 1) = a mod 2 ^ k.
Proof. intros. rewrite <- Z.land_ones by done. rewrite Z.ones_equiv. f_equal. Qed.

Lemma land_high_mask a k :
  0 <= k <= 64 -> is_u64 a -> Z.land a (u64 (Z.lnot (2 ^ k - 1))) = a - a mod 2 ^ k.
Proof.
  intros Hk Ha.
  assert (E : Z.land a (u64 (Z.lnot (2 ^ k - 1))) = Z.ldiff a (Z.ones k)).
  { rewrite Z.ones_equiv. unfold u64. rewrite <- Z.land_ones by lia.
    change (Z.pred (2 ^ k)) with (2 ^ k - 1).
    apply Z.bits_inj'. intros n Hn.
    rewrite !Z.land_spec, Z.ldiff_spec, Z.lnot_spec by lia.
    destruct (decide (n < 64)).
    - rewrite Z.ones_spec_low by lia. by rewrite andb_true_r.
    - assert (Z.testbit a n = false) as ->; [|done].
      unfold is_u64 in Ha. rewrite <- (Z.mod_small a (2 ^ 64)) by lia.
      apply Z.mod_pow2_bits_high. lia. }
  rewrite E, Z.ldiff_ones_r by lia.
  rewrite Z.shiftl_mul_pow2, Z.shiftr_div_pow2 by lia.
  pose proof (Z.div_mod a (2 ^ k)). lia.
Qed.
