(* ===== verification/Machine.v ===== *)
(** * The machine: constants and macros of the kernel headers

    [kernel/param.h], [kernel/memlayout.h], [kernel/fcntl.h] and the paging macros of
    [kernel/riscv.h] as executable definitions, with the arithmetic facts on
    page rounding, page-table entries and page-table indices that the memory
    components use. *)
From S2P Require Import Prelude.

(** ** kernel/param.h *)
Definition NPROC : Z := 64.
Definition NCPU : Z := 8.
Definition NOFILE : Z := 16.
Definition NFILE : Z := 100.
Definition NINODE : Z := 50.
Definition NDEV : Z := 10.
Definition ROOTDEV : Z := 1.
Definition MAXARG : Z := 32.
Definition MAXOPBLOCKS : Z := 10.
Definition LOGBLOCKS : Z := MAXOPBLOCKS * 3.
Definition NBUF : Z := MAXOPBLOCKS * 3.
Definition FSSIZE : Z := 2000.
Definition MAXPATH : Z := 128.
Definition USERSTACK : Z := 1.

(** ** kernel/riscv.h: paging *)
Definition PGSIZE : Z := 4096.
Definition PGSHIFT : Z := 12.
Definition PGROUNDUP (sz : Z) : Z := Z.land (u64 (sz + PGSIZE - 1)) (u64 (Z.lnot (PGSIZE - 1))).
Definition PGROUNDDOWN (a : Z) : Z := Z.land a (u64 (Z.lnot (PGSIZE - 1))).

Definition PTE_V : Z := Z.shiftl 1 0.
Definition PTE_R : Z := Z.shiftl 1 1.
Definition PTE_W : Z := Z.shiftl 1 2.
Definition PTE_X : Z := Z.shiftl 1 3.
Definition PTE_U : Z := Z.shiftl 1 4.

Definition PA2PTE (pa : Z) : Z := u64 (Z.shiftl (Z.shiftr (u64 pa) 12) 10).
Definition PTE2PA (pte : Z) : Z := u64 (Z.shiftl (Z.shiftr pte 10) 12).
Definition PTE_FLAGS (pte : Z) : Z := Z.land pte 1023.

Definition PXMASK : Z := 511.
Definition PXSHIFT (level : Z) : Z := PGSHIFT + 9 * level.
Definition PX (level va : Z) : Z := Z.land (Z.shiftr (u64 va) (PXSHIFT level)) PXMASK.

Definition MAXVA : Z := Z.shiftl 1 (9 + 9 + 9 + 12 - 1).
Definition SATP_SV39 : Z := Z.shiftl 8 60.
Definition MAKE_SATP (pagetable : Z) : Z := Z.lor SATP_SV39 (Z.shiftr (u64 pagetable) 12).

(** ** kernel/memlayout.h *)
Definition UART0 : Z := 268435456.
Definition UART0_IRQ : Z := 10.
Definition VIRTIO0 : Z := 268439552.
Definition VIRTIO0_IRQ : Z := 1.
Definition PLIC : Z := 201326592.
Definition KERNBASE : Z := 2147483648.
Definition PHYSTOP : Z := KERNBASE + 128 * 1024 * 1024.
Definition TRAMPOLINE : Z := MAXVA - PGSIZE.
Definition KSTACK (p : Z) : Z := TRAMPOLINE - (p + 1) * 2 * PGSIZE.
Definition TRAPFRAME : Z := TRAMPOLINE - PGSIZE.

(** ** kernel/fcntl.h *)
Definition O_RDONLY : Z := 0.
Definition O_WRONLY : Z := 1.
Definition O_RDWR : Z := 2.
Definition O_CREATE : Z := 512.
Definition O_TRUNC : Z := 1024.

(** ** Symbols the linker script defines

    [end], [etext] and [trampoline] are addresses fixed by [kernel/kernel.ld]
    and [trampoline.S]; the model takes them as a structure, and
    [KernelImageOk] states how the linker script places them. *)
Class KernelImage : Type := {
  kend : Z;          (* end[]: first address after the kernel *)
  etext : Z;         (* end of kernel text *)
  trampoline : Z     (* trampoline.S, one page of kernel text *)
}.

Class KernelImageOk `{KernelImage} : Prop := {
  kend_lo : KERNBASE <= kend;
  kend_hi : kend <= PHYSTOP;
  tramp_lo : KERNBASE <= trampoline;
  tramp_hi : trampoline + PGSIZE <= kend;
  tramp_aligned : trampoline mod PGSIZE = 0
}.

(** [munfold] exposes the numeric constants to [lia]. *)
Ltac munfold := unfold TRAPFRAME, TRAMPOLINE, KSTACK, PHYSTOP, KERNBASE, MAXVA,
  PTE_V, PTE_R, PTE_W, PTE_X, PTE_U, PGSIZE, PGSHIFT, is_u64, is_u32, is_i32, is_u8 in *;
  change (Z.shiftl 1 (9 + 9 + 9 + 12 - 1)) with 274877906944 in *;
  change (Z.shiftl 1 0) with 1 in *; change (Z.shiftl 1 1) with 2 in *;
  change (Z.shiftl 1 2) with 4 in *; change (Z.shiftl 1 3) with 8 in *;
  change (Z.shiftl 1 4) with 16 in *.
Ltac mlia := munfold; lia.

#[global] Arguments PX : simpl never.
#[global] Arguments PTE2PA : simpl never.
#[global] Arguments PA2PTE : simpl never.
#[global] Arguments PTE_FLAGS : simpl never.
#[global] Arguments PGROUNDUP : simpl never.
#[global] Arguments PGROUNDDOWN : simpl never.

Definition page_aligned (a : Z) : Prop := a mod PGSIZE = 0.

(** ** Page rounding *)

Lemma PGROUNDDOWN_spec a : is_u64 a -> PGROUNDDOWN a = a - a mod PGSIZE.
Proof. intros. apply (land_high_mask a 12); [lia | done]. Qed.

Lemma PGROUNDUP_spec sz :
  0 <= sz -> sz + PGSIZE - 1 < 2 ^ 64 ->
  PGROUNDUP sz = (sz + PGSIZE - 1) - (sz + PGSIZE - 1) mod PGSIZE.
Proof.
  intros. unfold PGROUNDUP. rewrite u64_id by mlia.
  apply (land_high_mask (sz + PGSIZE - 1) 12); mlia.
Qed.

Lemma PGROUNDDOWN_bounds a :
  is_u64 a -> PGROUNDDOWN a <= a < PGROUNDDOWN a + PGSIZE /\ page_aligned (PGROUNDDOWN a)
              /\ 0 <= PGROUNDDOWN a.
Proof.
  intros Ha. rewrite PGROUNDDOWN_spec by done. unfold page_aligned.
  pose proof (Z.mod_pos_bound a PGSIZE eq_refl).
  rewrite Zminus_mod_idemp_r, Z.sub_diag, Z.mod_0_l by mlia.
  pose proof (Z.mod_le a PGSIZE). munfold. lia.
Qed.

Lemma PGROUNDUP_bounds sz :
  0 <= sz -> sz + PGSIZE - 1 < 2 ^ 64 ->
  sz <= PGROUNDUP sz < sz + PGSIZE /\ page_aligned (PGROUNDUP sz).
Proof.
  intros. rewrite PGROUNDUP_spec by done. unfold page_aligned.
  pose proof (Z.mod_pos_bound (sz + PGSIZE - 1) PGSIZE eq_refl).
  rewrite Zminus_mod_idemp_r, Z.sub_diag, Z.mod_0_l by mlia. mlia.
Qed.

Lemma PGROUNDUP_aligned sz :
  0 <= sz -> sz + PGSIZE - 1 < 2 ^ 64 -> page_aligned sz -> PGROUNDUP sz = sz.
Proof.
  intros. rewrite PGROUNDUP_spec by done. unfold page_aligned, PGSIZE in *.
  pose proof (Z.div_mod sz 4096). pose proof (Z.div_mod (sz + 4096 - 1) 4096).
  pose proof (Z.mod_pos_bound (sz + 4096 - 1) 4096 eq_refl). lia.
Qed.

Lemma PGROUNDDOWN_aligned a : is_u64 a -> page_aligned a -> PGROUNDDOWN a = a.
Proof. intros. rewrite PGROUNDDOWN_spec by done. unfold page_aligned in *. lia. Qed.

Lemma page_aligned_add a b : page_aligned a -> page_aligned b -> page_aligned (a + b).
Proof. unfold page_aligned. intros. by rewrite Z.add_mod, H, H0 by mlia. Qed.

Lemma page_aligned_dist a b :
  page_aligned a -> page_aligned b -> a <> b -> a + PGSIZE <= b \/ b + PGSIZE <= a.
Proof.
  unfold page_aligned, PGSIZE. intros.
  pose proof (Z.div_mod a 4096). pose proof (Z.div_mod b 4096). lia.
Qed.

(** ** Page-table entries *)

Lemma lor_low_add a b k : 0 <= k -> 0 <= b < 2 ^ k -> Z.lor (a * 2 ^ k) b = a * 2 ^ k + b.
Proof.
  intros. assert (Z.land (a * 2 ^ k) b = 0) as Hl.
  { apply Z.bits_inj'. intros n Hn. rewrite Z.land_spec, Z.bits_0.
    destruct (decide (n < k)).
    - rewrite Z.mul_pow2_bits_low by lia. done.
    - rewrite <- (Z.mod_small b (2 ^ k)) by lia.
      rewrite Z.mod_pow2_bits_high by lia. by rewrite andb_false_r. }
  rewrite <- Z.lxor_lor by done. symmetry. by apply Z.add_nocarry_lxor.
Qed.

Definition is_pa (pa : Z) : Prop := 0 <= pa < 2 ^ 56 /\ page_aligned pa.
Definition is_perm (perm : Z) : Prop := 0 <= perm < 2 ^ 10.

Lemma PA2PTE_spec pa : is_pa pa -> PA2PTE pa = pa / 2 ^ 12 * 2 ^ 10.
Proof.
  intros [Hr _]. unfold PA2PTE. rewrite (u64_id pa) by mlia.
  rewrite Z.shiftl_mul_pow2, Z.shiftr_div_pow2 by lia. apply u64_id.
  assert (0 <= pa / 2 ^ 12 < 2 ^ 44).
  { split; [apply Z.div_pos; lia | apply Z.div_lt_upper_bound; lia]. }
  mlia.
Qed.

Lemma lor_perm_range perm : is_perm perm -> 0 <= Z.lor perm PTE_V < 2 ^ 10.
Proof.
  unfold is_perm. intros. split.
  - apply Z.lor_nonneg. mlia.
  - destruct (decide (Z.lor perm PTE_V = 0)) as [->|]; [lia|].
    apply Z.log2_lt_pow2; [pose proof (Z.lor_nonneg perm PTE_V); mlia|].
    rewrite Z.log2_lor by mlia. apply Z.max_lub_lt; [|change (Z.log2 PTE_V) with 0; lia].
    destruct (decide (perm = 0)) as [->|]; [done|]. apply Z.log2_lt_pow2; lia.
Qed.

(** The entry [mappages] stores: address bits and flag bits do not overlap. *)
Definition mkpte (pa perm : Z) : Z := Z.lor (Z.lor (PA2PTE pa) perm) PTE_V.

Lemma mkpte_spec pa perm :
  is_pa pa -> is_perm perm -> mkpte pa perm = pa / 2 ^ 12 * 2 ^ 10 + Z.lor perm PTE_V.
Proof.
  intros Hpa Hp. unfold mkpte. rewrite <- Z.lor_assoc, PA2PTE_spec by done.
  apply lor_low_add; [lia | by apply lor_perm_range].
Qed.

Lemma mkpte_u64 pa perm : is_pa pa -> is_perm perm -> is_u64 (mkpte pa perm).
Proof.
  intros Hpa Hp. rewrite mkpte_spec by done. destruct Hpa as [Hr _].
  pose proof (lor_perm_range _ Hp).
  assert (0 <= pa / 2 ^ 12 < 2 ^ 44).
  { split; [apply Z.div_pos; lia | apply Z.div_lt_upper_bound; lia]. }
  mlia.
Qed.

Lemma PTE2PA_mkpte pa perm : is_pa pa -> is_perm perm -> PTE2PA (mkpte pa perm) = pa.
Proof.
  intros Hpa Hp. pose proof (lor_perm_range _ Hp). rewrite mkpte_spec by done.
  destruct Hpa as [Hr Ha]. unfold PTE2PA.
  rewrite Z.shiftr_div_pow2, Z.shiftl_mul_pow2 by lia.
  rewrite Z.add_comm, Z.div_add by lia.
  rewrite (Z.div_small (Z.lor _ _)), Z.add_0_l by lia.
  unfold page_aligned, PGSIZE in Ha. pose proof (Z.div_mod pa 4096 ltac:(lia)).
  change (2 ^ 12) with 4096. rewrite u64_id; unfold is_u64; lia.
Qed.

Lemma PTE_FLAGS_mkpte pa perm :
  is_pa pa -> is_perm perm -> PTE_FLAGS (mkpte pa perm) = Z.lor perm PTE_V.
Proof.
  intros Hpa Hp. pose proof (lor_perm_range _ Hp). rewrite mkpte_spec by done.
  unfold PTE_FLAGS. change 1023 with (2 ^ 10 - 1). rewrite land_low_mask by lia.
  rewrite Z.add_comm, Z.mod_add by lia. by rewrite Z.mod_small.
Qed.

(** A single flag bit of an entry. *)
Definition pte_has (pte flag : Z) : bool := negb (Z.land pte flag =? 0).
#[global] Arguments pte_has : simpl never.
#[global] Arguments mkpte : simpl never.

Lemma pte_has_mkpte pa perm flag :
  is_pa pa -> is_perm perm -> is_perm flag ->
  pte_has (mkpte pa perm) flag = pte_has (Z.lor perm PTE_V) flag.
Proof.
  intros Hpa Hp Hf. unfold pte_has. f_equal. f_equal.
  rewrite <- PTE_FLAGS_mkpte with (pa := pa) by done. unfold PTE_FLAGS.
  rewrite <- Z.land_assoc. f_equal. rewrite Z.land_comm.
  change 1023 with (2 ^ 10 - 1). rewrite land_low_mask by lia.
  unfold is_perm in Hf. by rewrite Z.mod_small.
Qed.

Lemma pte_has_V_mkpte pa perm : is_pa pa -> is_perm perm -> pte_has (mkpte pa perm) PTE_V = true.
Proof.
  intros. rewrite pte_has_mkpte by (done || (unfold is_perm; mlia)).
  unfold pte_has. rewrite Z.land_lor_distr_l, Z.land_diag.
  apply negb_true_iff, Z.eqb_neq. intros Hc. apply Z.lor_eq_0_iff in Hc. mlia.
Qed.

Lemma pte_has_0 flag : pte_has 0 flag = false.
Proof. reflexivity. Qed.

(** ** Page-table indices *)

Lemma PX_spec level va : 0 <= level -> is_u64 va ->
  PX level va = (va / 2 ^ (12 + 9 * level)) mod 512.
Proof.
  intros. unfold PX, PXSHIFT, PGSHIFT, PXMASK. rewrite u64_id by done.
  rewrite Z.shiftr_div_pow2 by lia. change 511 with (2 ^ 9 - 1). by apply land_low_mask.
Qed.

Lemma PX_range level va : 0 <= PX level va < 512.
Proof.
  unfold PX, PXMASK. change 511 with (2 ^ 9 - 1). rewrite land_low_mask by lia.
  apply Z.mod_pos_bound. lia.
Qed.

(** Two addresses below [MAXVA] with the same three indices are on one page. *)
Lemma PX_inj va va' :
  0 <= va < MAXVA -> 0 <= va' < MAXVA ->
  PX 2 va = PX 2 va' -> PX 1 va = PX 1 va' -> PX 0 va = PX 0 va' ->
  va / PGSIZE = va' / PGSIZE.
Proof.
  intros Hv Hv'. rewrite !PX_spec by mlia. unfold PGSIZE.
  change (2 ^ (12 + 9 * 2)) with (4096 * 262144).
  change (2 ^ (12 + 9 * 1)) with (4096 * 512). change (2 ^ (12 + 9 * 0)) with 4096.
  rewrite <- !Z.div_div by lia.
  assert (Hb : forall v, 0 <= v < MAXVA -> 0 <= v / 4096 < 2 ^ 26).
  { intros v Hb. munfold. split; [apply Z.div_pos; lia | apply Z.div_lt_upper_bound; lia]. }
  specialize (Hb va Hv) as H1. specialize (Hb va' Hv') as H2. clear Hb Hv Hv'.
  generalize dependent (va / 4096). intros x Hx. generalize dependent (va' / 4096). intros y Hy.
  change 262144 with (512 * 512). rewrite <- !Z.div_div by lia.
  intros E2 E1 E0.
  pose proof (Z.div_mod x 512). pose proof (Z.div_mod y 512).
  pose proof (Z.div_mod (x / 512) 512). pose proof (Z.div_mod (y / 512) 512).
  assert (forall z, 0 <= z < 2 ^ 26 -> (z / 512 / 512) mod 512 = z / 512 / 512) as Hs.
  { intros z Hz. rewrite Z.div_div by lia. apply Z.mod_small. split.
    - apply Z.div_pos; lia. - apply Z.div_lt_upper_bound; lia. }
  rewrite !Hs in E2 by done. lia.
Qed.

(** The pages of one aligned address share all three indices. *)
Lemma PX_page level va : 0 <= level -> is_u64 va -> PX level (PGROUNDDOWN va) = PX level va.
Proof.
  intros Hl Hv. pose proof (PGROUNDDOWN_bounds va Hv) as (Hb & _ & Hp).
  rewrite !PX_spec by mlia. f_equal.
  rewrite PGROUNDDOWN_spec by done.
  assert (Hd : 2 ^ (12 + 9 * level) = PGSIZE * 2 ^ (9 * level)).
  { rewrite Z.pow_add_r by lia. done. }
  rewrite Hd, <- !Z.div_div by (try apply Z.pow_nonzero; mlia). f_equal.
  pose proof (Z.div_mod va PGSIZE ltac:(mlia)).
  replace (va - va mod PGSIZE) with (va / PGSIZE * PGSIZE) by lia.
  by apply Z.div_mul.
Qed.
