(* ===== verification/Memory.v ===== *)
(** * Byte-addressed memory

    The kernel runs with a direct map of physical memory, so every kernel
    pointer dereference is an access to one flat byte array.  [memory] is that
    array; multi-byte accesses are little-endian, as on RISC-V. *)
From S2P Require Import Prelude.

Definition memory : Type := Z -> Z.

Fixpoint load_le (n : nat) (m : memory) (a : Z) : Z :=
  match n with
  | O => 0
  | S n' => u8 (m a) + 256 * load_le n' m (a + 1)
  end.

Definition store_le (n : Z) (m : memory) (a v : Z) : memory := fun x =>
  if (a <=? x) && (x <? a + n) then (v / 256 ^ (x - a)) mod 256 else m x.

Definition load8 (m : memory) (a : Z) : Z := u8 (m a).
Definition load32 : memory -> Z -> Z := load_le 4.
Definition load64 : memory -> Z -> Z := load_le 8.
Definition store8 (m : memory) (a v : Z) : memory := store_le 1 m a v.
Definition store32 (m : memory) (a v : Z) : memory := store_le 4 m a v.
Definition store64 (m : memory) (a v : Z) : memory := store_le 8 m a v.

(** Bulk operations on a range: every byte of the destination at once. *)
Definition fill_range (m : memory) (dst c n : Z) : memory := fun x =>
  if (dst <=? x) && (x <? dst + n) then u8 c else m x.
Definition copy_range (m : memory) (dst src n : Z) : memory := fun x =>
  if (dst <=? x) && (x <? dst + n) then load8 m (src + (x - dst)) else m x.

(** Bytes arriving from outside the array (a kernel local, a disk buffer). *)
Definition put_bytes (m : memory) (dst : Z) (bs : list Z) : memory := fun x =>
  if (dst <=? x) && (x <? dst + Z.of_nat (length bs))
  then u8 (nth (Z.to_nat (x - dst)) bs 0) else m x.
Definition get_bytes (m : memory) (src : Z) (n : nat) : list Z :=
  map (fun i => load8 m (src + Z.of_nat i)) (seq 0 n).

#[global] Arguments load8 : simpl never.
#[global] Arguments load32 : simpl never.
#[global] Arguments load64 : simpl never.
#[global] Arguments store8 : simpl never.
#[global] Arguments store32 : simpl never.
#[global] Arguments store64 : simpl never.
#[global] Arguments fill_range : simpl never.
#[global] Arguments copy_range : simpl never.
#[global] Arguments put_bytes : simpl never.
#[global] Arguments get_bytes : simpl never.

(** [same_on lo hi m m']: the two memories agree on [lo, hi). *)
Definition same_on (lo hi : Z) (m m' : memory) : Prop :=
  forall x, lo <= x < hi -> m' x = m x.

Ltac case_range := repeat match goal with
  | |- context [(?a <=? ?x) && (?x <? ?b)] =>
      let E := fresh "E" in
      destruct ((a <=? x) && (x <? b)) eqn:E;
      [apply andb_prop in E; destruct E | apply andb_false_iff in E];
      repeat match goal with H : (_ <=? _) = true |- _ => apply Z.leb_le in H
             | H : (_ <? _) = true |- _ => apply Z.ltb_lt in H end;
      try (destruct E as [E|E]; [apply Z.leb_gt in E | apply Z.ltb_ge in E])
  end.

Lemma load_le_ext n m m' a :
  (forall x, a <= x < a + Z.of_nat n -> m' x = m x) -> load_le n m' a = load_le n m a.
Proof.
  revert a. induction n as [|n IH]; intros a H; cbn [load_le]; [done|].
  rewrite H by lia. f_equal. f_equal. apply IH. intros. apply H. lia.
Qed.

Lemma load_le_range n m a : 0 <= load_le n m a < 256 ^ Z.of_nat n.
Proof.
  revert a. induction n as [|n IH]; intros a; cbn [load_le]; [lia|].
  pose proof (u8_range (m a)). pose proof (IH (a + 1)). unfold is_u8 in *.
  rewrite Nat2Z.inj_succ, Z.pow_succ_r by lia. lia.
Qed.

Lemma load64_range m a : is_u64 (load64 m a).
Proof. apply (load_le_range 8). Qed.

Lemma store_le_out n m a v x : x < a \/ a + n <= x -> store_le n m a v x = m x.
Proof. unfold store_le. intros. case_range; lia || done. Qed.

Lemma load_le_store_aux k n m a v :
  0 <= v -> (k <= n)%nat ->
  load_le k (store_le (Z.of_nat n) m a v) (a + Z.of_nat (n - k)) =
  (v / 256 ^ Z.of_nat (n - k)) mod 256 ^ Z.of_nat k.
Proof.
  intros Hv. revert n. induction k as [|k IH]; intros n Hk; cbn [load_le].
  { by rewrite Z.mod_1_r. }
  replace (a + Z.of_nat (n - S k) + 1) with (a + Z.of_nat (n - k)) by lia.
  rewrite IH by lia. unfold store_le. case_range; try lia.
  replace (a + Z.of_nat (n - S k) - a) with (Z.of_nat (n - S k)) by lia.
  unfold u8. rewrite Z.mod_mod by lia.
  replace (Z.of_nat (n - k)) with (Z.of_nat (n - S k) + 1) by lia.
  rewrite Z.pow_add_r, <- Z.div_div by lia. change (256 ^ 1) with 256.
  rewrite Nat2Z.inj_succ, Z.pow_succ_r by lia.
  rewrite Z.rem_mul_r by lia. done.
Qed.

Lemma load_le_store_same n m a v :
  0 <= v < 256 ^ Z.of_nat n -> load_le n (store_le (Z.of_nat n) m a v) a = v.
Proof.
  intros. pose proof (load_le_store_aux n n m a v) as E.
  rewrite Nat.sub_diag, Z.add_0_r, Z.pow_0_r, Z.div_1_r in E.
  rewrite E by lia. by apply Z.mod_small.
Qed.

Lemma load64_store64_same m a v : is_u64 v -> load64 (store64 m a v) a = v.
Proof. intros. by apply (load_le_store_same 8). Qed.

Lemma load64_store64_ne m a b v :
  a + 8 <= b \/ b + 8 <= a -> load64 (store64 m a v) b = load64 m b.
Proof. intros. apply load_le_ext. intros. apply store_le_out. lia. Qed.

Lemma store64_out m a v x : x < a \/ a + 8 <= x -> store64 m a v x = m x.
Proof. apply store_le_out. Qed.

Lemma fill_range_out m dst c n x : x < dst \/ dst + n <= x -> fill_range m dst c n x = m x.
Proof. unfold fill_range. intros. case_range; lia || done. Qed.
Lemma fill_range_in m dst c n x : dst <= x < dst + n -> fill_range m dst c n x = u8 c.
Proof. unfold fill_range. intros. case_range; lia || done. Qed.
Lemma copy_range_out m dst src n x : x < dst \/ dst + n <= x -> copy_range m dst src n x = m x.
Proof. unfold copy_range. intros. case_range; lia || done. Qed.
Lemma copy_range_in m dst src n x :
  dst <= x < dst + n -> copy_range m dst src n x = load8 m (src + (x - dst)).
Proof. unfold copy_range. intros. case_range; lia || done. Qed.

Lemma put_bytes_out m dst bs x :
  x < dst \/ dst + Z.of_nat (length bs) <= x -> put_bytes m dst bs x = m x.
Proof. unfold put_bytes. intros. case_range; lia || done. Qed.
Lemma put_bytes_in m dst bs i b :
  bs !! i = Some b -> put_bytes m dst bs (dst + Z.of_nat i) = u8 b.
Proof.
  intros Hi. pose proof (lookup_lt_Some _ _ _ Hi). unfold put_bytes. case_range; try lia.
  replace (dst + Z.of_nat i - dst) with (Z.of_nat i) by lia. rewrite Nat2Z.id.
  f_equal. rewrite nth_lookup, Hi. done.
Qed.

Lemma load64_fill0 m dst n a :
  dst <= a -> a + 8 <= dst + n -> load64 (fill_range m dst 0 n) a = 0.
Proof.
  intros. unfold load64.
  assert (forall k b, dst <= b -> b + Z.of_nat k <= dst + n ->
    load_le k (fill_range m dst 0 n) b = 0) as G; [|apply G; lia].
  induction k as [|k IH]; intros b Hb He; cbn [load_le]; [done|].
  rewrite fill_range_in by lia. rewrite IH by lia. done.
Qed.

Lemma get_bytes_length m src n : length (get_bytes m src n) = n.
Proof. unfold get_bytes. by rewrite length_map, length_seq. Qed.
Lemma get_bytes_lookup m src n i :
  (i < n)%nat -> get_bytes m src n !! i = Some (load8 m (src + Z.of_nat i)).
Proof.
  intros. unfold get_bytes. rewrite list_lookup_fmap, lookup_seq_lt by done. done.
Qed.
Lemma get_bytes_ext m m' src n :
  (forall x, src <= x < src + Z.of_nat n -> m' x = m x) -> get_bytes m' src n = get_bytes m src n.
Proof.
  intros H. unfold get_bytes. apply map_ext_in. intros i Hi. apply in_seq in Hi.
  unfold load8. rewrite H; [done|lia].
Qed.

Lemma store8_same m a v : store8 m a v a = u8 v.
Proof. unfold store8, store_le. case_range; try lia. by rewrite Z.sub_diag, Z.pow_0_r, Z.div_1_r. Qed.
Lemma store8_ne m a v x : x <> a -> store8 m a v x = m x.
Proof. intros. apply store_le_out. lia. Qed.
Lemma load8_range m a : is_u8 (load8 m a).
Proof. apply u8_range. Qed.
Lemma u8_load8 m a : u8 (load8 m a) = load8 m a.
Proof. apply u8_idem. Qed.

#[export] Hint Resolve load64_range load8_range : xv6.
#[export] Hint Rewrite u8_load8 store8_same : xv6_rw.
