(* ===== verification/CString.v ===== *)
(** * kernel/string.c: the kernel's memory and string routines

    Each routine is the C loop over the byte array of [Memory]; the loop
    counter is the routine's length argument, or a bound on the string for
    [strlen].  The theorems relate the loops to the range operations that the
    other components use. *)
From S2P Require Import Prelude Memory.

(** ** memset *)

(** [cdst[i] = c] for the [n] remaining iterations, [i] counting up. *)
Fixpoint memset_loop (n : nat) (m : memory) (cdst c i : Z) : memory :=
  match n with
  | O => m
  | S n' => memset_loop n' (store8 m (cdst + i) (u8 c)) cdst c (i + 1)
  end.
Definition memset (m : memory) (dst c n : Z) : memory := memset_loop (Z.to_nat n) m dst c 0.

(** ** memcmp *)
Fixpoint memcmp_loop (n : nat) (m : memory) (s1 s2 : Z) : Z :=
  match n with
  | O => 0
  | S n' =>
      if negb (load8 m s1 =? load8 m s2) then load8 m s1 - load8 m s2
      else memcmp_loop n' m (s1 + 1) (s2 + 1)
  end.
Definition memcmp (m : memory) (v1 v2 n : Z) : Z := memcmp_loop (Z.to_nat n) m v1 v2.

(** ** memmove: backwards when the ranges overlap with the source first *)
Fixpoint memmove_bwd (n : nat) (m : memory) (d s : Z) : memory :=
  match n with
  | O => m
  | S n' => memmove_bwd n' (store8 m (d - 1) (load8 m (s - 1))) (d - 1) (s - 1)
  end.
Fixpoint memmove_fwd (n : nat) (m : memory) (d s : Z) : memory :=
  match n with
  | O => m
  | S n' => memmove_fwd n' (store8 m d (load8 m s)) (d + 1) (s + 1)
  end.
Definition memmove (m : memory) (dst src n : Z) : memory :=
  if n =? 0 then m
  else if (src <? dst) && (dst <? src + n)
  then memmove_bwd (Z.to_nat n) m (dst + n) (src + n)
  else memmove_fwd (Z.to_nat n) m dst src.
Definition memcpy (m : memory) (dst src n : Z) : memory := memmove m dst src n.

(** ** strncmp, strncpy, safestrcpy, strlen *)
Fixpoint strncmp_loop (n : nat) (m : memory) (p q : Z) : Z :=
  match n with
  | O => 0
  | S n' =>
      if c_true (load8 m p) && (load8 m p =? load8 m q)
      then strncmp_loop n' m (p + 1) (q + 1)
      else load8 m p - load8 m q
  end.
Definition strncmp (m : memory) (p q n : Z) : Z := strncmp_loop (Z.to_nat n) m p q.

(** The second loop of [strncpy]: pad with NUL. *)
Fixpoint strncpy_pad (n : nat) (m : memory) (s : Z) : memory :=
  match n with
  | O => m
  | S n' => strncpy_pad n' (store8 m s 0) (s + 1)
  end.
Fixpoint strncpy_loop (n : nat) (m : memory) (s t : Z) : memory :=
  match n with
  | O => m
  | S n' =>
      let c := load8 m t in
      let m' := store8 m s c in
      if c_true c then strncpy_loop n' m' (s + 1) (t + 1)
      else strncpy_pad n' m' (s + 1)
  end.
Definition strncpy (m : memory) (s t n : Z) : memory := strncpy_loop (Z.to_nat n) m s t.

(** [while(--n > 0 && ( *s++ = *t++) != 0);] and the pointer it leaves. *)
Fixpoint safestrcpy_loop (n : nat) (m : memory) (s t : Z) : memory * Z :=
  match n with
  | O => (m, s)
  | S n' =>
      let c := load8 m t in
      let m' := store8 m s c in
      if c_true c then safestrcpy_loop n' m' (s + 1) (t + 1) else (m', s + 1)
  end.
Definition safestrcpy (m : memory) (s t n : Z) : memory :=
  if n <=? 0 then m
  else let '(m', s') := safestrcpy_loop (Z.to_nat (n - 1)) m s t in store8 m' s' 0.

(** [strlen] with a bound on the iterations; [None] when no NUL was met. *)
Fixpoint strlen_loop (fuel : nat) (m : memory) (s n : Z) : option Z :=
  match fuel with
  | O => None
  | S f => if c_true (load8 m (s + n)) then strlen_loop f m s (n + 1) else Some n
  end.
Definition strlen (fuel : nat) (m : memory) (s : Z) : option Z := strlen_loop fuel m s 0.

(** ** Theorems *)

Lemma memset_loop_spec n m dst c i x :
  memset_loop n m dst c i x =
  if (dst + i <=? x) && (x <? dst + i + Z.of_nat n) then u8 c else m x.
Proof.
  revert m i. induction n as [|n IH]; intros m i; cbn [memset_loop].
  { case_range; done || lia. }
  rewrite IH. destruct (decide (x = dst + i)) as [->|].
  - rewrite store8_same, u8_idem. case_range; done || lia.
  - rewrite store8_ne by done. case_range; done || lia.
Qed.

Lemma memset_fill m dst c n x : memset m dst c n x = fill_range m dst c n x.
Proof.
  unfold memset, fill_range. rewrite memset_loop_spec, Z.add_0_r. case_range; done || lia.
Qed.

(** Forward copying reads each source byte before it is overwritten, as long
    as no earlier write hit it. *)
Lemma memmove_fwd_spec n m d s x :
  ~ (s < d < s + Z.of_nat n) ->
  memmove_fwd n m d s x = copy_range m d s (Z.of_nat n) x.
Proof.
  revert m d s. induction n as [|n IH]; intros m d s Hov; cbn [memmove_fwd].
  { unfold copy_range. case_range; done || lia. }
  rewrite IH by lia. unfold copy_range.
  destruct (decide (x = d)) as [->|].
  - rewrite store8_same, u8_load8. rewrite Z.sub_diag, Z.add_0_r. case_range; done || lia.
  - rewrite store8_ne by done. unfold load8. case_range; try done; try lia.
    rewrite store8_ne by lia. f_equal. f_equal. lia.
Qed.

Lemma memmove_bwd_spec n m d s x :
  s <= d ->
  memmove_bwd n m d s x = copy_range m (d - Z.of_nat n) (s - Z.of_nat n) (Z.of_nat n) x.
Proof.
  revert m d s. induction n as [|n IH]; intros m d s Hov; cbn [memmove_bwd].
  { unfold copy_range. case_range; done || lia. }
  rewrite IH by lia. unfold copy_range.
  destruct (decide (x = d - 1)) as [->|].
  - rewrite store8_same, u8_load8.
    replace (s - Z.of_nat (S n) + (d - 1 - (d - Z.of_nat (S n)))) with (s - 1) by lia.
    case_range; done || lia.
  - rewrite store8_ne by done. unfold load8.
    destruct (decide (s = d)) as [->|].
    + replace (d - 1 - Z.of_nat n + (x - (d - 1 - Z.of_nat n))) with x by lia.
      replace (d - Z.of_nat (S n) + (x - (d - Z.of_nat (S n)))) with x by lia.
      rewrite store8_ne by done. case_range; done || lia.
    + case_range; try done; try lia.
      rewrite store8_ne by lia. f_equal. f_equal. lia.
Qed.

Lemma memmove_copy_aux m dst src n x :
  0 <= n -> memmove m dst src n x = copy_range m dst src n x.
Proof.
  intros Hn. unfold memmove. destruct (n =? 0) eqn:E0; breflect.
  { subst. unfold copy_range. case_range; done || lia. }
  destruct ((src <? dst) && (dst <? src + n)) eqn:E; breflect.
  - rewrite memmove_bwd_spec by lia. rewrite Z2Nat.id by lia. f_equal; lia.
  - rewrite memmove_fwd_spec.
    + rewrite Z2Nat.id by lia. done.
    + apply andb_false_iff in E as [?|?]; breflect; lia.
Qed.

Lemma memcmp_loop_zero n m a b :
  memcmp_loop n m a b = 0 <-> get_bytes m a n = get_bytes m b n.
Proof.
  revert a b. induction n as [|n IH]; intros a b; cbn [memcmp_loop]; [done|].
  assert (G : forall c, get_bytes m c (S n) = load8 m c :: get_bytes m (c + 1) n).
  { intros c. unfold get_bytes. cbn [seq map]. rewrite Z.add_0_r. f_equal.
    rewrite <- seq_shift, map_map. apply map_ext. intros i. f_equal. lia. }
  rewrite !G. destruct (load8 m a =? load8 m b) eqn:E; cbn [negb]; breflect.
  - rewrite IH, E. split; [by intros -> | intros H; by injection H].
  - split; [lia | intros H; by injection H].
Qed.

Lemma strncpy_pad_spec n m s x :
  strncpy_pad n m s x = if (s <=? x) && (x <? s + Z.of_nat n) then 0 else m x.
Proof.
  revert m s. induction n as [|n IH]; intros m s; cbn [strncpy_pad].
  { case_range; done || lia. }
  rewrite IH. destruct (decide (x = s)) as [->|].
  - rewrite store8_same. case_range; done || lia.
  - rewrite store8_ne by done. case_range; done || lia.
Qed.

(** The loop of [safestrcpy] stops within its bound, after copying a prefix of
    the source; every byte before the last one copied is not NUL. *)
Lemma safestrcpy_loop_spec n m s t m' s' :
  (forall i, 0 <= i <= Z.of_nat n -> t + i < s \/ s + Z.of_nat n < t + i) ->
  safestrcpy_loop n m s t = (m', s') ->
  s <= s' <= s + Z.of_nat n /\
  (forall i, 0 <= i < s' - s -> m' (s + i) = load8 m (t + i)) /\
  (forall x, x < s \/ s' <= x -> m' x = m x) /\
  (forall i, 0 <= i < s' - s - 1 -> load8 m (t + i) <> 0) /\
  (s' < s + Z.of_nat n -> s < s' /\ load8 m (t + (s' - s - 1)) = 0).
Proof.
  revert m s t. induction n as [|n IH]; intros m s t Hd; cbn [safestrcpy_loop].
  { intros [= <- <-]. repeat split; intros; lia || done. }
  unfold c_true. destruct (load8 m t =? 0) eqn:E; cbn [negb]; breflect.
  { intros [= <- <-]. repeat split; intros; try lia.
    - replace i with 0 by lia. rewrite !Z.add_0_r. rewrite store8_same. apply u8_load8.
    - apply store8_ne. lia.
    - by replace (t + (s + 1 - s - 1)) with t by lia. }
  intros Hl. apply IH in Hl as (Hb & Hc & Ho & Hnz & Hz).
  2:{ intros i Hi. specialize (Hd (i + 1)). lia. }
  assert (Hsrc : forall i, 0 <= i <= Z.of_nat n ->
    load8 (store8 m s (load8 m t)) (t + 1 + i) = load8 m (t + (i + 1))).
  { intros i Hi. unfold load8. rewrite store8_ne; [f_equal; f_equal; lia|].
    specialize (Hd (i + 1)). lia. }
  repeat split; intros; try lia.
  - destruct (decide (i = 0)) as [->|].
    + rewrite Ho by lia. rewrite !Z.add_0_r, store8_same. apply u8_load8.
    + replace (s + i) with (s + 1 + (i - 1)) by lia. rewrite Hc by lia.
      rewrite Hsrc by lia. f_equal. lia.
  - rewrite Ho by lia. apply store8_ne. lia.
  - destruct (decide (i = 0)) as [->|]; [by rewrite Z.add_0_r|].
    replace (t + i) with (t + (i - 1 + 1)) by lia. rewrite <- Hsrc by lia. apply Hnz. lia.
  - specialize (Hz ltac:(lia)) as [? Hz].
    rewrite Hsrc in Hz by lia. rewrite <- Hz. f_equal. lia.
Qed.

Lemma strlen_loop_spec k fuel m s n :
  (k < fuel)%nat ->
  (forall i, 0 <= i < Z.of_nat k -> load8 m (s + n + i) <> 0) ->
  load8 m (s + n + Z.of_nat k) = 0 ->
  strlen_loop fuel m s n = Some (n + Z.of_nat k).
Proof.
  revert k n. induction fuel as [|f IH]; intros k n Hk Hnz Hz; [lia|].
  cbn [strlen_loop]. unfold c_true. destruct k as [|k].
  - rewrite Z.add_0_r in Hz. rewrite Hz, Z.eqb_refl. cbn. by rewrite Z.add_0_r.
  - pose proof (Hnz 0) as H0. rewrite Z.add_0_r in H0.
    rewrite (proj2 (Z.eqb_neq _ _)) by (apply H0; lia). cbn [negb].
    rewrite (IH k (n + 1)); [f_equal; lia | lia | |].
    + intros i Hi. replace (s + (n + 1) + i) with (s + n + (i + 1)) by lia. apply Hnz. lia.
    + rewrite <- Hz. f_equal. lia.
Qed.

(** [memmove] copies the source range as it was before the call, for every
    overlap of the two ranges, and writes nothing outside the destination. *)
Theorem memmove_correct (m : memory) (dst src n x : Z) (Hn : 0 <= n) :
  memmove m dst src n x =
  if (dst <=? x) && (x <? dst + n) then load8 m (src + (x - dst)) else m x.
Proof. by apply memmove_copy_aux. Qed.

Lemma memmove_correct_witness :
  memmove (fun a => u8 a) 101 100 3 103 = 102.
Proof. rewrite (memmove_correct (fun a => u8 a) 101 100 3 103 ltac:(lia)). reflexivity. Defined.

(** C35: [safestrcpy] with room for [n > 0] bytes that do not overlap the [n] bytes
    from the source on always leaves a NUL-terminated prefix of the source: some [k < n] bytes, none of them NUL, are copied and
    byte [k] is NUL; the prefix is cut short only by the end of the source or of
    the room; nothing outside the [n] bytes is written. *)
Theorem safestrcpy_terminates_string (m : memory) (s t n : Z)
    (Hn : 0 < n) (Hd : t + n <= s \/ s + n <= t) :
  let m' := safestrcpy m s t n in
  exists k, 0 <= k < n /\ m' (s + k) = 0 /\
    (forall i, 0 <= i < k -> m' (s + i) = load8 m (t + i) /\ load8 m (t + i) <> 0) /\
    (k < n - 1 -> load8 m (t + k) = 0) /\
    (forall x, x < s \/ s + n <= x -> m' x = m x).
Proof.
  unfold safestrcpy. rewrite (proj2 (Z.leb_gt n 0)) by lia.
  destruct (safestrcpy_loop _ m s t) as [m1 s1] eqn:E. cbn beta zeta.
  apply safestrcpy_loop_spec in E as (Hb & Hc & Ho & Hnz & Hz); [|lia].
  rewrite Z2Nat.id in * by lia.
  destruct (decide (s1 < s + (n - 1))) as [Hlt|Hge].
  - destruct (Hz Hlt) as [Hpos Hnul]. exists (s1 - s - 1). split_and!; try lia.
    + rewrite store8_ne by lia. rewrite Hc by lia. done.
    + intros i Hi. rewrite store8_ne by lia. split; [apply Hc | apply Hnz]; lia.
    + intros x Hx. rewrite store8_ne by lia. apply Ho. lia.
  - assert (s1 = s + (n - 1)) as -> by lia.
    destruct (decide (load8 m (t + (n - 2)) = 0 /\ 1 < n)) as [[Hl0 Hn2]|Hl].
    + exists (n - 2). split_and!; try lia.
      * rewrite store8_ne by lia. rewrite Hc by lia. done.
      * intros i Hi. rewrite store8_ne by lia. split; [apply Hc | apply Hnz]; lia.
      * intros x Hx. rewrite store8_ne by lia. apply Ho. lia.
    + exists (n - 1). split_and!; try lia.
      * rewrite store8_same. done.
      * intros i Hi. rewrite store8_ne by lia. split; [apply Hc; lia|].
        destruct (decide (i = n - 2)) as [->|]; [|apply Hnz; lia].
        intros H0. apply Hl. lia.
      * intros x Hx. rewrite store8_ne by lia. apply Ho. lia.
Qed.

Lemma safestrcpy_terminates_string_witness :
  exists k, 0 <= k < 4 /\ safestrcpy (fun a => if a <? 16 then 65 else 0) 100 0 4 (100 + k) = 0.
Proof.
  destruct (safestrcpy_terminates_string (fun a => if a <? 16 then 65 else 0) 100 0 4
              ltac:(lia) ltac:(lia)) as (k & Hk & H0 & _).
  exists k. split; assumption.
Defined.
