(* ===== verification/Ring.v ===== *)
(** * Ring buffers with free-running 32-bit counters

    Pipes and the console keep bytes in an array of [size] cells indexed by
    counters that only grow and wrap around at 2^32; [ring size d start n] is
    the list of the [n] bytes from counter value [start] on. *)
From S2P Require Import Prelude.

Section Ring.
Context (size : Z) (Hsize : 0 < size) (Hdiv : (size | 2 ^ 32)).

Definition ring_at (d : list Z) (k : Z) : Z := nth (Z.to_nat (k mod size)) d 0.
Definition ring (d : list Z) (start : Z) (n : nat) : list Z :=
  map (fun k => ring_at d (start + Z.of_nat k)) (seq 0 n).

Lemma u32_mod_size z : u32 z mod size = z mod size.
Proof. unfold u32. by apply Z.mod_mod_divide. Qed.

Lemma ring_at_u32 d k : ring_at d (u32 k) = ring_at d k.
Proof. unfold ring_at. by rewrite u32_mod_size. Qed.

Lemma ring_length d s n : length (ring d s n) = n.
Proof. unfold ring. by rewrite length_map, length_seq. Qed.

Lemma ring_S d s n : ring d s (S n) = ring_at d s :: ring d (s + 1) n.
Proof.
  unfold ring. cbn [seq map]. rewrite Z.add_0_r. f_equal. rewrite <- seq_shift, map_map.
  apply map_ext. intros k. f_equal. lia.
Qed.

Lemma ring_app d s n m : ring d s (n + m) = ring d s n ++ ring d (s + Z.of_nat n) m.
Proof.
  revert s. induction n as [|n IH]; intros s; [by rewrite Z.add_0_r|].
  cbn [Nat.add]. rewrite !ring_S, IH. cbn [app]. do 3 f_equal. lia.
Qed.

Lemma ring_u32 d s n : ring d (u32 s) n = ring d s n.
Proof.
  unfold ring. apply map_ext. intros k. unfold ring_at.
  by rewrite <- Z.add_mod_idemp_l, u32_mod_size, Z.add_mod_idemp_l by lia.
Qed.

Lemma ring_mod_inj a i j : 0 <= i < size -> 0 <= j < size ->
  (a + i) mod size = (a + j) mod size -> i = j.
Proof.
  intros Hi Hj E. assert ((i - j) mod size = 0) as H.
  { replace (i - j) with ((a + i) - (a + j)) by lia. rewrite Zminus_mod, E, Z.sub_diag. apply Z.mod_0_l. lia. }
  pose proof (proj1 (Z.mod_divide (i - j) size ltac:(lia)) H) as [q Hq]. destruct (Z.lt_trichotomy q 0) as [?|[->|?]]; [|lia|]; exfalso; clear E H; nia.
Qed.

Lemma ring_index a : (Z.to_nat (a mod size) < Z.to_nat size)%nat.
Proof. pose proof (Z.mod_pos_bound a size Hsize). lia. Qed.

Lemma ring_at_insert d k ch :
  length d = Z.to_nat size -> ring_at (<[Z.to_nat (k mod size) := ch]> d) k = ch.
Proof.
  intros Hl. unfold ring_at. rewrite nth_lookup, list_lookup_insert_eq; [done|]. rewrite Hl. apply ring_index.
Qed.

(** Storing at the end does not touch what is there. *)
Lemma ring_insert_end d s n ch :
  Z.of_nat n < size -> ring (<[Z.to_nat ((s + Z.of_nat n) mod size) := ch]> d) s n = ring d s n.
Proof.
  intros Hn. unfold ring. apply map_ext_in. intros k Hk%in_seq. unfold ring_at.
  rewrite !nth_lookup, list_lookup_insert_ne; [done|]. intros E.
  apply Z2Nat.inj in E; try (apply Z.mod_pos_bound; lia). apply ring_mod_inj in E; lia.
Qed.

Lemma ring_push d s n ch :
  length d = Z.to_nat size -> Z.of_nat n < size ->
  ring (<[Z.to_nat ((s + Z.of_nat n) mod size) := ch]> d) s (n + 1) = ring d s n ++ [ch].
Proof.
  intros Hl Hn. rewrite ring_app, ring_insert_end by done. f_equal. rewrite ring_S. by rewrite ring_at_insert.
Qed.

Lemma ring_snoc d s n : ring d s (n + 1) = ring d s n ++ [ring_at d (s + Z.of_nat n)].
Proof. by rewrite ring_app, ring_S. Qed.

Lemma ring_at_byte d k : length d = Z.to_nat size -> Forall is_u8 d -> is_u8 (ring_at d k).
Proof.
  intros Hl HF. unfold ring_at. rewrite nth_lookup. destruct (d !! _) eqn:E; cbn.
  - rewrite Forall_lookup in HF. by eapply HF.
  - apply lookup_ge_None in E. pose proof (ring_index k). lia.
Qed.
End Ring.
