(* ===== verification/Printf.v ===== *)
(** * Formatted output: kernel/printf.c and user/printf.c

    Both programs carry their own copy of the same routines; the definitions
    below are parametrised by the digit table and by the routine that emits one
    character, and instantiated for each.  A store outside the 20-byte buffer of
    [printint], or an argument of the wrong kind, is [None]. *)
From S2P Require Import Prelude Machine Memory.

(** ASCII codes used by the format loops. *)
Definition bytes_of (s : string) : list Z :=
  map (fun a => Z.of_N (Ascii.N_of_ascii a)) (String.list_ascii_of_string s).
Definition ch (s : string) : Z := hd 0 (bytes_of s).

(** The arguments after the format: register values and strings. *)
Inductive arg : Type := VInt (z : Z) | VStr (s : option (list Z)).

Section Printf.
Context (digits : list Z) (putc : Z -> list Z).

(** ** printint *)

(** [buf[i++] = c], [buf] holding the [i] bytes stored so far. *)
Definition put20 (buf : list Z) (c : Z) : option (list Z) :=
  if Z.of_nat (length buf) <? 20 then Some (buf ++ [c]) else None.

(** [do { buf[i++] = digits[x % base]; } while((x /= base) != 0);] *)
Fixpoint printint_digits (fuel : nat) (x base : Z) (buf : list Z) : option (list Z) :=
  match fuel with
  | O => None
  | S f =>
      match put20 buf (nth (Z.to_nat (x mod base)) digits 0) with
      | None => None
      | Some buf' => if x / base =? 0 then Some buf' else printint_digits f (x / base) base buf'
      end
  end.

Definition printint (xx base sign : Z) : option (list Z) :=
  let neg := c_true sign && (xx <? 0) in
  let x := if neg then u64 (- xx) else u64 xx in
  match printint_digits 64 x base [] with
  | None => None
  | Some buf =>
      match (if neg then put20 buf (ch "-") else Some buf) with
      | None => None
      | Some buf' => Some (concat (map putc (rev buf')))
      end
  end.

(** ** printptr *)

Fixpoint printptr_loop (n : nat) (x : Z) : list Z :=
  match n with
  | O => []
  | S n' => putc (nth (Z.to_nat (Z.shiftr x 60)) digits 0) ++ printptr_loop n' (u64 (Z.shiftl x 4))
  end.
Definition printptr (x : Z) : list Z := putc (ch "0") ++ putc (ch "x") ++ printptr_loop 16 x.

(** ** One conversion *)

(** The conversion after a percent sign: the first character [c0] and the two
    after it, 0 beyond the end.  The result is the text, the number of further
    characters it used and the arguments left. *)
Definition conv_int (f : Z -> Z) (base sign : Z) (used : nat) (args : list arg)
    : option (list Z * nat * list arg) :=
  match args with
  | VInt z :: args' => match printint (f z) base sign with Some o => Some (o, used, args') | None => None end
  | _ => None
  end.
Definition is_c (c : Z) (a : string) : bool := c =? ch a.
Definition conversion (c0 c1 c2 : Z) (args : list arg) : option (list Z * nat * list arg) :=
  if is_c c0 "d" then conv_int i32 10 1 0 args
  else if is_c c0 "l" && is_c c1 "d" then conv_int i64 10 1 1 args
  else if is_c c0 "l" && is_c c1 "l" && is_c c2 "d" then conv_int i64 10 1 2 args
  else if is_c c0 "u" then conv_int u32 10 0 0 args
  else if is_c c0 "l" && is_c c1 "u" then conv_int i64 10 0 1 args
  else if is_c c0 "l" && is_c c1 "l" && is_c c2 "u" then conv_int i64 10 0 2 args
  else if is_c c0 "x" then conv_int u32 16 0 0 args
  else if is_c c0 "l" && is_c c1 "x" then conv_int i64 16 0 1 args
  else if is_c c0 "l" && is_c c1 "l" && is_c c2 "x" then conv_int i64 16 0 2 args
  else if is_c c0 "p" then
    match args with VInt z :: args' => Some (printptr (u64 z), 0%nat, args') | _ => None end
  else if is_c c0 "c" then
    match args with VInt z :: args' => Some (putc (u32 z), 0%nat, args') | _ => None end
  else if is_c c0 "s" then
    match args with
    | VStr s :: args' =>
        Some (concat (map putc (default (bytes_of "(null)") s)), 0%nat, args')
    | _ => None
    end
  else if is_c c0 "%" then Some (putc (ch "%"), 0%nat, args)
  else Some (putc (ch "%") ++ putc c0, 0%nat, args).

(** ** The kernel's loop: an index into the format *)

Fixpoint kprintf_loop (fuel : nat) (fmt : list Z) (i : nat) (args : list arg) : option (list Z) :=
  match fuel with
  | O => None
  | S f =>
      let at_ k := nth k fmt 0 in
      let cx := at_ i in
      if cx =? 0 then Some []
      else if negb (is_c cx "%") then
        match kprintf_loop f fmt (i + 1) args with Some o => Some (putc cx ++ o) | None => None end
      else
        let i := (i + 1)%nat in
        let c0 := at_ i in
        let c1 := if c_true c0 then at_ (i + 1)%nat else 0 in
        let c2 := if c_true c1 then at_ (i + 2)%nat else 0 in
        if c0 =? 0 then Some []
        else
          match conversion c0 c1 c2 args with
          | None => None
          | Some (o, used, args') =>
              match kprintf_loop f fmt (i + used + 1) args' with
              | Some o' => Some (o ++ o')
              | None => None
              end
          end
  end.
Definition kprintf (fmt : list Z) (args : list arg) : option (list Z) :=
  kprintf_loop (S (length fmt)) fmt 0 args.

(** ** The user library's loop: a state, 0 or a percent sign *)

Fixpoint vprintf_loop (fuel : nat) (fmt : list Z) (i : nat) (state : Z) (args : list arg) : option (list Z) :=
  match fuel with
  | O => None
  | S f =>
      let at_ k := nth k fmt 0 in
      let c0 := at_ i in
      if c0 =? 0 then Some []
      else if state =? 0 then
        if is_c c0 "%" then vprintf_loop f fmt (i + 1) (ch "%") args
        else match vprintf_loop f fmt (i + 1) state args with Some o => Some (putc c0 ++ o) | None => None end
      else if state =? ch "%" then
        let c1 := if c_true c0 then at_ (i + 1)%nat else 0 in
        let c2 := if c_true c1 then at_ (i + 2)%nat else 0 in
        match conversion c0 c1 c2 args with
        | None => None
        | Some (o, used, args') =>
            match vprintf_loop f fmt (i + used + 1) 0 args' with
            | Some o' => Some (o ++ o')
            | None => None
            end
        end
      else vprintf_loop f fmt (i + 1) state args
  end.
Definition vprintf (fmt : list Z) (args : list arg) : option (list Z) :=
  vprintf_loop (S (length fmt)) fmt 0 0 args.

End Printf.

(** ** The two instances *)

Definition kernel_digits : list Z := bytes_of "0123456789abcdef".
Definition user_digits : list Z := bytes_of "0123456789ABCDEF".
(** [consputc]: the code 0x100 erases; the UART register is 8 bits wide. *)
Definition consputc_bytes (c : Z) : list Z := if c =? 256 then [8; 32; 8] else [u8 c].
(** [putc]: the argument is a [char]. *)
Definition putc_bytes (c : Z) : list Z := [u8 c].

Definition kernel_printf : list Z -> list arg -> option (list Z) := kprintf kernel_digits consputc_bytes.
Definition user_printf : list Z -> list arg -> option (list Z) := vprintf user_digits putc_bytes.
Definition kernel_printint : Z -> Z -> Z -> option (list Z) := printint kernel_digits consputc_bytes.
Definition user_printint : Z -> Z -> Z -> option (list Z) := printint user_digits putc_bytes.

(** ** Digits *)

(** The number with the given digits, least significant first. *)
Fixpoint eval_le (base : Z) (ds : list Z) : Z :=
  match ds with [] => 0 | d :: ds' => d + base * eval_le base ds' end.

(** No superfluous leading zero. *)
Definition canonical (ds : list Z) : Prop := ds = [0] \/ exists ds' d, ds = ds' ++ [d] /\ d <> 0.

(** The digits [printint] finds for a number, whatever the table. *)
Lemma printint_digits_spec base : 2 <= base -> forall k fuel x,
  0 <= x < base ^ Z.of_nat k -> (1 <= k <= fuel)%nat ->
  exists ds, eval_le base ds = x /\ Forall (fun d => 0 <= d < base) ds /\ (length ds <= k)%nat /\ canonical ds /\
    forall digits buf, (length buf + k <= 20)%nat ->
      printint_digits digits fuel x base buf = Some (buf ++ map (fun d => nth (Z.to_nat d) digits 0) ds).
Proof.
  intros Hb. induction k as [|k IH]; intros fuel x Hx Hk; [lia|].
  destruct fuel as [|fuel]; [lia|]. cbn [printint_digits]. unfold put20.
  pose proof (Z.div_mod x base ltac:(lia)) as Hdm. pose proof (Z.mod_pos_bound x base ltac:(lia)) as Hmb.
  destruct (Z.eqb_spec (x / base) 0) as [E|E].
  - exists [x mod base]. split_and!; [cbn; lia|by constructor|cbn; lia| |].
    + destruct (decide (x mod base = 0)) as [->|Hz]; [by left|right]. by exists [], (x mod base).
    + intros digits buf Hl. by rewrite (proj2 (Z.ltb_lt _ _)) by lia.
  - rewrite Nat2Z.inj_succ, Z.pow_succ_r in Hx by lia.
    assert (Hq : 0 <= x / base < base ^ Z.of_nat k).
    { split; [apply Z.div_pos; lia|]. apply Z.div_lt_upper_bound; lia. }
    destruct k as [|k']; [cbn in Hq; lia|].
    destruct (IH fuel (x / base)) as (ds & H2 & H3 & H4 & H5 & H1); [done|lia|].
    exists (x mod base :: ds). cbn [map eval_le length]. rewrite H2. split_and!; [lia|by constructor|lia| |].
    + right. destruct H5 as [->|(ds' & d & -> & Hd)]; [exfalso; apply E; cbn in H2; lia|]. by exists (x mod base :: ds'), d.
    + intros digits buf Hl. rewrite (proj2 (Z.ltb_lt _ _)) by lia. rewrite H1 by (rewrite length_app; cbn; lia). by rewrite <- app_assoc.
Qed.

(** [printint] with a base the callers use: it stays inside its buffer and
    prints the digits of the number, most significant first. *)
Lemma printint_same xx base sign :
  base = 10 \/ base = 16 -> (- 2 ^ 63 <= xx < 2 ^ 63) \/ (sign = 0 /\ 0 <= xx < 2 ^ 64) ->
  let neg := c_true sign && (xx <? 0) in
  exists ds, eval_le base ds = (if neg then - xx else u64 xx) /\ Forall (fun d => 0 <= d < base) ds /\ canonical ds /\
    forall digits putc, printint digits putc xx base sign =
      Some (concat (map putc ((if neg then [ch "-"] else []) ++ map (fun d => nth (Z.to_nat d) digits 0) (rev ds)))).
Proof.
  intros Hb Hx neg. unfold printint. fold neg.
  set (x := if neg then u64 (- xx) else u64 xx).
  assert (Hxr : 0 <= x < 10 ^ 20 /\ 0 <= x < 16 ^ 16 /\ (neg = true -> x = - xx /\ x < 10 ^ 19 /\ x < 16 ^ 16)).
  { unfold x, neg. destruct (c_true sign && (xx <? 0)) eqn:En.
    - apply andb_true_iff in En as [En H]. apply Z.ltb_lt in H.
      assert (- 2 ^ 63 <= xx) by (destruct Hx as [|[-> ?]]; [lia|done]).
      rewrite u64_id by (unfold is_u64; lia). lia.
    - pose proof (u64_range xx). unfold is_u64 in *. lia. }
  set (k := if base =? 16 then 16%nat else if neg then 19%nat else 20%nat).
  assert (Hk : 0 <= x < base ^ Z.of_nat k /\ (1 <= k <= 20)%nat /\ (neg = true -> (k <= 19)%nat)).
  { unfold k. destruct Hb as [-> | ->]; cbn [Z.eqb Pos.eqb]; destruct neg; cbn; lia. }
  destruct (printint_digits_spec base ltac:(lia) k 64 x) as (ds & H2 & H3 & H4 & H5 & H1); [lia|lia|].
  exists ds. split_and!; try done.
  - rewrite H2. unfold x. destruct neg eqn:En; [|done]. destruct Hxr as (_ & _ & Hxr).
    destruct (Hxr eq_refl) as [Hxr1 _]. unfold x in Hxr1. done.
  - intros digits putc. rewrite H1 by (cbn; lia). cbn [app]. destruct neg; cbn [app].
    + unfold put20. rewrite (proj2 (Z.ltb_lt _ _)) by (rewrite length_map; lia).
      rewrite rev_app_distr, map_rev. done.
    + by rewrite <- map_rev.
Qed.

Section Digits.
Context (digits : list Z) (putc : Z -> list Z).

Lemma printint_ok xx base sign :
  base = 10 \/ base = 16 -> (- 2 ^ 63 <= xx < 2 ^ 63) \/ (sign = 0 /\ 0 <= xx < 2 ^ 64) ->
  let neg := c_true sign && (xx <? 0) in
  exists ds, printint digits putc xx base sign =
      Some (concat (map putc ((if neg then [ch "-"] else []) ++ map (fun d => nth (Z.to_nat d) digits 0) (rev ds)))) /\
    eval_le base ds = (if neg then - xx else u64 xx) /\
    Forall (fun d => 0 <= d < base) ds /\ canonical ds.
Proof. intros Hb Hx neg. destruct (printint_same xx base sign Hb Hx) as (ds & H1 & H2 & H3 & H4). exists ds. by rewrite H4. Qed.

(** ** The two loops agree *)

Lemma loops_agree fmt fk fv i args :
  (length fmt - i < fk)%nat -> (length fmt - i < fv)%nat ->
  kprintf_loop digits putc fk fmt i args = vprintf_loop digits putc fv fmt i 0 args.
Proof.
  revert fv i args. induction fk as [|fk IH]; intros fv i args Hk Hv; [lia|]. destruct fv as [|fv]; [lia|].
  cbn [kprintf_loop vprintf_loop]. destruct (Z.eqb_spec (nth i fmt 0) 0) as [E|E]; [done|].
  assert (Hi : (i < length fmt)%nat) by (destruct (decide (i < length fmt)%nat); [done|rewrite nth_overflow in E by lia; done]).
  change (0 =? 0) with true. cbv iota. destruct (is_c (nth i fmt 0) "%"); cbn [negb].
  2:{ rewrite (IH fv) by lia. done. }
  destruct (decide (S i < length fmt)%nat) as [Hi2|Hi2].
  2:{ rewrite !(nth_overflow fmt) by lia. destruct fv as [|fv]; [lia|]. cbn. rewrite !(nth_overflow fmt) by lia. done. }
  destruct fv as [|fv]; [lia|]. cbn [vprintf_loop].
  destruct (Z.eqb_spec (nth (i + 1) fmt 0) 0) as [E2|E2]; [done|].
  change (ch "%" =? 0) with false. change (ch "%" =? ch "%") with true. cbv iota.
  assert (Ht : c_true (nth (i + 1) fmt 0) = true) by (unfold c_true; by rewrite (proj2 (Z.eqb_neq _ _) E2)).
  rewrite Ht.   destruct (conversion _ _ _ _ _ _) as [[[o used] args']|]; [|done]. rewrite (IH fv) by lia. done.
Qed.
End Digits.

(** The kernel's and the user library's format loops print the same text for
    every format and every argument list, given the same digit table and output
    routine: the state machine of [vprintf] and the index arithmetic of the
    kernel's [printf] are two implementations of one function. *)
Theorem printf_loops_equivalent (digits : list Z) (putc : Z -> list Z) (fmt : list Z) (args : list arg) :
  kprintf digits putc fmt args = vprintf digits putc fmt args.
Proof. apply loops_agree; lia. Qed.

(** The ASCII code of a digit, those above 9 starting at the letter [a]. *)
Definition numeral (a d : Z) : Z := if d <? 10 then 48 + d else a + (d - 10).

Lemma numeral_kernel d : 0 <= d < 16 -> nth (Z.to_nat d) kernel_digits 0 = numeral 97 d /\ consputc_bytes (numeral 97 d) = [numeral 97 d].
Proof.
  intros Hd. assert (E : exists n, (n < 16)%nat /\ d = Z.of_nat n) by (exists (Z.to_nat d); lia). destruct E as (n & Hn & ->).
  do 16 (destruct n as [|n]; [by vm_compute|]). lia.
Qed.
Lemma numeral_user d : 0 <= d < 16 -> nth (Z.to_nat d) user_digits 0 = numeral 65 d /\ putc_bytes (numeral 65 d) = [numeral 65 d].
Proof.
  intros Hd. assert (E : exists n, (n < 16)%nat /\ d = Z.of_nat n) by (exists (Z.to_nat d); lia). destruct E as (n & Hn & ->).
  do 16 (destruct n as [|n]; [by vm_compute|]). lia.
Qed.
(** The characters of a table, each put out as one byte. *)
Lemma put_numerals digits putc a base ds :
  base <= 16 -> (forall d, 0 <= d < 16 -> nth (Z.to_nat d) digits 0 = numeral a d /\ putc (numeral a d) = [numeral a d]) ->
  Forall (fun d => 0 <= d < base) ds ->
  concat (map putc (map (fun d => nth (Z.to_nat d) digits 0) (rev ds))) = map (numeral a) (rev ds).
Proof.
  intros Hb H Hds. apply Forall_rev in Hds. induction Hds as [|d l Hd _ IH]; [done|]. cbn [map concat].
  destruct (H d) as [-> ->]; [lia|]. cbn [app]. by rewrite IH.
Qed.

(** C36: neither [printint], the kernel's and the user library's, stores outside
    its 20-byte buffer, the sign included, and both put out the number: a minus
    sign for negative signed arguments, then the digits of the magnitude in the
    given base, most significant first and without leading zeros, the ones above 9
    as the letters from "a" on in the kernel and from "A" on in the library.  This
    covers every call in both printfs: any 64-bit argument in base 10, signed or
    not, and in base 16. *)
Theorem printint_prints_number (xx base sign : Z) :
  base = 10 \/ base = 16 -> (- 2 ^ 63 <= xx < 2 ^ 63) \/ (sign = 0 /\ 0 <= xx < 2 ^ 64) ->
  let neg := c_true sign && (xx <? 0) in
  let minus := if neg then [45] else [] in
  exists ds, kernel_printint xx base sign = Some (minus ++ map (numeral 97) (rev ds)) /\
    user_printint xx base sign = Some (minus ++ map (numeral 65) (rev ds)) /\
    eval_le base ds = (if neg then - xx else u64 xx) /\
    Forall (fun d => 0 <= d < base) ds /\ canonical ds.
Proof.
  intros Hb Hx neg minus. assert (H16 : base <= 16) by lia.
  destruct (printint_same xx base sign Hb Hx) as (ds & Ev & Hds & Hc & Hp). exists ds.
  split_and!; [| |done..]; unfold kernel_printint, user_printint; rewrite Hp; fold neg; f_equal; rewrite map_app, concat_app;
    (rewrite (put_numerals _ _ _ base) by (done || apply numeral_kernel || apply numeral_user)); unfold minus; by destruct neg.
Qed.

Lemma printint_prints_number_witness :
  user_printint (- 2 ^ 63) 10 1 = Some (bytes_of "-9223372036854775808") /\
  kernel_printint 3735928559 16 0 = Some (bytes_of "deadbeef") /\
  (exists ds, eval_le 10 ds = 2 ^ 63) /\ exists ds, eval_le 16 ds = 3735928559.
Proof.
  split; [vm_compute; reflexivity|]. split; [vm_compute; reflexivity|]. split.
  - destruct (printint_prints_number (- 2 ^ 63) 10 1) as (ds & _ & _ & H & _); [left; reflexivity|left; lia|].
    exists ds. exact H.
  - destruct (printint_prints_number 3735928559 16 0) as (ds & _ & _ & H & _); [right; reflexivity|right; lia|].
    exists ds. exact H.
Defined.
