(* ===== verification/Spinlock.v ===== *)
(** * Spinlocks and sleeplocks: kernel/spinlock.c and kernel/sleeplock.c

    [Cpu]: the interrupt nesting of one processor, [push_off] and [pop_off].
    [Lock]: [acquire] and [release] as the instructions each processor executes
    on a shared lock, interleaved in any order; the reachable states have at most
    one holder, its interrupts are off and no [panic] is reached.
    [SleepLock]: [acquiresleep] and [releasesleep] by any number of processes;
    at most one owner, and no process sleeps on a free lock. *)
From S2P Require Import Prelude.

(** ** One processor *)

Module Cpu.

(** The fields of [struct cpu] that the locks use, and the processor's
    interrupt-enable bit (sstatus.SIE). *)
Record cpu : Type := Mk { noff : Z; intena : bool; sie : bool }.

Definition intr_get : M cpu bool := gets sie.
Definition intr_off : M cpu unit := modify (fun c => Mk (noff c) (intena c) false).
Definition intr_on : M cpu unit := modify (fun c => Mk (noff c) (intena c) true).

Definition push_off : M cpu unit :=
  let! old := intr_get in
  intr_off ;;
  let! n := gets noff in
  (if n =? 0 then modify (fun c => Mk (noff c) old (sie c)) else ret tt) ;;
  modify (fun c => Mk (i32 (noff c + 1)) (intena c) (sie c)).

Definition pop_off : M cpu unit :=
  let! on := intr_get in
  if (on : bool) then panic "pop_off - interruptible"
  else
    let! n := gets noff in
    if n <? 1 then panic "pop_off"
    else
      modify (fun c => Mk (i32 (noff c - 1)) (intena c) (sie c)) ;;
      let! n' := gets noff in
      let! en := gets intena in
      if (n' =? 0) && en then intr_on else ret tt.

(** Nested sections: interrupts are off inside, and [intena] remembers what
    they were outside. *)
Definition cpu_ok (c : cpu) : Prop := 0 <= noff c < 2 ^ 31 - 1 /\ (0 < noff c -> sie c = false).
Definition outer (c : cpu) : bool := if noff c =? 0 then sie c else intena c.

Lemma push_off_ok c :
  cpu_ok c -> push_off c = Ok (tt, Mk (noff c + 1) (outer c) false).
Proof.
  intros [Hn Hs]. unfold push_off, bind, intr_get, intr_off, gets, modify, outer. cbn.
  destruct (Z.eqb_spec (noff c) 0); cbn; rewrite i32_id by (unfold is_i32; lia); done.
Qed.

Lemma pop_off_ok c :
  1 <= noff c < 2 ^ 31 -> sie c = false ->
  pop_off c = Ok (tt, Mk (noff c - 1) (intena c) ((noff c =? 1) && intena c)).
Proof.
  intros Hn Hs. unfold pop_off, bind, intr_get, intr_on, gets, modify. cbn. rewrite Hs.
  rewrite (proj2 (Z.ltb_ge _ _)) by lia. cbn. rewrite i32_id by (unfold is_i32; lia).
  replace (noff c - 1 =? 0) with (noff c =? 1) by (destruct (Z.eqb_spec (noff c) 1), (Z.eqb_spec (noff c - 1) 0); lia).
  destruct (_ && _) eqn:E; [done|]. cbn. by rewrite Hs.
Qed.

Fixpoint times (n : nat) (m : M cpu unit) : M cpu unit :=
  match n with O => ret tt | S n' => m ;; times n' m end.

Lemma pushes_ok n c :
  cpu_ok c -> noff c + Z.of_nat n < 2 ^ 31 - 1 ->
  times n push_off c = Ok (tt, match n with O => c | _ => Mk (noff c + Z.of_nat n) (outer c) false end).
Proof.
  revert c. induction n as [|n IH]; intros c Hc Hn; [done|]. cbn [times]. unfold bind.
  rewrite push_off_ok by done. rewrite IH; cbn; [|split; cbn; [destruct Hc; lia|done]|lia].
  destruct n; [by rewrite Z.add_1_r|]. f_equal. f_equal. unfold outer. cbn.
  destruct Hc. rewrite (proj2 (Z.eqb_neq (noff c + 1) 0)) by lia. f_equal. lia.
Qed.

Lemma pops_ok n c :
  Z.of_nat n < noff c < 2 ^ 31 -> sie c = false ->
  times n pop_off c = Ok (tt, Mk (noff c - Z.of_nat n) (intena c) false).
Proof.
  revert c. induction n as [|n IH]; intros c Hn Hs.
  { cbn. rewrite Z.sub_0_r. destruct c; cbn in *; by subst. }
  cbn [times]. unfold bind. rewrite pop_off_ok by (done || lia).
  rewrite (proj2 (Z.eqb_neq _ _)) by lia. cbn [andb].
  rewrite IH; cbn; [|lia|done]. f_equal. f_equal. f_equal. lia.
Qed.

(** [push_off] and [pop_off] are matched: n+1 nested sections leave the
    processor's nesting depth and its interrupt-enable bit as they found them,
    whatever both were. *)
Theorem push_off_pop_off_balanced (n : nat) (c : cpu) :
  cpu_ok c -> noff c + Z.of_nat (S n) < 2 ^ 31 - 1 ->
  bind (times (S n) push_off) (fun _ => times (S n) pop_off) c = Ok (tt, Mk (noff c) (outer c) (sie c)).
Proof.
  intros Hc Hn. unfold bind. rewrite pushes_ok by done.
  replace (S n) with (n + 1)%nat by lia.
  assert (Happ : forall k m d, times (k + 1) m d = bind (times k m) (fun _ => m) d).
  { induction k as [|k IHk]; intros m d.
    - cbn. unfold bind, ret. by destruct (m d) as [[[] ?]| | |].
    - cbn [times Nat.add]. unfold bind at 1 2 3. destruct (m d) as [[[] e]| | |]; [|done..].
      rewrite IHk. done. }
  rewrite Happ. unfold bind. cbn [Nat.add]. rewrite Nat.add_1_r. cbn [Nat.add].
  rewrite pops_ok; cbn [noff sie intena]; [|destruct Hc; lia|done].
  rewrite pop_off_ok; cbn [noff sie intena]; [|destruct Hc; lia|done].
  f_equal. f_equal. f_equal; [lia|]. unfold outer. destruct Hc as [Hc0 Hs].
  destruct (Z.eqb_spec (noff c) 0) as [E|E].
  - rewrite E. replace (0 + Z.of_nat (S n) - Z.of_nat n) with 1 by lia. done.
  - rewrite (proj2 (Z.eqb_neq _ _)) by lia. by rewrite Hs by lia.
Qed.

Lemma push_off_pop_off_balanced_witness :
  bind (times 3 push_off) (fun _ => times 3 pop_off) (Mk 0 false true) = Ok (tt, Mk 0 true true).
Proof. apply (push_off_pop_off_balanced 2 (Mk 0 false true)); [split; cbn; [lia|lia]|cbn; lia]. Defined.

End Cpu.

(** ** A shared lock *)

Module Lock.
Import Cpu.

Record spinlock : Type := Lk { locked : Z; name : string; lk_cpu : option nat }.

Definition initlock (n : string) : spinlock := Lk 0 n None.
Definition holding (me : nat) (lk : spinlock) : bool :=
  negb (locked lk =? 0) && bool_decide (lk_cpu lk = Some me).

(** Where a processor is: outside, at a line of [acquire], in its critical
    section, at a line of [release], or stopped in [panic]. *)
Inductive pc : Type :=
| Idle
| AcqHolding   (* push_off() done, before if(holding(lk)) *)
| AcqSpin      (* at while(__sync_lock_test_and_set(...)) *)
| AcqOwn       (* the swap returned 0, before lk->cpu = mycpu() *)
| Crit
| RelClear     (* holding(lk) checked, before lk->cpu = 0 *)
| RelUnlock    (* before __sync_lock_release *)
| RelPop       (* before pop_off() *)
| Panicked.
#[global] Instance pc_eq : EqDecision pc.
Proof. solve_decision. Defined.

Record sys : Type := Sys { lk : spinlock; cpus : nat -> cpu; pcs : nat -> pc }.

Definition upd {A} (f : nat -> A) (i : nat) (a : A) : nat -> A := fun j => if decide (j = i) then a else f j.
Definition goto (me : nat) (p : pc) (s : sys) : sys := Sys (lk s) (cpus s) (upd (pcs s) me p).
Definition with_cpu (me : nat) (m : M cpu unit) (next : pc) (s : sys) : sys :=
  match m (cpus s me) with
  | Ok (_, c) => Sys (lk s) (upd (cpus s) me c) (upd (pcs s) me next)
  | _ => goto me Panicked s
  end.

(** The next instruction of processor [me] inside [acquire]. *)
Definition acquire_step (me : nat) (s : sys) : sys :=
  match pcs s me with
  | Idle => with_cpu me push_off AcqHolding s
  | AcqHolding => if holding me (lk s) then goto me Panicked s else goto me AcqSpin s
  | AcqSpin =>
      let old := locked (lk s) in
      let s' := Sys (Lk 1 (name (lk s)) (lk_cpu (lk s))) (cpus s) (pcs s) in
      if old =? 0 then goto me AcqOwn s' else s'
  | AcqOwn => Sys (Lk (locked (lk s)) (name (lk s)) (Some me)) (cpus s) (upd (pcs s) me Crit)
  | _ => s
  end.

(** The next instruction of processor [me] inside [release]. *)
Definition release_step (me : nat) (s : sys) : sys :=
  match pcs s me with
  | Crit => if negb (holding me (lk s)) then goto me Panicked s else goto me RelClear s
  | RelClear => Sys (Lk (locked (lk s)) (name (lk s)) None) (cpus s) (upd (pcs s) me RelUnlock)
  | RelUnlock => Sys (Lk 0 (name (lk s)) (lk_cpu (lk s))) (cpus s) (upd (pcs s) me RelPop)
  | RelPop => with_cpu me pop_off Idle s
  | _ => s
  end.

(** Any processor takes its next instruction. *)
Inductive step : sys -> sys -> Prop :=
| step_acquire me s : step s (acquire_step me s)
| step_release me s : step s (release_step me s).

Definition init (cs : nat -> cpu) (n : string) : sys := Sys (initlock n) cs (fun _ => Idle).
Definition reachable (cs : nat -> cpu) (n : string) : sys -> Prop := rtc step (init cs n).

(** The processor has won the swap and not yet given the lock back. *)
Definition owns (p : pc) : bool :=
  match p with AcqOwn | Crit | RelClear | RelUnlock => true | _ => false end.
(** [lk->cpu] names it. *)
Definition named (p : pc) : bool := match p with Crit | RelClear => true | _ => false end.
(** Between its [push_off] and its [pop_off]. *)
Definition inside (p : pc) : bool := match p with Idle | Panicked => false | _ => true end.

Record inv (cs : nat -> cpu) (s : sys) : Prop := {
  inv_unlocked : locked (lk s) = 0 \/ locked (lk s) = 1;
  inv_locked : forall i, owns (pcs s i) = true -> locked (lk s) = 1;
  inv_owner : locked (lk s) = 1 -> exists i, owns (pcs s i) = true;
  inv_one : forall i j, owns (pcs s i) = true -> owns (pcs s j) = true -> i = j;
  inv_cpu : forall i, lk_cpu (lk s) = Some i <-> named (pcs s i) = true;
  inv_off : forall i, inside (pcs s i) = true ->
    cpus s i = Mk (noff (cs i) + 1) (outer (cs i)) false;
  inv_idle : forall i, pcs s i = Idle -> noff (cpus s i) = noff (cs i) /\
    sie (cpus s i) = sie (cs i) /\ outer (cpus s i) = outer (cs i);
  inv_nopanic : forall i, pcs s i <> Panicked
}.

Lemma upd_same {A} (f : nat -> A) i a : upd f i a i = a.
Proof. unfold upd. by rewrite decide_True. Qed.
Lemma upd_other {A} (f : nat -> A) i j a : j <> i -> upd f i a j = f j.
Proof. intros. unfold upd. by rewrite decide_False. Qed.

Section Invariant.
Context (cs : nat -> cpu) (Hcs : forall i, cpu_ok (cs i)).

(** Moving one program counter within the same phase, lock untouched. *)
Lemma inv_goto me p s :
  inv cs s -> owns p = owns (pcs s me) -> named p = named (pcs s me) ->
  inside p = true -> inside (pcs s me) = true -> inv cs (goto me p s).
Proof.
  intros [H1 H2 H3 H4 H5 H6 H7 H8] Ho Hn Hi Hi'.
  assert (Hown : forall i, owns (upd (pcs s) me p i) = owns (pcs s i)).
  { intros i. unfold upd. by destruct (decide (i = me)) as [->|]. }
  assert (Hnam : forall i, named (upd (pcs s) me p i) = named (pcs s i)).
  { intros i. unfold upd. by destruct (decide (i = me)) as [->|]. }
  split; cbn; try done.
  - intros i. rewrite Hown. apply H2.
  - intros Hl. destruct (H3 Hl) as [i Hi3]. exists i. by rewrite Hown.
  - intros i j. rewrite !Hown. apply H4.
  - intros i. rewrite Hnam. apply H5.
  - intros i. unfold upd. destruct (decide (i = me)) as [->|]; auto.
  - intros i. unfold upd. destruct (decide (i = me)) as [->|]; [by intros ->|auto].
  - intros i. unfold upd. destruct (decide (i = me)) as [->|]; [by intros ->|auto].
Qed.

(** The same when the lock word and its owner change together. *)
Lemma inv_set me p lk' s :
  inv cs s -> inside p = true -> inside (pcs s me) = true ->
  (locked lk' = if owns p then 1 else 0) ->
  (forall i, owns (pcs s i) = true -> i = me) ->
  (forall i, lk_cpu lk' = Some i <-> i = me /\ named p = true) ->
  inv cs (Sys lk' (cpus s) (upd (pcs s) me p)).
Proof.
  intros [H1 H2 H3 H4 H5 H6 H7 H8] Hi Hi' Hl Honly Hcpu.
  assert (Hown : forall i, owns (upd (pcs s) me p i) = true -> i = me /\ owns p = true).
  { intros i. unfold upd. destruct (decide (i = me)) as [->|]; [done|]. intros Hc. by apply Honly in Hc. }
  split; cbn.
  - destruct (owns p); auto.
  - intros i [_ Hp]%Hown. by rewrite Hp in Hl.
  - intros Hl1. exists me. rewrite upd_same. destruct (owns p); [done|lia].
  - intros i j [-> _]%Hown [-> _]%Hown. done.
  - intros i. rewrite Hcpu. unfold upd. destruct (decide (i = me)) as [->|Hne]; [tauto|].
    split; [tauto|]. intros Hn. exfalso. apply Hne, Honly. by destruct (pcs s i).
  - intros i. unfold upd. destruct (decide (i = me)) as [->|]; auto.
  - intros i. unfold upd. destruct (decide (i = me)) as [->|]; [by intros ->|auto].
  - intros i. unfold upd. destruct (decide (i = me)) as [->|]; [by intros ->|auto].
Qed.

Lemma inv_push me s : inv cs s -> pcs s me = Idle -> inv cs (with_cpu me push_off AcqHolding s).
Proof.
  intros [H1 H2 H3 H4 H5 H6 H7 H8] E. destruct (H7 me E) as (Hn & Hs & Ho).
  unfold with_cpu. rewrite push_off_ok by (unfold cpu_ok; rewrite Hn, Hs; apply Hcs). rewrite Hn, Ho.
  assert (Hown : forall i, owns (upd (pcs s) me AcqHolding i) = owns (pcs s i)).
  { intros i. unfold upd. destruct (decide (i = me)) as [->|]; [by rewrite E|done]. }
  split; cbn; try done.
  - intros i. rewrite Hown. apply H2.
  - intros Hl. destruct (H3 Hl) as [i Hi3]. exists i. by rewrite Hown.
  - intros i j. rewrite !Hown. apply H4.
  - intros i. rewrite H5. unfold upd. destruct (decide (i = me)) as [->|]; [by rewrite E|done].
  - intros i. unfold upd. destruct (decide (i = me)) as [->|]; auto.
  - intros i. unfold upd. destruct (decide (i = me)) as [->|]; [done|auto].
  - intros i. unfold upd. destruct (decide (i = me)) as [->|]; [done|auto].
Qed.

Lemma inv_pop me s : inv cs s -> pcs s me = RelPop -> inv cs (with_cpu me pop_off Idle s).
Proof.
  intros [H1 H2 H3 H4 H5 H6 H7 H8] E. pose proof (Hcs me) as [Hc Hs].
  unfold with_cpu. rewrite (H6 me) by (by rewrite E). rewrite pop_off_ok by (cbn; done || lia). cbn [noff intena].
  assert (Hown : forall i, owns (upd (pcs s) me Idle i) = owns (pcs s i)).
  { intros i. unfold upd. destruct (decide (i = me)) as [->|]; [by rewrite E|done]. }
  split; cbn; try done.
  - intros i. rewrite Hown. apply H2.
  - intros Hl. destruct (H3 Hl) as [i Hi3]. exists i. by rewrite Hown.
  - intros i j. rewrite !Hown. apply H4.
  - intros i. rewrite H5. unfold upd. destruct (decide (i = me)) as [->|]; [by rewrite E|done].
  - intros i. unfold upd. destruct (decide (i = me)) as [->|]; auto. done.
  - intros i. unfold upd. destruct (decide (i = me)) as [->|]; [|auto]. intros _. unfold outer. cbn.
    replace (noff (cs me) + 1 - 1) with (noff (cs me)) by lia.
    replace (noff (cs me) + 1 =? 1) with (noff (cs me) =? 0)
      by (destruct (Z.eqb_spec (noff (cs me)) 0), (Z.eqb_spec (noff (cs me) + 1) 1); lia).
    destruct (Z.eqb_spec (noff (cs me)) 0); cbn; [done|]. split_and!; [done| |done]. symmetry. apply Hs. lia.
  - intros i. unfold upd. destruct (decide (i = me)) as [->|]; [done|auto].
Qed.

Lemma inv_step s s' : inv cs s -> step s s' -> inv cs s'.
Proof.
  intros Hi Hst. pose proof Hi as [H1 H2 H3 H4 H5 H6 H7 H8].
  destruct Hst as [me s|me s]; [unfold acquire_step|unfold release_step];
    destruct (pcs s me) eqn:E; try done.
  - by apply inv_push.
  - assert (holding me (lk s) = false) as ->.
    { unfold holding. rewrite (bool_decide_eq_false_2 _), andb_false_r; [done|].
      intros Hc%H5. by rewrite E in Hc. }
    apply inv_goto; rewrite ?E; done.
  - destruct (Z.eqb_spec (locked (lk s)) 0) as [El|El].
    + apply (inv_set me AcqOwn (Lk 1 (name (lk s)) (lk_cpu (lk s))) s); try done; [by rewrite E| |].
      * intros i Ho. apply H2 in Ho. lia.
      * intros i. cbn. rewrite H5. split; [|by intros [_ ?]]. intros Hn. exfalso.
        assert (owns (pcs s i) = true) as Ho by (by destruct (pcs s i)). apply H2 in Ho. lia.
    + destruct s as [[lo nm cp] cc pp]. cbn in *. by replace 1 with lo by lia.
  - apply (inv_set me Crit (Lk (locked (lk s)) (name (lk s)) (Some me)) s); try done; [by rewrite E| | |].
    + cbn. apply (H2 me). by rewrite E.
    + intros i Ho. apply (H4 i me Ho). by rewrite E.
    + intros i. cbn. split; [intros [= ->]; done|by intros [-> _]].
  - assert (holding me (lk s) = true) as ->.
    { unfold holding. rewrite (H2 me), bool_decide_eq_true_2; [done| |by rewrite E].
      apply H5. by rewrite E. }
    cbn [negb]. apply inv_goto; rewrite ?E; done.
  - apply (inv_set me RelUnlock (Lk (locked (lk s)) (name (lk s)) None) s); try done; [by rewrite E| | |].
    + cbn. apply (H2 me). by rewrite E.
    + intros i Ho. apply (H4 i me Ho). by rewrite E.
    + intros i. cbn. by split; [|intros [_ ?]].
  - apply (inv_set me RelPop (Lk 0 (name (lk s)) (lk_cpu (lk s))) s); try done; [by rewrite E| |].
    + intros i Ho. apply (H4 i me Ho). by rewrite E.
    + intros i. cbn. rewrite H5. split; [|by intros [_ ?]]. intros Hn. exfalso.
      assert (owns (pcs s i) = true) as Ho by (by destruct (pcs s i)).
      assert (i = me) as -> by (apply (H4 i me Ho); by rewrite E). by rewrite E in Hn.
  - by apply inv_pop.
Qed.

Lemma inv_reachable n s : reachable cs n s -> inv cs s.
Proof.
  apply rtc_inv; [exact inv_step|]. split; cbn; naive_solver.
Qed.
End Invariant.

(** C16: Mutual exclusion.  However the processors interleave the instructions
    of [acquire] and [release], at most one is in the critical section; it has
    interrupts disabled and [holding] answers yes to it and to nobody else; and
    no processor has reached one of the panics of [acquire], [release],
    [push_off] or [pop_off]. *)
Theorem spinlock_mutual_exclusion (cs : nat -> cpu) (n : string) (s : sys) :
  (forall i, cpu_ok (cs i)) -> reachable cs n s ->
  (forall i j, pcs s i = Crit -> pcs s j = Crit -> i = j) /\
  (forall i j, pcs s i = Crit -> sie (cpus s i) = false /\ (holding j (lk s) = true <-> j = i)) /\
  (forall i, pcs s i <> Panicked).
Proof.
  intros Hcs Hr. pose proof (inv_reachable cs Hcs n s Hr) as [H1 H2 H3 H4 H5 H6 H7 H8].
  split_and!; [|intros i j Hi; split|done].
  - intros i j Hi Hj. apply H4; [by rewrite Hi|by rewrite Hj].
  - by rewrite (H6 i) by (by rewrite Hi).
  - unfold holding. rewrite (H2 i) by (by rewrite Hi). cbn. rewrite bool_decide_eq_true.
    assert (lk_cpu (lk s) = Some i) as -> by (apply H5; by rewrite Hi). naive_solver.
Qed.

(** Processor 0 in its critical section, processor 1 spinning. *)
Definition contended : sys :=
  let s := init (fun _ => Mk 0 false true) "kmem" in
  acquire_step 1 (acquire_step 1 (acquire_step 1
    (acquire_step 0 (acquire_step 0 (acquire_step 0 (acquire_step 0 s)))))).

Lemma spinlock_mutual_exclusion_witness :
  pcs contended 0%nat = Crit /\ pcs contended 1%nat = AcqSpin /\
  (forall j, pcs contended 0%nat = Crit -> pcs contended j = Crit -> 0%nat = j).
Proof.
  split; [vm_compute; reflexivity|]. split; [vm_compute; reflexivity|]. intros j.
  apply (spinlock_mutual_exclusion (fun _ => Mk 0 false true) "kmem" contended).
  - intros i. split; cbn; lia.
  - unfold reachable, contended. do 7 (eapply rtc_r; [|apply step_acquire]). apply rtc_refl.
Defined.

End Lock.

(** ** Sleeplocks *)

Module SleepLock.

(** [locked] and [pid] of [struct sleeplock]; the inner spinlock makes each
    routine below one step. *)
Record sleeplock : Type := Sl { locked : Z; pid : Z }.

Definition initsleeplock : sleeplock := Sl 0 0.

(** Where a call of [acquiresleep] goes on: at the test of the loop, or behind
    the loop. *)
Inductive point : Type := Test | Take.
#[global] Instance point_eq : EqDecision point.
Proof. solve_decision. Defined.

(** The routines, over a state that holds the lock, and over the caller's [sleep]
    on it, which says where the call goes on once woken, and [wakeup]. *)
Section Routines.
Context {S : Type} (lk : S -> sleeplock) (set_lk : sleeplock -> S -> S).
Context (sleep : point -> M S unit) (wakeup : M S unit).

(** [acquiresleep] from [k] until it sleeps ([false]) or returns ([true]). *)
Definition acquiresleep (me : Z) (k : point) : M S bool :=
  let! l := gets (fun s => locked (lk s)) in
  if match k with Test => negb (l =? 0) | Take => false end then
    sleep Test ;;
    ret false
  else
    modify (set_lk (Sl 1 me)) ;;
    ret true.

Definition releasesleep : M S unit :=
  modify (set_lk (Sl 0 0)) ;;
  wakeup.

Definition holdingsleep (me : Z) : M S bool :=
  gets (fun s => negb (locked (lk s) =? 0) && (pid (lk s) =? me)).
End Routines.

(** A lock and the processes that use it: outside, about to run at a point of
    [acquiresleep], asleep on the lock, or between [acquiresleep] and
    [releasesleep]. *)
Inductive status : Type := Out | Ready (k : point) | Asleep (k : point) | Holder.
#[global] Instance status_eq : EqDecision status.
Proof. solve_decision. Defined.

Record sys : Type := Sys { slk : sleeplock; procs : Z -> status }.
Definition put_slk (k : sleeplock) (s : sys) : sys := Sys k (procs s).
Definition upd (f : Z -> status) (i : Z) (a : status) : Z -> status := fun j => if decide (j = i) then a else f j.
Definition goto (p : Z) (a : status) (s : sys) : sys := Sys (slk s) (upd (procs s) p a).
(** [sleep(lk, &lk->lk)] of process [p], and [wakeup(lk)]. *)
Definition sleep_lk (p : Z) (k : point) : M sys unit := modify (goto p (Asleep k)).
Definition wakeup_lk : M sys unit :=
  modify (fun s => Sys (slk s) (fun j => match procs s j with Asleep k => Ready k | st => st end)).

(** Processes call the routines in any order and run between any two sleeps. *)
Inductive step : sys -> sys -> Prop :=
| step_call p s : procs s p = Out -> step s (goto p (Ready Test) s)
| step_acquire p k b s s' : procs s p = Ready k ->
    acquiresleep slk put_slk (sleep_lk p) p k s = Ok (b, s') ->
    step s (if b then goto p Holder s' else s')
| step_release p s s' : procs s p = Holder -> releasesleep put_slk wakeup_lk s = Ok (tt, s') ->
    step s (goto p Out s').

Definition init : sys := Sys initsleeplock (fun _ => Out).

Record inv (s : sys) : Prop := {
  inv_free : locked (slk s) = 0 -> forall p, procs s p <> Asleep Test /\ procs s p <> Holder;
  inv_held : locked (slk s) <> 0 -> forall p, procs s p = Holder <-> p = pid (slk s);
  inv_test : forall p, procs s p <> Ready Take /\ procs s p <> Asleep Take
}.

(** A process that does not hold the lock changes state without taking it. *)
Lemma sl_upd s p st :
  inv s -> procs s p <> Holder -> st = Ready Test \/ (st = Asleep Test /\ locked (slk s) <> 0) -> inv (goto p st s).
Proof.
  intros [H1 H2 H3] Hp Hst. split; cbn; [intros H q|intros H q|intros q]; unfold upd;
    destruct (decide (q = p)) as [->|]; auto; [naive_solver| |naive_solver].
  specialize (H2 H p). naive_solver.
Qed.
(** The lock taken when it is free. *)
Lemma sl_take s p : inv s -> locked (slk s) = 0 -> inv (goto p Holder (put_slk (Sl 1 p) s)).
Proof.
  intros [H1 H2 H3] E. split; cbn; [done| |].
  - intros _ q. unfold upd. destruct (decide (q = p)) as [->|]; [done|]. destruct (H1 E q). naive_solver.
  - intros q. unfold upd. destruct (decide (q = p)); [done|apply H3].
Qed.

Lemma sl_step s s' : inv s -> step s s' -> inv s'.
Proof.
  intros Hi Hst. destruct Hst as [p s Hp|p k b s s' Hp Ht|p s s' Hp Ht].
  - apply sl_upd; [done|by rewrite Hp|by left].
  - unfold acquiresleep, bind, gets in Ht. destruct k; [|by destruct (inv_test s Hi p)].
    destruct (Z.eqb_spec (locked (slk s)) 0) as [E|E]; injection Ht as <- <-.
    + by apply sl_take.
    + apply sl_upd; [done|by rewrite Hp|by right].
  - destruct Hi as [H1 H2 H3]. injection Ht as <-. split; cbn; [intros _ q|done|intros q]; unfold upd; destruct (decide (q = p)) as [->|Hne]; try done.
    + destruct (procs s q) eqn:Eq; try done. exfalso. apply Hne.
      destruct (decide (locked (slk s) = 0)) as [E|E]; [by destruct (H1 E p)|].
      by rewrite (proj1 (H2 E q) Eq), (proj1 (H2 E p) Hp).
    + destruct (H3 q). destruct (procs s q) as [|k|k|]; naive_solver.
Qed.

Lemma sl_reachable s : rtc step init s -> inv s.
Proof. apply rtc_inv; [exact sl_step|]. by split; cbn. Qed.

(** C15: Sleeplocks.  In every reachable state at most one process is between
    [acquiresleep] and [releasesleep], [holdingsleep] answers yes exactly to
    it, and no process is asleep while the lock is free: a wakeup is never
    lost. *)
Theorem sleeplock_exclusive_no_lost_wakeup (s : sys) :
  rtc step init s ->
  (forall p q, procs s p = Holder -> procs s q = Holder -> p = q) /\
  (forall p, wp (holdingsleep slk p) (fun b _ => b = true <-> procs s p = Holder) s) /\
  (forall p k, procs s p = Asleep k -> exists q, procs s q = Holder).
Proof.
  intros Hr. destruct (sl_reachable s Hr) as [H1 H2 H3].
  destruct (decide (locked (slk s) = 0)) as [E|E].
  - split_and!.
    + intros p q Hp. by destruct (H1 E p).
    + intros p. cbn. rewrite E. cbn. destruct (H1 E p). naive_solver.
    + intros p [] Hp; [by destruct (H1 E p)|by destruct (H3 p)].
  - split_and!.
    + intros p q Hp Hq. by rewrite (proj1 (H2 E p) Hp), (proj1 (H2 E q) Hq).
    + intros p. cbn. rewrite (proj2 (Z.eqb_neq _ _)) by done. cbn. rewrite Z.eqb_eq, (H2 E p). done.
    + intros p k _. exists (pid (slk s)). by apply H2.
Qed.

(** Process 2 holds the lock, process 3 sleeps on it. *)
Definition waiting : sys :=
  goto 3 (Asleep Test) (goto 3 (Ready Test) (goto 2 Holder (put_slk (Sl 1 2) (goto 2 (Ready Test) init)))).

Lemma sleeplock_exclusive_no_lost_wakeup_witness :
  procs waiting 3 = Asleep Test /\ exists q, procs waiting q = Holder.
Proof.
  split; [reflexivity|]. apply (sleeplock_exclusive_no_lost_wakeup waiting) with 3 Test; [|reflexivity].
  eapply rtc_l; [apply (step_call 2); reflexivity|].
  eapply rtc_l; [eapply (step_acquire 2 Test true); reflexivity|].
  eapply rtc_l; [apply (step_call 3); reflexivity|].
  eapply rtc_l; [eapply (step_acquire 3 Test false); reflexivity|]. apply rtc_refl.
Defined.

End SleepLock.
