(* ===== verification/Kalloc.v ===== *)
(** * kernel/kalloc.c: the physical page allocator

    Free pages are linked through their own first word: [kmem.freelist] is the
    address of the first free page, and the word stored there is the address of
    the next.  The component's state is therefore the byte memory together with
    the list head.  [kmem_inv s l] states that the chain spells the list [l] of
    distinct, aligned, in-range pages; [l] is the abstract state of the
    allocator, on which [kfree] pushes and [kalloc] pops. *)
From S2P Require Import Prelude Machine Memory.

Record kmem : Type := Kmem { phys : memory; freelist : Z }.
Definition set_phys (m : memory) (s : kmem) : kmem := Kmem m (freelist s).

Section Kalloc.
Context `{KI : KernelImage}.

(** Free the page of physical memory pointed at by [pa]. *)
Definition kfree (pa : Z) : M kmem unit :=
  if negb (pa mod PGSIZE =? 0) || (pa <? kend) || (PHYSTOP <=? pa) then panic "kfree"
  else
    modify (fun s => set_phys (fill_range (phys s) pa 1 PGSIZE) s) ;;
    modify (fun s => Kmem (store64 (phys s) pa (freelist s)) pa).

(** Allocate one page; 0 when there is none. *)
Definition kalloc : M kmem Z :=
  let! r := gets freelist in
  if negb (r =? 0) then
    modify (fun s => Kmem (phys s) (load64 (phys s) r)) ;;
    modify (fun s => set_phys (fill_range (phys s) r 5 PGSIZE) s) ;;
    ret r
  else ret r.

Fixpoint freerange_loop (fuel : nat) (p pa_end : Z) : M kmem unit :=
  match fuel with
  | O => out_of_fuel
  | S f => if p + PGSIZE <=? pa_end then kfree p ;; freerange_loop f (p + PGSIZE) pa_end
           else ret tt
  end.
Definition freerange (pa_start pa_end : Z) : M kmem unit :=
  let p := PGROUNDUP pa_start in
  freerange_loop (S (Z.to_nat ((pa_end - p) / PGSIZE))) p pa_end.

(** [kmem] is zero at boot (bss); [initlock] has no effect on the pages. *)
Definition kinit : M kmem unit := freerange kend PHYSTOP.

(** ** Invariant *)

Definition in_page (p x : Z) : Prop := p <= x < p + PGSIZE.
Definition valid_page (p : Z) : Prop := page_aligned p /\ kend <= p /\ p < PHYSTOP.

Fixpoint free_chain (m : memory) (h : Z) (l : list Z) : Prop :=
  match l with
  | [] => h = 0
  | p :: l' => h = p /\ free_chain m (load64 m p) l'
  end.

Record kmem_inv (s : kmem) (l : list Z) : Prop := {
  ki_chain : free_chain (phys s) (freelist s) l;
  ki_nodup : NoDup l;
  ki_valid : Forall valid_page l
}.

(** [frame P m m']: the memory changed at most inside the pages satisfying [P]. *)
Definition frame (P : Z -> Prop) (m m' : memory) : Prop :=
  forall x, (forall p, P p -> ~ in_page p x) -> m' x = m x.

Lemma frame_refl P m : frame P m m.
Proof. done. Qed.
Lemma frame_trans P m1 m2 m3 : frame P m1 m2 -> frame P m2 m3 -> frame P m1 m3.
Proof. intros H1 H2 x Hx. rewrite H2 by done. by apply H1. Qed.
Lemma frame_mono (P Q : Z -> Prop) m m' :
  (forall p, P p -> Q p) -> frame P m m' -> frame Q m m'.
Proof. intros HPQ H x Hx. apply H. intros p Hp. apply Hx. by apply HPQ. Qed.

Lemma frame_fill p c m : frame (eq p) m (fill_range m p c PGSIZE).
Proof. intros x Hx. apply fill_range_out. specialize (Hx p eq_refl). unfold in_page in Hx. lia. Qed.
Lemma frame_store64 p i v m :
  0 <= i -> i + 8 <= PGSIZE -> frame (eq p) m (store64 m (p + i) v).
Proof.
  intros ?? x Hx. apply store64_out. specialize (Hx p eq_refl). unfold in_page in Hx. lia.
Qed.

Lemma valid_pages_disjoint p q x :
  valid_page p -> valid_page q -> in_page p x -> in_page q x -> p = q.
Proof.
  intros [Hp _] [Hq _] ??. destruct (decide (p = q)); [done|].
  pose proof (page_aligned_dist p q Hp Hq). unfold in_page in *. lia.
Qed.

Lemma frame_byte (P : Z -> Prop) m m' q x :
  frame P m m' -> (forall p, P p -> valid_page p) -> valid_page q -> ~ P q ->
  in_page q x -> m' x = m x.
Proof.
  intros HF HP Hq Hn Hx. apply HF. intros p Hp Hin.
  apply Hn. by rewrite <- (valid_pages_disjoint p q x) by auto.
Qed.

Lemma frame_load64 (P : Z -> Prop) m m' q i :
  frame P m m' -> (forall p, P p -> valid_page p) -> valid_page q -> ~ P q ->
  0 <= i -> i + 8 <= PGSIZE -> load64 m' (q + i) = load64 m (q + i).
Proof.
  intros HF HP Hq Hn Hi1 Hi2. apply load_le_ext. intros x Hx.
  eapply frame_byte; eauto. unfold in_page. lia.
Qed.

Lemma free_chain_frame (P : Z -> Prop) m m' h l :
  frame P m m' -> (forall p, P p -> valid_page p) -> Forall valid_page l ->
  (forall p, p ∈ l -> ~ P p) -> free_chain m h l -> free_chain m' h l.
Proof.
  intros HF HP. revert h. induction l as [|p l IH]; intros h Hv Hd Hc; [done|].
  destruct Hc as [-> Hc]. inversion Hv as [|?? Hp Hv']; subst. split; [done|].
  replace (load64 m' p) with (load64 m p).
  - apply IH; [done | intros q Hq; apply Hd; set_solver | done].
  - symmetry. rewrite <- (Z.add_0_r p). eapply frame_load64; eauto; [|lia|mlia].
    apply Hd. set_solver.
Qed.

Lemma kmem_inv_frame (P : Z -> Prop) s m' l :
  frame P (phys s) m' -> (forall p, P p -> valid_page p) ->
  (forall p, p ∈ l -> ~ P p) -> kmem_inv s l -> kmem_inv (set_phys m' s) l.
Proof.
  intros HF HP Hd [Hc Hn Hv]. split; cbn; [|done|done]. by eapply free_chain_frame.
Qed.

Context `{KIO : !KernelImageOk}.

Lemma valid_page_range p : valid_page p -> 0 < p /\ is_u64 p /\ is_pa p.
Proof.
  intros (Ha & Hl & Hh). pose proof kend_lo. pose proof kend_hi.
  split_and!; [mlia | mlia |]. split; [mlia | done].
Qed.

(** ** Functional behaviour of the two operations *)

Lemma kalloc_wp s l :
  kmem_inv s l ->
  wp kalloc (fun r s' =>
    match l with
    | [] => r = 0 /\ s' = s
    | p :: l' => r = p /\ kmem_inv s' l' /\ frame (eq p) (phys s) (phys s') /\
                 (forall x, in_page p x -> phys s' x = 5)
    end) s.
Proof.
  intros [Hc Hn Hv]. unfold kalloc. wp_steps. destruct l as [|p l]; cbn in Hc.
  { rewrite Hc. cbn. done. }
  destruct Hc as [-> Hc]. inversion Hv as [|?? Hp Hv']; subst. inversion Hn; subst.
  destruct (valid_page_range p Hp) as [? _]. rewrite (proj2 (Z.eqb_neq p 0)) by lia.
  cbn [negb]. wp_steps. cbn. set (m' := fill_range _ _ _ _).
  assert (frame (eq p) (phys s) m') as HF by apply frame_fill.
  split_and!; [done| |done|].
  - split; cbn; [|done|done]. eapply free_chain_frame; [done| |done| |done].
    + by intros q <-.
    + by intros q Hq <-.
  - intros x Hx. apply fill_range_in. unfold in_page in Hx. lia.
Qed.

Lemma kfree_wp s l p :
  kmem_inv s l -> valid_page p -> p ∉ l ->
  wp (kfree p) (fun _ s' => kmem_inv s' (p :: l) /\ frame (eq p) (phys s) (phys s')) s.
Proof.
  intros [Hc Hn Hv] Hp Hnl. unfold kfree.
  destruct Hp as (Ha & Hlo & Hhi). unfold page_aligned in Ha.
  rewrite Ha, Z.eqb_refl, (proj2 (Z.ltb_ge p kend)), (proj2 (Z.leb_gt PHYSTOP p)) by lia.
  cbn [negb orb]. wp_steps. cbn. set (m1 := fill_range _ _ _ _).
  assert (valid_page p) as Hp by done.
  assert (frame (eq p) (phys s) (store64 m1 p (freelist s))) as HF.
  { apply (frame_trans _ _ m1); [apply frame_fill|].
    pose proof (frame_store64 p 0 (freelist s) m1) as F. rewrite Z.add_0_r in F.
    apply F; [lia|mlia]. }
  split; [|done]. split; cbn [phys freelist].
  - split; [done|]. rewrite load64_store64_same.
    + eapply free_chain_frame; [done| |done| |done].
      * by intros q <-.
      * by intros q Hq <-.
    + destruct l as [|q l]; cbn in Hc; [rewrite Hc; mlia|].
      destruct Hc as [-> _]. inversion Hv; subst. by apply valid_page_range.
  - by constructor.
  - by constructor.
Qed.

(** ** Error path *)

Lemma kfree_bad_panics pa s :
  ~ valid_page pa -> kfree pa s = Panic "kfree".
Proof.
  intros Hp. unfold kfree. destruct (_ || _) eqn:E; [done|]. breflect. exfalso.
  apply Hp. split; [done|lia].
Qed.

(** ** Boot: the pages between [end] and [PHYSTOP] *)

Definition page_range (lo : Z) (n : nat) : list Z :=
  map (fun i => lo + Z.of_nat i * PGSIZE) (seq 0 n).

Lemma page_range_S lo n : page_range lo (S n) = lo :: page_range (lo + PGSIZE) n.
Proof.
  unfold page_range. cbn [seq map]. f_equal; [lia|].
  rewrite <- seq_shift, map_map. apply map_ext. intros. lia.
Qed.

Lemma elem_of_page_range p lo n :
  p ∈ page_range lo n <-> exists i, 0 <= i < Z.of_nat n /\ p = lo + i * PGSIZE.
Proof.
  unfold page_range. rewrite list_elem_of_fmap. split.
  - intros (i & -> & Hi). apply elem_of_seq in Hi. exists (Z.of_nat i). split; [lia|done].
  - intros (i & Hi & ->). exists (Z.to_nat i). rewrite elem_of_seq, Z2Nat.id by lia. split; [done|lia].
Qed.

Lemma freerange_loop_wp n s l p pa_end fuel :
  kmem_inv s l -> page_aligned p -> kend <= p -> pa_end <= PHYSTOP ->
  p + Z.of_nat n * PGSIZE <= pa_end < p + (Z.of_nat n + 1) * PGSIZE -> (n < fuel)%nat ->
  (forall q, q ∈ l -> q < p) ->
  wp (freerange_loop fuel p pa_end)
     (fun _ s' => kmem_inv s' (reverse (page_range p n) ++ l)) s.
Proof.
  revert s l p fuel. induction n as [|n IH]; intros s l p fuel Hi Ha Hlo Hhi Hr Hf Hl;
    (destruct fuel as [|fuel]; [lia|]); cbn [freerange_loop].
  - rewrite (proj2 (Z.leb_gt _ _)) by lia. wp_steps. done.
  - rewrite (proj2 (Z.leb_le _ _)) by (munfold; lia). wp_steps.
    eapply wp_mono; [apply (kfree_wp s l p); [done| |]|].
    + split; [done|]. munfold. lia.
    + intros Hin. apply Hl in Hin. lia.
    + intros [] s1 [Hi1 _]. eapply wp_mono; [apply (IH s1 (p :: l)); try done|].
      * apply page_aligned_add; done.
      * munfold. lia.
      * munfold. lia.
      * lia.
      * intros q Hq. apply elem_of_cons in Hq as [->|Hq]; [mlia|]. apply Hl in Hq. mlia.
      * intros [] s2 Hi2. rewrite page_range_S, reverse_cons, <- app_assoc. done.
Qed.

Lemma kinit_free_pages (m : memory) :
  let p0 := PGROUNDUP kend in
  let n := Z.to_nat ((PHYSTOP - p0) / PGSIZE) in
  wp kinit (fun _ s' => kmem_inv s' (reverse (page_range p0 n))) (Kmem m 0).
Proof.
  cbn zeta. pose proof kend_lo. pose proof kend_hi.
  destruct (PGROUNDUP_bounds kend) as [Hb Ha]; [mlia|mlia|].
  unfold kinit, freerange. set (p0 := PGROUNDUP kend) in *.
  assert (Hp0 : p0 <= PHYSTOP).
  { destruct (decide (p0 <= PHYSTOP)); [done|]. exfalso.
    assert (page_aligned PHYSTOP) as HPA by reflexivity.
    pose proof (page_aligned_dist p0 PHYSTOP Ha HPA). mlia. }
  eapply wp_mono; [apply (freerange_loop_wp (Z.to_nat ((PHYSTOP - p0) / PGSIZE)) _ []);
    try done; try lia|].
  - split; cbn; [done|constructor|constructor].
  - rewrite Z2Nat.id by (apply Z.div_pos; mlia).
    pose proof (Z.div_mod (PHYSTOP - p0) PGSIZE ltac:(mlia)).
    pose proof (Z.mod_pos_bound (PHYSTOP - p0) PGSIZE ltac:(mlia)). mlia.
  - intros q Hq. by apply not_elem_of_nil in Hq.
  - intros [] s1 Hs1. by rewrite app_nil_r in Hs1.
Qed.

End Kalloc.
