(* ===== verification/Vm.v ===== *)
(** * kernel/vm.c: Sv39 page tables and user memory

    Page-table pages are pages of the allocator, so every operation is a
    computation on the allocator's state [kmem].  A [pagetable] is the physical
    address of its root page; PTE addresses are root + 8 * index.  Loops are
    given as many iterations as the code can make, with the C exit test kept in
    the body.  [vmfault] reads two fields of the current process, passed as the
    record [uvm]. *)
From S2P Require Import Prelude Machine Memory Kalloc.

(** The fields of [myproc()] that the memory code reads. *)
Record uvm : Type := Uvm { u_sz : Z; u_pagetable : Z }.

Definition rd64 (a : Z) : M kmem Z := gets (fun s => load64 (phys s) a).
Definition wr64 (a v : Z) : M kmem unit := modify (fun s => set_phys (store64 (phys s) a v) s).
Definition zero_page (p : Z) : M kmem unit :=
  modify (fun s => set_phys (fill_range (phys s) p 0 PGSIZE) s).
(** Address of [pagetable[i]]. *)
Definition pte_addr (pagetable i : Z) : Z := pagetable + 8 * i.
#[global] Arguments pte_addr : simpl never.

Section Vm.
Context `{KI : KernelImage}.

(** ** walk, walkaddr *)

Fixpoint walk_loop (level : nat) (pagetable va : Z) (alloc : bool) : M kmem Z :=
  match level with
  | O => ret (pte_addr pagetable (PX 0 va))
  | S level' =>
      let pte := pte_addr pagetable (PX (Z.of_nat level) va) in
      let! v := rd64 pte in
      if pte_has v PTE_V then walk_loop level' (PTE2PA v) va alloc
      else if negb alloc then ret 0
      else
        let! pg := kalloc in
        if pg =? 0 then ret 0
        else
          zero_page pg ;;
          wr64 pte (Z.lor (PA2PTE pg) PTE_V) ;;
          walk_loop level' pg va alloc
  end.

Definition walk (pagetable va : Z) (alloc : bool) : M kmem Z :=
  if MAXVA <=? va then panic "walk" else walk_loop 2 pagetable va alloc.

Definition walkaddr (pagetable va : Z) : M kmem Z :=
  if MAXVA <=? va then ret 0
  else
    let! pte := walk pagetable va false in
    if pte =? 0 then ret 0
    else
      let! v := rd64 pte in
      if negb (pte_has v PTE_V) then ret 0
      else if negb (pte_has v PTE_U) then ret 0
      else ret (PTE2PA v).

Definition ismapped (pagetable va : Z) : M kmem Z :=
  let! pte := walk pagetable va false in
  if pte =? 0 then ret 0
  else let! v := rd64 pte in if pte_has v PTE_V then ret 1 else ret 0.

(** ** mappages *)

Fixpoint mappages_loop (fuel : nat) (pagetable a last pa perm : Z) : M kmem Z :=
  match fuel with
  | O => out_of_fuel
  | S f =>
      let! pte := walk pagetable a true in
      if pte =? 0 then ret (-1)
      else
        let! v := rd64 pte in
        if pte_has v PTE_V then panic "mappages: remap"
        else
          wr64 pte (Z.lor (Z.lor (PA2PTE pa) perm) PTE_V) ;;
          if a =? last then ret 0
          else mappages_loop f pagetable (u64 (a + PGSIZE)) last (u64 (pa + PGSIZE)) perm
  end.

Definition mappages (pagetable va size pa perm : Z) : M kmem Z :=
  if negb (va mod PGSIZE =? 0) then panic "mappages: va not aligned"
  else if negb (size mod PGSIZE =? 0) then panic "mappages: size not aligned"
  else if size =? 0 then panic "mappages: size"
  else mappages_loop (Z.to_nat (size / PGSIZE)) pagetable va (u64 (va + size - PGSIZE)) pa perm.

Definition kvmmap (kpgtbl va pa sz perm : Z) : M kmem unit :=
  let! r := mappages kpgtbl va sz pa perm in
  if negb (r =? 0) then panic "kvmmap" else ret tt.

(** ** Creating and unmapping *)

Definition uvmcreate : M kmem Z :=
  let! pagetable := kalloc in
  if pagetable =? 0 then ret 0
  else zero_page pagetable ;; ret pagetable.

Fixpoint uvmunmap_loop (fuel : nat) (pagetable a va_end : Z) (do_free : bool) : M kmem unit :=
  match fuel with
  | O => out_of_fuel
  | S f =>
      if a <? va_end then
        let! pte := walk pagetable a false in
        if pte =? 0 then uvmunmap_loop f pagetable (u64 (a + PGSIZE)) va_end do_free
        else
          let! v := rd64 pte in
          if negb (pte_has v PTE_V) then uvmunmap_loop f pagetable (u64 (a + PGSIZE)) va_end do_free
          else
            (if do_free then kfree (PTE2PA v) else ret tt) ;;
            wr64 pte 0 ;;
            uvmunmap_loop f pagetable (u64 (a + PGSIZE)) va_end do_free
      else ret tt
  end.

Definition uvmunmap (pagetable va npages : Z) (do_free : bool) : M kmem unit :=
  if negb (va mod PGSIZE =? 0) then panic "uvmunmap: not aligned"
  else uvmunmap_loop (S (Z.to_nat npages)) pagetable va (u64 (va + npages * PGSIZE)) do_free.

(** [int npages] is 32 bits wide; the callee's parameter is [uint64]. *)
Definition uvmdealloc (pagetable oldsz newsz : Z) : M kmem Z :=
  if oldsz <=? newsz then ret oldsz
  else
    (if PGROUNDUP newsz <? PGROUNDUP oldsz then
       let npages := i32 ((PGROUNDUP oldsz - PGROUNDUP newsz) / PGSIZE) in
       uvmunmap pagetable (PGROUNDUP newsz) (u64 npages) true
     else ret tt) ;;
    ret newsz.

Fixpoint uvmalloc_loop (fuel : nat) (pagetable a oldsz newsz xperm : Z) : M kmem Z :=
  match fuel with
  | O => out_of_fuel
  | S f =>
      if a <? newsz then
        let! mem := kalloc in
        if mem =? 0 then uvmdealloc pagetable a oldsz ;; ret 0
        else
          zero_page mem ;;
          let! r := mappages pagetable a PGSIZE mem (Z.lor (Z.lor PTE_R PTE_U) xperm) in
          if negb (r =? 0) then
            kfree mem ;;
            uvmdealloc pagetable a oldsz ;;
            ret 0
          else uvmalloc_loop f pagetable (u64 (a + PGSIZE)) oldsz newsz xperm
      else ret newsz
  end.

Definition uvmalloc (pagetable oldsz newsz xperm : Z) : M kmem Z :=
  if newsz <? oldsz then ret oldsz
  else
    let oldsz := PGROUNDUP oldsz in
    uvmalloc_loop (S (Z.to_nat ((newsz - oldsz + PGSIZE) / PGSIZE))) pagetable oldsz oldsz newsz xperm.

(** ** Freeing a page table *)

(** One pass over the 512 entries, [n] of them left; [sub] frees a lower-level
    table. *)
Fixpoint freewalk_entries (sub : Z -> M kmem unit) (pagetable : Z) (n : nat) : M kmem unit :=
  match n with
  | O => ret tt
  | S n' =>
      let i := 512 - Z.of_nat n in
      let! pte := rd64 (pte_addr pagetable i) in
      (if pte_has pte PTE_V && negb (pte_has pte (Z.lor PTE_R (Z.lor PTE_W PTE_X))) then
         sub (PTE2PA pte) ;;
         wr64 (pte_addr pagetable i) 0
       else if pte_has pte PTE_V then panic "freewalk: leaf"
       else ret tt) ;;
      freewalk_entries sub pagetable n'
  end.

(** The recursion follows the table's levels; three are enough for Sv39. *)
Fixpoint freewalk (level : nat) (pagetable : Z) : M kmem unit :=
  match level with
  | O => out_of_fuel
  | S level' =>
      freewalk_entries (freewalk level') pagetable 512 ;;
      kfree pagetable
  end.

Definition uvmfree (pagetable sz : Z) : M kmem unit :=
  (if 0 <? sz then uvmunmap pagetable 0 (PGROUNDUP sz / PGSIZE) true else ret tt) ;;
  freewalk 3 pagetable.

(** ** Copying an address space *)

Fixpoint uvmcopy_loop (fuel : nat) (old new i sz : Z) : M kmem Z :=
  match fuel with
  | O => out_of_fuel
  | S f =>
      if i <? sz then
        let! pte := walk old i false in
        if pte =? 0 then uvmcopy_loop f old new (u64 (i + PGSIZE)) sz
        else
          let! v := rd64 pte in
          if negb (pte_has v PTE_V) then uvmcopy_loop f old new (u64 (i + PGSIZE)) sz
          else
            let pa := PTE2PA v in
            let flags := PTE_FLAGS v in
            let! mem := kalloc in
            if mem =? 0 then uvmunmap new 0 (i / PGSIZE) true ;; ret (-1)
            else
              modify (fun s => set_phys (copy_range (phys s) mem pa PGSIZE) s) ;;
              let! r := mappages new i PGSIZE mem flags in
              if negb (r =? 0) then
                kfree mem ;;
                uvmunmap new 0 (i / PGSIZE) true ;;
                ret (-1)
              else uvmcopy_loop f old new (u64 (i + PGSIZE)) sz
      else ret 0
  end.

Definition uvmcopy (old new sz : Z) : M kmem Z :=
  uvmcopy_loop (S (Z.to_nat ((sz + PGSIZE) / PGSIZE))) old new 0 sz.

Definition uvmclear (pagetable va : Z) : M kmem unit :=
  let! pte := walk pagetable va false in
  if pte =? 0 then panic "uvmclear"
  else
    let! v := rd64 pte in
    wr64 pte (Z.land v (u64 (Z.lnot PTE_U))).

(** ** Lazy allocation *)

Definition vmfault (p : uvm) (pagetable va : Z) (read : bool) : M kmem Z :=
  if u_sz p <=? va then ret 0
  else
    let va := PGROUNDDOWN va in
    let! mapped := ismapped pagetable va in
    if c_true mapped then ret 0
    else
      let! mem := kalloc in
      if mem =? 0 then ret 0
      else
        zero_page mem ;;
        let! r := mappages (u_pagetable p) va PGSIZE mem (Z.lor (Z.lor PTE_W PTE_U) PTE_R) in
        if negb (r =? 0) then kfree mem ;; ret 0
        else ret mem.

(** ** Copying between the kernel and user space

    The kernel-side buffer is a list of bytes: [copyout] consumes it,
    [copyin] and [copyinstr] return the bytes they stored, also on failure. *)

Fixpoint copyout_loop (fuel : nat) (p : uvm) (pagetable dstva : Z) (src : list Z) : M kmem Z :=
  match fuel with
  | O => out_of_fuel
  | S f =>
      match src with
      | [] => ret 0
      | _ :: _ =>
          let va0 := PGROUNDDOWN dstva in
          if MAXVA <=? va0 then ret (-1)
          else
            let! pa := walkaddr pagetable va0 in
            let! pa0 := (if pa =? 0 then vmfault p pagetable va0 false else ret pa) in
            if pa0 =? 0 then ret (-1)
            else
              let! pte := walk pagetable va0 false in
              if pte =? 0 then panic "kerneltrap"  (* load through a null pointer *)
              else
              let! v := rd64 pte in
              if negb (pte_has v PTE_W) then ret (-1)
              else
                let n0 := u64 (PGSIZE - (dstva - va0)) in
                let len := Z.of_nat (length src) in
                let n := if len <? n0 then len else n0 in
                modify (fun s => set_phys (put_bytes (phys s) (pa0 + (dstva - va0))
                                             (firstn (Z.to_nat n) src)) s) ;;
                copyout_loop f p pagetable (u64 (va0 + PGSIZE)) (skipn (Z.to_nat n) src)
      end
  end.
Definition copyout (p : uvm) (pagetable dstva : Z) (src : list Z) : M kmem Z :=
  copyout_loop (S (length src)) p pagetable dstva src.

Fixpoint copyin_loop (fuel : nat) (p : uvm) (pagetable srcva len : Z) (dst : list Z)
    : M kmem (Z * list Z) :=
  match fuel with
  | O => out_of_fuel
  | S f =>
      if 0 <? len then
        let va0 := PGROUNDDOWN srcva in
        let! pa := walkaddr pagetable va0 in
        let! pa0 := (if pa =? 0 then vmfault p pagetable va0 false else ret pa) in
        if pa0 =? 0 then ret (-1, dst)
        else
          let n0 := u64 (PGSIZE - (srcva - va0)) in
          let n := if len <? n0 then len else n0 in
          let! bs := gets (fun s => get_bytes (phys s) (pa0 + (srcva - va0)) (Z.to_nat n)) in
          copyin_loop f p pagetable (u64 (va0 + PGSIZE)) (len - n) (dst ++ bs)
      else ret (0, dst)
  end.
Definition copyin (p : uvm) (pagetable srcva len : Z) : M kmem (Z * list Z) :=
  copyin_loop (S (Z.to_nat len)) p pagetable srcva len [].

(** The inner loop of [copyinstr]: up to [n] bytes from [p]; the flag tells
    whether the NUL was met. *)
Fixpoint copyinstr_page (n : nat) (m : memory) (p : Z) : list Z * bool :=
  match n with
  | O => ([], false)
  | S n' =>
      if load8 m p =? 0 then ([0], true)
      else let '(bs, got) := copyinstr_page n' m (p + 1) in (load8 m p :: bs, got)
  end.
Fixpoint copyinstr_loop (fuel : nat) (pagetable srcva max : Z) (dst : list Z)
    : M kmem (Z * list Z) :=
  match fuel with
  | O => out_of_fuel
  | S f =>
      if 0 <? max then
        let va0 := PGROUNDDOWN srcva in
        let! pa0 := walkaddr pagetable va0 in
        if pa0 =? 0 then ret (-1, dst)
        else
          let n0 := u64 (PGSIZE - (srcva - va0)) in
          let n := if max <? n0 then max else n0 in
          let! '(bs, got_null) := gets (fun s =>
             copyinstr_page (Z.to_nat n) (phys s) (pa0 + (srcva - va0))) in
          if (got_null : bool) then ret (0, dst ++ bs)
          else copyinstr_loop f pagetable (u64 (va0 + PGSIZE)) (max - n) (dst ++ bs)
      else ret (-1, dst)
  end.
Definition copyinstr (pagetable srcva max : Z) : M kmem (Z * list Z) :=
  copyinstr_loop (S (Z.to_nat max)) pagetable srcva max [].

(** ** The kernel page table at boot *)

Fixpoint proc_mapstacks_loop (n : nat) (kpgtbl i : Z) : M kmem unit :=
  match n with
  | O => ret tt
  | S n' =>
      let! pa := kalloc in
      if pa =? 0 then panic "kalloc"
      else
        kvmmap kpgtbl (KSTACK i) pa PGSIZE (Z.lor PTE_R PTE_W) ;;
        proc_mapstacks_loop n' kpgtbl (i + 1)
  end.
Definition proc_mapstacks (kpgtbl : Z) : M kmem unit :=
  proc_mapstacks_loop (Z.to_nat NPROC) kpgtbl 0.

Definition kvmmake : M kmem Z :=
  let! kpgtbl := kalloc in
  zero_page kpgtbl ;;
  kvmmap kpgtbl UART0 UART0 PGSIZE (Z.lor PTE_R PTE_W) ;;
  kvmmap kpgtbl VIRTIO0 VIRTIO0 PGSIZE (Z.lor PTE_R PTE_W) ;;
  kvmmap kpgtbl PLIC PLIC 67108864 (Z.lor PTE_R PTE_W) ;;
  kvmmap kpgtbl KERNBASE KERNBASE (etext - KERNBASE) (Z.lor PTE_R PTE_X) ;;
  kvmmap kpgtbl etext etext (PHYSTOP - etext) (Z.lor PTE_R PTE_W) ;;
  kvmmap kpgtbl TRAMPOLINE trampoline PGSIZE (Z.lor PTE_R PTE_X) ;;
  proc_mapstacks kpgtbl ;;
  ret kpgtbl.

End Vm.
