(* ===== verification/VmTables.v ===== *)
(** * The structure of page tables in memory

    [node m root path] follows a path of table indices from the root page; the
    tables of an address space are the pages reached by paths of length at most
    two.  [pt_inv] says that they are allocator pages, none of them free, and
    that no page is reached twice, so that a store into one entry changes the
    translation of exactly the addresses below it. *)
From S2P Require Import Prelude Machine Memory Kalloc Vm.

Fixpoint node (m : memory) (pt : Z) (path : list Z) : option Z :=
  match path with
  | [] => Some pt
  | i :: path' =>
      let v := load64 m (pte_addr pt i) in
      if pte_has v PTE_V then node m (PTE2PA v) path' else None
  end.

(** The path of the leaf table of an address, and the leaf entry itself:
    this is the translation the hardware performs. *)
Definition path_of (va : Z) : list Z := [PX 2 va; PX 1 va].
#[global] Arguments path_of : simpl never.
Definition leaf_slot (m : memory) (root va : Z) : option Z :=
  (fun p => pte_addr p (PX 0 va)) <$> node m root (path_of va).
Definition pte_of (m : memory) (root va : Z) : Z :=
  match leaf_slot m root va with Some a => load64 m a | None => 0 end.
Definition mapped (m : memory) (root va : Z) : bool := pte_has (pte_of m root va) PTE_V.

Definition okidx (i : Z) : Prop := 0 <= i < 512.
Definition okpath (path : list Z) : Prop := Forall okidx path /\ (length path <= 2)%nat.

Section Tables.
Context `{KI : KernelImage} `{KIO : !KernelImageOk}.

Definition is_node (m : memory) (root p : Z) : Prop :=
  exists path, okpath path /\ node m root path = Some p.

Definition PTE_RWX : Z := Z.lor PTE_R (Z.lor PTE_W PTE_X).
Definition dir_entry (path : list Z) (i pte : Z) : Prop :=
  pte_has pte PTE_RWX = false /\ (path = [] -> i < 256).

Record pt_inv (m : memory) (root : Z) (l : list Z) : Prop := {
  pt_valid : forall path p, okpath path -> node m root path = Some p -> valid_page p;
  pt_used : forall path p, okpath path -> node m root path = Some p -> p ∉ l;
  pt_inj : forall path path' p, okpath path -> okpath path' ->
    node m root path = Some p -> node m root path' = Some p -> path = path';
  (** Valid entries above the leaves are pointers to tables, and only the
      lower half of the root is used. *)
  pt_dir : forall path p i, okpath (path ++ [i]) -> node m root path = Some p ->
    pte_has (load64 m (pte_addr p i)) PTE_V = true -> dir_entry path i (load64 m (pte_addr p i))
}.

Lemma okpath_nil : okpath [].
Proof. split; [constructor | cbn; lia]. Qed.
Lemma okpath_path_of va : okpath (path_of va).
Proof. unfold path_of. split; [|cbn; lia]. repeat constructor; apply PX_range. Qed.
Lemma okpath_prefix p q : okpath (p ++ q) -> okpath p.
Proof.
  intros [Hf Hl]. apply Forall_app in Hf as [? _]. rewrite length_app in Hl. split; [done|lia].
Qed.
Lemma okpath_last p i : okpath (p ++ [i]) -> okidx i.
Proof. intros [Hf _]. apply Forall_app in Hf as [_ Hf]. by inversion Hf. Qed.
Hint Resolve okpath_nil okpath_path_of okpath_prefix : core.

Lemma node_app m pt p q : node m pt (p ++ q) = node m pt p ≫= fun r => node m r q.
Proof.
  revert pt. induction p as [|i p IH]; intros pt; [done|]. cbn.
  destruct (pte_has _ _); [apply IH | done].
Qed.

Lemma node_snoc m pt p i :
  node m pt (p ++ [i]) = node m pt p ≫= fun r =>
    if pte_has (load64 m (pte_addr r i)) PTE_V then Some (PTE2PA (load64 m (pte_addr r i))) else None.
Proof. rewrite node_app. destruct (node m pt p); [|done]. cbn. by destruct (pte_has _ _). Qed.

Lemma load_pte_frame (P : Z -> Prop) m m' q i :
  frame P m m' -> (forall p, P p -> valid_page p) -> valid_page q -> ~ P q -> okidx i ->
  load64 m' (pte_addr q i) = load64 m (pte_addr q i).
Proof. intros. unfold okidx in *. eapply frame_load64; eauto; [lia | mlia]. Qed.

(** Changes outside the tables leave every path as it was. *)
Lemma node_frame (P : Z -> Prop) m m' root path :
  frame P m m' -> (forall p, P p -> valid_page p) -> okpath path ->
  (forall q p, okpath q -> node m root q = Some p -> valid_page p /\ ~ P p) ->
  node m' root path = node m root path.
Proof.
  intros HF HP. induction path as [|i path IH] using rev_ind; intros Hok Hn; [done|].
  rewrite !node_snoc. rewrite IH by eauto.
  destruct (node m root path) as [r|] eqn:E; [|done]. cbn.
  destruct (Hn path r) as [Hv Hp]; eauto.
  pose proof (okpath_last _ _ Hok).
  by rewrite (load_pte_frame P m m' r i).
Qed.

(** A store into entry [i] of the table at path [pre]. *)
Section Update.
Context (m : memory) (root : Z) (l : list Z) (pre : list Z) (p i v : Z).
Hypothesis (Hinv : pt_inv m root l) (Hpre : okpath pre) (Hp : node m root pre = Some p)
           (Hi : okidx i).
Let m' := store64 m (pte_addr p i) v.

Lemma load_pte_other q j :
  valid_page q -> okidx j -> q <> p \/ j <> i ->
  load64 m' (pte_addr q j) = load64 m (pte_addr q j).
Proof.
  intros Hq Hj Hd. unfold m', pte_addr. apply load64_store64_ne. unfold okidx in *.
  destruct (decide (q = p)) as [->|Hne]; [lia|].
  destruct (pt_valid _ _ _ Hinv pre p Hpre Hp) as [Hpa _]. destruct Hq as [Hqa _].
  pose proof (page_aligned_dist q p Hqa Hpa Hne). mlia.
Qed.

Lemma node_update_other path :
  okpath path -> ~ (pre ++ [i]) `prefix_of` path ->
  node m' root path = node m root path.
Proof.
  induction path as [|j path IH] using rev_ind; intros Hok Hd; [done|].
  rewrite !node_snoc. rewrite IH; [|eauto|].
  2:{ intros Hpf. apply Hd. by apply prefix_app_r. }
  destruct (node m root path) as [r|] eqn:E; [|done]. cbn.
  pose proof (okpath_last _ _ Hok).
  rewrite load_pte_other; [done| |done|].
  { eapply (pt_valid _ _ _ Hinv path); eauto. }
  destruct (decide (r = p)) as [->|]; [right|by left]. intros ->.
  apply Hd. rewrite (pt_inj _ _ _ Hinv pre path p); eauto.
Qed.

Lemma node_update_pre : node m' root pre = Some p.
Proof.
  rewrite node_update_other; [done|done|]. intros Hpf. apply prefix_length in Hpf.
  rewrite length_app in Hpf. cbn in Hpf. lia.
Qed.

Lemma node_update_below rest :
  is_u64 v ->
  node m' root (pre ++ i :: rest) = if pte_has v PTE_V then node m' (PTE2PA v) rest else None.
Proof.
  intros Hv. rewrite node_app, node_update_pre. cbn.
  unfold m' at 1 2 3. rewrite load64_store64_same by done. done.
Qed.
End Update.

(** An all-zero table has no children. *)
Lemma node_zero m p path :
  (forall i, okidx i -> load64 m (pte_addr p i) = 0) -> Forall okidx path ->
  node m p path = match path with [] => Some p | _ => None end.
Proof.
  intros Hz Hf. destruct path as [|i path]; [done|]. cbn.
  inversion Hf; subst. by rewrite Hz.
Qed.

(** ** How the tables may grow *)

(** [tbl_grow m m' root l l']: the pages of [l] before [l'] were taken from the
    allocator and may have become tables of [root]; no table was lost, and the
    memory changed only in those pages and in the tables. *)
Record tbl_grow (m m' : memory) (root : Z) (l l' : list Z) : Prop := {
  tg_taken : exists t, l = t ++ l';
  tg_nodes : forall path p, okpath path -> node m root path = Some p -> node m' root path = Some p;
  tg_new : forall path p, okpath path -> node m' root path = Some p ->
    node m root path = Some p \/ (p ∈ l /\ p ∉ l');
  tg_frame : frame (fun p => (p ∈ l /\ p ∉ l') \/ is_node m root p) m m'
}.

Lemma tbl_grow_refl m root l : tbl_grow m m root l l.
Proof. split; auto. - by exists []. - apply frame_refl. Qed.

Lemma tbl_grow_trans m1 m2 m3 root l1 l2 l3 :
  tbl_grow m1 m2 root l1 l2 -> tbl_grow m2 m3 root l2 l3 -> tbl_grow m1 m3 root l1 l3.
Proof.
  intros [[t1 T1] N1 W1 F1] [[t2 T2] N2 W2 F2].
  assert (forall x, x ∈ l2 -> x ∈ l1) as S12. { intros. subst. set_solver. }
  assert (forall x, x ∈ l3 -> x ∈ l2) as S23. { intros. subst. set_solver. }
  split.
  - exists (t1 ++ t2). by rewrite <- app_assoc, <- T2.
  - eauto.
  - intros path p Hok Hn. apply W2 in Hn as [Hn|[Hn1 Hn2]]; [|right; auto|done].
    apply W1 in Hn as [Hn|[Hn1 Hn2]]; [by left|right; eauto|done].
  - eapply frame_trans; [eapply frame_mono; [|exact F1] | eapply frame_mono; [|exact F2]].
    + intros p [[? ?]|?]; [left|right]; auto.
    + intros p [[? ?]|(path & Hok & Hn)]; [left; auto|].
      apply W1 in Hn as [Hn|[? ?]]; [right|left|done]; [by exists path | auto].
Qed.

Lemma tg_subset m m' root l l' p : tbl_grow m m' root l l' -> p ∈ l' -> p ∈ l.
Proof. intros [[t ->] _ _ _]. set_solver. Qed.

Lemma tg_is_node m m' root l l' p :
  tbl_grow m m' root l l' -> is_node m' root p -> is_node m root p \/ (p ∈ l /\ p ∉ l').
Proof.
  intros G (path & Hok & Hn). eapply tg_new in Hn as [?|?]; eauto. left. by exists path.
Qed.

Lemma is_node_root m root : is_node m root root.
Proof. exists []. eauto. Qed.

(** Installing a zeroed page [pg], just taken from the free list, as a child. *)
Lemma install_table m m1 root l pg pre p i :
  pt_inv m root (pg :: l) -> okpath pre -> (length pre < 2)%nat -> node m root pre = Some p ->
  okidx i -> pte_has (load64 m (pte_addr p i)) PTE_V = false ->
  valid_page pg -> pg ∉ l -> (pre = [] -> i < 256) ->
  frame (eq pg) m m1 -> (forall j, okidx j -> load64 m1 (pte_addr pg j) = 0) ->
  let m' := store64 m1 (pte_addr p i) (Z.lor (PA2PTE pg) PTE_V) in
  pt_inv m' root l /\ tbl_grow m m' root (pg :: l) l /\
  (forall va, pte_of m' root va = pte_of m root va) /\ node m' root (pre ++ [i]) = Some pg.
Proof.
  intros Hinv Hpre Hlen Hp Hi Hinval Hpg Hnl Hlow HF Hz. cbn zeta.
  assert (Hpte : Z.lor (PA2PTE pg) PTE_V = mkpte pg 0). { unfold mkpte. by rewrite Z.lor_0_r. }
  rewrite Hpte. destruct (valid_page_range pg Hpg) as (_ & _ & Hpa).
  assert (is_perm 0) as H0 by (unfold is_perm; lia).
  assert (Hpgn : forall q r, okpath q -> node m root q = Some r -> valid_page r /\ pg <> r).
  { intros q r Hq Hn. split; [by eapply pt_valid|]. intros ->.
    eapply (pt_used _ _ _ Hinv); eauto. set_solver. }
  assert (Hsame : forall q, okpath q -> node m1 root q = node m root q).
  { intros q Hq. eapply node_frame; eauto. by intros r <-. }
  assert (Hinv1 : pt_inv m1 root l).
  { split.
    - intros q r Hq. rewrite Hsame by done. by apply Hinv.
    - intros q r Hq. rewrite Hsame by done. intros Hn Hin.
      eapply (pt_used _ _ _ Hinv); eauto. set_solver.
    - intros q q' r Hq Hq'. rewrite !Hsame by done. by apply Hinv.
    - intros q r j Hq. rewrite Hsame by eauto. intros Hn.
      rewrite (load_pte_frame (eq pg) m m1); [by apply Hinv|done|by intros ? <-| | |by eapply okpath_last].
      + by apply (Hpgn q r); eauto.
      + intros ->. by apply (Hpgn q r); eauto. }
  assert (Hp1 : node m1 root pre = Some p) by (by rewrite Hsame).
  set (m' := store64 m1 (pte_addr p i) (mkpte pg 0)).
  assert (Hpp : valid_page p) by (by eapply pt_valid).
  assert (Hzero : forall path, okpath path -> node m' pg path = match path with [] => Some pg | _ => None end).
  { intros path [Hf _]. apply node_zero; [|done]. intros j Hj. unfold m'.
    rewrite (load_pte_other m1 root l pre p i); auto. left. intros ->.
    by destruct (Hpgn pre p Hpre Hp). }
  assert (Hbelow : forall rest, okpath rest -> node m' root (pre ++ i :: rest) = match rest with [] => Some pg | _ => None end).
  { intros rest Hr. unfold m'. rewrite (node_update_below m1 root l) by eauto using mkpte_u64.
    rewrite pte_has_V_mkpte, PTE2PA_mkpte by done. by apply Hzero. }
  assert (Hcase : forall path r, okpath path -> node m' root path = Some r ->
    node m root path = Some r /\ r <> pg \/ path = pre ++ [i] /\ r = pg).
  { intros path r Hok Hn. destruct (decide ((pre ++ [i]) `prefix_of` path)) as [[rest ->]|Hnp].
    - rewrite <- app_assoc in *. cbn in *. rewrite Hbelow in Hn.
      + destruct rest; [|done]. right. injection Hn as <-. done.
      + destruct Hok as [Hf Hl]. apply Forall_app in Hf as [_ Hf]. inversion Hf; subst.
        rewrite length_app in Hl. cbn in Hl. split; [done|lia].
    - left. unfold m' in Hn. rewrite (node_update_other m1 root l pre p i) in Hn by done.
      rewrite Hsame in Hn by done. split; [done|]. destruct (Hpgn path r Hok Hn). congruence. }
  assert (Hold : forall path r, okpath path -> node m root path = Some r -> node m' root path = Some r).
  { intros path r Hok Hn. unfold m'. rewrite (node_update_other m1 root l pre p i); try done.
    - by rewrite Hsame.
    - intros [rest ->]. rewrite !node_app, Hp in Hn. cbn in Hn. by rewrite Hinval in Hn. }
  assert (okpath (pre ++ [i])).
  { destruct Hpre as [Hf Hl]. split; [apply Forall_app; split; [done|by constructor]|].
    rewrite length_app. cbn. lia. }
  split_and!.
  - split.
    + intros path r Hok Hn. apply Hcase in Hn as [[Hn _]|[_ ->]]; [|done|done].
      exact (pt_valid _ _ _ Hinv path r Hok Hn).
    + intros path r Hok Hn. apply Hcase in Hn as [[Hn _]|[_ ->]]; [|done|done].
      intros Hin. eapply (pt_used _ _ _ Hinv); eauto. set_solver.
    + intros path path' r Hok Hok' Hn Hn'.
      apply Hcase in Hn as [[Hn ?]|[-> ->]]; [| |done];
        apply Hcase in Hn' as [[Hn' ?]|[-> ?]]; try done. by eapply (pt_inj _ _ _ Hinv).
    + intros q r j Hq Hn. pose proof (okpath_last _ _ Hq) as Hj.
      apply Hcase in Hn as [[Hn Hr]|[-> ->]]; [| |by eauto].
      * destruct (decide (r = p /\ j = i)) as [[-> ->]|Hne].
        -- intros _. assert (q = pre) as -> by (eapply (pt_inj _ _ _ Hinv); eauto). unfold m'.
           rewrite load64_store64_same by (by apply mkpte_u64). split; [|done].
           rewrite pte_has_mkpte by (done || by split). done.
        -- unfold m'. rewrite (load_pte_other m1 root l pre p i); [|done|done|done|done| |done|].
           ++ apply (pt_dir _ _ _ Hinv1); [done|]. by rewrite Hsame by eauto.
           ++ eapply (pt_valid _ _ _ Hinv q); eauto.
           ++ destruct (decide (r = p)); [right|by left]. intros ->. by apply Hne.
      * unfold m'. rewrite (load_pte_other m1 root l pre p i), Hz by (done || (left; intros ->; by apply (Hpgn pre p))).
        by rewrite pte_has_0.
  - split.
    + by exists [pg].
    + done.
    + intros path r Hok Hn. apply Hcase in Hn as [[Hn _]|[_ ->]]; [by left | | done].
      right. split; [set_solver | done].
    + apply (frame_trans _ _ m1).
      * eapply frame_mono; [|exact HF]. intros r <-. left. split; [set_solver|done].
      * eapply frame_mono; [|apply (frame_store64 p); unfold okidx in Hi; mlia].
        intros r <-. right. by exists pre.
  - intros va. unfold pte_of, leaf_slot.
    assert (okpath (path_of va)) by done.
    destruct (node m' root (path_of va)) as [r|] eqn:E; cbn.
    * destruct (Hcase _ _ ltac:(done) E) as [[Hn Hr]|[Hpath ->]].
      -- rewrite Hn. cbn. unfold m'.
         rewrite (load_pte_other m1 root l pre p i); try done.
         ++ apply (load_pte_frame (eq pg)); [done|by intros ? <-| |by intros <-|apply PX_range].
            exact (pt_valid _ _ _ Hinv _ _ ltac:(done) Hn).
         ++ exact (pt_valid _ _ _ Hinv _ _ ltac:(done) Hn).
         ++ apply PX_range.
         ++ left. intros ->. assert (path_of va = pre) as Hpp'. { by eapply (pt_inj _ _ _ Hinv). }
            rewrite <- Hpp' in Hlen. unfold path_of in Hlen. cbn in Hlen. lia.
      -- rewrite Hpath. rewrite node_snoc, Hp. cbn. rewrite Hinval. cbn.
         unfold m'. rewrite (load_pte_other m1 root l pre p i); try done; [|apply PX_range|].
         ++ apply Hz. apply PX_range.
         ++ left. intros ->. by destruct (Hpgn pre p Hpre Hp).
    * destruct (node m root (path_of va)) as [r|] eqn:E'; [|done].
      apply Hold in E'; [congruence|done].
  - by apply (Hbelow []).
Qed.

End Tables.
