(* ===== verification/VmMap.v ===== *)
(** * Specifications of the mapping operations of kernel/vm.c

    [walk], [walkaddr], [ismapped], [mappages] and [uvmunmap] against the
    translation function [pte_of]: which entries change, what the allocator's
    free list becomes, and that none of the panics is reached. *)
From S2P Require Import Prelude Machine Memory Kalloc Vm VmTables.

Section VmMap.
Context `{KI : KernelImage} `{KIO : !KernelImageOk}.
Hint Resolve okpath_nil okpath_path_of : core.

(** ** Read-only walks *)

Lemma walk_ro s root va :
  0 <= va < MAXVA ->
  walk root va false s = Ok (default 0 (leaf_slot (phys s) root va), s).
Proof.
  intros Hva. unfold walk. rewrite (proj2 (Z.leb_gt _ _)) by lia.
  cbn [walk_loop]. unfold bind, rd64, gets, leaf_slot, path_of.
  change (Z.of_nat 2) with 2. change (Z.of_nat 1) with 1. cbn [node].
  destruct (pte_has (load64 _ (pte_addr root _)) _); [|done].
  by destruct (pte_has (load64 _ (pte_addr (PTE2PA _) _)) _).
Qed.

Lemma leaf_slot_inv m root va a :
  leaf_slot m root va = Some a ->
  exists p, node m root (path_of va) = Some p /\ a = pte_addr p (PX 0 va).
Proof.
  unfold leaf_slot. intros H. apply fmap_Some in H as (p & Hp & ->). eauto.
Qed.

Lemma leaf_slot_nonzero m root l va a :
  pt_inv m root l -> leaf_slot m root va = Some a -> a <> 0.
Proof.
  intros Hi Hs. apply leaf_slot_inv in Hs as (p & Hp & ->).
  destruct (valid_page_range p) as [? _]; [by eapply pt_valid|].
  pose proof (PX_range 0 va). unfold pte_addr. lia.
Qed.

Lemma pte_of_slot m root va a : leaf_slot m root va = Some a -> pte_of m root va = load64 m a.
Proof. unfold pte_of. by intros ->. Qed.

(** The user-visible physical page of [va]; 0 when there is none. *)
Definition uaddr (m : memory) (root va : Z) : Z :=
  let pte := pte_of m root va in
  if pte_has pte PTE_V && pte_has pte PTE_U then PTE2PA pte else 0.

Lemma walkaddr_spec s root l va :
  pt_inv (phys s) root l -> 0 <= va < MAXVA ->
  walkaddr root va s = Ok (uaddr (phys s) root va, s).
Proof.
  intros Hi Hva. unfold walkaddr. rewrite (proj2 (Z.leb_gt _ _)) by lia.
  unfold bind. rewrite walk_ro by done. unfold uaddr, pte_of.
  destruct (leaf_slot _ _ _) as [a|] eqn:E; cbn; [|done].
  rewrite (proj2 (Z.eqb_neq a 0)) by (by eapply leaf_slot_nonzero).
  unfold rd64, gets. destruct (pte_has _ PTE_V); [|done]. by destruct (pte_has _ PTE_U).
Qed.

Lemma walkaddr_high s root va : MAXVA <= va -> walkaddr root va s = Ok (0, s).
Proof. intros. unfold walkaddr. by rewrite (proj2 (Z.leb_le _ _)). Qed.

Lemma ismapped_spec s root l va :
  pt_inv (phys s) root l -> 0 <= va < MAXVA ->
  ismapped root va s = Ok ((if mapped (phys s) root va then 1 else 0), s).
Proof.
  intros Hi Hva. unfold ismapped, bind. rewrite walk_ro by done. unfold mapped, pte_of.
  destruct (leaf_slot _ _ _) as [a|] eqn:E; cbn; [|done].
  rewrite (proj2 (Z.eqb_neq a 0)) by (by eapply leaf_slot_nonzero).
  unfold rd64, gets. by destruct (pte_has _ PTE_V).
Qed.

(** ** Storing one leaf entry *)

Lemma same_page_PX va va' level :
  0 <= level -> 0 <= va < MAXVA -> 0 <= va' < MAXVA -> va' / PGSIZE = va / PGSIZE ->
  PX level va' = PX level va.
Proof.
  intros Hl Hv Hv' E. rewrite <- (PX_page level va), <- (PX_page level va') by mlia.
  rewrite !PGROUNDDOWN_spec by mlia.
  pose proof (Z.div_mod va PGSIZE ltac:(mlia)). pose proof (Z.div_mod va' PGSIZE ltac:(mlia)).
  f_equal. nia.
Qed.

Lemma pte_of_same_page m root va va' :
  0 <= va < MAXVA -> 0 <= va' < MAXVA -> va' / PGSIZE = va / PGSIZE ->
  pte_of m root va' = pte_of m root va.
Proof.
  intros Hv Hv' E. unfold pte_of, leaf_slot, path_of.
  by rewrite !(same_page_PX va va') by (done || lia).
Qed.

Lemma leaf_store s root l va a v :
  kmem_inv s l -> pt_inv (phys s) root l -> 0 <= va < MAXVA ->
  leaf_slot (phys s) root va = Some a -> is_u64 v ->
  let m' := store64 (phys s) a v in
  kmem_inv (set_phys m' s) l /\ pt_inv m' root l /\ tbl_grow (phys s) m' root l l /\
  (forall path, okpath path -> node m' root path = node (phys s) root path) /\
  (forall va', 0 <= va' < MAXVA ->
     pte_of m' root va' = if va' / PGSIZE =? va / PGSIZE then v else pte_of (phys s) root va').
Proof.
  intros HK Hi Hva Hs Hv. cbn zeta. destruct (leaf_slot_inv _ _ _ _ Hs) as (p & Hp & ->).
  set (m := phys s) in *. set (m' := store64 m (pte_addr p (PX 0 va)) v).
  assert (Hpv : valid_page p) by (eapply (pt_valid _ _ _ Hi); eauto).
  assert (Hidx : okidx (PX 0 va)) by apply PX_range.
  assert (Hnode : forall path, okpath path -> node m' root path = node m root path).
  { intros path Hok. eapply (node_update_other m root l (path_of va) p); eauto.
    intros Hpf. apply prefix_length in Hpf. rewrite length_app in Hpf.
    destruct Hok as [_ Hlen]. cbn in Hpf. unfold path_of in Hpf. cbn in Hpf. lia. }
  assert (HF : frame (eq p) m m') by (apply frame_store64; unfold okidx in Hidx; mlia).
  split_and!; [| | |done|].
  - eapply kmem_inv_frame; [exact HF|by intros ? <-| |done].
    intros q Hq <-. eapply (pt_used _ _ _ Hi); eauto.
  - split.
    + intros path q Hok. rewrite Hnode by done. by apply Hi.
    + intros path q Hok. rewrite Hnode by done. by apply Hi.
    + intros path path' q Hok Hok'. rewrite !Hnode by done. by apply Hi.
    + intros path q j Hok. pose proof (okpath_prefix _ _ Hok) as Hok'. rewrite Hnode by done. intros Hq.
      unfold m'. rewrite (load_pte_other m root l (path_of va) p); try done; [by apply Hi| |by eapply okpath_last|].
      * exact (pt_valid _ _ _ Hi path q Hok' Hq).
      * left. intros ->. pose proof (pt_inj _ _ _ Hi _ _ _ Hok' (okpath_path_of va) Hq Hp) as E.
        destruct Hok as [_ Hl]. rewrite length_app, E in Hl. unfold path_of in Hl. cbn in Hl. lia.
  - split.
    + by exists [].
    + intros path q Hok. by rewrite Hnode.
    + intros path q Hok. rewrite Hnode by done. by left.
    + eapply frame_mono; [|exact HF]. intros q <-. right. exists (path_of va). eauto.
  - intros va' Hva'. unfold pte_of at 1, leaf_slot. rewrite Hnode by done.
    destruct (va' / PGSIZE =? va / PGSIZE) eqn:E; breflect.
    + assert (path_of va' = path_of va) as ->.
      { unfold path_of. by rewrite !(same_page_PX va va') by (done || lia). }
      rewrite Hp. cbn. rewrite (same_page_PX va va') by (done || lia).
      by apply load64_store64_same.
    + unfold pte_of, leaf_slot. destruct (node m root (path_of va')) as [q|] eqn:Eq; [|done].
      cbn. eapply (load_pte_other m root l (path_of va)); eauto.
      * eapply (pt_valid _ _ _ Hi); eauto.
      * apply PX_range.
      * destruct (decide (q = p)) as [->|]; [right|by left]. intros E0. apply E.
        pose proof (pt_inj _ _ _ Hi _ _ _ ltac:(eauto) ltac:(eauto) Eq Hp) as Epath.
        unfold path_of in Epath. injection Epath as E2 E1. symmetry. by apply PX_inj.
Qed.

(** ** Walks that allocate *)

(** What an operation on the tables of [root] leaves invariant. *)
Record tbl_ok (s s' : kmem) (root : Z) (l l' : list Z) : Prop := {
  to_kmem : kmem_inv s' l';
  to_pt : pt_inv (phys s') root l';
  to_grow : tbl_grow (phys s) (phys s') root l l'
}.

Lemma tbl_ok_refl s root l : kmem_inv s l -> pt_inv (phys s) root l -> tbl_ok s s root l l.
Proof. intros. split; auto using tbl_grow_refl. Qed.
Lemma tbl_ok_trans s1 s2 s3 root l1 l2 l3 :
  tbl_ok s1 s2 root l1 l2 -> tbl_ok s2 s3 root l2 l3 -> tbl_ok s1 s3 root l1 l3.
Proof. intros [] []. split; eauto using tbl_grow_trans. Qed.

(** Addresses below [MAXVA] use the lower half of the root table. *)
Lemma PX2_low va : 0 <= va < MAXVA -> PX 2 va < 256.
Proof.
  intros Hva. rewrite PX_spec by mlia. change (2 ^ (12 + 9 * 2)) with 1073741824.
  assert (0 <= va / 1073741824 < 256) by (split; [apply Z.div_pos; lia|apply Z.div_lt_upper_bound; mlia]).
  rewrite Z.mod_small; lia.
Qed.

Lemma walk_loop_wp level s l root pre pt va :
  kmem_inv s l -> pt_inv (phys s) root l -> okpath pre ->
  node (phys s) root pre = Some pt -> (length pre + level = 2)%nat -> 0 <= va < MAXVA ->
  wp (walk_loop level pt va true) (fun r s' => exists l',
    tbl_ok s s' root l l' /\ (forall va', pte_of (phys s') root va' = pte_of (phys s) root va') /\
    (r = 0 /\ l' = [] \/
     exists p, node (phys s') root (pre ++ map (fun k => PX (Z.of_nat k) va) (rev (seq 1 level))) = Some p
               /\ r = pte_addr p (PX 0 va))) s.
Proof.
  revert s l pre pt. induction level as [|level IH]; intros s l pre pt HK Hi Hpre Hpt Hlen Hva.
  { cbn [walk_loop]. wp_steps. exists l. split_and!; [by apply tbl_ok_refl|done|]. right.
    exists pt. cbn. by rewrite app_nil_r. }
  cbn [walk_loop]. unfold rd64. wp_steps. set (i := PX (Z.of_nat (S level)) va).
  assert (Hidx : okidx i) by apply PX_range.
  assert (Hseq : rev (seq 1 (S level)) = S level :: rev (seq 1 level)).
  { rewrite seq_S, rev_app_distr. done. }
  assert (Hok' : okpath (pre ++ [i])).
  { destruct Hpre as [Hf Hl]. split; [apply Forall_app; split; [done|by constructor]|].
    rewrite length_app. cbn. lia. }
  assert (Hconv : forall m', node m' root (pre ++ map (fun k => PX (Z.of_nat k) va) (rev (seq 1 (S level)))) =
    node m' root ((pre ++ [i]) ++ map (fun k => PX (Z.of_nat k) va) (rev (seq 1 level)))).
  { intros m'. rewrite Hseq. cbn [map]. by rewrite <- app_assoc. }
  destruct (pte_has (load64 (phys s) (pte_addr pt i)) PTE_V) eqn:EV.
  - eapply wp_mono; [apply (IH s l (pre ++ [i]))|]; try done.
    + rewrite node_snoc, Hpt. cbn. by rewrite EV.
    + rewrite length_app. cbn. lia.
    + intros r s' (l' & H1 & H2 & H3). exists l'. by setoid_rewrite Hconv.
  - cbn [negb]. wp_steps. eapply wp_mono; [by apply kalloc_wp|]. cbn beta. intros pg s1.
    destruct l as [|pg' l].
    { intros [-> ->]. rewrite Z.eqb_refl. wp_steps. exists []. split_and!; [by apply tbl_ok_refl|done|].
      by left. }
    intros (-> & HK1 & HF1 & _). pose proof (ki_valid _ _ HK) as Hv. inversion Hv as [|?? Hpg Hvl]; subst.
    pose proof (ki_nodup _ _ HK) as Hnd. inversion Hnd; subst.
    destruct (valid_page_range pg') as [? _]; [done|].
    rewrite (proj2 (Z.eqb_neq pg' 0)) by lia. unfold zero_page, wr64. wp_steps. cbn [phys set_phys].
    set (m1 := fill_range (phys s1) pg' 0 PGSIZE).
    assert (HF : frame (eq pg') (phys s) m1).
    { eapply frame_trans; [exact HF1 | apply frame_fill]. }
    destruct (install_table (phys s) m1 root l pg' pre pt i) as (Hi2 & HG & Hleaf & Hn2); try done.
    { lia. }
    { intros ->. cbn in Hlen. assert (level = 1%nat) as -> by lia. by apply PX2_low. }
    { intros j Hj. unfold okidx in Hj. apply load64_fill0; unfold pte_addr; mlia. }
    set (s2 := set_phys _ _).
    assert (HK2 : kmem_inv s2 l).
    { assert (E2 : s2 = set_phys (phys s2) s1) by done. rewrite E2.
      eapply (kmem_inv_frame (fun q => q = pg' \/ q = pt)); [| | |done].
      - apply (frame_trans _ _ m1).
        + eapply frame_mono; [|apply frame_fill]. intros q <-. by left.
        + eapply frame_mono; [|apply (frame_store64 pt); unfold okidx in Hidx; mlia].
          intros q <-. by right.
      - intros q [->| ->]; [done|]. exact (pt_valid _ _ _ Hi pre pt Hpre Hpt).
      - intros q Hq [->| ->]; [done|]. apply (pt_used _ _ _ Hi pre pt Hpre Hpt). set_solver. }
    eapply wp_mono; [apply (IH s2 l (pre ++ [i]) pg')|]; try done.
    { rewrite length_app. cbn. lia. }
    intros r s' (l' & H1' & H2' & H3'). exists l'. setoid_rewrite Hconv. split_and!; [| |done].
    + eapply tbl_ok_trans; [|exact H1']. by split.
    + intros va'. rewrite H2'. apply Hleaf.
Qed.

Lemma walk_wp s l root va :
  kmem_inv s l -> pt_inv (phys s) root l -> 0 <= va < MAXVA ->
  wp (walk root va true) (fun r s' => exists l',
    tbl_ok s s' root l l' /\ (forall va', pte_of (phys s') root va' = pte_of (phys s) root va') /\
    (r = 0 /\ l' = [] \/ leaf_slot (phys s') root va = Some r)) s.
Proof.
  intros HK Hi Hva. unfold walk. rewrite (proj2 (Z.leb_gt _ _)) by lia.
  eapply wp_mono; [apply (walk_loop_wp 2 s l root []); eauto|].
  intros r s' (l' & H1 & H2 & H3). exists l'. split_and!; [done|done|].
  destruct H3 as [?|(p & Hp & ->)]; [by left|right].
  change (node (phys s') root (path_of va) = Some p) in Hp. unfold leaf_slot. by rewrite Hp.
Qed.

(** ** mappages *)

Lemma mappages_loop_wp n fuel s l root a pa perm :
  kmem_inv s l -> pt_inv (phys s) root l -> page_aligned a -> 0 <= a ->
  a + Z.of_nat (S n) * PGSIZE <= MAXVA -> (n < fuel)%nat ->
  (forall j, 0 <= j <= Z.of_nat n -> is_pa (pa + j * PGSIZE)) -> is_perm perm ->
  (forall va, a <= va < a + Z.of_nat (S n) * PGSIZE -> mapped (phys s) root va = false) ->
  wp (mappages_loop fuel root a (a + Z.of_nat n * PGSIZE) pa perm) (fun r s' => exists l' k,
    tbl_ok s s' root l l' /\
    (r = 0 /\ k = Z.of_nat (S n) \/ r = -1 /\ 0 <= k <= Z.of_nat n /\ l' = []) /\
    (forall va, 0 <= va < MAXVA -> pte_of (phys s') root va =
       if (a <=? va) && (va <? a + k * PGSIZE) then mkpte (pa + (va - a) / PGSIZE * PGSIZE) perm
       else pte_of (phys s) root va)) s.
Proof.
  revert fuel s l a pa. induction n as [|n IH];
    intros fuel s l a pa HK Hi Ha Ha0 Hhi Hf Hpa Hperm Hun;
    (destruct fuel as [|fuel]; [lia|]); cbn [mappages_loop]; wp_steps;
    (eapply wp_mono; [apply (walk_wp s l root a HK Hi); mlia|]); cbn beta;
    intros pte s1 (l1 & Hok1 & Hpte1 & Hr).
  all: destruct (pte =? 0) eqn:E0; breflect;
    [wp_steps; exists l1, 0; split_and!; [done| |]|].
  1,4: right; split_and!; try done; try lia; destruct Hr as [[_ ->]|Hr]; [done|];
    subst pte; exfalso; by eapply (leaf_slot_nonzero _ _ _ _ _ (to_pt _ _ _ _ _ Hok1) Hr).
  1,3: intros va Hva; rewrite Hpte1; rewrite Z.mul_0_l, Z.add_0_r; case_range; done || lia.
  all: destruct Hr as [[-> _]|Hr]; [done|]; unfold rd64, wr64; wp_steps.
  all: assert (Hua : pte_has (load64 (phys s1) pte) PTE_V = false) by
    (rewrite <- (pte_of_slot _ _ _ _ Hr), Hpte1; apply Hun; mlia); rewrite Hua; wp_steps.
  all: fold (mkpte pa perm).
  all: assert (Hpa0 : is_pa pa) by (rewrite <- (Z.add_0_r pa); apply (Hpa 0); lia).
  all: destruct (leaf_store s1 root l1 a pte (mkpte pa perm)) as (HK2 & Hi2 & HG2 & _ & Hpte2);
    [apply Hok1 | apply Hok1 | mlia | done | by apply mkpte_u64 |].
  all: set (s2 := set_phys _ s1) in *;
    assert (Hok2 : tbl_ok s s2 root l l1) by (eapply tbl_ok_trans; [exact Hok1|by split]).
  all: assert (Hdiv : forall va, (va / PGSIZE =? a / PGSIZE) = (a <=? va) && (va <? a + PGSIZE)) by
    (intros va; unfold page_aligned in Ha; apply Bool.eq_iff_eq_true;
     rewrite andb_true_iff, Z.eqb_eq, Z.leb_le, Z.ltb_lt;
     pose proof (Z.div_mod va PGSIZE ltac:(mlia)); pose proof (Z.div_mod a PGSIZE ltac:(mlia));
     pose proof (Z.mod_pos_bound va PGSIZE ltac:(mlia)); munfold; lia).
  - rewrite Z.mul_0_l, Z.add_0_r, Z.eqb_refl. wp_steps. exists l1, 1. split_and!; [done|by left|].
    intros va Hva. cbn in Hpte2 |- *. rewrite Hpte2, Hpte1, Hdiv, Z.mul_1_l by done.
    case_range; try done. rewrite (Z.div_small (va - a)) by lia. by rewrite Z.mul_0_l, Z.add_0_r.
  - rewrite (proj2 (Z.eqb_neq _ _)) by mlia.
    rewrite (u64_id (a + PGSIZE)) by mlia.
    rewrite (u64_id (pa + PGSIZE)).
    2:{ destruct (Hpa 1) as [? _]; [lia|]. mlia. }
    replace (a + Z.of_nat (S n) * PGSIZE) with (a + PGSIZE + Z.of_nat n * PGSIZE) by mlia.
    eapply wp_mono; [apply (IH fuel s2 l1 (a + PGSIZE) (pa + PGSIZE))|]; try done; try apply Hok2.
    + by apply page_aligned_add.
    + mlia.
    + mlia.
    + lia.
    + intros j Hj. replace (pa + PGSIZE + j * PGSIZE) with (pa + (j + 1) * PGSIZE) by lia. apply Hpa. lia.
    + intros va Hva. unfold mapped. cbn in Hpte2 |- *.
      rewrite Hpte2, Hdiv, Hpte1 by mlia. case_range; [lia| |]; apply Hun; mlia.
    + intros r s3 (l3 & k & Hok3 & Hrk & Hpte3).
      exists l3, (k + 1). split_and!.
      * by eapply tbl_ok_trans.
      * destruct Hrk as [[-> ->]|(-> & ? & ->)]; [left; split; [done|lia]|right; split_and!; try done; lia].
      * intros va Hva. rewrite Hpte3 by done. cbn in Hpte2 |- *. rewrite Hpte2, Hdiv, Hpte1 by done.
        assert (0 <= k) by (destruct Hrk as [[_ ->]|(_ & ? & _)]; lia).
        case_range; try done; try (exfalso; mlia).
        -- f_equal. pose proof (Z.div_add (va - a - PGSIZE) 1 PGSIZE ltac:(mlia)) as Hd.
           replace (va - a - PGSIZE + 1 * PGSIZE) with (va - a) in Hd by lia. rewrite Hd.
           replace (va - (a + PGSIZE)) with (va - a - PGSIZE) by lia. lia.
        -- rewrite (Z.div_small (va - a)) by lia. by rewrite Z.mul_0_l, Z.add_0_r.
Qed.

Lemma mappages_wp s l root va size pa perm :
  kmem_inv s l -> pt_inv (phys s) root l -> page_aligned va -> 0 <= va ->
  page_aligned size -> 0 < size -> va + size <= MAXVA ->
  is_pa pa -> pa + size <= 2 ^ 56 -> is_perm perm ->
  (forall va', va <= va' < va + size -> mapped (phys s) root va' = false) ->
  wp (mappages root va size pa perm) (fun r s' => exists l' done,
    tbl_ok s s' root l l' /\
    (r = 0 /\ done = size \/ r = -1 /\ 0 <= done < size /\ l' = []) /\
    (forall va', 0 <= va' < MAXVA -> pte_of (phys s') root va' =
       if (va <=? va') && (va' <? va + done)
       then mkpte (pa + (va' - va) / PGSIZE * PGSIZE) perm
       else pte_of (phys s) root va')) s.
Proof.
  intros HK Hi Ha Ha0 Hsa Hs0 Hhi Hpa Hpah Hperm Hun. unfold mappages.
  unfold page_aligned in Ha, Hsa. rewrite Ha, Hsa. cbn [negb Z.eqb].
  rewrite (proj2 (Z.eqb_neq size 0)) by lia.
  pose proof (Z.div_mod size PGSIZE ltac:(mlia)) as Hdm. rewrite Hsa in Hdm.
  assert (Hq : 0 < size / PGSIZE) by (munfold; lia).
  destruct (Z.to_nat (size / PGSIZE)) as [|n] eqn:En; [lia|].
  assert (Hn : size = Z.of_nat (S n) * PGSIZE).
  { rewrite <- En, Z2Nat.id by lia. lia. }
  clear En Hdm Hq Hsa. rewrite u64_id by mlia.
  replace (va + size - PGSIZE) with (va + Z.of_nat n * PGSIZE) by (munfold; lia).
  eapply wp_mono; [apply (mappages_loop_wp n (S n) s l root va pa perm)|]; try done; try lia.
  - intros j Hj. destruct Hpa as [Hr Hal]. split; [munfold; lia|].
    apply page_aligned_add; [done|]. unfold page_aligned. apply Z.mod_mul. mlia.
  - intros va' Hva'. apply Hun. munfold. lia.
  - intros r s' (l' & k & Hok & Hr & Hpte). exists l', (k * PGSIZE). split_and!; [done| |done].
    destruct Hr as [[-> ->]|(-> & ? & ->)]; [left; split; [done|munfold; lia]|right].
    split_and!; try done; munfold; lia.
Qed.

(** One page: the form used by every caller but the boot code. *)
Lemma mappages1_wp s l root va pa perm :
  kmem_inv s l -> pt_inv (phys s) root l -> page_aligned va -> 0 <= va -> va + PGSIZE <= MAXVA ->
  is_pa pa -> is_perm perm -> mapped (phys s) root va = false ->
  wp (mappages root va PGSIZE pa perm) (fun r s' => exists l',
    tbl_ok s s' root l l' /\
    ((r = 0 /\ forall va', 0 <= va' < MAXVA -> pte_of (phys s') root va' =
        if va' / PGSIZE =? va / PGSIZE then mkpte pa perm else pte_of (phys s) root va') \/
     (r = -1 /\ l' = [] /\
      forall va', 0 <= va' < MAXVA -> pte_of (phys s') root va' = pte_of (phys s) root va'))) s.
Proof.
  intros HK Hi Ha Ha0 Hhi Hpa Hperm Hun.
  assert (Hdiv : forall va', (va' / PGSIZE =? va / PGSIZE) = (va <=? va') && (va' <? va + PGSIZE)).
  { intros va'. unfold page_aligned in Ha. apply Bool.eq_iff_eq_true.
    rewrite andb_true_iff, Z.eqb_eq, Z.leb_le, Z.ltb_lt.
    pose proof (Z.div_mod va' PGSIZE ltac:(mlia)). pose proof (Z.div_mod va PGSIZE ltac:(mlia)).
    pose proof (Z.mod_pos_bound va' PGSIZE ltac:(mlia)). munfold. lia. }
  unfold mappages. unfold page_aligned in Ha. rewrite Ha.
  change (negb (0 =? 0)) with false. change (negb (PGSIZE mod PGSIZE =? 0)) with false.
  change (PGSIZE =? 0) with false. change (Z.to_nat (PGSIZE / PGSIZE)) with 1%nat. cbn iota.
  rewrite u64_id by mlia. replace (va + PGSIZE - PGSIZE) with (va + Z.of_nat 0 * PGSIZE) by lia.
  eapply wp_mono; [apply (mappages_loop_wp 0 1 s l root va pa perm)|]; try done; try mlia.
  - intros j Hj. assert (j = 0) as -> by lia. by rewrite Z.mul_0_l, Z.add_0_r.
  - intros va' Hva'. unfold mapped. rewrite (pte_of_same_page _ _ va va'); try mlia; [done|].
    apply Z.eqb_eq. rewrite Hdiv. apply andb_true_iff. rewrite Z.leb_le, Z.ltb_lt. mlia.
  - intros r s' (l' & k & Hok & Hr & Hpte). exists l'. split; [done|].
    destruct Hr as [[-> ->]|(-> & ? & ->)]; [left|right].
    + split; [done|]. intros va' Hva'. rewrite Hpte, Hdiv by done. change (Z.of_nat 1 * PGSIZE) with PGSIZE.
      case_range; try done. rewrite (Z.div_small (va' - va)) by lia. by rewrite Z.mul_0_l, Z.add_0_r.
    + split_and!; try done. intros va' Hva'. rewrite Hpte by done. assert (k = 0) as -> by lia.
      rewrite Z.mul_0_l, Z.add_0_r. case_range; done || lia.
Qed.

(** Mapping over a valid entry is the panic of the code. *)
Lemma mappages_remap_panics s root l va size pa perm :
  pt_inv (phys s) root l -> page_aligned va -> 0 <= va < MAXVA -> page_aligned size -> 0 < size ->
  mapped (phys s) root va = true ->
  mappages root va size pa perm s = Panic "mappages: remap".
Proof.
  intros Hi Ha Hva Hsa Hs0 Hm. unfold mappages.
  unfold page_aligned in Ha, Hsa. rewrite Ha, Hsa. cbn [negb Z.eqb].
  rewrite (proj2 (Z.eqb_neq size 0)) by lia.
  pose proof (Z.div_mod size PGSIZE ltac:(mlia)) as Hdm. rewrite Hsa in Hdm.
  destruct (Z.to_nat (size / PGSIZE)) as [|n] eqn:En; [munfold; lia|].
  cbn [mappages_loop].
  unfold mapped, pte_of, leaf_slot in Hm.
  destruct (node (phys s) root (path_of va)) as [p0|] eqn:En2; [|done]. cbn in Hm.
  assert (Hw : walk root va true s = Ok (pte_addr p0 (PX 0 va), s)).
  { unfold walk. rewrite (proj2 (Z.leb_gt _ _)) by lia. cbn [walk_loop].
    unfold bind, rd64, gets. change (Z.of_nat 2) with 2. change (Z.of_nat 1) with 1.
    unfold path_of in En2. cbn [node] in En2.
    destruct (pte_has (load64 _ (pte_addr root _)) _); [|done].
    destruct (pte_has (load64 _ (pte_addr (PTE2PA _) _)) _); [|done]. by injection En2 as <-. }
  unfold bind at 1. rewrite Hw.
  rewrite (proj2 (Z.eqb_neq (pte_addr p0 _) 0)).
  2:{ eapply (leaf_slot_nonzero (phys s) root l va); [done|]. unfold leaf_slot. by rewrite En2. }
  unfold bind, rd64, gets. by rewrite Hm.
Qed.

End VmMap.
