(* ===== verification/VmUser.v ===== *)
(** * User address spaces: invariant and the operations that grow and shrink them

    [as_inv m root l]: besides the table structure, the pages mapped below the
    trapframe are allocator pages, none of them free or a table, and no page is
    mapped twice.  [uvmcreate], [uvmunmap], [uvmdealloc], [uvmalloc] and
    [vmfault] preserve it; their effect on the translation is stated for every
    address, and their effect on the free list exactly. *)
From S2P Require Import Prelude Machine Memory Kalloc Vm VmTables VmMap.

Section VmUser.
Context `{KI : KernelImage} `{KIO : !KernelImageOk}.
Hint Resolve okpath_nil okpath_path_of : core.

Definition pa_of (m : memory) (root va : Z) : Z := PTE2PA (pte_of m root va).
Definition in_user (va : Z) : Prop := 0 <= va < TRAPFRAME.

Record as_inv (m : memory) (root : Z) (l : list Z) : Prop := {
  as_pt : pt_inv m root l;
  as_leaf : forall va, in_user va -> mapped m root va = true ->
    valid_page (pa_of m root va) /\ (pa_of m root va ∉ l) /\ ~ is_node m root (pa_of m root va);
  as_inj : forall va va', in_user va -> in_user va' ->
    mapped m root va = true -> mapped m root va' = true ->
    pa_of m root va = pa_of m root va' -> va / PGSIZE = va' / PGSIZE
}.

(** A page that the address space does not use yet. *)
Record fresh (m : memory) (root : Z) (l : list Z) (pg : Z) : Prop := {
  fr_valid : valid_page pg;
  fr_used : pg ∉ l;
  fr_node : ~ is_node m root pg;
  fr_leaf : forall va, in_user va -> mapped m root va = true -> pa_of m root va <> pg
}.

Lemma in_user_MAXVA va : in_user va -> 0 <= va < MAXVA.
Proof. unfold in_user. mlia. Qed.
Hint Resolve in_user_MAXVA : core.

Lemma as_inv_ext m m' root l l' :
  as_inv m root l -> pt_inv m' root l' ->
  (forall va, in_user va -> pte_of m' root va = pte_of m root va) ->
  (forall p, is_node m' root p -> is_node m root p \/ (p ∈ l /\ p ∉ l')) ->
  (forall p, p ∈ l' -> p ∈ l) ->
  as_inv m' root l'.
Proof.
  intros [Hp Hl Hj] Hp' Hpte Hn Hs. split; [done| |].
  - intros va Hu. unfold mapped, pa_of. rewrite Hpte by done. intros Hm.
    destruct (Hl va Hu Hm) as (H1 & H2 & H3). split_and!; [done|by intros ?%Hs|].
    intros [?|[? ?]]%Hn; done.
  - intros va va' Hu Hu'. unfold mapped, pa_of. rewrite !Hpte by done. by apply Hj.
Qed.

Lemma as_grow s s' root l l' :
  as_inv (phys s) root l -> tbl_ok s s' root l l' ->
  (forall va, in_user va -> pte_of (phys s') root va = pte_of (phys s) root va) ->
  as_inv (phys s') root l'.
Proof.
  intros Ha Ht Hpte. eapply as_inv_ext; eauto.
  - apply Ht. - intros p. eapply tg_is_node, Ht. - intros p. eapply tg_subset, Ht.
Qed.

(** The entries above the leaves are unchanged. *)
Definition dirs_eq (m m' : memory) (root : Z) : Prop :=
  forall path p i, okpath (path ++ [i]) -> node m root path = Some p ->
    load64 m' (pte_addr p i) = load64 m (pte_addr p i).

(** Changes inside pages that are no tables: the structure is untouched. *)
Lemma node_frame_inv (P : Z -> Prop) m m' root l :
  pt_inv m root l -> frame P m m' -> (forall p, P p -> valid_page p) ->
  (forall p, P p -> ~ is_node m root p) ->
  (forall path, okpath path -> node m' root path = node m root path) /\
  (forall va, pte_of m' root va = pte_of m root va) /\ dirs_eq m m' root.
Proof.
  intros Hi HF HP Hn.
  assert (Hnode : forall path, okpath path -> node m' root path = node m root path).
  { intros path Hok. apply (node_frame P); try done. intros q p Hq Hnq.
    split; [exact (pt_valid _ _ _ Hi q p Hq Hnq)|]. intros HPp. apply (Hn p HPp). by exists q. }
  split_and!; [done| |].
  - intros va. unfold pte_of, leaf_slot. rewrite Hnode by done.
    destruct (node m root (path_of va)) as [p|] eqn:E; [|done]. cbn.
    apply (load_pte_frame P); try done.
    + exact (pt_valid _ _ _ Hi _ _ (okpath_path_of va) E).
    + intros HPp. apply (Hn p HPp). exists (path_of va). eauto.
    + apply PX_range.
  - intros path p i Hok Hp. pose proof (okpath_prefix _ _ Hok) as Hok'.
    apply (load_pte_frame P); try done; [exact (pt_valid _ _ _ Hi _ _ Hok' Hp)| |by eapply okpath_last].
    intros HPp. apply (Hn p HPp). by exists path.
Qed.

Lemma pt_inv_node_eq m m' root l l' :
  pt_inv m root l -> (forall path, okpath path -> node m' root path = node m root path) ->
  dirs_eq m m' root -> (forall p, p ∈ l' -> p ∈ l \/ ~ is_node m root p) -> pt_inv m' root l'.
Proof.
  intros Hi Hn Hd Hl. split.
  - intros path p Hok. rewrite Hn by done. by apply Hi.
  - intros path p Hok. rewrite Hn by done. intros Hp [Hin|Hnn]%Hl.
    + by eapply (pt_used _ _ _ Hi). + apply Hnn. by exists path.
  - intros path path' p Hok Hok'. rewrite !Hn by done. by apply Hi.
  - intros path p i Hok. rewrite Hn by (by eapply okpath_prefix). intros Hp. rewrite (Hd path p i Hok Hp).
    by apply Hi.
Qed.

Lemma is_node_eq m m' root p :
  (forall path, okpath path -> node m' root path = node m root path) ->
  is_node m' root p <-> is_node m root p.
Proof. intros Hn. split; intros (path & Hok & H); exists path; (split; [done|]); by rewrite ?Hn in *. Qed.

(** Taking a page off the free list and filling it. *)
Lemma as_pop m m1 root pg l :
  as_inv m root (pg :: l) -> NoDup (pg :: l) -> valid_page pg -> frame (eq pg) m m1 ->
  as_inv m1 root l /\ fresh m1 root l pg /\
  (forall path, okpath path -> node m1 root path = node m root path) /\
  (forall va, pte_of m1 root va = pte_of m root va).
Proof.
  intros Ha Hnd Hv HF. apply NoDup_cons in Hnd as [Hnin _].
  assert (Hnn : forall p, pg = p -> ~ is_node m root p).
  { intros p <- (path & Hok & Hn). eapply (pt_used _ _ _ (as_pt _ _ _ Ha)); eauto. set_solver. }
  destruct (node_frame_inv (eq pg) m m1 root (pg :: l)) as (Hn & Hpte & Hdirs); try done.
  { apply Ha. } { by intros p <-. }
  split_and!; [| |done|done].
  - eapply as_inv_ext; [exact Ha| |by intros; apply Hpte| |set_solver].
    + eapply pt_inv_node_eq; [apply Ha|done|done|set_solver].
    + intros p. rewrite (is_node_eq m m1) by done. by left.
  - split; try done.
    + rewrite (is_node_eq m m1) by done. by apply Hnn.
    + intros va Hu. unfold mapped, pa_of. rewrite !Hpte. intros Hm Hc.
      destruct (as_leaf _ _ _ Ha va Hu Hm) as (_ & Hin & _). apply Hin. unfold pa_of.
      rewrite Hc. set_solver.
Qed.

(** ** uvmcreate *)

Lemma uvmcreate_wp s l :
  kmem_inv s l ->
  wp uvmcreate (fun r s' =>
    match l with
    | [] => r = 0 /\ s' = s
    | pg :: l' => r = pg /\ kmem_inv s' l' /\ as_inv (phys s') pg l' /\
                  (forall va, pte_of (phys s') pg va = 0) /\
                  frame (eq pg) (phys s) (phys s') /\
                  (forall path, okpath path -> node (phys s') pg path =
                     match path with [] => Some pg | _ => None end)
    end) s.
Proof.
  intros HK. unfold uvmcreate. wp_steps. eapply wp_mono; [by apply kalloc_wp|]. cbn beta. intros r s1.
  destruct l as [|pg l]. { intros [-> ->]. rewrite Z.eqb_refl. wp_steps. done. }
  intros (-> & HK1 & HF1 & _). pose proof (ki_valid _ _ HK) as Hv. inversion Hv as [|?? Hpg Hvl]; subst.
  pose proof (ki_nodup _ _ HK) as Hnd. inversion Hnd; subst.
  destruct (valid_page_range pg) as [? _]; [done|].
  rewrite (proj2 (Z.eqb_neq pg 0)) by lia. unfold zero_page. wp_steps. cbn [phys set_phys].
  set (m1 := fill_range (phys s1) pg 0 PGSIZE).
  assert (Hnode : forall path, okpath path -> node m1 pg path = match path with [] => Some pg | _ => None end).
  { intros path [Hf _]. apply node_zero; [|done]. intros i Hi. unfold okidx in Hi.
    apply load64_fill0; unfold pte_addr; mlia. }
  assert (Hpte : forall va, pte_of m1 pg va = 0).
  { intros va. unfold pte_of, leaf_slot. by rewrite Hnode. }
  split_and!; try done.
  - eapply kmem_inv_frame; [apply frame_fill| by intros ? <- | by intros ? ? <- | done].
  - split.
    + split.
      * intros path p Hok. rewrite Hnode by done. destruct path; [|done]. by intros [= <-].
      * intros path p Hok. rewrite Hnode by done. destruct path; [|done]. by intros [= <-].
      * intros path path' p Hok Hok'. rewrite !Hnode by done. by destruct path, path'.
      * intros path p i Hok. rewrite Hnode by (by eapply okpath_prefix). destruct path; [|done]. intros [= <-].
        pose proof (okpath_last _ _ Hok) as Hi. unfold okidx in Hi. unfold m1. rewrite load64_fill0 by (unfold pte_addr; mlia).
        by rewrite pte_has_0.
    + intros va Hu. unfold mapped. by rewrite Hpte.
    + intros va va' Hu Hu'. unfold mapped. by rewrite Hpte.
  - eapply frame_trans; [exact HF1|apply frame_fill].
Qed.

(** ** uvmunmap *)

(** The physical pages of the mapped pages among [n] from [a], in order. *)
Fixpoint mapped_pages (m : memory) (root a : Z) (n : nat) : list Z :=
  match n with
  | O => []
  | S n' => (if mapped m root a then [pa_of m root a] else []) ++ mapped_pages m root (a + PGSIZE) n'
  end.

Lemma mapped_pages_ext m m' root a n :
  (forall i, 0 <= i < Z.of_nat n -> pte_of m' root (a + i * PGSIZE) = pte_of m root (a + i * PGSIZE)) ->
  mapped_pages m' root a n = mapped_pages m root a n.
Proof.
  revert a. induction n as [|n IH]; intros a H; [done|]. cbn [mapped_pages].
  unfold mapped, pa_of. pose proof (H 0 ltac:(lia)) as H0. rewrite Z.mul_0_l, Z.add_0_r in H0.
  rewrite H0. f_equal. apply IH. intros i Hi. specialize (H (i + 1)).
  replace (a + (i + 1) * PGSIZE) with (a + PGSIZE + i * PGSIZE) in H by lia. apply H. lia.
Qed.

Lemma elem_of_mapped_pages m root a n p :
  p ∈ mapped_pages m root a n <->
  exists i, 0 <= i < Z.of_nat n /\ mapped m root (a + i * PGSIZE) = true /\
            p = pa_of m root (a + i * PGSIZE).
Proof.
  revert a. induction n as [|n IH]; intros a; cbn [mapped_pages].
  { split; [by intros ?%not_elem_of_nil | intros (i & ? & _); lia]. }
  rewrite elem_of_app, IH. split.
  - intros [H|(i & Hi & Hm & ->)].
    + exists 0. rewrite Z.mul_0_l, Z.add_0_r. destruct (mapped m root a); set_solver by lia.
    + exists (i + 1). replace (a + (i + 1) * PGSIZE) with (a + PGSIZE + i * PGSIZE) by lia.
      split; [lia|done].
  - intros (i & Hi & Hm & ->). destruct (decide (i = 0)) as [->|].
    + left. rewrite Z.mul_0_l, Z.add_0_r in *. rewrite Hm. set_solver.
    + right. exists (i - 1). replace (a + PGSIZE + (i - 1) * PGSIZE) with (a + i * PGSIZE) by lia.
      split; [lia|done].
Qed.

Lemma div_page_range a va :
  page_aligned a -> (va / PGSIZE =? a / PGSIZE) = (a <=? va) && (va <? a + PGSIZE).
Proof.
  intros Ha. unfold page_aligned in Ha. apply Bool.eq_iff_eq_true.
  rewrite andb_true_iff, Z.eqb_eq, Z.leb_le, Z.ltb_lt.
  pose proof (Z.div_mod va PGSIZE ltac:(mlia)). pose proof (Z.div_mod a PGSIZE ltac:(mlia)).
  pose proof (Z.mod_pos_bound va PGSIZE ltac:(mlia)). munfold. lia.
Qed.

Lemma next_page_div a i : 0 <= i -> ((a + PGSIZE + i * PGSIZE) / PGSIZE =? a / PGSIZE) = false.
Proof.
  intros Hi. apply Z.eqb_neq. replace (a + PGSIZE + i * PGSIZE) with (a + (1 + i) * PGSIZE) by lia.
  rewrite Z.div_add by mlia. lia.
Qed.

(** An address of the first page of a range, and of its other pages. *)
Lemma range_cons a va k :
  page_aligned a -> 0 <= k ->
  (a <=? va) && (va <? a + PGSIZE + k) =
  (va / PGSIZE =? a / PGSIZE) || ((a + PGSIZE <=? va) && (va <? a + PGSIZE + k)).
Proof.
  intros Ha Hk. rewrite div_page_range by done. apply Bool.eq_iff_eq_true.
  rewrite orb_true_iff, !andb_true_iff, !Z.leb_le, !Z.ltb_lt. munfold. lia.
Qed.

Lemma range_tail_other a va k :
  page_aligned a -> va / PGSIZE = a / PGSIZE -> (a + PGSIZE <=? va) && (va <? k) = false.
Proof.
  intros Ha Hd. pose proof (div_page_range a va Ha) as H. rewrite Hd, Z.eqb_refl in H.
  symmetry in H. apply andb_true_iff in H as [_ H%Z.ltb_lt]. apply andb_false_iff. left. lia.
Qed.

(** Freeing one mapped page and clearing its entry. *)
Lemma unmap_one s l root a slot :
  kmem_inv s l -> as_inv (phys s) root l -> page_aligned a -> in_user a ->
  leaf_slot (phys s) root a = Some slot -> mapped (phys s) root a = true ->
  let pa := pa_of (phys s) root a in
  wp (kfree pa ;; wr64 slot 0) (fun _ s' =>
    kmem_inv s' (pa :: l) /\ as_inv (phys s') root (pa :: l) /\
    (forall va, 0 <= va < MAXVA -> pte_of (phys s') root va =
       if va / PGSIZE =? a / PGSIZE then 0 else pte_of (phys s) root va) /\
    (forall path, okpath path -> node (phys s') root path = node (phys s) root path) /\
    frame (fun p => p = pa \/ is_node (phys s) root p) (phys s) (phys s')) s.
Proof.
  intros HK Has Ha Hu Hs Hm. cbn zeta. set (pa := pa_of (phys s) root a).
  destruct (as_leaf _ _ _ Has a Hu Hm) as (Hpv & Hpl & Hpn). fold pa in Hpv, Hpl, Hpn.
  wp_steps. eapply wp_mono; [by apply (kfree_wp s l pa)|]. cbn beta. intros _ s1 [HK1 HF1].
  unfold wr64. wp_steps. cbn [phys set_phys].
  destruct (node_frame_inv (eq pa) (phys s) (phys s1) root l) as (Hn1 & Hpte1 & Hdirs1); try done.
  { apply Has. } { by intros ? <-. } { by intros ? <-. }
  assert (Hpt1 : pt_inv (phys s1) root (pa :: l)).
  { eapply pt_inv_node_eq; [apply Has|done|done|]. intros p [->|?]%elem_of_cons; [by right|by left]. }
  assert (Hs1 : leaf_slot (phys s1) root a = Some slot).
  { unfold leaf_slot in *. by rewrite Hn1. }
  destruct (leaf_store s1 root (pa :: l) a slot 0) as (HK2 & Hi2 & _ & Hn2 & Hpte2); try done.
  { by apply in_user_MAXVA. }
  set (m2 := store64 (phys s1) slot 0) in *.
  assert (Hpte : forall va, 0 <= va < MAXVA -> pte_of m2 root va =
       if va / PGSIZE =? a / PGSIZE then 0 else pte_of (phys s) root va).
  { intros va Hva. rewrite Hpte2, Hpte1 by done. done. }
  assert (Hn : forall path, okpath path -> node m2 root path = node (phys s) root path).
  { intros path Hok. by rewrite Hn2, Hn1. }
  split_and!; try done.
  - split; [done| |].
    + intros va Hva. unfold mapped, pa_of. rewrite Hpte by auto.
      destruct (_ =? _) eqn:E; [done|]. breflect. intros Hm'.
      destruct (as_leaf _ _ _ Has va Hva Hm') as (H1 & H2 & H3). split_and!; [done| |].
      * intros [Heq|?]%elem_of_cons; [|done]. apply E. by apply (as_inj _ _ _ Has).
      * by rewrite (is_node_eq (phys s) m2).
    + intros va va' Hva Hva'. unfold mapped, pa_of. rewrite !Hpte by auto.
      destruct (va / PGSIZE =? _); [done|]. destruct (va' / PGSIZE =? _); [done|].
      by apply (as_inj _ _ _ Has).
  - apply (frame_trans _ _ (phys s1)); [eapply frame_mono; [|exact HF1]; intros p <-; by left|].
    destruct (leaf_slot_inv _ _ _ _ Hs1) as (p & Hp & ->).
    eapply frame_mono; [|apply (frame_store64 p); pose proof (PX_range 0 a); mlia].
    intros q <-. right. rewrite <- (is_node_eq (phys s) (phys s1)) by done. exists (path_of a). eauto.
Qed.

Lemma uvmunmap_loop_wp n fuel s l root a :
  kmem_inv s l -> as_inv (phys s) root l -> page_aligned a -> 0 <= a ->
  a + Z.of_nat n * PGSIZE <= TRAPFRAME -> (n < fuel)%nat ->
  wp (uvmunmap_loop fuel root a (a + Z.of_nat n * PGSIZE) true) (fun _ s' =>
    let l' := reverse (mapped_pages (phys s) root a n) ++ l in
    kmem_inv s' l' /\ as_inv (phys s') root l' /\
    (forall va, 0 <= va < MAXVA -> pte_of (phys s') root va =
       if (a <=? va) && (va <? a + Z.of_nat n * PGSIZE) && mapped (phys s) root va
       then 0 else pte_of (phys s) root va) /\
    (forall path, okpath path -> node (phys s') root path = node (phys s) root path) /\
    frame (fun p => p ∈ mapped_pages (phys s) root a n \/ is_node (phys s) root p)
      (phys s) (phys s')) s.
Proof.
  revert fuel s l a. induction n as [|n IH]; intros fuel s l a HK Has Ha Ha0 Hhi Hf;
    (destruct fuel as [|fuel]; [lia|]); cbn [uvmunmap_loop].
  { rewrite Z.mul_0_l, Z.add_0_r, Z.ltb_irrefl. wp_steps. cbn. split_and!; try done.
    intros va Hva. case_range; done || lia. }
  rewrite (proj2 (Z.ltb_lt _ _)) by mlia. wp_steps.
  assert (Hu : in_user a) by (unfold in_user; mlia).
  unfold wp at 1. rewrite walk_ro by auto.
  rewrite (u64_id (a + PGSIZE)) by mlia.
  replace (a + Z.of_nat (S n) * PGSIZE) with (a + PGSIZE + Z.of_nat n * PGSIZE) by lia.
  assert (Hskip : mapped (phys s) root a = false ->
    wp (uvmunmap_loop fuel root (a + PGSIZE) (a + PGSIZE + Z.of_nat n * PGSIZE) true) (fun _ s' =>
    let l' := reverse (mapped_pages (phys s) root a (S n)) ++ l in
    kmem_inv s' l' /\ as_inv (phys s') root l' /\
    (forall va, 0 <= va < MAXVA -> pte_of (phys s') root va =
       if (a <=? va) && (va <? a + PGSIZE + Z.of_nat n * PGSIZE) && mapped (phys s) root va
       then 0 else pte_of (phys s) root va) /\
    (forall path, okpath path -> node (phys s') root path = node (phys s) root path) /\
    frame (fun p => p ∈ mapped_pages (phys s) root a (S n) \/ is_node (phys s) root p)
      (phys s) (phys s')) s).
  { intros Hm. eapply wp_mono; [apply (IH fuel s l (a + PGSIZE));
      [done|done|by apply page_aligned_add|mlia|mlia|lia]|].
    intros _ s' (H1 & H2 & H3 & H4 & H5). cbn [mapped_pages]. rewrite Hm. cbn [app].
    split_and!; try done. intros va Hva. rewrite H3, (range_cons a) by (done || (clear; mlia)).
    destruct (va / PGSIZE =? a / PGSIZE) eqn:E; cbn [orb]; [|reflexivity].
    breflect. assert (mapped (phys s) root va = false) as ->.
    { unfold mapped. by rewrite (pte_of_same_page _ _ a va) by auto. }
    by rewrite !andb_false_r. }
  destruct (leaf_slot (phys s) root a) as [slot|] eqn:Es; cbn [from_option id].
  2:{ rewrite Z.eqb_refl. apply Hskip. unfold mapped, pte_of. by rewrite Es. }
  rewrite (proj2 (Z.eqb_neq slot 0)) by (eapply leaf_slot_nonzero; [apply Has|done]).
  unfold rd64. wp_steps. rewrite <- (pte_of_slot _ _ _ _ Es). fold (mapped (phys s) root a).
  destruct (mapped (phys s) root a) eqn:Em; cbn [negb]; [|by apply Hskip].
  fold (pa_of (phys s) root a). set (pa := pa_of (phys s) root a).
  rewrite wp_bind. pose proof (unmap_one s l root a slot HK Has Ha Hu Es Em) as Hone.
  cbn zeta in Hone. fold pa in Hone. rewrite wp_bind in Hone.
  eapply wp_mono; [exact Hone|]. cbn beta. intros _ s1 Hone'. rewrite wp_bind.
  eapply wp_mono; [exact Hone'|]. cbn beta. intros _ s2 (HK2 & Has2 & Hpte2 & Hn2 & HF2).
  eapply wp_mono; [apply (IH fuel s2 (pa :: l) (a + PGSIZE));
    [done|done|by apply page_aligned_add|mlia|mlia|lia]|].
  intros _ s' (H1 & H2 & H3 & H4 & H5).
    assert (Hmp : mapped_pages (phys s2) root (a + PGSIZE) n = mapped_pages (phys s) root (a + PGSIZE) n).
    { apply mapped_pages_ext. intros i Hi. rewrite Hpte2, next_page_div by (clear -Ha0 Hhi Hi; mlia). reflexivity. }
    cbn [mapped_pages]. rewrite Em. fold pa. cbn [app]. rewrite reverse_cons, <- app_assoc. cbn [app].
    rewrite Hmp in H1, H2, H5. split_and!; [exact H1|exact H2| | |].
    + intros va Hva. rewrite (H3 va Hva), (range_cons a va (Z.of_nat n * PGSIZE)) by (exact Ha || (clear; mlia)).
      unfold mapped. rewrite (Hpte2 va Hva).
      destruct (va / PGSIZE =? a / PGSIZE) eqn:E; cbn [orb]; [|reflexivity].
      breflect. rewrite pte_has_0, andb_false_r. cbn [andb].
      rewrite (pte_of_same_page (phys s) root a va (in_user_MAXVA a Hu) Hva E). fold (mapped (phys s) root a). by rewrite Em.
    + intros path Hok. by rewrite H4, Hn2.
    + apply (frame_trans _ _ (phys s2)); [eapply frame_mono; [|exact HF2]|eapply frame_mono; [|exact H5]].
      * intros p [->|?]; [left; apply list_elem_of_here|by right].
      * intros p [?|Hnp]; [left; by apply list_elem_of_further|right]. by rewrite (is_node_eq (phys s) (phys s2)) in Hnp.
Qed.

End VmUser.
