(* ===== verification/VmGrow.v ===== *)
(** * Growing and shrinking a user address space

    [uvmunmap], [uvmdealloc], [uvmalloc] and [vmfault] against the address-space
    invariant: which translations change, which pages go back to the allocator,
    and that a failed [uvmalloc] leaves every translation as it was. *)
From S2P Require Import Prelude Machine Memory Kalloc Vm VmTables VmMap VmUser.

Section VmGrow.
Context `{KI : KernelImage} `{KIO : !KernelImageOk}.
Hint Resolve okpath_nil okpath_path_of in_user_MAXVA : core.

(** ** Giving pages back *)

Lemma uvmunmap_wp s l root va npages :
  kmem_inv s l -> as_inv (phys s) root l -> page_aligned va -> 0 <= va -> 0 <= npages ->
  va + npages * PGSIZE <= TRAPFRAME ->
  let freed := mapped_pages (phys s) root va (Z.to_nat npages) in
  wp (uvmunmap root va npages true) (fun _ s' =>
    kmem_inv s' (reverse freed ++ l) /\ as_inv (phys s') root (reverse freed ++ l) /\
    (forall va', 0 <= va' < MAXVA -> pte_of (phys s') root va' =
       if (va <=? va') && (va' <? va + npages * PGSIZE) && mapped (phys s) root va'
       then 0 else pte_of (phys s) root va') /\
    (forall path, okpath path -> node (phys s') root path = node (phys s) root path) /\
    frame (fun p => p ∈ freed \/ is_node (phys s) root p) (phys s) (phys s')) s.
Proof.
  intros HK Has Ha Hva Hn Hhi freed. unfold uvmunmap. pose proof Ha as Ha'. unfold page_aligned in Ha'.
  rewrite Ha'. cbn [negb Z.eqb]. rewrite u64_id by mlia.
  pose proof (uvmunmap_loop_wp (Z.to_nat npages) (S (Z.to_nat npages)) s l root va HK Has Ha Hva) as H.
  rewrite Z2Nat.id in H by done. apply H; [done|lia].
Qed.

Lemma uvmunmap_unaligned root va npages do_free s :
  ~ page_aligned va -> uvmunmap root va npages do_free s = Panic "uvmunmap: not aligned".
Proof. intros Ha. unfold uvmunmap. by rewrite (proj2 (Z.eqb_neq _ _)). Qed.

Lemma PGROUNDUP_TRAPFRAME sz : 0 <= sz <= TRAPFRAME ->
  page_aligned (PGROUNDUP sz) /\ sz <= PGROUNDUP sz < sz + PGSIZE /\ PGROUNDUP sz <= TRAPFRAME.
Proof.
  intros H. destruct (PGROUNDUP_bounds sz) as [Hb Ha]; [mlia|mlia|]. split; [done|]. split; [done|].
  destruct (decide (PGROUNDUP sz <= TRAPFRAME)); [done|]. exfalso.
  assert (page_aligned TRAPFRAME) as HT by reflexivity.
  pose proof (page_aligned_dist (PGROUNDUP sz) TRAPFRAME Ha HT). mlia.
Qed.

Lemma PGROUNDUP_aligned_user a : page_aligned a -> 0 <= a <= TRAPFRAME -> PGROUNDUP a = a.
Proof.
  intros Ha Hr. destruct (PGROUNDUP_TRAPFRAME a Hr) as (Ha' & Hb & _).
  destruct (decide (PGROUNDUP a = a)); [done|].
  pose proof (page_aligned_dist _ _ Ha' Ha). mlia.
Qed.

(** The number of pages between two aligned addresses. *)
Definition npg (lo hi : Z) : Z := (hi - lo) / PGSIZE.
Lemma npg_spec lo hi : page_aligned lo -> page_aligned hi -> npg lo hi * PGSIZE = hi - lo.
Proof.
  unfold npg, page_aligned. intros H1 H2. pose proof (Z.div_mod (hi - lo) PGSIZE ltac:(mlia)) as H.
  assert ((hi - lo) mod PGSIZE = 0) as E by (rewrite Zminus_mod, H1, H2; done). lia.
Qed.

Lemma uvmdealloc_wp s l root oldsz newsz :
  kmem_inv s l -> as_inv (phys s) root l -> 0 <= newsz -> 0 <= oldsz <= TRAPFRAME ->
  let lo := PGROUNDUP newsz in let hi := PGROUNDUP oldsz in
  let freed := if newsz <? oldsz then mapped_pages (phys s) root lo (Z.to_nat (npg lo hi)) else [] in
  wp (uvmdealloc root oldsz newsz) (fun r s' =>
    r = Z.min oldsz newsz /\
    kmem_inv s' (reverse freed ++ l) /\ as_inv (phys s') root (reverse freed ++ l) /\
    (forall va, 0 <= va < MAXVA -> pte_of (phys s') root va =
       if (lo <=? va) && (va <? hi) && (newsz <? oldsz) && mapped (phys s) root va
       then 0 else pte_of (phys s) root va) /\
    (forall path, okpath path -> node (phys s') root path = node (phys s) root path) /\
    frame (fun p => p ∈ freed \/ is_node (phys s) root p) (phys s) (phys s')) s.
Proof.
  intros HK Has Hn Ho lo hi. cbn zeta. unfold uvmdealloc. destruct (Z.ltb_spec newsz oldsz) as [Hlt|Hge].
  2:{ rewrite (proj2 (Z.leb_le _ _)) by lia. wp_steps. cbn [reverse app].
      split_and!; [lia|done|done| |done|apply frame_refl].
      intros va _. by rewrite andb_false_r. }
  rewrite (proj2 (Z.leb_gt _ _)) by lia. fold lo hi.
  destruct (PGROUNDUP_TRAPFRAME newsz) as (Hla & Hlb & Hl); [lia|]. fold lo in Hla, Hlb, Hl.
  destruct (PGROUNDUP_TRAPFRAME oldsz) as (Hha & Hhb & Hh); [lia|]. fold hi in Hha, Hhb, Hh.
  pose proof (npg_spec lo hi Hla Hha) as Hp. fold (npg lo hi).
  destruct (Z.ltb_spec lo hi) as [Hlh|Hlh].
  - assert (Hpos : 0 <= npg lo hi) by mlia. assert (Hsm : npg lo hi < 2 ^ 31) by mlia.
    rewrite i32_id, u64_id by mlia. wp_steps.
    eapply wp_mono; [apply (uvmunmap_wp s l); [done|done|done|lia|done|lia]|].
    intros _ s' (H1 & H2 & H3 & H4 & H5). wp_steps. split_and!; [lia|done|done| |done|done].
    intros va Hva. rewrite (H3 va Hva), Hp, andb_true_r.
    replace (lo + (hi - lo)) with hi by lia. reflexivity.
  - assert (npg lo hi <= 0) by mlia. replace (Z.to_nat (npg lo hi)) with 0%nat by lia.
    wp_steps. cbn [mapped_pages reverse app]. split_and!; [lia|done|done| |done|apply frame_refl].
    intros va _. case_range; cbn [andb]; first [reflexivity | lia].
Qed.

(** ** Taking pages *)

(** Mapping a page the address space does not use yet. *)
Lemma map_fresh_wp s l root va pg perm :
  kmem_inv s l -> as_inv (phys s) root l -> fresh (phys s) root l pg ->
  page_aligned va -> in_user va -> is_perm perm -> mapped (phys s) root va = false ->
  wp (mappages root va PGSIZE pg perm) (fun r s' => exists l',
    tbl_ok s s' root l l' /\
    ((r = 0 /\ as_inv (phys s') root l' /\
      forall va', 0 <= va' < MAXVA -> pte_of (phys s') root va' =
        if va' / PGSIZE =? va / PGSIZE then mkpte pg perm else pte_of (phys s) root va') \/
     (r = -1 /\ l' = [] /\ as_inv (phys s') root l' /\ fresh (phys s') root l' pg /\
      forall va', 0 <= va' < MAXVA -> pte_of (phys s') root va' = pte_of (phys s) root va'))) s.
Proof.
  intros HK Has Hf Ha Hu Hperm Hm. pose proof (valid_page_range pg (fr_valid _ _ _ _ Hf)) as (_ & _ & Hpa).
  assert (Hhi : va + PGSIZE <= MAXVA) by (unfold in_user in Hu; mlia).
  eapply wp_mono; [apply (mappages1_wp s l root va pg perm HK (as_pt _ _ _ Has) Ha (proj1 Hu) Hhi Hpa Hperm Hm)|].
  intros r s' (l' & Ht & Hr). exists l'. split; [done|].
  assert (Hpg : (pg ∉ l') /\ ~ is_node (phys s') root pg).
  { split.
    - intros Hin. apply (fr_used _ _ _ _ Hf). eapply tg_subset; [apply Ht|done].
    - intros [?|[? _]]%(tg_is_node _ _ _ _ _ _ (to_grow _ _ _ _ _ Ht)); [by apply (fr_node _ _ _ _ Hf)|by apply (fr_used _ _ _ _ Hf)]. }
  destruct Hpg as [Hpl Hpn].
  destruct Hr as [[-> Hpte]|(-> & -> & Hpte)]; [left|right].
  - split_and!; [done| |done]. split; [apply Ht| |].
    + intros va' Hu'. unfold mapped, pa_of. rewrite (Hpte va') by auto.
      destruct (_ =? _).
      * intros _. rewrite PTE2PA_mkpte by done. split_and!; [apply Hf|done|done].
      * intros Hm'. destruct (as_leaf _ _ _ Has va' Hu' Hm') as (H1 & H2 & H3).
        split_and!; [done| |].
        -- intros Hin. apply H2. eapply tg_subset; [apply Ht|done].
        -- intros [?|[? _]]%(tg_is_node _ _ _ _ _ _ (to_grow _ _ _ _ _ Ht)); done.
    + intros v1 v2 Hu1 Hu2. unfold mapped, pa_of. rewrite (Hpte v1), (Hpte v2) by auto.
      destruct (v1 / PGSIZE =? _) eqn:E1, (v2 / PGSIZE =? _) eqn:E2; breflect.
      * intros. congruence.
      * intros _ Hm2. rewrite PTE2PA_mkpte by done. intros Hc. exfalso. by eapply (fr_leaf _ _ _ _ Hf v2).
      * intros Hm1 _. rewrite PTE2PA_mkpte by done. intros Hc. exfalso. by eapply (fr_leaf _ _ _ _ Hf v1).
      * by apply (as_inj _ _ _ Has).
  - split_and!; [done|done| | |done].
    + eapply as_grow; [exact Has|exact Ht|]. intros va' Hu'. by apply Hpte, in_user_MAXVA.
    + split; [apply Hf|done|done|]. intros va' Hu'. unfold mapped, pa_of. rewrite (Hpte va') by auto.
      by apply Hf.
Qed.

(** The allocator's first page, filled by the caller. *)
Lemma take_page s s1 m1 root pg l :
  kmem_inv s (pg :: l) -> as_inv (phys s) root (pg :: l) ->
  kmem_inv s1 l -> frame (eq pg) (phys s) (phys s1) -> frame (eq pg) (phys s1) m1 ->
  let s2 := set_phys m1 s1 in
  kmem_inv s2 l /\ as_inv (phys s2) root l /\ fresh (phys s2) root l pg /\
  (forall path, okpath path -> node (phys s2) root path = node (phys s) root path) /\
  (forall va, pte_of (phys s2) root va = pte_of (phys s) root va) /\
  frame (eq pg) (phys s) (phys s2).
Proof.
  intros HK Has HK1 HF1 HF2. cbn zeta. pose proof (ki_valid _ _ HK) as Hv. inversion Hv as [|?? Hpg Hvl]; subst.
  pose proof (ki_nodup _ _ HK) as Hnd. pose proof Hnd as Hnd'. apply NoDup_cons in Hnd' as [Hnin _].
  pose proof (frame_trans _ _ _ _ HF1 HF2) as HF.
  destruct (as_pop (phys s) m1 root pg l Has Hnd Hpg HF) as (H1 & H2 & H3 & H4).
  split_and!; [|done|done|done|done|done].
  eapply kmem_inv_frame; [exact HF2|by intros ? <-|by intros ? ? <-|done].
Qed.

(** What a growing table cannot touch. *)
Lemma page_kept s s' root l l' pg x :
  as_inv (phys s) root l -> kmem_inv s l -> tbl_ok s s' root l l' ->
  valid_page pg -> (pg ∉ l) -> ~ is_node (phys s) root pg -> in_page pg x ->
  phys s' x = phys s x.
Proof.
  intros Has HK Ht Hv Hl Hn Hx.
  apply (frame_byte _ _ _ pg x (tg_frame _ _ _ _ _ (to_grow _ _ _ _ _ Ht))); [|done| |done].
  - intros p [[Hp _]|(path & Hok & Hp)].
    + pose proof (ki_valid _ _ HK) as HF. rewrite Forall_forall in HF. by apply HF.
    + exact (pt_valid _ _ _ (as_pt _ _ _ Has) path p Hok Hp).
  - intros [[? _]|?]; done.
Qed.

(** ** Steps of an address space

    [as_step X s s' root l l']: from [s] to [s'] the invariants hold again; the
    free pages and the new tables come from [l] or [X], and the memory changed
    only in pages of [l], in tables and in [X]. *)
Record as_step (X : Z -> Prop) (s s' : kmem) (root : Z) (l l' : list Z) : Prop := {
  st_kmem : kmem_inv s' l';
  st_as : as_inv (phys s') root l';
  st_free : forall p, p ∈ l' -> p ∈ l \/ X p;
  st_node : forall p, is_node (phys s') root p -> is_node (phys s) root p \/ p ∈ l \/ X p;
  st_frame : frame (fun p => is_node (phys s) root p \/ p ∈ l \/ X p) (phys s) (phys s')
}.

Lemma as_step_refl X s root l : kmem_inv s l -> as_inv (phys s) root l -> as_step X s s root l l.
Proof. intros. split; auto. apply frame_refl. Qed.

Lemma as_step_trans X Y s1 s2 s3 root l1 l2 l3 :
  as_step X s1 s2 root l1 l2 -> as_step Y s2 s3 root l2 l3 ->
  (forall p, Y p -> p ∈ l1 \/ X p) -> as_step X s1 s3 root l1 l3.
Proof.
  intros [K1 A1 F1 N1 G1] [K2 A2 F2 N2 G2] HY.
  split; [done|done| | |].
  - intros p [Hp|Hp]%F2; [by apply F1|by apply HY].
  - intros p [Hp|[Hp|Hp]]%N2; [by apply N1|right; by apply F1|right; by apply HY].
  - eapply frame_trans; [exact G1|]. eapply frame_mono; [|exact G2].
    intros p [Hp|[Hp|Hp]]; [by apply N1|right; by apply F1|right; by apply HY].
Qed.

Lemma as_step_mono (X Y : Z -> Prop) s s' root l l' :
  (forall p, X p -> p ∈ l \/ Y p) -> as_step X s s' root l l' -> as_step Y s s' root l l'.
Proof.
  intros HX [K A F N G]. split; [done|done| | |].
  - intros p [?|?%HX]%F; auto.
  - intros p [?|[?|?%HX]]%N; auto.
  - eapply frame_mono; [|exact G]. intros p [?|[?|?%HX]]; auto.
Qed.

Lemma as_step_tbl X s s' root l l' :
  as_inv (phys s') root l' -> tbl_ok s s' root l l' -> as_step X s s' root l l'.
Proof.
  intros Has [HK Hp Hg]. split; [done|done| | |].
  - intros p Hin. left. by eapply tg_subset.
  - intros p [?|[? _]]%(tg_is_node _ _ _ _ _ _ Hg); auto.
  - eapply frame_mono; [|apply Hg]. intros p [[? _]|?]; auto.
Qed.

(** Taking a page and filling it; freeing a page that is not in use. *)
Lemma as_step_take X s s1 m1 root pg l :
  kmem_inv s (pg :: l) -> as_inv (phys s) root (pg :: l) ->
  kmem_inv s1 l -> frame (eq pg) (phys s) (phys s1) -> frame (eq pg) (phys s1) m1 ->
  as_step X s (set_phys m1 s1) root (pg :: l) l.
Proof.
  intros HK Has HK1 HF1 HF2.
  destruct (take_page s s1 m1 root pg l) as (H1 & H2 & H3 & H4 & H5 & H6); try done.
  split; [done|done| | |].
  - intros p Hp. left. set_solver.
  - intros p. rewrite (is_node_eq (phys s)) by done. auto.
  - eapply frame_mono; [|exact H6]. intros p <-. right. left. set_solver.
Qed.

Lemma kfree_fresh_wp X s l root pg :
  kmem_inv s l -> as_inv (phys s) root l -> fresh (phys s) root l pg -> X pg ->
  wp (kfree pg) (fun _ s' => as_step X s s' root l (pg :: l) /\
    forall va, pte_of (phys s') root va = pte_of (phys s) root va) s.
Proof.
  intros HK Has Hf HX. eapply wp_mono; [apply (kfree_wp s l pg HK); apply Hf|].
  intros _ s' [HK' HF].
  destruct (node_frame_inv (eq pg) (phys s) (phys s') root l) as (Hn & Hpte & Hdirs); try done.
  { apply Has. } { intros ? <-. apply Hf. } { intros ? <-. apply Hf. }
  split; [|done]. split; [done| | | |].
  - split.
    + eapply pt_inv_node_eq; [apply Has|done|done|]. intros p [->|?]%elem_of_cons; [right; apply Hf|by left].
    + intros va Hu. unfold mapped, pa_of. rewrite !Hpte. intros Hm.
      destruct (as_leaf _ _ _ Has va Hu Hm) as (H1 & H2 & H3). split_and!; [done| |].
      * intros [Heq|?]%elem_of_cons; [|done]. by eapply (fr_leaf _ _ _ _ Hf va).
      * by rewrite (is_node_eq (phys s)).
    + intros va va' Hu Hu'. unfold mapped, pa_of. rewrite !Hpte. by apply (as_inj _ _ _ Has).
  - intros p [->|?]%elem_of_cons; auto.
  - intros p. rewrite (is_node_eq (phys s)) by done. auto.
  - eapply frame_mono; [|exact HF]. intros p <-. auto.
Qed.

(** The address translation the hardware performs. *)
Definition tr (m : memory) (root va : Z) : option Z :=
  if mapped m root va then Some (pte_of m root va) else None.

Lemma tr_ext m m' root va :
  pte_of m' root va = pte_of m root va -> tr m' root va = tr m root va.
Proof. unfold tr, mapped. by intros ->. Qed.

Lemma tr_None m root va : tr m root va = None <-> mapped m root va = false.
Proof. unfold tr. by destruct (mapped m root va). Qed.

(** Each address of a freshly allocated page is mapped to a page of [l] that
    holds only zeros. *)
Definition zero_mapped (m : memory) (root : Z) (l : list Z) (perm va : Z) : Prop :=
  exists pg, pg ∈ l /\ tr m root va = Some (mkpte pg perm) /\ forall x, in_page pg x -> m x = 0.

Lemma mapped_pages_none m root a n :
  (forall i, 0 <= i < Z.of_nat n -> mapped m root (a + i * PGSIZE) = false) ->
  mapped_pages m root a n = [].
Proof.
  revert a. induction n as [|n IH]; intros a H; [done|]. cbn [mapped_pages].
  pose proof (H 0 ltac:(lia)) as H0. rewrite Z.mul_0_l, Z.add_0_r in H0. rewrite H0. cbn [app].
  apply IH. intros i Hi. specialize (H (i + 1)).
  replace (a + (i + 1) * PGSIZE) with (a + PGSIZE + i * PGSIZE) in H by lia. apply H. lia.
Qed.

Definition no_page (_ : Z) : Prop := False.

(** The common shape of [uvmalloc], [uvmcopy] and [vmfault]: take a page, fill
    it, map it, give it back when the mapping fails. *)
Section AllocMap.
Context {A : Type} (F : Z -> memory -> memory) (E0 E1 : M kmem A) (K : Z -> M kmem A).
Hypothesis HF : forall pg m, frame (eq pg) m (F pg m).

Definition alloc_map (root va perm : Z) : M kmem A :=
  let! mem := kalloc in
  if mem =? 0 then E0
  else
    modify (fun s => set_phys (F mem (phys s)) s) ;;
    let! r := mappages root va PGSIZE mem perm in
    if negb (r =? 0) then kfree mem ;; E1 else K mem.

Lemma alloc_map_wp s l root va perm Q :
  kmem_inv s l -> as_inv (phys s) root l -> page_aligned va -> in_user va -> is_perm perm ->
  mapped (phys s) root va = false ->
  (l = [] -> wp E0 Q s) ->
  (forall s' l', as_step no_page s s' root l l' ->
     (forall va', 0 <= va' < MAXVA -> pte_of (phys s') root va' = pte_of (phys s) root va') ->
     wp E1 Q s') ->
  (forall s' l' pg m1, as_step no_page s s' root l l' -> pg ∈ l -> (pg ∉ l') -> ~ is_node (phys s') root pg ->
     (forall va', 0 <= va' < MAXVA -> pte_of (phys s') root va' =
        if va' / PGSIZE =? va / PGSIZE then mkpte pg perm else pte_of (phys s) root va') ->
     frame (eq pg) (phys s) m1 -> (forall x, in_page pg x -> phys s' x = F pg m1 x) ->
     wp (K pg) Q s') ->
  wp (alloc_map root va perm) Q s.
Proof.
  intros HK Has Ha Hu Hperm Hm HE0 HE1 HK2. unfold alloc_map. wp_steps.
  eapply wp_mono; [by apply kalloc_wp|]. cbn beta. intros pg s1.
  destruct l as [|pg' l]. { intros [-> ->]. rewrite Z.eqb_refl. by apply HE0. }
  intros (-> & HK1 & HF1 & _). pose proof (ki_valid _ _ HK) as Hv. inversion Hv as [|?? Hpg Hvl]; subst.
  rewrite (proj2 (Z.eqb_neq pg' 0)) by (destruct (valid_page_range pg' Hpg); lia). wp_steps.
  pose proof (as_step_take no_page s s1 _ root pg' l HK Has HK1 HF1 (HF pg' (phys s1))) as St1.
  destruct (take_page s s1 _ root pg' l HK Has HK1 HF1 (HF pg' (phys s1))) as (H1 & H2 & H3 & H4 & H5 & H6).
  set (s2 := set_phys (F pg' (phys s1)) s1) in *.
  eapply wp_mono; [apply (map_fresh_wp s2 l root va pg' perm H1 H2 H3 Ha Hu Hperm)|].
  { unfold mapped. by rewrite H5. }
  intros r s3 (l' & Ht & Hr). destruct Hr as [(-> & Has3 & Hpte)|(-> & -> & Has3 & Hfr & Hpte)].
  - cbn [Z.eqb negb]. pose proof (as_step_tbl no_page s2 s3 root l l' Has3 Ht) as St2.
    assert (St : as_step no_page s s3 root (pg' :: l) l') by (eapply as_step_trans; [done|done|by intros ? []]).
    assert (Hnin : pg' ∉ l') by (intros Hin; apply (fr_used _ _ _ _ H3); eapply tg_subset; [apply Ht|done]).
    apply (HK2 s3 l' pg' (phys s1)); try done.
    + set_solver.
    + intros [?|[? _]]%(tg_is_node _ _ _ _ _ _ (to_grow _ _ _ _ _ Ht)); [by apply (fr_node _ _ _ _ H3)|by apply (fr_used _ _ _ _ H3)].
    + intros va' Hva'. rewrite (Hpte va' Hva'), H5. done.
    + intros x Hx. rewrite (page_kept s2 s3 root l l' pg' x); try done; apply H3.
  - change (-1 =? 0) with false. cbn [negb]. wp_steps.
    pose proof (as_step_tbl (eq pg') s2 s3 root l [] Has3 Ht) as St2.
    eapply wp_mono; [apply (kfree_fresh_wp (eq pg') s3 [] root pg'); [apply St2|done|done|done]|].
    cbn beta. intros _ s4 [St3 Hpte4]. apply (HE1 s4 [pg']).
    + eapply as_step_trans; [exact St1| |].
      * eapply as_step_trans; [exact St2|exact St3|]. by intros p <-; right.
      * intros p <-. left. set_solver.
    + intros va' Hva'. by rewrite Hpte4, (Hpte va' Hva'), H5.
Qed.
End AllocMap.

Lemma as_step_kept s s' root l l' pg x :
  kmem_inv s l -> as_inv (phys s) root l -> as_step no_page s s' root l l' ->
  valid_page pg -> (pg ∉ l) -> ~ is_node (phys s) root pg -> in_page pg x ->
  phys s' x = phys s x.
Proof.
  intros HK Has St Hv Hl Hn Hx. apply (frame_byte _ _ _ pg x (st_frame _ _ _ _ _ _ St)); [|done| |done].
  - intros p [(path & Hok & Hp)|[Hp|[]]].
    + exact (pt_valid _ _ _ (as_pt _ _ _ Has) path p Hok Hp).
    + pose proof (ki_valid _ _ HK) as HFa. rewrite Forall_forall in HFa. by apply HFa.
  - by intros [?|[?|[]]].
Qed.

(** ** uvmalloc *)

Definition perm_uvmalloc (xperm : Z) : Z := Z.lor (Z.lor PTE_R PTE_U) xperm.

(** Giving up after some pages: everything from [oldsz] up to [a] is unmapped. *)
Lemma uvmalloc_undo s l root a oldsz :
  kmem_inv s l -> as_inv (phys s) root l -> page_aligned a -> page_aligned oldsz ->
  0 <= oldsz <= a -> a <= TRAPFRAME ->
  wp (uvmdealloc root a oldsz ;; ret 0) (fun r s' => r = 0 /\ exists l',
    as_step (fun p => p ∈ mapped_pages (phys s) root oldsz (Z.to_nat (npg oldsz a))) s s' root l l' /\
    (forall va, 0 <= va < MAXVA -> tr (phys s') root va =
       if (oldsz <=? va) && (va <? a) then None else tr (phys s) root va)) s.
Proof.
  intros HK Has Ha Ho Hoa Hhi. wp_steps.
  eapply wp_mono; [apply (uvmdealloc_wp s l root a oldsz); [done|done|lia|lia]|].
  intros r s' (_ & H1 & H2 & H3 & H4 & H5). rewrite !PGROUNDUP_aligned_user in * by (done || lia).
  set (freed := if _ <? _ then _ else _) in *.
  assert (Hfr : forall p, p ∈ freed -> p ∈ mapped_pages (phys s) root oldsz (Z.to_nat (npg oldsz a))).
  { intros p. unfold freed. destruct (_ <? _); [done|]. by intros ?%not_elem_of_nil. }
  wp_steps. split; [done|]. exists (reverse freed ++ l). split.
  - split; [done|done| | |].
    + intros p. rewrite elem_of_app, elem_of_reverse. intros [?%Hfr|?]; auto.
    + intros p. rewrite (is_node_eq (phys s)) by done. auto.
    + eapply frame_mono; [|exact H5]. intros p [Hp%Hfr|?]; auto.
  - intros va Hva. unfold tr, mapped. rewrite (H3 va Hva).
    destruct (Z.ltb_spec oldsz a); rewrite ?andb_true_r, ?andb_false_r; cbn [andb].
    + destruct ((oldsz <=? va) && (va <? a)); cbn [andb]; [|done]. unfold mapped.
      by destruct (pte_has (pte_of (phys s) root va) PTE_V) eqn:E; rewrite ?E.
    + replace ((oldsz <=? va) && (va <? a)) with false by (case_range; (reflexivity || lia)). done.
Qed.

Lemma zero_mapped_keep s s' root l0 l l' pg perm va :
  kmem_inv s l -> as_inv (phys s) root l -> as_step no_page s s' root l l' ->
  pg ∈ l0 -> valid_page pg -> (pg ∉ l) -> ~ is_node (phys s) root pg ->
  (forall x, in_page pg x -> phys s x = 0) ->
  tr (phys s') root va = Some (mkpte pg perm) -> zero_mapped (phys s') root l0 perm va.
Proof.
  intros HK Has St Hl0 Hv Hl Hn Hz Htr. exists pg. split_and!; [done|done|].
  intros x Hx. rewrite (as_step_kept s s' root l l' pg x) by done. by apply Hz.
Qed.

Lemma zero_mapped_mono m root l l' perm va :
  (forall p, p ∈ l -> p ∈ l') -> zero_mapped m root l perm va -> zero_mapped m root l' perm va.
Proof. intros Hs (pg & H1 & H2 & H3). exists pg. split_and!; [by apply Hs|done|done]. Qed.

Lemma tr_mkpte m root va pg perm :
  is_pa pg -> is_perm perm -> pte_of m root va = mkpte pg perm -> tr m root va = Some (mkpte pg perm).
Proof. intros Hp Hq H. unfold tr, mapped. by rewrite H, pte_has_V_mkpte. Qed.

(** The pages between [oldsz] and the page after [a], once [a] maps [pg]. *)
Lemma pages_below_next m m1 root (l : list Z) a oldsz pg perm p :
  page_aligned a -> page_aligned oldsz -> 0 <= oldsz <= a -> in_user a -> valid_page pg -> is_perm perm ->
  pg ∈ l ->
  (forall va, 0 <= va < MAXVA -> pte_of m1 root va =
     if va / PGSIZE =? a / PGSIZE then mkpte pg perm else pte_of m root va) ->
  p ∈ mapped_pages m1 root oldsz (Z.to_nat (npg oldsz (a + PGSIZE))) ->
  p ∈ l \/ p ∈ mapped_pages m root oldsz (Z.to_nat (npg oldsz a)).
Proof.
  intros Ha Ho Hoa Hu Hpg Hperm Hl Hpte. rewrite !elem_of_mapped_pages.
  pose proof (npg_spec oldsz a Ho Ha) as Hn.
  assert (Ha1 : page_aligned (a + PGSIZE)) by (by apply page_aligned_add).
  pose proof (npg_spec oldsz (a + PGSIZE) Ho Ha1) as Hn'.
  intros (i & Hi & Hm & ->). unfold in_user in Hu.
  assert (Hr : 0 <= oldsz + i * PGSIZE < MAXVA) by (clear -Hi Hn' Hoa Hu; mlia).
  unfold mapped, pa_of in *. rewrite (Hpte _ Hr) in *.
  destruct (_ =? _) eqn:E.
  - left. rewrite PTE2PA_mkpte by (done || by apply valid_page_range). done.
  - right. exists i. split; [|done]. rewrite (div_page_range a _ Ha) in E.
    apply andb_false_iff in E as [E%Z.leb_gt|E%Z.ltb_ge]; clear -E Hi Hn Hn' Hoa; mlia.
Qed.

Lemma uvmalloc_loop_wp n fuel s l root a oldsz newsz xperm :
  kmem_inv s l -> as_inv (phys s) root l -> page_aligned a -> page_aligned oldsz ->
  0 <= oldsz <= a -> a + Z.of_nat n * PGSIZE <= TRAPFRAME ->
  a + (Z.of_nat n - 1) * PGSIZE < newsz <= a + Z.of_nat n * PGSIZE -> (n < fuel)%nat ->
  is_perm (perm_uvmalloc xperm) ->
  (forall va, a <= va < a + Z.of_nat n * PGSIZE -> mapped (phys s) root va = false) ->
  wp (uvmalloc_loop fuel root a oldsz newsz xperm) (fun r s' =>
    (r = newsz /\ (exists l', as_step no_page s s' root l l') /\
     (forall va, 0 <= va < MAXVA -> if (a <=? va) && (va <? a + Z.of_nat n * PGSIZE)
        then zero_mapped (phys s') root l (perm_uvmalloc xperm) va
        else tr (phys s') root va = tr (phys s) root va)) \/
    (r = 0 /\ (exists l', as_step (fun p => p ∈ mapped_pages (phys s) root oldsz (Z.to_nat (npg oldsz a)))
                 s s' root l l') /\
     (forall va, 0 <= va < MAXVA -> tr (phys s') root va =
        if (oldsz <=? va) && (va <? a) then None else tr (phys s) root va))) s.
Proof.
  revert fuel s l a. induction n as [|n IH]; intros fuel s l a HK Has Ha Ho Hoa Hhi Hns Hf Hperm Hun;
    (destruct fuel as [|fuel]; [lia|]); cbn [uvmalloc_loop].
  { rewrite (proj2 (Z.ltb_ge _ _)) by lia. wp_steps. left. split_and!; [done| |].
    - exists l. by apply as_step_refl.
    - intros va _. case_range; [lia|done..]. }
  rewrite (proj2 (Z.ltb_lt _ _)) by (clear -Hns; mlia). rewrite (u64_id (a + PGSIZE)) by (clear -Hhi Hoa; mlia).
  assert (Hu : in_user a) by (unfold in_user; clear -Hhi Hoa; mlia).
  assert (Hua : mapped (phys s) root a = false) by (apply Hun; clear; mlia).
  pose proof (npg_spec oldsz a Ho Ha) as Hnp.
  apply (alloc_map_wp (fun pg m => fill_range m pg 0 PGSIZE) _ _ _ (fun pg m => frame_fill pg 0 m)
           s l root a _ _ HK Has Ha Hu Hperm Hua).
  - intros _. eapply wp_mono; [apply (uvmalloc_undo s l); try done; clear -Hhi; mlia|].
    intros r s' (-> & l' & H1 & H2). right. split_and!; [done|by exists l'|done].
  - intros s1 l1 St Hpte. assert (Hmp : mapped_pages (phys s1) root oldsz (Z.to_nat (npg oldsz a)) =
        mapped_pages (phys s) root oldsz (Z.to_nat (npg oldsz a))).
    { apply mapped_pages_ext. intros i Hi. apply Hpte. clear -Hi Hnp Hoa Hhi. mlia. }
    eapply wp_mono; [apply (uvmalloc_undo s1 l1); try done; [apply St|apply St|clear -Hhi; mlia]|].
    intros r s' (-> & l' & H1 & H2). right. rewrite Hmp in H1. split_and!; [done| |].
    + exists l'. eapply as_step_trans; [|exact H1|by auto].
      eapply as_step_mono; [|exact St]. by intros ? [].
    + intros va Hva. rewrite (H2 va Hva). by rewrite (tr_ext (phys s) (phys s1)) by auto.
  - intros s1 l1 pg m1 St Hpgl Hpgl1 Hpgn Hpte _ Hz.
    assert (Hpgv : valid_page pg) by (pose proof (ki_valid _ _ HK) as HFa; rewrite Forall_forall in HFa; by apply HFa).
    assert (Hz0 : forall x, in_page pg x -> phys s1 x = 0).
    { intros x Hx. rewrite Hz by done. apply fill_range_in. by unfold in_page in Hx. }
    assert (Hdiv : forall va, a + PGSIZE <= va -> (va / PGSIZE =? a / PGSIZE) = false).
    { intros va Hv. rewrite div_page_range by done. case_range; (reflexivity || lia). }
    assert (Hlow : forall va, va < a -> (va / PGSIZE =? a / PGSIZE) = false).
    { intros va Hv. rewrite div_page_range by done. case_range; (reflexivity || lia). }
    eapply wp_mono; [apply (IH fuel s1 l1 (a + PGSIZE));
      [apply St|apply St|by apply page_aligned_add|done|clear -Hoa; mlia|clear -Hhi; mlia|clear -Hns; mlia|lia|done|]|].
    { intros va Hva. unfold mapped. rewrite Hpte by (clear -Hva Hhi Hoa; mlia). rewrite Hdiv by lia.
      apply Hun. clear -Hva. mlia. }
    intros r s' [(-> & (l' & St') & Hv)|(-> & (l' & St') & Hv)]; [left|right].
    + split_and!; [done|exists l'; eapply as_step_trans; [exact St|exact St'|by intros ? []]|].
      intros va Hva. specialize (Hv va Hva).
      replace (a + Z.of_nat (S n) * PGSIZE) with (a + PGSIZE + Z.of_nat n * PGSIZE) by lia.
      rewrite (range_cons a va (Z.of_nat n * PGSIZE) Ha) by (clear; mlia).
      destruct (va / PGSIZE =? a / PGSIZE) eqn:E; cbn [orb].
      * assert (Hd : va / PGSIZE = a / PGSIZE) by (by apply Z.eqb_eq).
        rewrite (range_tail_other a va) in Hv by done.
        apply (zero_mapped_keep s1 s' root l l1 l' pg); try done; [apply St|apply St|].
        rewrite Hv. apply tr_mkpte; [by apply valid_page_range|done|]. by rewrite (Hpte va Hva), E.
      * destruct (_ && _).
        -- eapply zero_mapped_mono; [|exact Hv]. intros p Hp. by destruct (st_free _ _ _ _ _ _ St p Hp).
        -- rewrite Hv. apply tr_ext. by rewrite (Hpte va Hva), E.
    + split_and!; [done| |].
      * exists l'. eapply as_step_trans; [eapply as_step_mono; [|exact St]; by intros ? []|exact St'|].
        intros p Hp. exact (pages_below_next _ _ root l a oldsz pg _ p Ha Ho Hoa Hu Hpgv Hperm Hpgl Hpte Hp).
      * intros va Hva. rewrite (Hv va Hva).
        destruct (Z.ltb_spec va a) as [Hlt|Hge].
        -- rewrite (proj2 (Z.ltb_lt va (a + PGSIZE))), andb_true_r by (clear -Hlt; mlia).
           destruct (oldsz <=? va); [done|]. apply tr_ext. by rewrite (Hpte va Hva), Hlow.
        -- rewrite andb_false_r, (proj2 (Z.leb_le oldsz va)) by lia. cbn [andb].
           destruct (Z.ltb_spec va (a + PGSIZE)) as [Hlt|Hge2].
           ++ symmetry. apply tr_None, Hun. clear -Hge Hlt. mlia.
           ++ apply tr_ext. by rewrite (Hpte va Hva), Hdiv.
Qed.

Lemma uvmalloc_wp s l root oldsz newsz xperm :
  kmem_inv s l -> as_inv (phys s) root l -> 0 <= oldsz <= newsz -> newsz <= TRAPFRAME ->
  is_perm (perm_uvmalloc xperm) ->
  (forall va, PGROUNDUP oldsz <= va < PGROUNDUP newsz -> mapped (phys s) root va = false) ->
  wp (uvmalloc root oldsz newsz xperm) (fun r s' =>
    (exists l', as_step no_page s s' root l l') /\
    ((r = newsz /\ forall va, 0 <= va < MAXVA ->
        if (PGROUNDUP oldsz <=? va) && (va <? PGROUNDUP newsz)
        then zero_mapped (phys s') root l (perm_uvmalloc xperm) va
        else tr (phys s') root va = tr (phys s) root va) \/
     (r = 0 /\ forall va, 0 <= va < MAXVA -> tr (phys s') root va = tr (phys s) root va))) s.
Proof.
  intros HK Has Hon Hhi Hperm Hun. unfold uvmalloc. rewrite (proj2 (Z.ltb_ge _ _)) by lia.
  destruct (PGROUNDUP_TRAPFRAME oldsz) as (Hoa & Hob & Hoh); [lia|].
  destruct (PGROUNDUP_TRAPFRAME newsz) as (Hna & Hnb & Hnh); [lia|].
  set (a := PGROUNDUP oldsz) in *. set (b := PGROUNDUP newsz) in *.
  pose proof (npg_spec a b Hoa Hna) as Hn.
  assert (Hge : 0 <= npg a b) by (clear -Hn Hob Hnb Hon; mlia).
  assert (Hb : a + Z.of_nat (Z.to_nat (npg a b)) * PGSIZE = b) by (rewrite Z2Nat.id by exact Hge; rewrite Hn; lia).
  eapply wp_mono; [apply (uvmalloc_loop_wp (Z.to_nat (npg a b)) _ s l root a a newsz xperm HK Has Hoa Hoa)|];
    [lia|lia|clear -Hb Hnb; mlia| |done|intros va Hva; apply Hun; lia|].
  - pose proof (Z.div_mod (newsz - a + PGSIZE) PGSIZE ltac:(mlia)).
    pose proof (Z.mod_pos_bound (newsz - a + PGSIZE) PGSIZE ltac:(mlia)).
    clear -H H0 Hn Hge Hnb. munfold. lia.
  - rewrite Hb. intros r s' [(-> & Hst & Hv)|(-> & (l' & St) & Hv)].
    + split; [done|]. by left.
    + replace (Z.to_nat (npg a a)) with 0%nat in St by (unfold npg; by rewrite Z.sub_diag).
      split; [exists l'; eapply as_step_mono; [|exact St]; by intros p ?%not_elem_of_nil|].
      right. split; [done|]. intros va Hva. rewrite (Hv va Hva).
      replace ((a <=? va) && (va <? a)) with false by (case_range; (reflexivity || lia)). done.
Qed.

Lemma uvmalloc_shrink root oldsz newsz xperm s :
  newsz < oldsz -> uvmalloc root oldsz newsz xperm s = Ok (oldsz, s).
Proof. intros H. unfold uvmalloc. by rewrite (proj2 (Z.ltb_lt _ _)). Qed.

(** ** vmfault *)

Definition perm_vmfault : Z := Z.lor (Z.lor PTE_W PTE_U) PTE_R.

Lemma vmfault_wp s l p va read :
  kmem_inv s l -> as_inv (phys s) (u_pagetable p) l -> 0 <= va -> u_sz p <= TRAPFRAME ->
  let root := u_pagetable p in
  wp (vmfault p root va read) (fun r s' =>
    if (u_sz p <=? va) || mapped (phys s) root va then r = 0 /\ s' = s
    else exists l', as_step no_page s s' root l l' /\
      ((r = 0 /\ forall va', 0 <= va' < MAXVA -> tr (phys s') root va' = tr (phys s) root va') \/
       (r <> 0 /\ forall va', 0 <= va' < MAXVA ->
          if va' / PGSIZE =? va / PGSIZE
          then zero_mapped (phys s') root l perm_vmfault va' /\ pa_of (phys s') root va' = r
          else tr (phys s') root va' = tr (phys s) root va'))) s.
Proof.
  intros HK Has Hva Hsz root. unfold vmfault. destruct (Z.leb_spec (u_sz p) va) as [Hle|Hlt]; cbn [orb].
  { wp_steps. done. }
  assert (Hu : in_user va) by (unfold in_user; lia).
  destruct (PGROUNDDOWN_bounds va) as (Hdb & Hda & Hd0); [clear -Hu; unfold in_user in Hu; mlia|].
  assert (Hdu : in_user (PGROUNDDOWN va)) by (unfold in_user in *; lia).
  assert (Hdp : PGROUNDDOWN va / PGSIZE = va / PGSIZE) by (symmetry; apply Z.eqb_eq; rewrite div_page_range by done; case_range; done || lia).
  assert (Hmp : mapped (phys s) root (PGROUNDDOWN va) = mapped (phys s) root va).
  { unfold mapped. by rewrite (pte_of_same_page (phys s) root va (PGROUNDDOWN va)) by auto. }
  rewrite wp_bind. unfold wp at 1. rewrite (ismapped_spec s root l) by (auto; apply Has). rewrite Hmp.
  destruct (mapped (phys s) root va) eqn:Em; cbn [c_true]; [by wp_steps|]. change (c_true 0) with false. cbv iota.
  apply (alloc_map_wp (fun pg m => fill_range m pg 0 PGSIZE) _ _ _ (fun pg m => frame_fill pg 0 m)
           s l root (PGROUNDDOWN va) _ _ HK Has Hda Hdu); [by split|done| | |].
  - intros ->. wp_steps. exists []. split; [by apply as_step_refl|]. left. done.
  - intros s1 l1 St Hpte. wp_steps. exists l1. split; [done|]. left. split; [done|].
    intros va' Hva'. apply tr_ext. by apply Hpte.
  - intros s1 l1 pg m1 St Hl Hl1 Hn Hpte _ Hz. wp_steps. exists l1. split; [done|]. right.
    assert (Hpgv : valid_page pg) by (pose proof (ki_valid _ _ HK) as HFa; rewrite Forall_forall in HFa; by apply HFa).
    destruct (valid_page_range pg Hpgv) as (Hp0 & _ & Hppa). split; [lia|].
    intros va' Hva'. rewrite <- Hdp. specialize (Hpte va' Hva').
    destruct (_ =? _); [|by apply tr_ext]. split.
    + exists pg. split_and!; [done|by apply tr_mkpte|]. intros x Hx. rewrite Hz by done.
      apply fill_range_in. by unfold in_page in Hx.
    + unfold pa_of. rewrite Hpte. by apply PTE2PA_mkpte.
Qed.

End VmGrow.
