(* ===== verification/VmCopy.v ===== *)
(** * Moving bytes between the kernel and user space

    [copyout], [copyin] and [copyinstr] against the view a process has of its
    own memory, [ubyte m root va]: the byte at virtual address [va].  What the
    calls may change is a [cp_step]: translations are only added, by the lazy
    allocation of [vmfault], bytes outside the given addresses stay as they
    were, and pages of other address spaces are not touched. *)
From S2P Require Import Prelude Machine Memory Kalloc Vm VmTables VmMap VmUser VmGrow.

Section VmCopy.
Context `{KI : KernelImage} `{KIO : !KernelImageOk}.
Hint Resolve okpath_nil okpath_path_of in_user_MAXVA : core.

Definition uphys (m : memory) (root va : Z) : Z := pa_of m root va + va mod PGSIZE.
Definition ubyte (m : memory) (root va : Z) : Z := load8 m (uphys m root va).
(** [va] can be read by user code. *)
Definition readable (m : memory) (root va : Z) : bool :=
  mapped m root va && pte_has (pte_of m root va) PTE_U.
(** No user page at or above the trapframe. *)
Definition high_ok (m : memory) (root : Z) : Prop :=
  forall va, TRAPFRAME <= va < MAXVA -> readable m root va = false.

(** A page no part of the address space: not free, no table, not mapped. *)
Definition foreign (m : memory) (root : Z) (l : list Z) (pg : Z) : Prop :=
  valid_page pg /\ (pg ∉ l) /\ ~ is_node m root pg /\
  forall va, in_user va -> mapped m root va = true -> pa_of m root va <> pg.

Record cp_step (W : Z -> Prop) (s s' : kmem) (root : Z) (l l' : list Z) : Prop := {
  cp_kmem : kmem_inv s' l';
  cp_as : as_inv (phys s') root l';
  cp_high : forall va, TRAPFRAME <= va < MAXVA -> tr (phys s') root va = tr (phys s) root va;
  cp_keep : forall va, in_user va -> mapped (phys s) root va = true ->
    pte_of (phys s') root va = pte_of (phys s) root va;
  cp_bytes : forall va, in_user va -> mapped (phys s) root va = true -> ~ W va ->
    ubyte (phys s') root va = ubyte (phys s) root va;
  cp_foreign : forall pg, foreign (phys s) root l pg -> foreign (phys s') root l' pg;
  cp_isolated : forall pg x, foreign (phys s) root l pg -> in_page pg x -> phys s' x = phys s x
}.

Lemma cp_step_refl W s root l : kmem_inv s l -> as_inv (phys s) root l -> cp_step W s s root l l.
Proof. intros. by split. Qed.

Lemma cp_mapped W s s' root l l' va :
  cp_step W s s' root l l' -> in_user va -> mapped (phys s) root va = true ->
  mapped (phys s') root va = true.
Proof. intros C Hu Hm. unfold mapped. by rewrite (cp_keep _ _ _ _ _ _ C va Hu Hm). Qed.

Lemma cp_step_trans W s1 s2 s3 root l1 l2 l3 :
  cp_step W s1 s2 root l1 l2 -> cp_step W s2 s3 root l2 l3 -> cp_step W s1 s3 root l1 l3.
Proof.
  intros C1 C2. split; [apply C2|apply C2| | | | |].
  - intros va Hv. by rewrite (cp_high _ _ _ _ _ _ C2), (cp_high _ _ _ _ _ _ C1).
  - intros va Hu Hm. rewrite (cp_keep _ _ _ _ _ _ C2), (cp_keep _ _ _ _ _ _ C1); try done.
    by apply (cp_mapped _ _ _ _ _ _ _ C1).
  - intros va Hu Hm Hw. rewrite (cp_bytes _ _ _ _ _ _ C2), (cp_bytes _ _ _ _ _ _ C1); try done.
    by apply (cp_mapped _ _ _ _ _ _ _ C1).
  - intros pg Hf. by apply (cp_foreign _ _ _ _ _ _ C2), (cp_foreign _ _ _ _ _ _ C1).
  - intros pg x Hf Hx. rewrite (cp_isolated _ _ _ _ _ _ C2 pg x), (cp_isolated _ _ _ _ _ _ C1 pg x); try done.
    by apply (cp_foreign _ _ _ _ _ _ C1).
Qed.

Lemma cp_step_mono (W W' : Z -> Prop) s s' root l l' :
  (forall va, W va -> W' va) -> cp_step W s s' root l l' -> cp_step W' s s' root l l'.
Proof. intros HW []. split; try done. intros va Hu Hm Hn. apply cp_bytes0; try done. intros ?. by apply Hn, HW. Qed.

Lemma tr_readable m m' root va : tr m' root va = tr m root va -> readable m' root va = readable m root va.
Proof.
  unfold tr, readable. destruct (mapped m' root va), (mapped m root va); try done. by intros [= ->].
Qed.

Lemma cp_high_ok W s s' root l l' :
  cp_step W s s' root l l' -> high_ok (phys s) root -> high_ok (phys s') root.
Proof.
  intros C H va Hva. rewrite (tr_readable (phys s)); [by apply H|]. by apply (cp_high _ _ _ _ _ _ C).
Qed.

Lemma uphys_in_page m root va : in_page (pa_of m root va) (uphys m root va).
Proof. unfold in_page, uphys. pose proof (Z.mod_pos_bound va PGSIZE ltac:(mlia)). lia. Qed.

Lemma forall_valid s l p : kmem_inv s l -> p ∈ l -> valid_page p.
Proof. intros HK Hp. pose proof (ki_valid _ _ HK) as HF. rewrite Forall_forall in HF. by apply HF. Qed.

(** ** The lazy allocation is such a step *)

Lemma as_step_cp s s' root l l' a perm :
  kmem_inv s l -> as_inv (phys s) root l -> as_step no_page s s' root l l' -> in_user a ->
  is_perm perm -> mapped (phys s) root a = false ->
  (forall va, 0 <= va < MAXVA -> if va / PGSIZE =? a / PGSIZE
     then tr (phys s') root va = tr (phys s) root va \/ zero_mapped (phys s') root l perm va
     else tr (phys s') root va = tr (phys s) root va) ->
  cp_step (fun _ => False) s s' root l l'.
Proof.
  intros HK Has St Ha Hperm Hma Htr.
  assert (Hpg : forall va, in_user va -> mapped (phys s) root va = true -> (va / PGSIZE =? a / PGSIZE) = false).
  { intros va Hu Hm. apply Z.eqb_neq. intros E. unfold mapped in *.
    rewrite (pte_of_same_page _ _ a va) in Hm by auto. congruence. }
  assert (Hkeep : forall va, in_user va -> mapped (phys s) root va = true ->
    pte_of (phys s') root va = pte_of (phys s) root va).
  { intros va Hu Hm. pose proof (Htr va ltac:(auto)) as E. rewrite (Hpg va Hu Hm) in E.
    unfold tr in E. rewrite Hm in E. destruct (mapped (phys s') root va); [by injection E|done]. }
  split; [apply St|apply St| |done| | |].
  - intros va Hva. specialize (Htr va ltac:(mlia)).
    rewrite (proj2 (Z.eqb_neq _ _)) in Htr; [done|]. intros E.
    pose proof (Z.div_mod va PGSIZE ltac:(mlia)). pose proof (Z.mod_pos_bound a PGSIZE ltac:(mlia)).
    pose proof (Z.div_mod a PGSIZE ltac:(mlia)). pose proof (Z.mod_pos_bound va PGSIZE ltac:(mlia)).
    unfold in_user in Ha. clear -Hva Ha E H H0 H1 H2. munfold. lia.
  - intros va Hu Hm _. unfold ubyte, uphys, pa_of. rewrite (Hkeep va Hu Hm).
    fold (pa_of (phys s) root va). fold (uphys (phys s) root va).
    destruct (as_leaf _ _ _ Has va Hu Hm) as (Hv & Hl & Hn). unfold load8. f_equal.
    apply (as_step_kept s s' root l l' (pa_of (phys s) root va)); try done. apply uphys_in_page.
  - intros pg (Hv & Hl & Hn & Hm). split_and!; [done| | |].
    + by intros [?|[]]%(st_free _ _ _ _ _ _ St).
    + by intros [?|[?|[]]]%(st_node _ _ _ _ _ _ St).
    + intros va Hu Hm' Hc. specialize (Htr va ltac:(auto)).
      assert (Hz : tr (phys s') root va = tr (phys s) root va \/ zero_mapped (phys s') root l perm va)
        by (destruct (_ =? _); auto).
      destruct Hz as [E|(q & Hq & E & _)]; unfold tr in E; rewrite Hm' in E.
      * destruct (mapped (phys s) root va) eqn:Em; [|done]. injection E as E.
        apply (Hm va Hu Em). unfold pa_of in *. by rewrite <- E.
      * injection E as E. unfold pa_of in Hc. rewrite E, PTE2PA_mkpte in Hc; [congruence| |done].
        apply valid_page_range. by eapply forall_valid.
  - intros pg x (Hv & Hl & Hn & Hm) Hx. by apply (as_step_kept s s' root l l' pg).
Qed.

(** ** Finding the page of an address, allocating it when that is allowed *)

Lemma uaddr_readable m root va :
  uaddr m root va = if readable m root va then pa_of m root va else 0.
Proof. done. Qed.

Lemma pa_of_pos m root l va :
  as_inv m root l -> in_user va -> mapped m root va = true -> 0 < pa_of m root va.
Proof. intros Has Hu Hm. destruct (as_leaf _ _ _ Has va Hu Hm) as (Hv & _). by destruct (valid_page_range _ Hv). Qed.

Lemma readable_mapped m root va : readable m root va = true -> mapped m root va = true.
Proof. unfold readable. by intros [? _]%andb_true_iff. Qed.

Lemma resolve_wp {A} (K : Z -> M kmem A) Q s l p va0 read :
  let root := u_pagetable p in
  kmem_inv s l -> as_inv (phys s) root l -> high_ok (phys s) root -> u_sz p <= TRAPFRAME -> 0 <= va0 ->
  (forall s' l', cp_step (fun _ => False) s s' root l l' -> readable (phys s) root va0 = false \/ MAXVA <= va0 ->
     wp (K 0) Q s') ->
  (forall s' l', cp_step (fun _ => False) s s' root l l' -> in_user va0 -> readable (phys s') root va0 = true ->
     0 < pa_of (phys s') root va0 -> wp (K (pa_of (phys s') root va0)) Q s') ->
  wp (let! pa := walkaddr root va0 in
      let! pa0 := (if pa =? 0 then vmfault p root va0 read else ret pa) in K pa0) Q s.
Proof.
  intros root HK Has Hh Hsz Hva Hfail Hok.
  assert (Hmiss : readable (phys s) root va0 = false \/ MAXVA <= va0 ->
    wp (let! pa0 := vmfault p root va0 read in K pa0) Q s).
  { intros Hmiss. rewrite wp_bind. eapply wp_mono; [by apply (vmfault_wp s l p va0 read)|]. cbn beta.
    intros r s'. fold root. destruct (_ || _) eqn:E.
    - intros [-> ->]. apply (Hfail s l); [by apply cp_step_refl|done].
    - apply orb_false_iff in E as [Hlt%Z.leb_gt Em]. assert (Hu : in_user va0) by (unfold in_user; lia).
      intros (l' & St & Hr). assert (C : cp_step (fun _ => False) s s' root l l').
      { apply (as_step_cp s s' root l l' va0 perm_vmfault HK Has St Hu); [by split|done|].
        intros va Hva'. destruct Hr as [[_ H]|[_ H]]; specialize (H va Hva'); destruct (_ =? _); auto. right. apply H. }
      destruct Hr as [[-> _]|[Hr H]]; [by apply (Hfail s' l')|].
      specialize (H va0 ltac:(auto)). rewrite Z.eqb_refl in H. destruct H as ((pg & Hpg & Htr & _) & <-).
      assert (Hm : mapped (phys s') root va0 = true /\ pte_of (phys s') root va0 = mkpte pg perm_vmfault).
      { unfold tr in Htr. destruct (mapped (phys s') root va0); [|done]. by injection Htr. }
      destruct Hm as [Hm Hp]. apply (Hok s' l'); [done|done| |exact (pa_of_pos _ _ _ va0 (cp_as _ _ _ _ _ _ C) Hu Hm)].
      unfold readable. rewrite Hm, Hp. cbn [andb]. rewrite pte_has_mkpte; [done|apply valid_page_range; by eapply forall_valid|by split|by split]. }
  destruct (Z.leb_spec MAXVA va0) as [Hge|Hlt].
  { rewrite wp_bind. unfold wp at 1. rewrite walkaddr_high by done. rewrite Z.eqb_refl. apply Hmiss. by right. }
  rewrite wp_bind. unfold wp at 1. rewrite (walkaddr_spec s root l) by (auto; apply Has). rewrite uaddr_readable.
  destruct (readable (phys s) root va0) eqn:Er; [|rewrite Z.eqb_refl; apply Hmiss; by left].
  assert (Hu : in_user va0).
  { unfold in_user. destruct (Z.ltb_spec va0 TRAPFRAME); [lia|]. rewrite Hh in Er; [done|lia]. }
  pose proof (pa_of_pos _ _ _ va0 Has Hu (readable_mapped _ _ _ Er)) as Hp.
  rewrite (proj2 (Z.eqb_neq (pa_of (phys s) root va0) 0)) by lia. wp_steps. apply (Hok s l); try done.
Qed.

(** ** Writing into a user page *)

Lemma same_page_split va0 va :
  page_aligned va0 -> va / PGSIZE = va0 / PGSIZE -> va = va0 + va mod PGSIZE.
Proof.
  unfold page_aligned. intros Ha E. pose proof (Z.div_mod va PGSIZE ltac:(mlia)).
  pose proof (Z.div_mod va0 PGSIZE ltac:(mlia)). rewrite E, Ha in *. lia.
Qed.

Lemma off_page va0 off :
  page_aligned va0 -> 0 <= off < PGSIZE ->
  (va0 + off) / PGSIZE = va0 / PGSIZE /\ (va0 + off) mod PGSIZE = off.
Proof.
  unfold page_aligned. intros Ha Ho. pose proof (Z.div_mod va0 PGSIZE ltac:(mlia)) as E. rewrite Ha in E.
  split.
  - symmetry. apply (Z.div_unique_pos _ _ _ off); lia.
  - symmetry. apply (Z.mod_unique_pos _ _ (va0 / PGSIZE)); lia.
Qed.

Lemma in_user_page va0 off : page_aligned va0 -> in_user va0 -> 0 <= off < PGSIZE -> in_user (va0 + off).
Proof.
  unfold in_user. intros Ha Hu Ho. assert (page_aligned TRAPFRAME) as HT by reflexivity.
  pose proof (page_aligned_dist va0 TRAPFRAME Ha HT). lia.
Qed.

Lemma frame_put_bytes p off bs m :
  0 <= off -> off + Z.of_nat (length bs) <= PGSIZE -> frame (eq p) m (put_bytes m (p + off) bs).
Proof.
  intros ?? x Hx. apply put_bytes_out. specialize (Hx p eq_refl). unfold in_page in Hx. lia.
Qed.

Lemma user_store s l root va0 off bs :
  kmem_inv s l -> as_inv (phys s) root l -> page_aligned va0 -> in_user va0 ->
  mapped (phys s) root va0 = true -> 0 <= off -> off + Z.of_nat (length bs) <= PGSIZE ->
  let s' := set_phys (put_bytes (phys s) (pa_of (phys s) root va0 + off) bs) s in
  cp_step (fun va => va0 + off <= va < va0 + off + Z.of_nat (length bs)) s s' root l l /\
  (forall va, pte_of (phys s') root va = pte_of (phys s) root va) /\
  (forall i b, bs !! i = Some b -> ubyte (phys s') root (va0 + off + Z.of_nat i) = u8 b).
Proof.
  intros HK Has Ha Hu Hm Ho Hlen. cbn zeta. set (pa := pa_of (phys s) root va0).
  set (m' := put_bytes (phys s) (pa + off) bs). cbn [phys set_phys].
  destruct (as_leaf _ _ _ Has va0 Hu Hm) as (Hv & Hl & Hn). fold pa in Hv, Hl, Hn.
  assert (HF : frame (eq pa) (phys s) m') by (by apply frame_put_bytes).
  destruct (node_frame_inv (eq pa) (phys s) m' root l) as (Hnode & Hpte & Hdirs); try done.
  { apply Has. } { by intros ? <-. } { by intros ? <-. }
  split_and!; [|done|].
  - split; cbn [phys set_phys].
    + eapply kmem_inv_frame; [exact HF|by intros ? <-|by intros ? ? <-|done].
    + eapply as_inv_ext; [exact Has| |done| |done].
      * eapply pt_inv_node_eq; [apply Has|done|done|auto].
      * intros p. rewrite (is_node_eq (phys s) m') by done. by left.
    + intros va _. apply tr_ext, Hpte.
    + intros va _ _. apply Hpte.
    + intros va Hu' Hm' HW. unfold ubyte, load8, uphys, pa_of. rewrite Hpte.
      fold (pa_of (phys s) root va). f_equal.
      destruct (decide (va / PGSIZE = va0 / PGSIZE)) as [E|E].
      * unfold m'. apply put_bytes_out. pose proof (same_page_split va0 va Ha E).
        replace (pa_of (phys s) root va) with pa; [lia|]. unfold pa, pa_of.
        by rewrite (pte_of_same_page _ _ va0 va) by auto.
      * destruct (as_leaf _ _ _ Has va Hu' Hm') as (Hv' & _).
        apply (frame_byte (eq pa) _ _ (pa_of (phys s) root va)); try done; [by intros ? <-| |apply uphys_in_page].
        intros Hc. apply E. by apply (as_inj _ _ _ Has).
    + intros pg (H1 & H2 & H3 & H4). split_and!; try done.
      * by rewrite (is_node_eq (phys s) m').
      * intros va Hu'. unfold mapped, pa_of. rewrite Hpte. by apply H4.
    + intros pg x (H1 & H2 & H3 & H4) Hx. apply (frame_byte (eq pa) _ _ pg); try done; [by intros ? <-|].
      by apply (H4 va0).
  - intros i b Hi. pose proof (lookup_lt_Some _ _ _ Hi) as Hlt.
    replace (va0 + off + Z.of_nat i) with (va0 + (off + Z.of_nat i)) by lia.
    destruct (off_page va0 (off + Z.of_nat i) Ha ltac:(lia)) as [Hd Hr].
    unfold ubyte, uphys, pa_of. rewrite Hpte, (pte_of_same_page _ _ va0), Hr; [|auto|unfold in_user in Hu; clear -Hu Hlt Hlen Ho; mlia|done].
    fold (pa_of (phys s) root va0). fold pa. rewrite Z.add_assoc. unfold load8, m'.
    by rewrite (put_bytes_in _ _ _ _ _ Hi), u8_idem.
Qed.

(** ** copyout *)

Definition writable (m : memory) (root va : Z) : bool :=
  readable m root va && pte_has (pte_of m root va) PTE_W.

Lemma cp_writable W s s' root l l' va :
  cp_step W s s' root l l' -> in_user va -> writable (phys s) root va = true -> writable (phys s') root va = true.
Proof.
  intros C Hu. unfold writable, readable, mapped. intros Hw. rewrite (cp_keep _ _ _ _ _ _ C); [done|done|].
  unfold mapped. by apply andb_true_iff in Hw as [[? _]%andb_true_iff _].
Qed.
Lemma cp_readable W s s' root l l' va :
  cp_step W s s' root l l' -> in_user va -> readable (phys s) root va = true -> readable (phys s') root va = true.
Proof.
  intros C Hu. unfold readable, mapped. intros Hw. rewrite (cp_keep _ _ _ _ _ _ C); [done|done|].
  unfold mapped. by apply andb_true_iff in Hw as [? _].
Qed.

Lemma same_page_readable m root va0 va :
  0 <= va0 < MAXVA -> 0 <= va < MAXVA -> va / PGSIZE = va0 / PGSIZE ->
  readable m root va = readable m root va0.
Proof. intros. unfold readable, mapped. by rewrite (pte_of_same_page m root va0 va). Qed.

Lemma rounddown_page va : is_u64 va ->
  exists off, va = PGROUNDDOWN va + off /\ 0 <= off < PGSIZE /\ page_aligned (PGROUNDDOWN va) /\
    0 <= PGROUNDDOWN va /\ va / PGSIZE = PGROUNDDOWN va / PGSIZE /\
    u64 (PGSIZE - (va - PGROUNDDOWN va)) = PGSIZE - off.
Proof.
  intros Hv. destruct (PGROUNDDOWN_bounds va Hv) as (Hb & Ha & H0). exists (va - PGROUNDDOWN va).
  split_and!; [lia|lia|lia|done|done| |].
  - pose proof (off_page (PGROUNDDOWN va) (va - PGROUNDDOWN va) Ha ltac:(lia)) as [E _].
    rewrite <- E. f_equal. lia.
  - apply u64_id. clear -Hb. mlia.
Qed.

(** What [copyout] has achieved when it returns [r]. *)
Definition copyout_post (s s' : kmem) (root dstva : Z) (src : list Z) (r : Z) : Prop :=
  (r = 0 /\ forall i b, src !! i = Some b ->
     in_user (dstva + Z.of_nat i) /\ readable (phys s') root (dstva + Z.of_nat i) = true /\
     ubyte (phys s') root (dstva + Z.of_nat i) = u8 b) \/
  (r = -1 /\ exists i, 0 <= i < Z.of_nat (length src) /\
     ~ (in_user (dstva + i) /\ writable (phys s) root (dstva + i) = true)).

(** One page done, the rest done or failed. *)
Lemma copyout_post_app s s2 s3 root l l2 l3 dstva src (n next : Z) W r :
  cp_step W s s2 root l l2 ->
  cp_step (fun va => next <= va < dstva + Z.of_nat (length src)) s2 s3 root l2 l3 ->
  0 <= n <= Z.of_nat (length src) -> dstva + n <= next -> (n < Z.of_nat (length src) -> next = dstva + n) ->
  (forall i b, firstn (Z.to_nat n) src !! i = Some b ->
     in_user (dstva + Z.of_nat i) /\ readable (phys s2) root (dstva + Z.of_nat i) = true /\
     ubyte (phys s2) root (dstva + Z.of_nat i) = u8 b) ->
  copyout_post s2 s3 root next (skipn (Z.to_nat n) src) r -> copyout_post s s3 root dstva src r.
Proof.
  intros C2 C3 Hn Hnext Hnn Hfirst [[-> Hrest]|(-> & i & Hi & Hbad)].
  - left. split; [done|]. intros i b Hib. pose proof (lookup_lt_Some _ _ _ Hib) as Hlt.
    destruct (decide (Z.of_nat i < n)) as [Hin|Hin].
    + destruct (Hfirst i b) as (Hu & Hr & Hb). { rewrite lookup_take_lt by lia. done. }
      split_and!; [done|by apply (cp_readable _ _ _ _ _ _ _ C3)|].
      rewrite (cp_bytes _ _ _ _ _ _ C3); [done|done|by apply readable_mapped|lia].
    + destruct (Hrest (i - Z.to_nat n)%nat b) as (Hu & Hr & Hb).
      { rewrite lookup_drop. rewrite <- Hib. f_equal. lia. }
      replace (next + Z.of_nat (i - Z.to_nat n)) with (dstva + Z.of_nat i) in * by lia. done.
  - right. rewrite length_drop in Hi. split; [done|]. exists (n + i).
    replace (dstva + (n + i)) with (next + i) by lia. split; [lia|]. intros [Hu Hw]. apply Hbad.
    split; [done|]. by apply (cp_writable _ _ _ _ _ _ _ C2).
Qed.

Lemma copyout_loop_wp fuel s l p dstva src :
  let root := u_pagetable p in
  kmem_inv s l -> as_inv (phys s) root l -> high_ok (phys s) root -> u_sz p <= TRAPFRAME ->
  is_u64 dstva -> (length src < fuel)%nat ->
  wp (copyout_loop fuel p root dstva src) (fun r s' =>
    (exists l', cp_step (fun va => dstva <= va < dstva + Z.of_nat (length src)) s s' root l l') /\
    copyout_post s s' root dstva src r) s.
Proof.
  intros root. revert s l dstva src. induction fuel as [|fuel IH]; intros s l dstva src HK Has Hh Hsz Hd Hf; [lia|].
  cbn [copyout_loop]. destruct src as [|b0 src0] eqn:Esrc.
  { wp_steps. split; [exists l; by apply cp_step_refl|]. left. by split. }
  rewrite <- Esrc in *. assert (Hlen : (0 < length src)%nat) by (subst; cbn; lia). clear Esrc b0 src0.
  destruct (rounddown_page dstva Hd) as (off & Hoff & Ho & Ha & H0 & Hpg & Hn0).
  set (va0 := PGROUNDDOWN dstva) in *. rewrite Hn0.
  set (W := fun va => dstva <= va < dstva + Z.of_nat (length src)).
  assert (Hbad : forall s1 l1, cp_step (fun _ => False) s s1 root l l1 ->
     ~ (in_user dstva /\ writable (phys s) root dstva = true) ->
     (exists l', cp_step W s s1 root l l') /\ copyout_post s s1 root dstva src (-1)).
  { intros s1 l1 C Hw. split; [exists l1; eapply cp_step_mono; [|exact C]; done|]. right. split; [done|].
    exists 0. rewrite Z.add_0_r. by split; [lia|]. }
  destruct (Z.leb_spec MAXVA va0) as [Hge|Hlt].
  { wp_steps. apply (Hbad s l); [by apply cp_step_refl|]. intros [Hu _]. unfold in_user in Hu. clear -Hu Hge Hoff Ho. mlia. }
  apply (resolve_wp _ _ s l p va0 false HK Has Hh Hsz H0).
  { intros s1 l1 C Hmiss. rewrite Z.eqb_refl. wp_steps. apply (Hbad s1 l1 C). intros [Hu Hw]. fold root in Hmiss.
    destruct Hmiss as [Hmiss|?]; [|lia]. unfold writable in Hw.
    rewrite (same_page_readable _ _ va0 dstva), Hmiss in Hw by auto. done. }
  fold root. intros s1 l1 C Hu0 Hr Hp0. set (pa0 := pa_of (phys s1) root va0) in *.
  rewrite (proj2 (Z.eqb_neq pa0 0)) by lia. pose proof (readable_mapped _ _ _ Hr) as Hm1.
  rewrite wp_bind. unfold wp at 1. rewrite walk_ro by auto.
  destruct (leaf_slot (phys s1) root va0) as [slot|] eqn:Es.
  2:{ unfold mapped, pte_of in Hm1. rewrite Es in Hm1. done. }
  cbn [from_option id]. pose proof (leaf_slot_nonzero _ _ _ _ _ (as_pt _ _ _ (cp_as _ _ _ _ _ _ C)) Es) as Hs0.
  rewrite (proj2 (Z.eqb_neq slot 0)) by done. unfold rd64. wp_steps. rewrite <- (pte_of_slot _ _ _ _ Es).
  destruct (pte_has (pte_of (phys s1) root va0) PTE_W) eqn:EW; cbn [negb].
  2:{ wp_steps. apply (Hbad s1 l1 C). intros [Hu Hw]. pose proof (cp_writable _ _ _ _ _ _ _ C Hu Hw) as Hw1.
      unfold writable in Hw1. rewrite (pte_of_same_page _ _ va0 dstva), EW, andb_false_r in Hw1 by auto. done. }
  set (n := if _ <? _ then _ else _).
  assert (Hn : n = Z.min (Z.of_nat (length src)) (PGSIZE - off)).
  { unfold n. destruct (Z.ltb_spec (Z.of_nat (length src)) (PGSIZE - off)); lia. }
  clearbody n. wp_steps. replace (dstva - va0) with off by lia. set (bs := firstn (Z.to_nat n) src).
  assert (Hbs : Z.of_nat (length bs) = n).
  { unfold bs. rewrite length_take. lia. }
  destruct (user_store s1 l1 root va0 off bs) as (C2 & Hpte2 & Hb2); try done; [apply C|apply C|lia|lia|].
  cbv zeta in C2, Hpte2, Hb2. fold pa0 in C2, Hpte2, Hb2.
  set (s2 := set_phys _ s1) in *. rewrite (u64_id (va0 + PGSIZE)) by (unfold in_user in Hu0; clear -Hu0; mlia).
  assert (C12 : cp_step W s s2 root l l1).
  { eapply cp_step_trans; [eapply cp_step_mono; [|exact C]; done|]. eapply cp_step_mono; [|exact C2].
    intros va Hva. cbn beta in Hva. unfold W. lia. }
  eapply wp_mono; [apply (IH s2 l1 (va0 + PGSIZE) (skipn (Z.to_nat n) src));
    [apply C2|apply C2|by apply (cp_high_ok _ _ _ _ _ _ C12)|done| |]|].
  { unfold in_user in Hu0. clear -Hu0. mlia. }
  { rewrite length_drop. lia. }
  intros r s3 [[l3 C3] Hpost]. rewrite length_drop in C3.
  assert (C3' : cp_step (fun va => va0 + PGSIZE <= va < dstva + Z.of_nat (length src)) s2 s3 root l1 l3).
  { eapply cp_step_mono; [|exact C3]. cbn beta. clear -Hn Hoff Hlen Ho. intros va Hva. lia. }
  split; [exists l3; eapply cp_step_trans; [exact C12|]; eapply cp_step_mono; [|exact C3']; unfold W; cbn beta; lia|].
  apply (copyout_post_app s s2 s3 root l l1 l3 dstva src n (va0 + PGSIZE) W); try done; [lia|lia|lia|].
  intros i b Hi. fold bs in Hi. pose proof (lookup_lt_Some _ _ _ Hi) as Hil.
  assert (Hui : in_user (dstva + Z.of_nat i)).
  { rewrite Hoff, <- Z.add_assoc. apply in_user_page; [done|done|lia]. }
  split_and!; [done| |].
  - rewrite Hoff, <- Z.add_assoc. destruct (off_page va0 (off + Z.of_nat i) Ha ltac:(lia)) as [Hd' _].
    rewrite (same_page_readable _ _ va0) by (done || auto; rewrite Z.add_assoc, <- Hoff; auto).
    unfold readable, mapped. by rewrite !Hpte2.
  - rewrite Hoff. by apply Hb2.
Qed.

(** ** copyin *)

(** [bs] are the bytes the process sees from [va] on. *)
Definition sees (m : memory) (root va : Z) (bs : list Z) : Prop :=
  forall i b, bs !! i = Some b ->
    in_user (va + Z.of_nat i) /\ readable m root (va + Z.of_nat i) = true /\
    ubyte m root (va + Z.of_nat i) = b.

Lemma sees_app m root va bs bs' :
  sees m root va bs -> sees m root (va + Z.of_nat (length bs)) bs' -> sees m root va (bs ++ bs').
Proof.
  intros H1 H2 i b Hi. apply lookup_app_Some in Hi as [Hi|[Hge Hi]]; [by apply H1|].
  apply H2 in Hi. replace (va + Z.of_nat (length bs) + Z.of_nat (i - length bs)) with (va + Z.of_nat i) in Hi by lia.
  done.
Qed.

Lemma sees_step s s' root l l' va bs :
  cp_step (fun _ => False) s s' root l l' -> sees (phys s) root va bs -> sees (phys s') root va bs.
Proof.
  intros C H i b Hi. destruct (H i b Hi) as (Hu & Hr & Hb).
  split_and!; [done|by apply (cp_readable _ _ _ _ _ _ _ C)|].
  rewrite (cp_bytes _ _ _ _ _ _ C); [done|done|by apply readable_mapped|auto].
Qed.

(** The bytes of a user page, read through its physical address. *)
Lemma sees_get_bytes m root va0 off n :
  page_aligned va0 -> in_user va0 -> readable m root va0 = true -> 0 <= off ->
  off + Z.of_nat n <= PGSIZE -> sees m root (va0 + off) (get_bytes m (pa_of m root va0 + off) n).
Proof.
  intros Ha Hu Hr Ho Hn i b Hi. pose proof (lookup_lt_Some _ _ _ Hi) as Hlt. rewrite get_bytes_length in Hlt.
  rewrite get_bytes_lookup in Hi by done. injection Hi as <-. rewrite <- Z.add_assoc.
  destruct (off_page va0 (off + Z.of_nat i) Ha ltac:(lia)) as [Hd Hm].
  pose proof (in_user_page va0 (off + Z.of_nat i) Ha Hu ltac:(lia)) as Hu'.
  split_and!; [done|by rewrite (same_page_readable _ _ va0) by auto|].
  unfold ubyte, uphys, pa_of. rewrite (pte_of_same_page _ _ va0), Hm by auto. f_equal. lia.
Qed.

Lemma copyin_loop_wp fuel s l p srcva len dst :
  let root := u_pagetable p in
  kmem_inv s l -> as_inv (phys s) root l -> high_ok (phys s) root -> u_sz p <= TRAPFRAME ->
  is_u64 srcva -> 0 <= len -> (Z.to_nat len < fuel)%nat ->
  wp (copyin_loop fuel p root srcva len dst) (fun '(r, dst') s' =>
    (exists l', cp_step (fun _ => False) s s' root l l') /\
    ((r = 0 /\ exists bs, dst' = dst ++ bs /\ Z.of_nat (length bs) = len /\ sees (phys s') root srcva bs) \/
     (r = -1 /\ exists i, 0 <= i < len /\
        ~ (in_user (srcva + i) /\ readable (phys s) root (srcva + i) = true)))) s.
Proof.
  intros root. revert s l srcva len dst.
  induction fuel as [|fuel IH]; intros s l srcva len dst HK Has Hh Hsz Hd Hl Hf; [lia|].
  cbn [copyin_loop]. destruct (Z.ltb_spec 0 len) as [Hpos|Hz].
  2:{ wp_steps. split; [exists l; by apply cp_step_refl|]. left. split; [done|]. exists [].
      rewrite app_nil_r. split_and!; [done|cbn; lia|by intros i b Hi]. }
  destruct (rounddown_page srcva Hd) as (off & Hoff & Ho & Ha & H0 & Hpg & Hn0).
  set (va0 := PGROUNDDOWN srcva) in *. rewrite Hn0.
  apply (resolve_wp _ _ s l p va0 false HK Has Hh Hsz H0).
  { fold root. intros s1 l1 C Hmiss. rewrite Z.eqb_refl. wp_steps. split; [by exists l1|]. right. split; [done|].
    exists 0. rewrite Z.add_0_r. split; [lia|]. intros [Hu Hr].
    destruct Hmiss as [Hmiss|Hge]; [|unfold in_user in Hu; clear -Hu Hge Hoff Ho; mlia].
    assert (Hu0 : 0 <= va0 < MAXVA) by (unfold in_user in Hu; clear -Hu Hoff Ho H0; mlia).
    rewrite (same_page_readable _ _ va0 srcva) in Hr by auto. congruence. }
  fold root. intros s1 l1 C Hu0 Hr Hp0. set (pa0 := pa_of (phys s1) root va0) in *.
  rewrite (proj2 (Z.eqb_neq pa0 0)) by lia.
  set (n := if _ <? _ then _ else _).
  assert (Hn : n = Z.min len (PGSIZE - off)).
  { unfold n. destruct (Z.ltb_spec len (PGSIZE - off)); lia. }
  clearbody n. wp_steps. replace (srcva - va0) with off by lia. set (bs := get_bytes _ _ _).
  assert (Hbs : Z.of_nat (length bs) = n) by (unfold bs; rewrite get_bytes_length; lia).
  assert (Hsee : sees (phys s1) root srcva bs).
  { rewrite Hoff. apply sees_get_bytes; try done; lia. }
  rewrite (u64_id (va0 + PGSIZE)) by (unfold in_user in Hu0; clear -Hu0; mlia).
  eapply wp_mono; [apply (IH s1 l1 (va0 + PGSIZE) (len - n) (dst ++ bs));
    [apply C|apply C|by apply (cp_high_ok _ _ _ _ _ _ C)|done| |lia|lia]|].
  { unfold in_user in Hu0. clear -Hu0. mlia. }
  intros [r dst'] s2 [[l2 C2] Hpost].
  split; [exists l2; eapply cp_step_trans; [exact C|exact C2]|].
  destruct Hpost as [(-> & bs2 & -> & Hl2 & Hs2)|(-> & i & Hi & Hb)].
  - left. split; [done|]. exists (bs ++ bs2). rewrite length_app, <- app_assoc. split_and!; [done|lia|].
    apply sees_app; [by apply (sees_step _ _ _ _ _ _ _ C2)|].
    destruct (decide (len = n)) as [E|E].
    + assert (bs2 = []) as -> by (apply length_zero_iff_nil; lia). by intros ? ? ?.
    + replace (srcva + Z.of_nat (length bs)) with (va0 + PGSIZE) by lia. done.
  - right. split; [done|]. exists (n + i). replace (srcva + (n + i)) with (va0 + PGSIZE + i) by lia.
    split; [lia|]. intros [Hu Hrd]. apply Hb. split; [done|]. by apply (cp_readable _ _ _ _ _ _ _ C).
Qed.

Lemma sees_inj m root va bs bs' :
  sees m root va bs -> sees m root va bs' -> length bs = length bs' -> bs = bs'.
Proof.
  intros H1 H2 Hlen. apply list_eq. intros i.
  destruct (bs !! i) as [b|] eqn:E1, (bs' !! i) as [b'|] eqn:E2; try done.
  - apply H1 in E1 as (_ & _ & <-). apply H2 in E2 as (_ & _ & <-). done.
  - apply lookup_lt_Some in E1. apply lookup_ge_None in E2. lia.
  - apply lookup_lt_Some in E2. apply lookup_ge_None in E1. lia.
Qed.

Lemma sees_prefix m root va bs bs' : sees m root va (bs ++ bs') -> sees m root va bs.
Proof. intros H i b Hi. apply H. by apply lookup_app_l_Some. Qed.

(** ** copyinstr *)

Lemma copyinstr_page_spec n m p :
  let '(bs, got) := copyinstr_page n m p in
  if (got : bool) then exists str, bs = str ++ [0] /\ Forall (fun b => b <> 0) str /\ (length bs <= n)%nat /\
                        bs = get_bytes m p (length bs)
  else bs = get_bytes m p n /\ Forall (fun b => b <> 0) bs.
Proof.
  revert p. induction n as [|n IH]; intros p; cbn [copyinstr_page]; [by split|].
  assert (Hget : forall k, get_bytes m p (S k) = load8 m p :: get_bytes m (p + 1) k).
  { intros k. unfold get_bytes. cbn [seq map]. rewrite Z.add_0_r. f_equal.
    rewrite <- seq_shift, map_map. apply map_ext. intros i. f_equal. lia. }
  destruct (Z.eqb_spec (load8 m p) 0) as [E|E].
  - exists []. split_and!; [done|constructor|cbn; lia|]. cbn [length]. rewrite Hget, E. done.
  - specialize (IH (p + 1)). destruct (copyinstr_page n m (p + 1)) as [bs got]. destruct got.
    + destruct IH as (str & Hbs & Hnz & Hle & Hg). exists (load8 m p :: str).
      split_and!; [by rewrite Hbs|by constructor|cbn; lia|]. cbn [length]. rewrite Hget. by rewrite <- Hg.
    + destruct IH as [Hg Hnz]. split; [by rewrite Hget, <- Hg|by constructor].
Qed.

(** The bytes from [va] on hold a string of at most [max] bytes, NUL included. *)
Definition sees_string (m : memory) (root va : Z) (max : Z) (str : list Z) : Prop :=
  Forall (fun b => b <> 0) str /\ Z.of_nat (length str) < max /\ sees m root va (str ++ [0]).

Lemma sees_drop m root va k bs bs' :
  sees m root va (bs ++ bs') -> k = Z.of_nat (length bs) -> sees m root (va + k) bs'.
Proof.
  intros H -> i b Hi. specialize (H (length bs + i)%nat b). rewrite lookup_app_r in H by lia.
  replace (length bs + i - length bs)%nat with i in H by lia.
  replace (va + Z.of_nat (length bs) + Z.of_nat i) with (va + Z.of_nat (length bs + i)) by lia. by apply H.
Qed.

Lemma sees_string_app m root va max bs next str :
  Forall (fun b => b <> 0) bs -> sees m root va bs ->
  (Z.of_nat (length bs) < max -> next = va + Z.of_nat (length bs)) ->
  sees_string m root next (max - Z.of_nat (length bs)) str -> sees_string m root va max (bs ++ str).
Proof.
  intros Hnz Hs Hnext (Hnz2 & Hl & Hs2). split_and!.
  - by apply Forall_app.
  - rewrite length_app. lia.
  - rewrite <- app_assoc. apply sees_app; [done|]. by rewrite <- Hnext by lia.
Qed.

Lemma sees_string_split m root va max bs next str :
  Forall (fun b => b <> 0) bs -> sees m root va bs ->
  (Z.of_nat (length bs) < max -> next = va + Z.of_nat (length bs)) ->
  sees_string m root va max str ->
  exists str', str = bs ++ str' /\ sees_string m root next (max - Z.of_nat (length bs)) str'.
Proof.
  intros Hnz Hs Hnext (Hnz2 & Hl & Hs2).
  assert (Hge : (length bs <= length str)%nat).
  { destruct (decide (length str < length bs)%nat) as [Hlt|]; [|lia]. exfalso.
    destruct (lookup_lt_is_Some_2 bs (length str) Hlt) as [b Hb]. rewrite Forall_lookup in Hnz.
    apply (Hnz _ _ Hb). destruct (Hs _ _ Hb) as (_ & _ & <-).
    destruct (Hs2 (length str) 0) as (_ & _ & H); [|done]. by rewrite lookup_app_r, Nat.sub_diag. }
  exists (skipn (length bs) str). rewrite <- (firstn_skipn (length bs) str) in Hs2 |- *.
  assert (firstn (length bs) str = bs) as E.
  { rewrite <- app_assoc in Hs2. apply (sees_inj m root va); [by eapply sees_prefix|done|]. rewrite length_take. lia. }
  rewrite E in Hs2 |- *. rewrite drop_app_length. split; [done|]. split_and!.
  - rewrite <- (firstn_skipn (length bs) str) in Hnz2. by apply Forall_app in Hnz2 as [_ ?].
  - rewrite length_drop. lia.
  - rewrite Hnext by lia. rewrite <- app_assoc in Hs2. by eapply sees_drop.
Qed.

Lemma copyinstr_loop_wp fuel s l root srcva max dst :
  pt_inv (phys s) root l -> high_ok (phys s) root ->
  (forall va, in_user va -> mapped (phys s) root va = true -> 0 < pa_of (phys s) root va) ->
  is_u64 srcva -> 0 <= max -> (Z.to_nat max < fuel)%nat ->
  wp (copyinstr_loop fuel root srcva max dst) (fun '(r, dst') s' => s' = s /\
    ((r = 0 /\ exists str, dst' = dst ++ str ++ [0] /\ sees_string (phys s) root srcva max str) \/
     (r = -1 /\ forall str, ~ sees_string (phys s) root srcva max str))) s.
Proof.
  revert srcva max dst. induction fuel as [|fuel IH]; intros srcva max dst Hpt Hh Hpos Hd Hm Hf; [lia|].
  cbn [copyinstr_loop]. destruct (Z.ltb_spec 0 max) as [Hmp|Hmz].
  2:{ wp_steps. split; [done|]. right. split; [done|]. intros str (_ & ? & _). lia. }
  destruct (rounddown_page srcva Hd) as (off & Hoff & Ho & Ha & H0 & Hpg & Hn0).
  set (va0 := PGROUNDDOWN srcva) in *. rewrite Hn0.
  assert (Hmiss : ~ (in_user va0 /\ readable (phys s) root va0 = true) -> forall str, ~ sees_string (phys s) root srcva max str).
  { intros Hno str (_ & _ & Hs). destruct (lookup_lt_is_Some_2 (str ++ [0]) 0) as [b0 Hb0].
    { rewrite length_app. cbn. lia. }
    destruct (Hs 0%nat b0 Hb0) as (Hu & Hr & _). rewrite Z.add_0_r in *. apply Hno.
    assert (in_user va0) by (unfold in_user in *; lia). split; [done|].
    by rewrite <- (same_page_readable _ _ va0 srcva) by auto. }
  rewrite wp_bind. unfold wp at 1.
  destruct (Z.leb_spec MAXVA va0) as [Hge|Hlt].
  { rewrite walkaddr_high, Z.eqb_refl by done. wp_steps. split; [done|]. right. split; [done|].
    apply Hmiss. intros [Hu _]. unfold in_user in Hu. clear -Hu Hge. mlia. }
  rewrite (walkaddr_spec s root l) by auto. rewrite uaddr_readable.
  destruct (readable (phys s) root va0) eqn:Er.
  2:{ rewrite Z.eqb_refl. wp_steps. split; [done|]. right. split; [done|]. apply Hmiss. by intros [_ ?]. }
  assert (Hu : in_user va0).
  { unfold in_user. destruct (Z.ltb_spec va0 TRAPFRAME); [lia|]. rewrite Hh in Er; [done|lia]. }
  pose proof (Hpos va0 Hu (readable_mapped _ _ _ Er)) as Hp0.
  rewrite (proj2 (Z.eqb_neq (pa_of (phys s) root va0) 0)) by lia.
  set (n := if _ <? _ then _ else _).
  assert (Hn : n = Z.min max (PGSIZE - off)) by (unfold n; destruct (Z.ltb_spec max (PGSIZE - off)); lia).
  clearbody n. wp_steps. replace (srcva - va0) with off by lia.
  pose proof (copyinstr_page_spec (Z.to_nat n) (phys s) (pa_of (phys s) root va0 + off)) as Hpage.
  destruct (copyinstr_page _ _ _) as [bs got].
  assert (Hsee : forall k, (k <= Z.to_nat n)%nat -> sees (phys s) root srcva (get_bytes (phys s) (pa_of (phys s) root va0 + off) k)).
  { intros k Hk. rewrite Hoff. apply sees_get_bytes; try done; lia. }
  destruct got.
  - destruct Hpage as (str & Hbs & Hnz & Hle & Hg). wp_steps. split; [done|]. left. split; [done|].
    exists str. rewrite <- Hbs. split; [done|]. split_and!; [done| |].
    + rewrite Hbs, length_app in Hle. cbn in Hle. lia.
    + rewrite <- Hbs, Hg. by apply Hsee.
  - destruct Hpage as [Hg Hnz]. assert (Hbl : length bs = Z.to_nat n) by (rewrite Hg; apply get_bytes_length).
    assert (Hs : sees (phys s) root srcva bs) by (rewrite Hg; by apply Hsee).
    rewrite (u64_id (va0 + PGSIZE)) by (unfold in_user in Hu; clear -Hu; mlia).
    replace (max - n) with (max - Z.of_nat (length bs)) by lia.
    assert (Hnx : Z.of_nat (length bs) < max -> va0 + PGSIZE = srcva + Z.of_nat (length bs)) by lia.
    eapply wp_mono; [apply (IH (va0 + PGSIZE) (max - Z.of_nat (length bs)) (dst ++ bs) Hpt Hh Hpos)|]; [|lia|lia|].
    { unfold in_user in Hu. clear -Hu. mlia. }
    intros [r dst'] s' [-> [(-> & str & -> & Hstr)|[-> Hno]]]; (split; [done|]); [left|right]; (split; [done|]).
    + exists (bs ++ str). rewrite <- !app_assoc. split; [done|]. by apply (sees_string_app _ _ _ _ _ (va0 + PGSIZE)).
    + intros str Hstr. destruct (sees_string_split _ _ _ _ bs (va0 + PGSIZE) _ Hnz Hs Hnx Hstr) as (str' & _ & H).
      by apply (Hno str').
Qed.

End VmCopy.
