(* ===== verification/VmFork.v ===== *)
(** * Copying an address space

    [uvmcopy] duplicates the memory of a process for [fork]: the parent is left
    untouched, every page the parent has mapped below [sz] is mapped in the
    child at the same address with the same permissions and the same bytes, in
    a page of its own, and on failure the child has no page left. *)
From S2P Require Import Prelude Machine Memory Kalloc Vm VmTables VmMap VmUser VmGrow VmCopy.

Section VmFork.
Context `{KI : KernelImage} `{KIO : !KernelImageOk}.
Hint Resolve okpath_nil okpath_path_of in_user_MAXVA : core.

(** The pages an address space consists of. *)
Definition owned (m : memory) (root p : Z) : Prop :=
  is_node m root p \/ exists va, in_user va /\ mapped m root va = true /\ pa_of m root va = p.

Definition apart (m : memory) (old new : Z) : Prop := forall p, owned m old p -> ~ owned m new p.

Lemma owned_valid m root l p : as_inv m root l -> owned m root p -> valid_page p /\ (p ∉ l).
Proof.
  intros Has [(path & Hok & Hn)|(va & Hu & Hm & <-)].
  - split; [exact (pt_valid _ _ _ (as_pt _ _ _ Has) path p Hok Hn)|exact (pt_used _ _ _ (as_pt _ _ _ Has) path p Hok Hn)].
  - by destruct (as_leaf _ _ _ Has va Hu Hm) as (? & ? & _).
Qed.

(** A step of [new] leaves an address space apart from it as it was. *)
Lemma other_kept X s s' old new l l' :
  kmem_inv s l -> as_inv (phys s) old l -> as_inv (phys s) new l -> apart (phys s) old new ->
  as_step X s s' new l l' -> (forall p, X p -> owned (phys s) new p) ->
  as_inv (phys s') old l' /\
  (forall path, okpath path -> node (phys s') old path = node (phys s) old path) /\
  (forall va, pte_of (phys s') old va = pte_of (phys s) old va) /\
  (forall p, owned (phys s') old p <-> owned (phys s) old p) /\
  (forall p x, owned (phys s) old p -> in_page p x -> phys s' x = phys s x).
Proof.
  intros HK Ho Hn Hd St HX.
  set (P := fun p => is_node (phys s) new p \/ p ∈ l \/ X p).
  assert (HPv : forall p, P p -> valid_page p).
  { intros p [Hp|[Hp|Hp]]; [|by eapply forall_valid|].
    - eapply owned_valid; [exact Hn|by left].
    - eapply owned_valid; [exact Hn|by apply HX]. }
  assert (HPo : forall p, owned (phys s) old p -> ~ P p).
  { intros p Hp [Hc|[Hc|Hc]].
    - apply (Hd p Hp). by left.
    - by apply (owned_valid _ _ _ _ Ho Hp).
    - by apply (Hd p Hp), HX. }
  destruct (node_frame_inv P (phys s) (phys s') old l (as_pt _ _ _ Ho) (st_frame _ _ _ _ _ _ St) HPv) as (Hnode & Hpte & Hdirs).
  { intros p Hp Hc. apply (HPo p); [by left|done]. }
  assert (Hown : forall p, owned (phys s') old p <-> owned (phys s) old p).
  { intros p. unfold owned. rewrite (is_node_eq (phys s) (phys s')) by done.
    split; (intros [?|(va & Hu & Hm & Hp)]; [by left|right; exists va]); unfold mapped, pa_of in *;
      rewrite Hpte in *; done. }
  split_and!; [|done|done|done|].
  - assert (Hl' : forall p, p ∈ l' -> ~ owned (phys s) old p).
    { intros p [Hp|Hp]%(st_free _ _ _ _ _ _ St) Hc; [by apply (owned_valid _ _ _ _ Ho Hc)|by apply (Hd p Hc), HX]. }
    split.
    + eapply pt_inv_node_eq; [apply Ho|done|done|]. intros p Hp. right. intros Hc. apply (Hl' p Hp). by left.
    + intros va Hu. unfold mapped, pa_of. rewrite Hpte. intros Hm.
      destruct (as_leaf _ _ _ Ho va Hu Hm) as (H1 & _ & H3). split_and!; [done| |].
      * intros Hc. apply (Hl' _ Hc). right. by exists va.
      * by rewrite (is_node_eq (phys s) (phys s')).
    + intros va va' Hu Hu'. unfold mapped, pa_of. rewrite !Hpte. by apply (as_inj _ _ _ Ho).
  - intros p x Hp Hx. apply (frame_byte P _ _ p); try done; [apply St| |by apply HPo].
    by destruct (owned_valid _ _ _ _ Ho Hp).
Qed.

(** Page [va] of the child: its own page, the parent's permissions and bytes. *)
Definition copied (s s' : kmem) (old new : Z) (l : list Z) (va : Z) : Prop :=
  exists pg, pg ∈ l /\ tr (phys s') new va = Some (mkpte pg (PTE_FLAGS (pte_of (phys s) old va))) /\
    forall k, 0 <= k < PGSIZE -> phys s' (pg + k) = load8 (phys s) (pa_of (phys s) old va + k).

Lemma apart_step s s' old new l l' :
  kmem_inv s l -> as_inv (phys s) old l -> as_inv (phys s) new l -> apart (phys s) old new ->
  as_step no_page s s' new l l' ->
  (forall va, in_user va -> mapped (phys s') new va = true ->
     (mapped (phys s) new va = true /\ pa_of (phys s') new va = pa_of (phys s) new va) \/ pa_of (phys s') new va ∈ l) ->
  apart (phys s') old new.
Proof.
  intros HK Ho Hn Hd St Hmap p Hp Hq.
  destruct (other_kept no_page s s' old new l l' HK Ho Hn Hd St) as (_ & _ & _ & Hown & _); [by intros ? []|].
  apply Hown in Hp. destruct (owned_valid _ _ _ _ Ho Hp) as [_ Hl].
  destruct Hq as [[Hq|[Hq|[]]]%(st_node _ _ _ _ _ _ St)|(va & Hu & Hm & <-)]; [by apply (Hd p Hp); left|done|].
  destruct (Hmap va Hu Hm) as [[Hm0 Heq]|Hin]; [|done].
  apply (Hd _ Hp). right. exists va. split_and!; [done|done|by rewrite Heq].
Qed.

Lemma PTE_FLAGS_perm pte : 0 <= pte -> is_perm (PTE_FLAGS pte).
Proof.
  intros H. unfold is_perm, PTE_FLAGS. change 1023 with (2 ^ 10 - 1).
  rewrite land_low_mask by lia. apply Z.mod_pos_bound. lia.
Qed.

Lemma pte_of_nonneg m root va : 0 <= pte_of m root va.
Proof. unfold pte_of. destruct (leaf_slot m root va); [apply load64_range|lia]. Qed.

Lemma page_div_mul i : page_aligned i -> i / PGSIZE * PGSIZE = i.
Proof. intros Ha. pose proof (npg_spec 0 i eq_refl Ha) as H. unfold npg in H. by rewrite !Z.sub_0_r in H. Qed.

(** Giving up: the child's pages below [i] go back to the allocator. *)
Lemma uvmcopy_undo s l new i :
  kmem_inv s l -> as_inv (phys s) new l -> page_aligned i -> 0 <= i <= TRAPFRAME ->
  wp (uvmunmap new 0 (i / PGSIZE) true ;; ret (-1)) (fun r s' => r = -1 /\ exists l',
    as_step (fun p => p ∈ mapped_pages (phys s) new 0 (Z.to_nat (i / PGSIZE))) s s' new l l' /\
    (forall va, 0 <= va < MAXVA -> tr (phys s') new va = if va <? i then None else tr (phys s) new va)) s.
Proof.
  intros HK Has Ha Hi. pose proof (page_div_mul i Ha) as Hd.
  wp_steps. eapply wp_mono; [apply (uvmunmap_wp s l new 0 (i / PGSIZE) HK Has); [done|lia| |lia]|].
  { apply Z.div_pos; [lia|mlia]. }
  intros _ s' (H1 & H2 & H3 & H4 & H5). wp_steps. split; [done|].
  set (freed := mapped_pages _ _ _ _) in *. exists (reverse freed ++ l). split.
  - split; [done|done| | |].
    + intros p. rewrite elem_of_app, elem_of_reverse. tauto.
    + intros p. rewrite (is_node_eq (phys s)) by done. auto.
    + eapply frame_mono; [|exact H5]. tauto.
  - intros va Hva. unfold tr, mapped. rewrite (H3 va Hva). rewrite Hd, Z.add_0_l, (proj2 (Z.leb_le 0 va)) by lia.
    cbn [andb]. destruct (va <? i); cbn [andb]; [|done]. unfold mapped.
    by destruct (pte_has (pte_of (phys s) new va) PTE_V) eqn:E; rewrite ?E.
Qed.

(** One page of the parent, copied to [pg]. *)
Lemma copied_page s s1 m1 pa pg k :
  valid_page pa -> valid_page pg -> pa <> pg -> frame (eq pg) (phys s) m1 ->
  (forall x, in_page pg x -> phys s1 x = copy_range m1 pg pa PGSIZE x) ->
  0 <= k < PGSIZE -> phys s1 (pg + k) = load8 (phys s) (pa + k).
Proof.
  intros Hpa Hpg Hne HF Hc Hk. rewrite Hc by (unfold in_page; lia). rewrite copy_range_in by lia.
  replace (pa + (pg + k - pg)) with (pa + k) by lia. unfold load8. f_equal.
  apply (frame_byte (eq pg) _ _ pa); try done; [by intros ? <-|unfold in_page; lia].
Qed.

Lemma copied_keep s s1 s' old new l l1 l' va pg :
  kmem_inv s1 l1 -> as_inv (phys s1) new l1 -> as_step no_page s1 s' new l1 l' ->
  pg ∈ l -> valid_page pg -> (pg ∉ l1) -> ~ is_node (phys s1) new pg ->
  tr (phys s') new va = Some (mkpte pg (PTE_FLAGS (pte_of (phys s) old va))) ->
  (forall k, 0 <= k < PGSIZE -> phys s1 (pg + k) = load8 (phys s) (pa_of (phys s) old va + k)) ->
  copied s s' old new l va.
Proof.
  intros HK Has St Hl Hv Hl1 Hn Htr Hc. exists pg. split_and!; [done|done|]. intros k Hk.
  rewrite <- (Hc k Hk). apply (as_step_kept s1 s' new l1 l' pg); try done. unfold in_page. lia.
Qed.

(** What the loop has done when it stops, from page [i] to [hi]. *)
Definition uvmcopy_post (s s' : kmem) (old new : Z) (l : list Z) (i hi r : Z) : Prop :=
  (r = 0 /\ (exists l', as_step no_page s s' new l l') /\
   (forall va, 0 <= va < MAXVA ->
      if (i <=? va) && (va <? hi) && mapped (phys s) old va then copied s s' old new l va
      else tr (phys s') new va = tr (phys s) new va)) \/
  (r = -1 /\
   (exists l', as_step (fun p => p ∈ mapped_pages (phys s) new 0 (Z.to_nat (i / PGSIZE))) s s' new l l') /\
   (forall va, 0 <= va < MAXVA -> tr (phys s') new va = if va <? i then None else tr (phys s) new va)).

Section Loop.
Context (s : kmem) (l : list Z) (old new i : Z).
Hypothesis (HK : kmem_inv s l) (Ho : as_inv (phys s) old l) (Hn : as_inv (phys s) new l)
  (Hd : apart (phys s) old new) (Ha : page_aligned i) (Hu : in_user i).

(** The parent has nothing at page [i]. *)
Lemma uvmcopy_skip s' k r :
  0 <= k -> mapped (phys s) old i = false -> mapped (phys s) new i = false ->
  uvmcopy_post s s' old new l (i + PGSIZE) (i + PGSIZE + k) r -> uvmcopy_post s s' old new l i (i + PGSIZE + k) r.
Proof.
  intros Hk Hmo Hmn [(-> & Hst & Hv)|(-> & (l' & St) & Hv)]; [left|right]; (split; [done|]).
  - split; [done|]. intros va Hva. specialize (Hv va Hva). rewrite (range_cons i va k Ha Hk).
    destruct (va / PGSIZE =? i / PGSIZE) eqn:E; cbn [orb andb]; [|done].
    assert (E' : va / PGSIZE = i / PGSIZE) by (by apply Z.eqb_eq).
    rewrite (range_tail_other i va) in Hv by done. cbn [andb] in Hv.
    unfold mapped in Hmo |- *. rewrite (pte_of_same_page _ _ i va) by auto. rewrite Hmo. done.
  - split.
    + exists l'. eapply as_step_mono; [|exact St]. cbn beta. intros p. rewrite !elem_of_mapped_pages.
      intros (j & Hj & Hm & ->). right. exists j. split; [|done].
      pose proof (npg_spec 0 i eq_refl Ha) as E1.
      assert (Ha1 : page_aligned (i + PGSIZE)) by (by apply page_aligned_add).
      pose proof (npg_spec 0 (i + PGSIZE) eq_refl Ha1) as E2. unfold npg in E1, E2. rewrite !Z.sub_0_r in E1, E2.
      destruct (decide (j = i / PGSIZE)) as [->|]; [|clear -E1 E2 Hj n; munfold; lia].
      rewrite Z.add_0_l, E1 in Hm. congruence.
    + intros va Hva. rewrite (Hv va Hva). destruct (Z.ltb_spec va i), (Z.ltb_spec va (i + PGSIZE)); try done; [mlia|].
      symmetry. apply tr_None. unfold mapped in Hmn |- *. rewrite (pte_of_same_page _ _ i va); [done|auto|done|].
      apply Z.eqb_eq. rewrite div_page_range by done. case_range; done || lia.
Qed.

(** Page [i] of the parent has been copied to [pg]. *)
Lemma uvmcopy_one s1 l1 pg s' k r :
  0 <= k -> i + PGSIZE + k <= TRAPFRAME -> mapped (phys s) old i = true -> mapped (phys s) new i = false ->
  as_step no_page s s1 new l l1 ->
  pg ∈ l -> (pg ∉ l1) -> ~ is_node (phys s1) new pg ->
  (forall va, 0 <= va < MAXVA -> pte_of (phys s1) new va =
     if va / PGSIZE =? i / PGSIZE then mkpte pg (PTE_FLAGS (pte_of (phys s) old i)) else pte_of (phys s) new va) ->
  (forall j, 0 <= j < PGSIZE -> phys s1 (pg + j) = load8 (phys s) (pa_of (phys s) old i + j)) ->
  uvmcopy_post s1 s' old new l1 (i + PGSIZE) (i + PGSIZE + k) r -> uvmcopy_post s s' old new l i (i + PGSIZE + k) r.
Proof.
  intros Hk Hhi Hmo Hmn St Hpl Hpl1 Hpn Hpte Hc Hpost.
  destruct (other_kept no_page s s1 old new l l1 HK Ho Hn Hd St) as (_ & _ & Hptes & _ & Hkept); [by intros ? []|].
  pose proof (forall_valid _ _ _ HK Hpl) as Hpv. destruct (valid_page_range pg Hpv) as (_ & _ & Hppa).
  pose proof (PTE_FLAGS_perm _ (pte_of_nonneg (phys s) old i)) as Hperm.
  destruct Hpost as [(-> & (l' & St') & Hv)|(-> & (l' & St') & Hv)]; [left|right]; (split; [done|]).
  - split; [exists l'; eapply as_step_trans; [exact St|exact St'|by intros ? []]|].
    intros va Hva. specialize (Hv va Hva). rewrite (range_cons i va k Ha Hk).
    specialize (Hpte va Hva). destruct (va / PGSIZE =? i / PGSIZE) eqn:E; cbn [orb andb].
    + assert (E' : va / PGSIZE = i / PGSIZE) by (by apply Z.eqb_eq).
      rewrite (range_tail_other i va) in Hv by done. cbn [andb] in Hv.
      pose proof (pte_of_same_page (phys s) old i va (in_user_MAXVA i Hu) Hva E') as Ep.
      unfold mapped in Hmo |- *. rewrite Ep, Hmo.
      apply (copied_keep s s1 s' old new l l1 l' va pg); try done; [apply St|apply St| |].
      * rewrite Hv, Ep. by apply tr_mkpte.
      * intros j Hj. unfold pa_of. rewrite Ep. by apply Hc.
    + unfold mapped in Hv |- *. rewrite Hptes in Hv.
      destruct (_ && _ && _) eqn:Er.
      * destruct Hv as (q & Hq & Htr & Hb). exists q. rewrite Hptes in Htr. split_and!; [|done|].
        -- by destruct (st_free _ _ _ _ _ _ St q Hq).
        -- intros j Hj. rewrite (Hb j Hj). unfold pa_of. rewrite Hptes. unfold load8. f_equal.
           apply andb_true_iff in Er as [Er Hm]. apply (Hkept (pa_of (phys s) old va)); [|unfold in_page, pa_of; lia].
           right. exists va. split_and!; [|done|done].
           apply andb_true_iff in Er as [Er1%Z.leb_le Er2%Z.ltb_lt]. unfold in_user. lia.
      * rewrite Hv. by apply tr_ext.
  - split.
    + exists l'. eapply as_step_trans; [eapply as_step_mono; [|exact St]; by intros ? []|exact St'|].
      intros p Hp. pose proof (pages_below_next (phys s) (phys s1) new l i 0 pg _ p Ha eq_refl
        (conj (Z.le_refl 0) (proj1 Hu)) Hu Hpv Hperm Hpl Hpte) as H.
      unfold npg in H. rewrite !Z.sub_0_r in H. by apply H.
    + intros va Hva. rewrite (Hv va Hva). specialize (Hpte va Hva).
      destruct (Z.ltb_spec va i), (Z.ltb_spec va (i + PGSIZE)); try done; [mlia| |].
      * symmetry. apply tr_None. unfold mapped in Hmn |- *. rewrite (pte_of_same_page _ _ i va); [done|auto|done|].
        apply Z.eqb_eq. rewrite div_page_range by done. case_range; done || lia.
      * apply tr_ext. rewrite Hpte, div_page_range by done. case_range; done || lia.
Qed.
End Loop.

Lemma uvmcopy_loop_wp n fuel s l old new i sz :
  kmem_inv s l -> as_inv (phys s) old l -> as_inv (phys s) new l -> apart (phys s) old new ->
  page_aligned i -> 0 <= i -> i + Z.of_nat n * PGSIZE <= TRAPFRAME ->
  i + (Z.of_nat n - 1) * PGSIZE < sz <= i + Z.of_nat n * PGSIZE -> (n < fuel)%nat ->
  (forall va, i <= va < i + Z.of_nat n * PGSIZE -> mapped (phys s) new va = false) ->
  wp (uvmcopy_loop fuel old new i sz) (fun r s' =>
    uvmcopy_post s s' old new l i (i + Z.of_nat n * PGSIZE) r) s.
Proof.
  revert fuel s l i. induction n as [|n IH]; intros fuel s l i HK Ho Hn Hd Ha Hi Hhi Hsz Hf Hun;
    (destruct fuel as [|fuel]; [lia|]); cbn [uvmcopy_loop].
  { rewrite (proj2 (Z.ltb_ge _ _)) by lia. wp_steps. left. split_and!; [done|exists l; by apply as_step_refl|].
    intros va _. replace ((i <=? va) && (va <? i + Z.of_nat 0 * PGSIZE)) with false by (case_range; done || lia).
    done. }
  rewrite (proj2 (Z.ltb_lt _ _)) by (clear -Hsz; mlia). rewrite (u64_id (i + PGSIZE)) by (clear -Hhi Hi; mlia).
  assert (Hu : in_user i) by (unfold in_user; clear -Hhi Hi; mlia).
  assert (Hmn : mapped (phys s) new i = false) by (apply Hun; clear; mlia).
  replace (i + Z.of_nat (S n) * PGSIZE) with (i + PGSIZE + Z.of_nat n * PGSIZE) in * by lia.
  set (k := Z.of_nat n * PGSIZE) in *. assert (Hk : 0 <= k) by (unfold k; clear; mlia).
  assert (Ha1 : page_aligned (i + PGSIZE)) by (by apply page_aligned_add).
  assert (Hskip : mapped (phys s) old i = false -> wp (uvmcopy_loop fuel old new (i + PGSIZE) sz)
            (fun r s' => uvmcopy_post s s' old new l i (i + PGSIZE + k) r) s).
  { intros Hmo. eapply wp_mono; [apply (IH fuel s l (i + PGSIZE) HK Ho Hn Hd Ha1)|];
      [clear -Hi; mlia|done|clear -Hsz; subst k; mlia|lia|intros va Hva; apply Hun; clear -Hva; mlia|].
    intros r s'. by apply uvmcopy_skip. }
  wp_steps. unfold wp at 1. rewrite walk_ro by auto.
  destruct (leaf_slot (phys s) old i) as [slot|] eqn:Es; cbn [from_option id].
  2:{ rewrite Z.eqb_refl. apply Hskip. unfold mapped, pte_of. by rewrite Es. }
  rewrite (proj2 (Z.eqb_neq slot 0)) by (eapply leaf_slot_nonzero; [apply Ho|done]).
  unfold rd64. wp_steps. rewrite <- (pte_of_slot _ _ _ _ Es). fold (mapped (phys s) old i).
  destruct (mapped (phys s) old i) eqn:Em; cbn [negb]; [|by apply Hskip].
  fold (pa_of (phys s) old i). set (pa := pa_of (phys s) old i).
  pose proof (PTE_FLAGS_perm _ (pte_of_nonneg (phys s) old i)) as Hperm.
  assert (HF : forall pg m, frame (eq pg) m (copy_range m pg pa PGSIZE)).
  { intros pg m x Hx. apply copy_range_out. specialize (Hx pg eq_refl). unfold in_page in Hx. lia. }
  apply (alloc_map_wp (fun pg m => copy_range m pg pa PGSIZE) _ _ _ HF s l new i _ _ HK Hn Ha Hu Hperm Hmn).
  - intros _. eapply wp_mono; [apply (uvmcopy_undo s l new i HK Hn Ha); unfold in_user in Hu; lia|].
    intros r s' (-> & l' & H1 & H2). right. split_and!; [done|by exists l'|done].
  - intros s1 l1 St Hpte.
    eapply wp_mono; [apply (uvmcopy_undo s1 l1 new i); [apply St|apply St|done|unfold in_user in Hu; lia]|].
    intros r s' (-> & l' & H1 & H2). right. split_and!; [done| |].
    + exists l'. eapply as_step_trans; [eapply as_step_mono; [|exact St]; by intros ? []|exact H1|].
      cbn beta. intros p Hp. right. erewrite mapped_pages_ext in Hp; [exact Hp|].
      intros j Hj. apply Hpte. pose proof (page_div_mul i Ha) as E. clear -Hj E Hi Hhi Hk. munfold. lia.
    + intros va Hva. rewrite (H2 va Hva). destruct (va <? i); [done|]. apply tr_ext. by apply Hpte.
  - intros s1 l1 pg m1 St Hpl Hpl1 Hpn Hpte HFm Hcp.
    destruct (other_kept no_page s s1 old new l l1 HK Ho Hn Hd St) as (Ho1 & _ & Hptes & _ & _); [by intros ? []|].
    assert (Hd1 : apart (phys s1) old new).
    { apply (apart_step s s1 old new l l1 HK Ho Hn Hd St). intros va Hva. unfold mapped, pa_of.
      rewrite (Hpte va) by auto. destruct (_ =? _); [right|by left].
      rewrite PTE2PA_mkpte; [done| |done]. apply valid_page_range. by eapply forall_valid. }
    assert (Hown : owned (phys s) old pa) by (right; by exists i).
    destruct (owned_valid _ _ _ _ Ho Hown) as [Hpav Hpal].
    eapply wp_mono; [apply (IH fuel s1 l1 (i + PGSIZE) (st_kmem _ _ _ _ _ _ St) Ho1 (st_as _ _ _ _ _ _ St) Hd1 Ha1)|];
      [clear -Hi; mlia|done|clear -Hsz; subst k; mlia|lia| |].
    + intros va Hva. unfold mapped. rewrite Hpte by (fold k in Hva; clear -Hva Hhi Hi; mlia).
      rewrite div_page_range by done.
      replace ((i <=? va) && (va <? i + PGSIZE)) with false by (case_range; done || lia).
      apply Hun. clear -Hva. mlia.
    + intros r s'. apply (uvmcopy_one s l old new i HK Ho Hn Hd Ha Hu s1 l1 pg s' k r); try done.
      intros j Hj. apply (copied_page s s1 m1 pa pg j); try done; [by eapply forall_valid|]. by intros ->.
Qed.

Lemma uvmcopy_wp s l old new sz :
  kmem_inv s l -> as_inv (phys s) old l -> as_inv (phys s) new l -> apart (phys s) old new ->
  0 <= sz <= TRAPFRAME ->
  (forall va, 0 <= va < PGROUNDUP sz -> mapped (phys s) new va = false) ->
  wp (uvmcopy old new sz) (fun r s' =>
    (exists l', as_step no_page s s' new l l' /\ as_inv (phys s') old l') /\
    (forall va, pte_of (phys s') old va = pte_of (phys s) old va) /\
    (forall p x, owned (phys s) old p -> in_page p x -> phys s' x = phys s x) /\
    ((r = 0 /\ forall va, 0 <= va < MAXVA ->
        if (va <? PGROUNDUP sz) && mapped (phys s) old va then copied s s' old new l va
        else tr (phys s') new va = tr (phys s) new va) \/
     (r = -1 /\ forall va, 0 <= va < MAXVA -> tr (phys s') new va = tr (phys s) new va))) s.
Proof.
  intros HK Ho Hn Hd Hsz Hun. unfold uvmcopy. destruct (PGROUNDUP_TRAPFRAME sz Hsz) as (Ha & Hb & Hh).
  set (hi := PGROUNDUP sz) in *. pose proof (page_div_mul hi Ha) as E.
  assert (Hq : 0 <= hi / PGSIZE) by (apply Z.div_pos; [lia|mlia]).
  assert (Ehi : 0 + Z.of_nat (Z.to_nat (hi / PGSIZE)) * PGSIZE = hi) by (rewrite Z2Nat.id; lia).
  eapply wp_mono; [apply (uvmcopy_loop_wp (Z.to_nat (hi / PGSIZE)) _ s l old new 0 sz HK Ho Hn Hd)|];
    [done|lia|lia|clear -Hb E Hq; munfold; lia| |intros va Hva; apply Hun; lia|].
  { pose proof (Z.div_mod (sz + PGSIZE) PGSIZE ltac:(mlia)).
    pose proof (Z.mod_pos_bound (sz + PGSIZE) PGSIZE ltac:(mlia)). clear -H H0 E Hq Hb. munfold. lia. }
  rewrite Ehi. intros r s' Hpost.
  assert (St : exists l', as_step no_page s s' new l l').
  { destruct Hpost as [(_ & St & _)|(_ & (l' & St) & _)]; [done|]. exists l'.
    eapply as_step_mono; [|exact St]. by intros p ?%not_elem_of_nil. }
  destruct St as (l' & St).
  destruct (other_kept no_page s s' old new l l' HK Ho Hn Hd St) as (Ho' & _ & Hptes & _ & Hkept); [by intros ? []|].
  split_and!; [by exists l'|done|done|].
  destruct Hpost as [(-> & _ & Hv)|(-> & _ & Hv)]; [left|right]; (split; [done|]); intros va Hva; specialize (Hv va Hva).
  - by rewrite (proj2 (Z.leb_le 0 va)) in Hv by lia.
  - by rewrite (proj2 (Z.ltb_ge va 0)) in Hv by lia.
Qed.

(** A new, empty address space is apart from an existing one. *)
Lemma uvmcreate_apart s l old :
  kmem_inv s l -> as_inv (phys s) old l ->
  wp uvmcreate (fun new s' =>
    match l with
    | [] => new = 0 /\ s' = s
    | pg :: l' => new = pg /\ kmem_inv s' l' /\ as_inv (phys s') new l' /\ as_inv (phys s') old l' /\
        apart (phys s') old new /\ (forall va, pte_of (phys s') new va = 0) /\
        (forall va, pte_of (phys s') old va = pte_of (phys s) old va) /\ frame (eq pg) (phys s) (phys s')
    end) s.
Proof.
  intros HK Ho. eapply wp_mono; [by apply uvmcreate_wp|]. intros new s'. destruct l as [|pg l]; [done|].
  intros (-> & HK' & Hn & Hz & HF & Hnode).
  pose proof (ki_valid _ _ HK) as Hv. inversion Hv as [|?? Hpg _]; subst.
  destruct (as_pop (phys s) (phys s') old pg l Ho (ki_nodup _ _ HK) Hpg HF) as (Ho' & Hfr & _ & Hpte).
  split_and!; try done. intros p [Hp|(va & Hu & Hm & <-)] [Hq|(va' & Hu' & Hm' & Hq)].
  - destruct Hq as (path & Hok & Hq). rewrite Hnode in Hq by done. destruct path; [|done]. injection Hq as <-.
    by apply (fr_node _ _ _ _ Hfr).
  - unfold mapped in Hm'. by rewrite Hz in Hm'.
  - destruct Hq as (path & Hok & Hq). rewrite Hnode in Hq by done. destruct path; [|done]. injection Hq as Hq.
    by apply (fr_leaf _ _ _ _ Hfr va).
  - unfold mapped in Hm'. by rewrite Hz in Hm'.
Qed.

End VmFork.
