(* ===== verification/UserMem.v ===== *)
(** * The interface between the kernel's subsystems and user memory

    Pipes, the console, files and system calls move bytes to and from the
    calling process through [copyin] and [copyout] only.  [UserMem] is what they
    use, [UserMemLaws] what they may rely on; kernel/vm.c implements it
    ([vm_user_mem], [vm_user_mem_laws]). *)
From S2P Require Import Prelude Machine Memory Kalloc Vm VmTables VmMap VmUser VmGrow VmCopy.

Class UserMem (U : Type) : Type := {
  um_copyin : Z -> Z -> M U (Z * list Z);
  um_copyout : Z -> list Z -> M U Z;
  um_ok : U -> Prop;
  (** The process sees the bytes [bs] at address [a]. *)
  um_sees : U -> Z -> list Z -> Prop
}.

Class UserMemLaws (U : Type) `{UserMem U} : Prop := {
  um_sees_nil u a : um_sees u a [];
  um_sees_app u a bs bs' :
    um_sees u a bs -> um_sees u (a + Z.of_nat (length bs)) bs' -> um_sees u a (bs ++ bs');
  um_copyin_law u a n : um_ok u -> is_u64 a -> 0 <= n ->
    wp (um_copyin a n) (fun '(r, bs) u' => um_ok u' /\
      (forall a' bs', um_sees u a' bs' -> um_sees u' a' bs') /\
      ((r = 0 /\ Z.of_nat (length bs) = n /\ Forall is_u8 bs /\ um_sees u' a bs) \/ r = -1)) u;
  um_copyout_law u a bs : um_ok u -> is_u64 a -> Forall is_u8 bs ->
    wp (um_copyout a bs) (fun r u' => um_ok u' /\
      (forall a' bs', um_sees u a' bs' ->
         a' + Z.of_nat (length bs') <= a \/ a + Z.of_nat (length bs) <= a' -> um_sees u' a' bs') /\
      ((r = 0 /\ um_sees u' a bs) \/ r = -1)) u
}.

Section VmUserMem.
Context `{KI : KernelImage} `{KIO : !KernelImageOk} (p : uvm) (Hsz : u_sz p <= TRAPFRAME).

Definition vm_ok (s : kmem) : Prop := exists l,
  kmem_inv s l /\ as_inv (phys s) (u_pagetable p) l /\ high_ok (phys s) (u_pagetable p).

Definition vm_user_mem : UserMem kmem := {|
  um_copyin a n := copyin p (u_pagetable p) a n;
  um_copyout a bs := copyout p (u_pagetable p) a bs;
  um_ok := vm_ok;
  um_sees s a bs := sees (phys s) (u_pagetable p) a bs
|}.

Lemma copyout_sees s s' root a bs :
  Forall is_u8 bs -> copyout_post s s' root a bs 0 -> sees (phys s') root a bs.
Proof.
  intros Hb [[_ H]|[? _]]; [|done]. intros i b Hi. destruct (H i b Hi) as (H1 & H2 & H3).
  split_and!; [done|done|]. rewrite H3. apply u8_id. rewrite Forall_lookup in Hb. by eapply Hb.
Qed.

Lemma vm_user_mem_laws : UserMemLaws kmem (H := vm_user_mem).
Proof.
  split; cbn [um_sees um_ok um_copyin um_copyout vm_user_mem].
  - intros s a i b Hi. done.
  - intros s a bs bs'. apply sees_app.
  - intros s a n (l & HK & Has & Hh) Ha Hn.
    eapply wp_mono; [by apply (copyin_loop_wp _ s l p a n []); try done; lia|].
    intros [r bs] s' [[l' C] Hr]. split_and!.
    + exists l'. split_and!; [apply C|apply C|by apply (cp_high_ok _ _ _ _ _ _ C)].
    + intros a' bs' Hs. by apply (sees_step _ _ _ _ _ _ _ C).
    + destruct Hr as [(-> & bs' & -> & Hl & Hs)|[-> _]]; [left|by right].
      split_and!; [done|done| |done]. apply Forall_lookup. intros i b Hi. destruct (Hs i b Hi) as (_ & _ & <-).
      apply u8_range.
  - intros s a bs (l & HK & Has & Hh) Ha Hb.
    eapply wp_mono; [by apply (copyout_loop_wp _ s l p a bs); try done; lia|].
    intros r s' [[l' C] Hr]. split_and!.
    + exists l'. split_and!; [apply C|apply C|by apply (cp_high_ok _ _ _ _ _ _ C)].
    + intros a' bs' Hs Hd i b Hi. destruct (Hs i b Hi) as (Hu & Hrd & Hv).
      pose proof (lookup_lt_Some _ _ _ Hi).
      split_and!; [done|by apply (cp_readable _ _ _ _ _ _ _ C)|].
      rewrite (cp_bytes _ _ _ _ _ _ C); [done|done|by apply readable_mapped|lia].
    + destruct Hr as [[-> Hr]|[-> _]]; [left|by right]. split; [done|].
      apply (copyout_sees s); [done|]. by left.
Qed.
End VmUserMem.

(** A process with a flat memory of [sz] bytes: the smallest implementation,
    used to run the clients on concrete inputs. *)
Section Flat.
Context (sz : Z).

Definition flat_in (a n : Z) : bool := (0 <=? a) && (a + n <=? sz).
Definition flat_sees (u : memory) (a : Z) (bs : list Z) : Prop :=
  forall i b, bs !! i = Some b -> 0 <= a + Z.of_nat i < sz /\ load8 u (a + Z.of_nat i) = b.

Definition flat_user_mem : UserMem memory := {|
  um_copyin a n := if flat_in a n then gets (fun u => (0, get_bytes u a (Z.to_nat n))) else ret (-1, []);
  um_copyout a bs := if flat_in a (Z.of_nat (length bs)) then modify (fun u => put_bytes u a bs) ;; ret 0
                     else ret (-1);
  um_ok _ := True;
  um_sees := flat_sees
|}.

Lemma flat_user_mem_laws : UserMemLaws memory (H := flat_user_mem).
Proof.
  split; cbn [um_sees um_ok um_copyin um_copyout flat_user_mem].
  - intros u a i b Hi. done.
  - intros u a bs bs' H1 H2 i b Hi. apply lookup_app_Some in Hi as [Hi|[Hge Hi]]; [by apply H1|].
    apply H2 in Hi. by replace (a + Z.of_nat (length bs) + Z.of_nat (i - length bs)) with (a + Z.of_nat i) in Hi by lia.
  - intros u a n _ Ha Hn. unfold flat_in. destruct (_ && _) eqn:E; wp_steps; [|by auto]. breflect.
    split_and!; [done|done|]. left. rewrite get_bytes_length. split_and!; [done|lia| |].
    + apply Forall_lookup. intros i b Hi. pose proof (lookup_lt_Some _ _ _ Hi) as Hlt. rewrite get_bytes_length in Hlt.
      rewrite get_bytes_lookup in Hi by done. injection Hi as <-. apply u8_range.
    + intros i b Hi. pose proof (lookup_lt_Some _ _ _ Hi) as Hlt. rewrite get_bytes_length in Hlt.
      rewrite get_bytes_lookup in Hi by done. injection Hi as <-. split; [lia|done].
  - intros u a bs _ Ha Hb. unfold flat_in. destruct (_ && _) eqn:E; wp_steps.
    2:{ split_and!; [done|by intros; auto|by right]. }
    breflect. split_and!; [done| |left; split; [done|]].
    + intros a' bs' Hs Hd i b Hi. pose proof (lookup_lt_Some _ _ _ Hi). destruct (Hs i b Hi) as [? <-].
      split; [done|]. unfold load8. by rewrite put_bytes_out by lia.
    + intros i b Hi. pose proof (lookup_lt_Some _ _ _ Hi). split; [lia|]. unfold load8.
      rewrite (put_bytes_in _ _ _ _ _ Hi), u8_idem. apply u8_id. rewrite Forall_lookup in Hb. by eapply Hb.
Qed.
End Flat.
