(* ===== verification/Pipe.v ===== *)
(** * Pipes: kernel/pipe.c

    A ring of 512 bytes with two free-running 32-bit counters.  [pipewrite] and
    [piperead] are given as the segments that run between two sleeps, under
    [pi->lock]; a segment that blocks says where it resumes.  The ring refines a
    queue of bytes ([contents]): writes append the writer's bytes, reads take
    them from the front, across the wrap-around of the counters. *)
From S2P Require Import Prelude Machine Memory Ring UserMem.

Definition PIPESIZE : Z := 512.

Record pipe : Type := Pipe {
  data : list Z; nread : Z; nwrite : Z; readopen : Z; writeopen : Z
}.

(** The sleep channels of a pipe: [&pi->nread] and [&pi->nwrite]. *)
Inductive pchan : Type := CNread | CNwrite.
#[global] Instance pchan_eq : EqDecision pchan.
Proof. solve_decision. Defined.

(** A call returns, or goes to sleep having moved [i] bytes. *)
Inductive presult : Type := Returned (r : Z) | Blocked (c : pchan) (i : Z).

Section Pipe.
Context {U : Type} `{UM : UserMem U}.

(** The pipe, the calling process's memory and the wakeups issued so far. *)
Record pst : Type := Pst { pi : pipe; um : U; wakes : list pchan }.

Definition user {A} (m : M U A) : M pst A := zoom um (fun u s => Pst (pi s) u (wakes s)) m.
Definition set_pi (f : pipe -> pipe) : M pst unit := modify (fun s => Pst (f (pi s)) (um s) (wakes s)).
Definition wakeup (c : pchan) : M pst unit := modify (fun s => Pst (pi s) (um s) (wakes s ++ [c])).

(** The fields [pipealloc] sets in a fresh page holding the bytes [junk]. *)
Definition pipe_init (junk : list Z) : pipe := Pipe junk 0 0 1 1.

(** The result says whether the page was freed. *)
Definition pipeclose (writable : Z) : M pst bool :=
  (if c_true writable then
     set_pi (fun p => Pipe (data p) (nread p) (nwrite p) (readopen p) 0) ;; wakeup CNread
   else
     set_pi (fun p => Pipe (data p) (nread p) (nwrite p) 0 (writeopen p)) ;; wakeup CNwrite) ;;
  gets (fun s => (readopen (pi s) =? 0) && (writeopen (pi s) =? 0)).

(** [killed i] is what [killed(pr)] answers in the iteration that starts at [i]. *)
Fixpoint pipewrite_loop (fuel : nat) (killed : Z -> bool) (addr n i : Z) : M pst presult :=
  match fuel with
  | O => out_of_fuel
  | S f =>
      if i <? n then
        let! p := gets pi in
        if (readopen p =? 0) || killed i then ret (Returned (-1))
        else if nwrite p =? u32 (nread p + PIPESIZE) then
          wakeup CNread ;; ret (Blocked CNwrite i)
        else
          let! '(r, ch) := user (um_copyin (u64 (addr + i)) 1) in
          if r =? -1 then wakeup CNread ;; ret (Returned i)
          else
            set_pi (fun p => Pipe (<[Z.to_nat (nwrite p mod PIPESIZE) := hd 0 ch]> (data p))
                               (nread p) (u32 (nwrite p + 1)) (readopen p) (writeopen p)) ;;
            pipewrite_loop f killed addr n (i + 1)
      else wakeup CNread ;; ret (Returned i)
  end.
Definition pipewrite (killed : Z -> bool) (addr n : Z) (i : Z) : M pst presult :=
  pipewrite_loop (S (Z.to_nat (n - i))) killed addr n i.

Fixpoint piperead_copy (fuel : nat) (addr n i : Z) : M pst Z :=
  match fuel with
  | O => out_of_fuel
  | S f =>
      if i <? n then
        let! p := gets pi in
        if nread p =? nwrite p then ret i
        else
          let ch := nth (Z.to_nat (nread p mod PIPESIZE)) (data p) 0 in
          let! r := user (um_copyout (u64 (addr + i)) [ch]) in
          if r =? -1 then ret (if i =? 0 then -1 else i)
          else
            set_pi (fun p => Pipe (data p) (u32 (nread p + 1)) (nwrite p) (readopen p) (writeopen p)) ;;
            piperead_copy f addr n (i + 1)
      else ret i
  end.
Definition piperead (killed : bool) (addr n : Z) : M pst presult :=
  let! p := gets pi in
  if (nread p =? nwrite p) && c_true (writeopen p) then
    if killed then ret (Returned (-1)) else ret (Blocked CNread 0)
  else
    let! i := piperead_copy (S (Z.to_nat n)) addr n 0 in
    wakeup CNwrite ;;
    ret (Returned i).

(** ** The queue a pipe stands for *)

Definition count (p : pipe) : Z := u32 (nwrite p - nread p).
Definition contents (p : pipe) : list Z := ring PIPESIZE (data p) (nread p) (Z.to_nat (count p)).

Record pipe_inv (p : pipe) : Prop := {
  pi_size : length (data p) = Z.to_nat PIPESIZE;
  pi_bytes : Forall is_u8 (data p);
  pi_nread : is_u32 (nread p);
  pi_nwrite : is_u32 (nwrite p);
  pi_count : count p <= PIPESIZE
}.

Lemma pipe_divides : (PIPESIZE | 2 ^ 32).
Proof. by exists (2 ^ 23). Qed.

Lemma count_range p : 0 <= count p.
Proof. apply u32_range. Qed.

Lemma nwrite_count p : nwrite p mod PIPESIZE = (nread p + Z.of_nat (Z.to_nat (count p))) mod PIPESIZE.
Proof.
  rewrite Z2Nat.id by apply count_range. unfold count.
  rewrite <- Z.add_mod_idemp_r, (u32_mod_size PIPESIZE pipe_divides), Z.add_mod_idemp_r by done. f_equal. lia.
Qed.

Lemma full_count p : pipe_inv p -> (nwrite p =? u32 (nread p + PIPESIZE)) = (count p =? PIPESIZE).
Proof.
  intros [_ _ Hr Hw _]. unfold count, u32, is_u32, PIPESIZE in *.
  apply Bool.eq_iff_eq_true. rewrite !Z.eqb_eq. Z.to_euclidean_division_equations. lia.
Qed.
Lemma empty_count p : pipe_inv p -> (nread p =? nwrite p) = (count p =? 0).
Proof.
  intros [_ _ Hr Hw _]. unfold count, u32, is_u32 in *.
  apply Bool.eq_iff_eq_true. rewrite !Z.eqb_eq. Z.to_euclidean_division_equations. lia.
Qed.

(** Appending a byte to a pipe with room. *)
Lemma pipe_push p ch :
  pipe_inv p -> count p < PIPESIZE -> is_u8 ch ->
  let p' := Pipe (<[Z.to_nat (nwrite p mod PIPESIZE) := ch]> (data p))
                 (nread p) (u32 (nwrite p + 1)) (readopen p) (writeopen p) in
  pipe_inv p' /\ contents p' = contents p ++ [ch] /\ count p' = count p + 1.
Proof.
  intros Hi Hc Hb. cbn zeta. set (p' := Pipe _ _ _ _ _). pose proof (count_range p) as H0.
  assert (Hcount : count p' = count p + 1).
  { unfold count, p', u32 in *. cbn. destruct Hi as [_ _ Hr Hw _]. unfold is_u32, PIPESIZE in *.
    Z.to_euclidean_division_equations. lia. }
  split_and!; [|..|done].
  - split; cbn; [|..|lia].
    + rewrite length_insert. apply Hi.
    + apply Forall_insert; [apply Hi|done].
    + apply Hi.
    + apply u32_range.
  - unfold contents. rewrite Hcount. replace (Z.to_nat (count p + 1)) with (Z.to_nat (count p) + 1)%nat by lia.
    cbn [data nread p']. rewrite nwrite_count. apply ring_push; [done|apply Hi|lia].
Qed.

(** Taking the byte at the front. *)
Lemma pipe_pop p :
  pipe_inv p -> 0 < count p ->
  let ch := nth (Z.to_nat (nread p mod PIPESIZE)) (data p) 0 in
  let p' := Pipe (data p) (u32 (nread p + 1)) (nwrite p) (readopen p) (writeopen p) in
  pipe_inv p' /\ contents p = ch :: contents p' /\ is_u8 ch /\ count p' = count p - 1.
Proof.
  intros Hi Hc. cbn zeta. set (p' := Pipe _ _ _ _ _).
  assert (Hcount : count p' = count p - 1).
  { unfold count, p', u32 in *. cbn. destruct Hi as [_ _ Hr Hw _]. unfold is_u32 in *.
    Z.to_euclidean_division_equations. lia. }
  split_and!; [..|done].
  - split; cbn; [apply Hi|apply Hi|apply u32_range|apply Hi|]. pose proof (pi_count p Hi). lia.
  - unfold contents. rewrite Hcount. replace (Z.to_nat (count p)) with (S (Z.to_nat (count p - 1))) by lia.
    cbn [data nread p']. rewrite (ring_u32 PIPESIZE ltac:(done) pipe_divides), ring_S. done.
  - apply (ring_at_byte PIPESIZE ltac:(done)); apply Hi.
Qed.

Lemma contents_length p : length (contents p) = Z.to_nat (count p).
Proof. apply ring_length. Qed.

Context `{UML : !UserMemLaws U}.

(** The copy of one byte failed and left the process with the memory [u']. *)
Definition copyin_failed (a : Z) (u' : U) : Prop := exists u ch, um_ok u /\ um_copyin (u64 a) 1 u = Ok (-1, ch, u').
Definition copyout_failed (a c : Z) (u' : U) : Prop := exists u, um_ok u /\ um_copyout (u64 a) [c] u = Ok (-1, u').

(** The result of a write segment that started at [i] and moved [bs]: the test at
    the head of the loop let every one of these bytes through, and the three ways
    the segment can end exclude each other. *)
Definition pipewrite_post (killed : Z -> bool) (s s' : pst) (addr n i : Z) (bs : list Z) (r : presult) : Prop :=
  let j := i + Z.of_nat (length bs) in
  let may k := readopen (pi s) <> 0 /\ killed k = false in
  pipe_inv (pi s') /\ um_ok (um s') /\ contents (pi s') = contents (pi s) ++ bs /\
  um_sees (um s') (addr + i) bs /\ (forall a bs, um_sees (um s) a bs -> um_sees (um s') a bs) /\ j <= n /\
  readopen (pi s') = readopen (pi s) /\ writeopen (pi s') = writeopen (pi s) /\
  (forall k, i <= k < j -> may k) /\
  match r with
  | Returned r => (r = -1 /\ j < n /\ (readopen (pi s) = 0 \/ killed j = true) /\ wakes s' = wakes s) \/
                  (r = j /\ wakes s' = wakes s ++ [CNread] /\
                   (j = n \/ (j < n /\ may j /\ count (pi s') < PIPESIZE /\ copyin_failed (addr + j) (um s'))))
  | Blocked c k => c = CNwrite /\ k = j /\ k < n /\ may j /\ count (pi s') = PIPESIZE /\ wakes s' = wakes s ++ [CNread]
  end.

Lemma pipewrite_loop_wp fuel killed s addr n i :
  pipe_inv (pi s) -> um_ok (um s) -> 0 <= i <= n -> 0 <= addr -> addr + n < 2 ^ 64 -> (Z.to_nat (n - i) < fuel)%nat ->
  wp (pipewrite_loop fuel killed addr n i) (fun r s' => exists bs, pipewrite_post killed s s' addr n i bs r) s.
Proof.
  revert s i. induction fuel as [|fuel IH]; intros s i Hi Hu Hin Ha Han Hf; [lia|]. cbn [pipewrite_loop].
  assert (Hstop : forall w r s1, s1 = Pst (pi s) (um s) (wakes s ++ w) -> (r = Returned i /\ w = [CNread] /\ i = n \/
       r = Returned (-1) /\ i < n /\ w = [] /\ (readopen (pi s) = 0 \/ killed i = true) \/
       r = Blocked CNwrite i /\ i < n /\ (readopen (pi s) <> 0 /\ killed i = false) /\ count (pi s) = PIPESIZE /\ w = [CNread]) ->
     exists bs, pipewrite_post killed s s1 addr n i bs r).
  { intros w r s1 -> Hr. exists []. unfold pipewrite_post. cbn. rewrite Z.add_0_r, app_nil_r.
    split_and!; try done; [apply um_sees_nil|lia|lia|].
    destruct Hr as [(-> & -> & ?)|[(-> & ? & -> & ?)|(-> & ? & ? & ? & ->)]]; [right; by auto|left; by rewrite app_nil_r|done]. }
  destruct (Z.ltb_spec i n) as [Hlt|Hge].
  2:{ unfold wakeup. wp_steps. eapply Hstop; [done|]. left. split_and!; [done|done|lia]. }
  wp_steps. destruct (_ || _) eqn:Ek.
  { wp_steps. apply (Hstop []); [rewrite app_nil_r; by destruct s|]. right. left. apply orb_true_iff in Ek as [E%Z.eqb_eq|E]; auto. }
  apply orb_false_iff in Ek as [Ero%Z.eqb_neq Ek].
  rewrite full_count by done. destruct (Z.eqb_spec (count (pi s)) PIPESIZE) as [Ec|Ec].
  { unfold wakeup. wp_steps. eapply Hstop; [done|]. right. by right. }
  pose proof (pi_count _ Hi) as Hcap.
  unfold user. wp_steps. eapply wp_mono; [apply wp_run, (um_copyin_law (um s) (u64 (addr + i)) 1 Hu); [apply u64_range|lia]|].
  rewrite (u64_id (addr + i)) by mlia. cbn beta. intros [r ch] u [(Hu' & Hkeep & Hr) Erun]. destruct Hr as [(-> & Hl & Hb & Hs)| ->].
  2:{ rewrite Z.eqb_refl. unfold wakeup. wp_steps. cbn. exists []. unfold pipewrite_post. cbn.
      rewrite Z.add_0_r, app_nil_r. split_and!; try done; [apply um_sees_nil|lia|lia|]. right. split_and!; [done|done|].
      right. split_and!; [done..|lia|]. exists (um s), ch. split; [done|]. by rewrite u64_id by mlia. }
  change (0 =? -1) with false. cbv iota. destruct ch as [|b [|? ?]]; cbn in Hl; try lia. cbn [hd].
  unfold set_pi. wp_steps. cbn [pi um wakes].
  inversion Hb as [|?? Hb1 _]; subst.
  destruct (pipe_push (pi s) b Hi ltac:(lia) Hb1) as (Hi' & Hcont & Hcnt).
  set (p' := Pipe _ _ _ _ _) in *.
  eapply wp_mono; [apply (IH (Pst p' u (wakes s)) (i + 1)); cbn; try done; lia|].
  intros r s' (bs & H1 & H2 & H3 & H4 & H4' & H5 & H6 & H7 & Hmay & H8). cbn in *. exists (b :: bs).
  unfold pipewrite_post. replace (i + Z.of_nat (length (b :: bs))) with (i + 1 + Z.of_nat (length bs)) by (cbn; lia).
  split_and!; try done.
  - rewrite H3, Hcont, <- app_assoc. done.
  - change (b :: bs) with ([b] ++ bs). apply um_sees_app; [by apply H4'|].
    change (Z.of_nat (length [b])) with 1. replace (addr + i + 1) with (addr + (i + 1)) by lia. exact H4.
  - intros a bs' Hs'. by apply H4', Hkeep.
  - intros k Hk. destruct (decide (k = i)) as [->|]; [done|]. apply Hmay. lia.
Qed.

(** The result of the copying loop of a read that has moved [i] bytes. *)
Lemma piperead_copy_wp fuel s addr n i :
  pipe_inv (pi s) -> um_ok (um s) -> 0 <= i <= n -> 0 <= addr -> addr + n < 2 ^ 64 -> (Z.to_nat (n - i) < fuel)%nat ->
  wp (piperead_copy fuel addr n i) (fun r s' => exists bs,
    pipe_inv (pi s') /\ um_ok (um s') /\ contents (pi s) = bs ++ contents (pi s') /\ wakes s' = wakes s /\
    um_sees (um s') (addr + i) bs /\
    (forall a bs', um_sees (um s) a bs' -> a + Z.of_nat (length bs') <= addr + i -> um_sees (um s') a bs') /\
    readopen (pi s') = readopen (pi s) /\ writeopen (pi s') = writeopen (pi s) /\
    let j := i + Z.of_nat (length bs) in
    j <= n /\ (r = j /\ (j = n \/ contents (pi s') = []) \/
      r = (if j =? 0 then -1 else j) /\ j < n /\ exists c rest, contents (pi s') = c :: rest /\ copyout_failed (addr + j) c (um s'))) s.
Proof.
  revert s i. induction fuel as [|fuel IH]; intros s i Hi Hu Hin Ha Han Hf; [lia|]. cbn [piperead_copy].
  destruct (Z.ltb_spec i n) as [Hlt|Hge].
  2:{ wp_steps. exists []. cbn. rewrite Z.add_0_r. split_and!; try done; [apply um_sees_nil|lia|].
      left. split; [done|]. left. lia. }
  wp_steps. rewrite empty_count by done. destruct (Z.eqb_spec (count (pi s)) 0) as [E|E].
  { wp_steps. exists []. cbn. rewrite Z.add_0_r. split_and!; try done; [apply um_sees_nil|lia|].
    left. split; [done|]. right. apply length_zero_iff_nil. rewrite contents_length. lia. }
  pose proof (count_range (pi s)).
  destruct (pipe_pop (pi s) Hi ltac:(lia)) as (Hi' & Hc & Hb & _).
  set (ch := nth _ _ _) in *. set (p' := Pipe _ _ _ _ _) in *.
  unfold user. wp_steps. eapply wp_mono; [apply wp_run, (um_copyout_law (um s) (u64 (addr + i)) [ch] Hu); [apply u64_range|by constructor]|].
  rewrite (u64_id (addr + i)) by mlia. cbn beta. intros r u [(Hu' & Hkeep & Hr) Erun]. destruct Hr as [[-> Hs]| ->].
  2:{ rewrite Z.eqb_refl. wp_steps. exists []. cbn. rewrite Z.add_0_r.
      split_and!; try done; [apply um_sees_nil| |lia|].
      - intros a bs' Hs Hl. apply Hkeep; [done|]. by left.
      - right. split_and!; [done|done|]. exists ch, (contents p'). split; [done|]. exists (um s). split; [done|]. by rewrite u64_id by mlia. }
  change (0 =? -1) with false. cbv iota. unfold set_pi. wp_steps. cbn [pi um wakes]. fold p'.
  eapply wp_mono; [apply (IH (Pst p' u (wakes s)) (i + 1)); cbn; try done; lia|].
  intros r s' (bs & H1 & H2 & H3 & H4 & H5 & H6 & H7 & H8 & H9 & H10). cbn in *. exists (ch :: bs).
  replace (i + Z.of_nat (length (ch :: bs))) with (i + 1 + Z.of_nat (length bs)) by (cbn; lia).
  split_and!; try done.
  - by rewrite Hc, H3.
  - change (ch :: bs) with ([ch] ++ bs). apply um_sees_app.
    + apply H6; [done|]. cbn. lia.
    + change (Z.of_nat (length [ch])) with 1. replace (addr + i + 1) with (addr + (i + 1)) by lia. exact H5.
  - intros a bs' Hs' Hl. apply H6; [|lia]. apply Hkeep; [done|]. left. lia.
Qed.

(** C32: [pipewrite] refines appending to a queue.  The segment that starts at
    byte [i] appends to the pipe's contents the bytes [bs] its process sees at
    [addr + i], in order, and nothing else, each of them with the read end open and
    the process not killed.  It ends in exactly one of these ways: with -1 before
    the first byte for which the read end is closed or the process killed; asleep,
    after waking the readers, on a full pipe; or with the number of bytes written
    so far, after waking the readers, which is all of them unless the copy of the
    next byte from the process failed while there was room for it. *)
Theorem pipewrite_appends killed s addr n i :
  pipe_inv (pi s) -> um_ok (um s) -> 0 <= i <= n -> 0 <= addr -> addr + n < 2 ^ 64 ->
  wp (pipewrite killed addr n i) (fun r s' => exists bs, pipewrite_post killed s s' addr n i bs r) s.
Proof. intros. apply pipewrite_loop_wp; try done. lia. Qed.

(** C33: [piperead] refines taking from the front of a queue.  On an empty pipe
    with an open write end it blocks (or returns -1 when killed) and changes
    nothing; otherwise the bytes it removes from the front are those its process
    then sees at [addr], and it wakes the writers.  It takes as many as asked for or
    all there are, and returns their number, unless the store of the next byte in
    the process failed; that byte then stays in the pipe, and the result is the
    number of bytes before it, or -1 when it is the first. *)
Theorem piperead_takes killed s addr n :
  pipe_inv (pi s) -> um_ok (um s) -> 0 <= n -> 0 <= addr -> addr + n < 2 ^ 64 ->
  wp (piperead killed addr n) (fun r s' =>
    if bool_decide (contents (pi s) = []) && c_true (writeopen (pi s))
    then r = (if killed then Returned (-1) else Blocked CNread 0) /\ s' = s
    else exists bs k, pipe_inv (pi s') /\ um_ok (um s') /\ contents (pi s) = bs ++ contents (pi s') /\
      um_sees (um s') addr bs /\ wakes s' = wakes s ++ [CNwrite] /\ r = Returned k /\
      let j := Z.of_nat (length bs) in
      j <= n /\
      (k = j /\ (j = n \/ contents (pi s') = []) \/
       k = (if j =? 0 then -1 else j) /\ j < n /\
       exists c rest, contents (pi s') = c :: rest /\ copyout_failed (addr + j) c (um s'))) s.
Proof.
  intros Hi Hu Hn Ha Han. unfold piperead. wp_steps. rewrite empty_count by done.
  replace (count (pi s) =? 0) with (bool_decide (contents (pi s) = [])).
  2:{ pose proof (contents_length (pi s)) as Hl. pose proof (count_range (pi s)).
      destruct (Z.eqb_spec (count (pi s)) 0).
      - apply bool_decide_eq_true_2, length_zero_iff_nil. lia.
      - apply bool_decide_eq_false_2. intros E. rewrite E in Hl. cbn in Hl. lia. }
  destruct (_ && _); [by destruct killed|]. wp_steps.
  eapply wp_mono; [apply (piperead_copy_wp _ s addr n 0); try done; lia|]. cbn beta.
  intros k s1 (bs & H1 & H2 & H3 & H4 & H5 & H6 & H7 & H8 & H9). unfold wakeup. wp_steps. cbn [pi um wakes].
  rewrite Z.add_0_r in H5. rewrite Z.add_0_l in H9. exists bs, k. rewrite H4. done.
Qed.


End Pipe.

(** ** Concrete runs *)

Definition fresh_pipe : pipe := pipe_init (replicate 512 5).
Definition a_pst : @pst memory := Pst fresh_pipe (fun a => a) [].

Lemma fresh_pipe_inv : pipe_inv fresh_pipe.
Proof. split; [done|apply Forall_replicate; done|done|done|done]. Qed.

Lemma pipewrite_appends_witness :
  wp (pipewrite (UM := flat_user_mem 100) (fun _ => false) 10 3 0) (fun r s' =>
    exists bs, pipewrite_post (UM := flat_user_mem 100) (fun _ => false) a_pst s' 10 3 0 bs r) a_pst.
Proof.
  apply (pipewrite_appends (UM := flat_user_mem 100) (UML := flat_user_mem_laws 100));
    [exact fresh_pipe_inv|exact I|lia|lia|lia].
Defined.

Lemma piperead_takes_witness :
  wp (piperead (UM := flat_user_mem 100) false 10 3) (fun r s' => r = Blocked CNread 0 /\ s' = a_pst) a_pst.
Proof.
  apply (piperead_takes (UM := flat_user_mem 100) (UML := flat_user_mem_laws 100) false a_pst 10 3);
    [exact fresh_pipe_inv|exact I|lia|lia|lia].
Defined.

