(* ===== verification/Console.v ===== *)
(** * The console and the UART: kernel/console.c, kernel/uart.c

    [Uart]: transmission, one byte per transmit interrupt.
    The console keeps typed characters in a ring of 128 bytes: [r..w) are
    committed and readable, [w..e) is the line being edited.  [consoleintr]
    refines an editor on the pair of the two lists, [consoleread] hands out
    committed bytes up to a newline or an end-of-file mark. *)
From S2P Require Import Prelude Machine Memory Ring UserMem.

(** ** Transmission *)

Module Uart.

(** [tx_busy], and the bytes written to the transmit register. *)
Record uart : Type := Uart { tx_busy : Z; sent : list Z }.
Inductive result : Type := Done | Blocked (i : Z).

(** The segment of [uartwrite] from index [i] up to its next sleep. *)
Fixpoint uartwrite_loop (fuel : nat) (buf : list Z) (n i : Z) : M uart result :=
  match fuel with
  | O => out_of_fuel
  | S f =>
      if i <? n then
        let! busy := gets tx_busy in
        if negb (busy =? 0) then ret (Blocked i)
        else
          modify (fun u => Uart 1 (sent u ++ [nth (Z.to_nat i) buf 0])) ;;
          uartwrite_loop f buf n (i + 1)
      else ret Done
  end.
Definition uartwrite (buf : list Z) (n i : Z) : M uart result :=
  uartwrite_loop (S (Z.to_nat (n - i))) buf n i.

(** The transmit half of [uartintr], [idle] being bit LSR_TX_IDLE: the sleeping
    writers are woken when the result is true. *)
Definition uartintr_tx (idle : bool) : M uart bool :=
  if idle then modify (fun u => Uart 0 (sent u)) ;; ret true else ret false.

(** The writer runs, and after each transmit interrupt runs again. *)
Fixpoint transmit (interrupts : nat) (buf : list Z) (n i : Z) : M uart result :=
  let! r := uartwrite buf n i in
  match r, interrupts with
  | Done, _ => ret Done
  | Blocked j, O => ret (Blocked j)
  | Blocked j, S k => uartintr_tx true ;; transmit k buf n j
  end.

Lemma uartwrite_idle buf n i u :
  tx_busy u = 0 -> i < n ->
  uartwrite buf n i u = Ok (if i + 1 <? n then Blocked (i + 1) else Done,
                            Uart 1 (sent u ++ [nth (Z.to_nat i) buf 0])).
Proof.
  intros Hb Hi. unfold uartwrite. destruct (Z.to_nat (n - i)) as [|k] eqn:Ek; [lia|].
  cbn [uartwrite_loop]. rewrite (proj2 (Z.ltb_lt _ _)) by lia. unfold bind at 1, gets at 1. rewrite Hb. cbn.
  destruct (i + 1 <? n); done.
Qed.

(** Transmission loses, repeats and reorders nothing: a writer that starts
    with an idle UART has sent exactly its buffer, in order, once as many
    transmit interrupts have arrived as there are further bytes. *)
Theorem transmit_in_order (buf : list Z) (u : uart) :
  tx_busy u = 0 ->
  wp (transmit (length buf) buf (Z.of_nat (length buf)) 0)
     (fun r u' => r = Done /\ sent u' = sent u ++ buf) u.
Proof.
  assert (forall rest k done u, (length rest <= S k)%nat -> tx_busy u = 0 ->
    wp (transmit k (done ++ rest) (Z.of_nat (length (done ++ rest))) (Z.of_nat (length done)))
       (fun r u' => r = Done /\ sent u' = sent u ++ rest) u) as G.
  { induction rest as [|b rest IH]; intros k done u' Hk Hb.
    - rewrite app_nil_r. destruct k; cbn [transmit]; unfold uartwrite; rewrite Z.sub_diag; cbn;
        rewrite Z.ltb_irrefl; cbn; by rewrite app_nil_r.
    - set (buf' := done ++ b :: rest). assert (Hlen : length buf' = (length done + S (length rest))%nat)
        by (unfold buf'; by rewrite length_app).
      assert (Hnth : nth (Z.to_nat (Z.of_nat (length done))) buf' 0 = b)
        by (unfold buf'; rewrite Nat2Z.id, app_nth2, Nat.sub_diag by lia; done).
      destruct k as [|k]; cbn [transmit]; rewrite wp_bind; unfold wp at 1;
        rewrite uartwrite_idle, Hnth by (done || lia).
      + assert (rest = []) as -> by (apply length_zero_iff_nil; cbn in Hk; lia).
        rewrite (proj2 (Z.ltb_ge _ _)) by (rewrite Hlen; cbn; lia). by wp_steps.
      + destruct (Z.ltb_spec (Z.of_nat (length done) + 1) (Z.of_nat (length buf'))) as [Hl|Hl].
        * unfold uartintr_tx. wp_steps. cbn [sent].
          replace (Z.of_nat (length done) + 1) with (Z.of_nat (length (done ++ [b]))) by (rewrite length_app; cbn; lia).
          unfold buf'. replace (done ++ b :: rest) with ((done ++ [b]) ++ rest) by (by rewrite <- app_assoc).
          eapply wp_mono; [apply IH; [cbn in Hk; lia|done]|]. cbn [sent]. intros r u2 [-> ->].
          by rewrite <- app_assoc.
        * wp_steps. assert (rest = []) as -> by (apply length_zero_iff_nil; lia). done. }
  intros Hb. apply (G buf (length buf) [] u); [lia|done].
Qed.

Lemma transmit_in_order_witness :
  wp (transmit 3 [104; 105; 10] 3 0) (fun r u' => r = Done /\ sent u' = [104; 105; 10]) (Uart 0 []).
Proof. apply (transmit_in_order [104; 105; 10] (Uart 0 [])). reflexivity. Defined.

End Uart.

(** ** The line editor *)

Definition BACKSPACE : Z := 256.
Definition CTRL_P : Z := 16.
Definition CTRL_U : Z := 21.
Definition CTRL_H : Z := 8.
Definition CTRL_D : Z := 4.
Definition DEL : Z := 127.
Definition NL : Z := 10.
Definition CR : Z := 13.
Definition INPUT_BUF_SIZE : Z := 128.

Record cons : Type := Cons { buf : list Z; c_r : Z; c_w : Z; c_e : Z }.

(** What leaves the kernel: bytes on the UART, and the process list of ^P. *)
Inductive output : Type := OChar (c : Z) | OProcdump.

Inductive cresult : Type := CReturned (r : Z) | CBlocked (dst n : Z).

Section Console.
Context {U : Type} `{UM : UserMem U}.

(** The console, the calling process's memory, kernel memory, the output so
    far and the number of wakeups of [&cons.r]. *)
Record cst : Type := Cst { cs : cons; um : U; kern : memory; out : list output; wakes : nat }.

Definition set_cs (f : cons -> cons) : M cst unit :=
  modify (fun s => Cst (f (cs s)) (um s) (kern s) (out s) (wakes s)).
Definition user {A} (m : M U A) : M cst A := zoom um (fun u s => Cst (cs s) u (kern s) (out s) (wakes s)) m.
Definition emit (o : list output) : M cst unit :=
  modify (fun s => Cst (cs s) (um s) (kern s) (out s ++ o) (wakes s)).
Definition wakeup_r : M cst unit := modify (fun s => Cst (cs s) (um s) (kern s) (out s) (S (wakes s))).

Definition consputc (c : Z) : M cst unit :=
  if c =? BACKSPACE then emit [OChar 8; OChar 32; OChar 8] else emit [OChar c].

Definition either_copyout (user_dst dst : Z) (src : list Z) : M cst Z :=
  if c_true user_dst then user (um_copyout dst src)
  else modify (fun s => Cst (cs s) (um s) (put_bytes (kern s) dst src) (out s) (wakes s)) ;; ret 0.
Definition either_copyin (user_src src len : Z) : M cst (Z * list Z) :=
  if c_true user_src then user (um_copyin src len)
  else gets (fun s => (0, get_bytes (kern s) src (Z.to_nat len))).

(** [uartwrite] sends its bytes in order, see [Uart]. *)
Fixpoint consolewrite_loop (fuel : nat) (user_src src n i : Z) : M cst Z :=
  match fuel with
  | O => out_of_fuel
  | S f =>
      if i <? n then
        let nn := if n - i <? 32 then n - i else 32 in
        let! '(r, bs) := either_copyin user_src (u64 (src + i)) nn in
        if r =? -1 then ret i
        else
          emit (map OChar bs) ;;
          consolewrite_loop f user_src src n (i + nn)
      else ret i
  end.
Definition consolewrite (user_src src n : Z) : M cst Z :=
  consolewrite_loop (S (Z.to_nat n)) user_src src n 0.

(** The segment of [consoleread] with [n] bytes still wanted, up to its next
    sleep; [target] is the number asked for. *)
Fixpoint consoleread_loop (fuel : nat) (killed : Z -> bool) (user_dst dst n target : Z) : M cst cresult :=
  match fuel with
  | O => out_of_fuel
  | S f =>
      if 0 <? n then
        let! s := gets cs in
        if c_r s =? c_w s then
          if killed n then ret (CReturned (-1)) else ret (CBlocked dst n)
        else
          let c := nth (Z.to_nat (c_r s mod INPUT_BUF_SIZE)) (buf s) 0 in
          set_cs (fun s => Cons (buf s) (u32 (c_r s + 1)) (c_w s) (c_e s)) ;;
          if c =? CTRL_D then
            (if n <? target then set_cs (fun s => Cons (buf s) (u32 (c_r s - 1)) (c_w s) (c_e s)) else ret tt) ;;
            ret (CReturned (target - n))
          else
            let! r := either_copyout user_dst dst [c] in
            if r =? -1 then ret (CReturned (target - n))
            else if c =? NL then ret (CReturned (target - (n - 1)))
            else consoleread_loop f killed user_dst (u64 (dst + 1)) (n - 1) target
      else ret (CReturned (target - n))
  end.
Definition consoleread (killed : Z -> bool) (user_dst dst n target : Z) : M cst cresult :=
  consoleread_loop (S (Z.to_nat n)) killed user_dst dst n target.

(** ^U: erase back to the beginning of the line. *)
Fixpoint kill_line (fuel : nat) : M cst unit :=
  match fuel with
  | O => out_of_fuel
  | S f =>
      let! s := gets cs in
      if negb (c_e s =? c_w s) &&
         negb (nth (Z.to_nat (u32 (c_e s - 1) mod INPUT_BUF_SIZE)) (buf s) 0 =? NL) then
        set_cs (fun s => Cons (buf s) (c_r s) (c_w s) (u32 (c_e s - 1))) ;;
        consputc BACKSPACE ;;
        kill_line f
      else ret tt
  end.

Definition consoleintr (c : Z) : M cst unit :=
  if c =? CTRL_P then emit [OProcdump]
  else if c =? CTRL_U then
    let! s := gets cs in kill_line (S (Z.to_nat (u32 (c_e s - c_w s))))
  else if (c =? CTRL_H) || (c =? DEL) then
    let! s := gets cs in
    if negb (c_e s =? c_w s) then
      set_cs (fun s => Cons (buf s) (c_r s) (c_w s) (u32 (c_e s - 1))) ;;
      consputc BACKSPACE
    else ret tt
  else
    let! s := gets cs in
    if negb (c =? 0) && (u32 (c_e s - c_r s) <? INPUT_BUF_SIZE) then
      let c := if c =? CR then NL else c in
      consputc c ;;
      set_cs (fun s => Cons (<[Z.to_nat (c_e s mod INPUT_BUF_SIZE) := u8 c]> (buf s))
                            (c_r s) (c_w s) (u32 (c_e s + 1))) ;;
      let! s := gets cs in
      if (c =? NL) || (c =? CTRL_D) || (u32 (c_e s - c_r s) =? INPUT_BUF_SIZE) then
        set_cs (fun s => Cons (buf s) (c_r s) (c_e s) (c_e s)) ;;
        wakeup_r
      else ret tt
    else ret tt.

(** ** The two lists the ring stands for *)

Definition n_committed (s : cons) : Z := u32 (c_w s - c_r s).
Definition n_editing (s : cons) : Z := u32 (c_e s - c_w s).
Definition committed (s : cons) : list Z := ring INPUT_BUF_SIZE (buf s) (c_r s) (Z.to_nat (n_committed s)).
Definition editing (s : cons) : list Z := ring INPUT_BUF_SIZE (buf s) (c_w s) (Z.to_nat (n_editing s)).

Record cons_inv (s : cons) : Prop := {
  ci_size : length (buf s) = Z.to_nat INPUT_BUF_SIZE;
  ci_bytes : Forall is_u8 (buf s);
  ci_r : is_u32 (c_r s);
  ci_w : is_u32 (c_w s);
  ci_e : is_u32 (c_e s);
  ci_room : n_committed s + n_editing s <= INPUT_BUF_SIZE;
  ci_edit : Forall (fun c => c <> NL) (editing s)
}.

(** What one typed character does to (committed, editing). *)
Definition type_char (c : Z) (st : list Z * list Z) : list Z * list Z :=
  let '(com, ed) := st in
  if c =? CTRL_P then st
  else if c =? CTRL_U then (com, [])
  else if (c =? CTRL_H) || (c =? DEL) then (com, removelast ed)
  else if (c =? 0) || (INPUT_BUF_SIZE <=? Z.of_nat (length com + length ed)) then st
  else
    let c := if c =? CR then NL else c in
    let ed := ed ++ [c] in
    if (c =? NL) || (c =? CTRL_D) || (Z.of_nat (length com + length ed) =? INPUT_BUF_SIZE)
    then (com ++ ed, []) else (com, ed).

Lemma inb_pos : 0 < INPUT_BUF_SIZE.
Proof. done. Qed.
Lemma inb_div : (INPUT_BUF_SIZE | 2 ^ 32).
Proof. by exists (2 ^ 25). Qed.
Hint Resolve inb_pos inb_div : core.

Lemma cons_counts s : 0 <= n_committed s /\ 0 <= n_editing s.
Proof. split; apply u32_range. Qed.

Lemma c_w_spec s : cons_inv s -> c_w s = u32 (c_r s + n_committed s).
Proof.
  intros [_ _ Hr Hw _ _ _]. unfold n_committed, u32, is_u32 in *.
  rewrite Z.add_mod_idemp_r by done. replace (c_r s + (c_w s - c_r s)) with (c_w s) by lia. by rewrite Z.mod_small.
Qed.
Lemma c_e_spec s : cons_inv s -> c_e s = u32 (c_w s + n_editing s).
Proof.
  intros [_ _ _ Hw He _ _]. unfold n_editing, u32, is_u32 in *.
  rewrite Z.add_mod_idemp_r by done. replace (c_w s + (c_e s - c_w s)) with (c_e s) by lia. by rewrite Z.mod_small.
Qed.

Lemma cons_total s : cons_inv s -> u32 (c_e s - c_r s) = n_committed s + n_editing s.
Proof.
  intros Hi. pose proof (cons_counts s). pose proof (ci_room s Hi) as Hr. unfold INPUT_BUF_SIZE in Hr.
  replace (c_e s - c_r s) with ((c_w s - c_r s) + (c_e s - c_w s)) by lia.
  unfold u32. rewrite Z.add_mod by done. fold (u32 (c_w s - c_r s)) (u32 (c_e s - c_w s)).
  apply u32_id. unfold is_u32, n_committed, n_editing in *. lia.
Qed.

(** Committed bytes and the line being edited, as one stretch of the ring. *)
Lemma ring_split b r w nc ne :
  w = u32 (r + Z.of_nat nc) -> ring INPUT_BUF_SIZE b r (nc + ne) = ring INPUT_BUF_SIZE b r nc ++ ring INPUT_BUF_SIZE b w ne.
Proof. intros ->. by rewrite ring_app, (ring_u32 INPUT_BUF_SIZE) by auto. Qed.

Lemma cons_whole s :
  cons_inv s -> ring INPUT_BUF_SIZE (buf s) (c_r s) (Z.to_nat (n_committed s) + Z.to_nat (n_editing s)) = committed s ++ editing s.
Proof.
  intros Hi. destruct (cons_counts s). apply ring_split. rewrite Z2Nat.id by done. by apply c_w_spec.
Qed.

Lemma edit_counts s : (length (committed s) = Z.to_nat (n_committed s)) /\ (length (editing s) = Z.to_nat (n_editing s)).
Proof. split; apply ring_length. Qed.

Lemma n_editing_zero s : cons_inv s -> (c_e s =? c_w s) = (n_editing s =? 0).
Proof.
  intros [_ _ _ Hw He _ _]. unfold n_editing, u32, is_u32 in *.
  apply Bool.eq_iff_eq_true. rewrite !Z.eqb_eq. Z.to_euclidean_division_equations. lia.
Qed.

(** Erasing the last character of the line. *)
Lemma cons_erase s :
  cons_inv s -> 0 < n_editing s ->
  let s' := Cons (buf s) (c_r s) (c_w s) (u32 (c_e s - 1)) in
  cons_inv s' /\ committed s' = committed s /\ n_editing s' = n_editing s - 1 /\
  editing s = editing s' ++ [nth (Z.to_nat (u32 (c_e s - 1) mod INPUT_BUF_SIZE)) (buf s) 0].
Proof.
  intros Hi Hn. cbn zeta. set (s' := Cons _ _ _ _).
  assert (Hne : n_editing s' = n_editing s - 1).
  { unfold n_editing, s', u32 in *. cbn. destruct Hi as [_ _ _ Hw He _ _]. unfold is_u32 in *.
    Z.to_euclidean_division_equations. lia. }
  assert (Hed : editing s = editing s' ++ [nth (Z.to_nat (u32 (c_e s - 1) mod INPUT_BUF_SIZE)) (buf s) 0]).
  { unfold editing. rewrite Hne. replace (Z.to_nat (n_editing s)) with (Z.to_nat (n_editing s - 1) + 1)%nat by lia.
    rewrite ring_snoc. f_equal. f_equal. fold (ring_at INPUT_BUF_SIZE (buf s) (u32 (c_e s - 1))).
    rewrite <- (ring_at_u32 INPUT_BUF_SIZE inb_div). f_equal. rewrite (c_e_spec s Hi). unfold u32 at 2 3.
    rewrite Zminus_mod_idemp_l. unfold u32. f_equal. cbn [c_w s']. lia. }
  split_and!; [|done|done|done]. destruct Hi as [H1 H2 H3 H4 H5 H6 H7].
  split; cbn; try done; [apply u32_range| |].
  - change (n_committed s') with (n_committed s). lia.
  - rewrite Hed in H7. by apply Forall_app in H7 as [? _].
Qed.

Lemma u32_sub_succ e r : u32 (u32 (e + 1) - r) = u32 (u32 (e - r) + 1).
Proof. unfold u32. rewrite Zminus_mod_idemp_l, Z.add_mod_idemp_l by done. f_equal. lia. Qed.

(** Storing a character at the end of the line. *)
Lemma cons_append s c :
  cons_inv s -> is_u8 c -> n_committed s + n_editing s < INPUT_BUF_SIZE ->
  let s' := Cons (<[Z.to_nat (c_e s mod INPUT_BUF_SIZE) := c]> (buf s)) (c_r s) (c_w s) (u32 (c_e s + 1)) in
  committed s' = committed s /\ editing s' = editing s ++ [c] /\
  n_committed s' = n_committed s /\ n_editing s' = n_editing s + 1 /\
  (c <> NL -> cons_inv s') /\ cons_inv (Cons (buf s') (c_r s') (c_e s') (c_e s')) /\
  committed (Cons (buf s') (c_r s') (c_e s') (c_e s')) = committed s ++ editing s ++ [c] /\
  editing (Cons (buf s') (c_r s') (c_e s') (c_e s')) = [].
Proof.
  intros Hi Hc Hroom. cbn zeta. set (s' := Cons _ _ _ _). destruct (cons_counts s) as [Hc0 He0].
  set (nc := Z.to_nat (n_committed s)). set (ne := Z.to_nat (n_editing s)).
  pose proof Hroom as Hroom'. unfold INPUT_BUF_SIZE in Hroom'.
  assert (Hnc : n_committed s' = n_committed s) by done.
  assert (Hne : n_editing s' = n_editing s + 1).
  { unfold n_editing, s', u32 in *. cbn. destruct Hi as [_ _ _ Hw He _ _]. unfold is_u32 in *.
    unfold n_committed, u32 in *. Z.to_euclidean_division_equations. lia. }
  assert (Hidx : c_e s mod INPUT_BUF_SIZE = (c_r s + Z.of_nat (nc + ne)) mod INPUT_BUF_SIZE).
  { rewrite (c_e_spec s Hi), (u32_mod_size INPUT_BUF_SIZE inb_div), (c_w_spec s Hi).
    rewrite <- Z.add_mod_idemp_l, (u32_mod_size INPUT_BUF_SIZE inb_div), Z.add_mod_idemp_l by done. f_equal. lia. }
  assert (Hwhole : ring INPUT_BUF_SIZE (buf s') (c_r s) (nc + (ne + 1)) = committed s ++ editing s ++ [c]).
  { rewrite Nat.add_assoc. cbn [buf s']. rewrite Hidx, ring_push by (auto; try apply Hi; lia).
    unfold nc, ne. by rewrite (cons_whole s Hi), <- app_assoc. }
  assert (Hsp : ring INPUT_BUF_SIZE (buf s') (c_r s) (nc + (ne + 1)) = committed s' ++ editing s').
  { rewrite (ring_split (buf s') (c_r s) (c_w s)) by (rewrite (c_w_spec s Hi); do 2 f_equal; lia).
    unfold committed, editing. rewrite Hne, Hnc. cbn [buf c_r c_w s']. f_equal. f_equal. lia. }
  rewrite Hsp in Hwhole.
  destruct (edit_counts s) as [Hl1 Hl2]. destruct (edit_counts s') as [Hl1' Hl2'].
  apply app_inj_1 in Hwhole as [Hcom Hed]; [|rewrite Hl1, Hl1', Hnc; done].
  set (s2 := Cons (buf s') (c_r s') (c_e s') (c_e s')).
  assert (Hk : n_committed s2 = n_committed s + n_editing s + 1).
  { unfold n_committed at 1. cbn [c_w c_r s2 s' c_e]. rewrite u32_sub_succ, (cons_total s Hi). apply u32_id.
    unfold is_u32. lia. }
  assert (Hz : n_editing s2 = 0) by (unfold n_editing, s2; cbn; by rewrite Z.sub_diag).
  assert (He2 : editing s2 = []) by (unfold editing; by rewrite Hz).
  split_and!; [done|done|done|done| | | |done].
  - intros Hn. destruct Hi as [H1 H2 H3 H4 H5 H6 H7]. split; cbn; try done.
    + by rewrite length_insert.
    + by apply Forall_insert.
    + apply u32_range.
    + rewrite Hnc, Hne. lia.
    + rewrite Hed. apply Forall_app. split; [done|by constructor].
  - destruct Hi as [H1 H2 H3 H4 H5 H6 H7]. split; [..|by rewrite He2]; cbn.
    + by rewrite length_insert.
    + by apply Forall_insert.
    + done.
    + apply u32_range.
    + apply u32_range.
    + rewrite Hk, Hz. lia.
  - rewrite <- Hcom, <- Hed, <- Hsp. unfold committed. rewrite Hk. f_equal. lia.
Qed.

Lemma editing_nil s : n_editing s = 0 -> editing s = [].
Proof. unfold editing. by intros ->. Qed.

Lemma kill_line_wp fuel s :
  cons_inv (cs s) -> (Z.to_nat (n_editing (cs s)) < fuel)%nat ->
  wp (kill_line fuel) (fun _ s' => cons_inv (cs s') /\ committed (cs s') = committed (cs s) /\
    editing (cs s') = [] /\ um s' = um s /\ wakes s' = wakes s) s.
Proof.
  revert s. induction fuel as [|fuel IH]; intros s Hi Hf; [lia|]. cbn [kill_line]. wp_steps.
  destruct (cons_counts (cs s)) as [_ Hn0]. rewrite n_editing_zero by done.
  destruct (Z.eqb_spec (n_editing (cs s)) 0) as [E|E]; cbn [negb andb].
  { wp_steps. split_and!; try done. by apply editing_nil. }
  destruct (cons_erase (cs s) Hi ltac:(lia)) as (Hi' & Hcom & Hne & Hed).
  assert (Hnl : (nth (Z.to_nat (u32 (c_e (cs s) - 1) mod INPUT_BUF_SIZE)) (buf (cs s)) 0 =? NL) = false).
  { apply Z.eqb_neq. pose proof (ci_edit _ Hi) as HF. rewrite Hed in HF.
    apply Forall_app in HF as [_ HF]. by inversion HF. }
  rewrite Hnl. cbn [negb]. unfold set_cs, consputc, emit. change (BACKSPACE =? BACKSPACE) with true. cbv iota.
  wp_steps. cbn [cs um kern out wakes].
  eapply wp_mono; [apply IH; cbn [cs]; [done|rewrite Hne; lia]|]. cbn [cs um wakes].
  intros _ s' (H1 & H2 & H3 & H4 & H5). split_and!; try done.
Qed.

(** C34: The console's interrupt handler refines a line editor.  Whatever
    character arrives, the pair of the committed input and the line being edited
    changes as [type_char] says: ^U clears the line, ^H and DEL erase its last
    character, a full buffer ignores input, carriage return counts as newline,
    and a newline, an end-of-file mark or a full buffer commits the line, which
    wakes the readers; the counters' wrap-around is invisible. *)
Theorem consoleintr_edits (s : cst) (c : Z) :
  cons_inv (cs s) -> is_u8 c ->
  wp (consoleintr c) (fun _ s' => cons_inv (cs s') /\
    (committed (cs s'), editing (cs s')) = type_char c (committed (cs s), editing (cs s)) /\
    um s' = um s /\ (committed (cs s') = committed (cs s) /\ wakes s' = wakes s \/ wakes s' = S (wakes s))) s.
Proof.
  intros Hi Hc. unfold consoleintr, type_char. destruct (edit_counts (cs s)) as [Hl1 Hl2].
  destruct (cons_counts (cs s)) as [Hn1 Hn2].
  destruct (c =? CTRL_P). { unfold emit. wp_steps. cbn. split_and!; auto. }
  destruct (c =? CTRL_U).
  { wp_steps. eapply wp_mono; [apply kill_line_wp; [done|unfold n_editing; lia]|].
    intros _ s' (H1 & H2 & H3 & H4 & H5). rewrite H2, H3. split_and!; auto. }
  destruct (_ || _).
  { wp_steps. rewrite n_editing_zero by done. destruct (Z.eqb_spec (n_editing (cs s)) 0) as [E|E]; cbn [negb].
    { wp_steps. rewrite (editing_nil _ E). cbn. split_and!; auto. }
    destruct (cons_erase (cs s) Hi ltac:(lia)) as (Hi' & Hcom & Hne & Hed).
    unfold set_cs, consputc, emit. change (BACKSPACE =? BACKSPACE) with true. cbv iota. wp_steps. cbn [cs um wakes].
    rewrite Hcom, Hed, removelast_last. split_and!; auto. }
  wp_steps. rewrite (cons_total _ Hi).
  replace (Z.of_nat (length (committed (cs s)) + length (editing (cs s)))) with (n_committed (cs s) + n_editing (cs s)) by lia.
  destruct (Z.eqb_spec c 0) as [->|Hc0]; cbn [negb andb orb]. { wp_steps. split_and!; auto. }
  destruct (Z.ltb_spec (n_committed (cs s) + n_editing (cs s)) INPUT_BUF_SIZE) as [Hroom|Hroom].
  2:{ rewrite (proj2 (Z.leb_le _ _)) by done. wp_steps. split_and!; auto. }
  rewrite (proj2 (Z.leb_gt _ _)) by done.
  set (c' := if c =? CR then NL else c).
  assert (Hc' : is_u8 c') by (unfold c'; by destruct (c =? CR)).
  assert (Hput : (c' =? BACKSPACE) = false) by (apply Z.eqb_neq; unfold is_u8, BACKSPACE in *; lia).
  unfold set_cs, consputc, emit, wakeup_r. rewrite Hput, (u8_id c' Hc'). wp_steps. cbn [cs um kern out wakes].
  destruct (cons_append (cs s) c' Hi Hc' Hroom) as (H1 & H2 & H3 & H4 & H5 & H6 & H7 & H8).
  set (s1 := Cons _ _ _ _) in *. 
  assert (Hfull : u32 (c_e s1 - c_r s1) = n_committed (cs s) + n_editing (cs s) + 1).
  { unfold s1. cbn [c_e c_r]. rewrite u32_sub_succ, (cons_total _ Hi). apply u32_id. unfold is_u32, INPUT_BUF_SIZE in *. lia. }
  rewrite Hfull. rewrite length_app. cbn [length].
  replace (Z.of_nat (length (committed (cs s)) + (length (editing (cs s)) + 1)))
    with (n_committed (cs s) + n_editing (cs s) + 1) by lia.
  destruct (_ || _) eqn:Ew; wp_steps; cbn [cs um wakes].
  - rewrite H7, H8. split_and!; auto.
  - rewrite H1, H2. split_and!; auto. apply H5. intros ->.
    by rewrite Z.eqb_refl in Ew.
Qed.

(** ** Reading *)

Lemma n_committed_zero s : cons_inv s -> (c_r s =? c_w s) = (n_committed s =? 0).
Proof.
  intros [_ _ Hr Hw _ _ _]. unfold n_committed, u32, is_u32 in *.
  apply Bool.eq_iff_eq_true. rewrite !Z.eqb_eq. Z.to_euclidean_division_equations. lia.
Qed.

Lemma cons_take s :
  cons_inv s -> 0 < n_committed s ->
  let s' := Cons (buf s) (u32 (c_r s + 1)) (c_w s) (c_e s) in
  cons_inv s' /\ editing s' = editing s /\ n_committed s' = n_committed s - 1 /\
  committed s = nth (Z.to_nat (c_r s mod INPUT_BUF_SIZE)) (buf s) 0 :: committed s' /\
  is_u8 (nth (Z.to_nat (c_r s mod INPUT_BUF_SIZE)) (buf s) 0) /\
  Cons (buf s') (u32 (c_r s' - 1)) (c_w s') (c_e s') = s.
Proof.
  intros Hi Hn. cbn zeta. set (s' := Cons _ _ _ _).
  assert (Hnc : n_committed s' = n_committed s - 1).
  { unfold n_committed, s', u32 in *. cbn. destruct Hi as [_ _ Hr Hw _ _ _]. unfold is_u32 in *.
    Z.to_euclidean_division_equations. lia. }
  split_and!; [|done|done| | |].
  - destruct Hi as [H1 H2 H3 H4 H5 H6 H7]. split; try done; [apply u32_range|].
    change (n_editing s') with (n_editing s). lia.
  - unfold committed. rewrite Hnc. replace (Z.to_nat (n_committed s)) with (S (Z.to_nat (n_committed s - 1))) by lia.
    rewrite ring_S. cbn [buf c_r s']. by rewrite (ring_u32 INPUT_BUF_SIZE) by auto.
  - apply (ring_at_byte INPUT_BUF_SIZE inb_pos); apply Hi.
  - cbn. unfold u32. rewrite Zminus_mod_idemp_l. replace (c_r s + 1 - 1) with (c_r s) by lia.
    rewrite Z.mod_small by apply Hi. by destruct s.
Qed.

Definition plain (c : Z) : Prop := c <> NL /\ c <> CTRL_D.

(** How a reading segment that wanted [n] of [target] bytes ended, having stored
    [bs] and taken [taken] from the committed input, of which [rest] is left. *)
Definition read_end (killed : Z -> bool) (dst n target : Z) (bs taken rest : list Z) (r : cresult) : Prop :=
  let k := Z.of_nat (length bs) in
  match r with
  | CBlocked d m => taken = bs /\ Forall plain bs /\ rest = [] /\ m = n - k /\ 0 < m /\ d = dst + k
  | CReturned v =>
      (v = -1 /\ taken = bs /\ Forall plain bs /\ rest = [] /\ killed (n - k) = true) \/
      (v = target - n + k /\
       ((taken = bs /\ k = n /\ Forall plain bs) \/
        (taken = bs /\ exists line, bs = line ++ [NL] /\ Forall plain line) \/
        (taken = bs /\ Forall plain bs /\ n - k < target /\ exists rest', rest = CTRL_D :: rest') \/
        (taken = bs ++ [CTRL_D] /\ Forall plain bs /\ target <= n - k) \/
        (exists c, taken = bs ++ [c] /\ Forall plain bs /\ k < n)))
  end.

Lemma read_end_cons killed dst n target c bs taken rest r :
  plain c -> read_end killed (dst + 1) (n - 1) target bs taken rest r ->
  read_end killed dst n target (c :: bs) (c :: taken) rest r.
Proof.
  intros Hc. unfold read_end. replace (Z.of_nat (length (c :: bs))) with (Z.of_nat (length bs) + 1) by (cbn; lia).
  replace (n - (Z.of_nat (length bs) + 1)) with (n - 1 - Z.of_nat (length bs)) by lia.
  assert (HF : Forall plain bs -> Forall plain (c :: bs)) by (intros; by constructor).
  destruct r as [v|d m].
  - intros [(H1 & H2 & H3 & H4 & H5)|[Hv H]]; [left; subst; auto|right]. split; [lia|].
    destruct H as [(-> & Hk & H)|[(-> & line & -> & H)|[(-> & H & Hk & Hr)|[(-> & H & Hk)|(x & -> & H & Hk)]]]].
    + left. split_and!; [done|lia|auto].
    + right; left. split; [done|]. exists (c :: line). split; [done|by constructor].
    + do 2 right; left. auto.
    + do 3 right; left. auto.
    + do 4 right. exists x. split_and!; [done|auto|lia].
  - intros (-> & H & -> & -> & Hp & ->). split_and!; auto; lia.
Qed.

Context `{UML : !UserMemLaws U}.

Lemma consoleread_loop_wp fuel killed s dst n target :
  cons_inv (cs s) -> um_ok (um s) -> 0 <= n -> 0 <= dst -> dst + n < 2 ^ 64 -> (Z.to_nat n < fuel)%nat ->
  wp (consoleread_loop fuel killed 1 dst n target) (fun r s' => exists bs taken,
    cons_inv (cs s') /\ um_ok (um s') /\ editing (cs s') = editing (cs s) /\
    committed (cs s) = taken ++ committed (cs s') /\ um_sees (um s') dst bs /\
    (forall a bs', um_sees (um s) a bs' -> a + Z.of_nat (length bs') <= dst -> um_sees (um s') a bs') /\
    read_end killed dst n target bs taken (committed (cs s')) r) s.
Proof.
  revert s dst n. induction fuel as [|fuel IH]; intros s dst n Hi Hu Hn Hd Hdn Hf; [lia|]. cbn [consoleread_loop].
  assert (Hstop : forall r, read_end killed dst n target [] [] (committed (cs s)) r -> exists bs taken,
    cons_inv (cs s) /\ um_ok (um s) /\ editing (cs s) = editing (cs s) /\
    committed (cs s) = taken ++ committed (cs s) /\ um_sees (um s) dst bs /\
    (forall a bs', um_sees (um s) a bs' -> a + Z.of_nat (length bs') <= dst -> um_sees (um s) a bs') /\
    read_end killed dst n target bs taken (committed (cs s)) r).
  { intros r Hr. exists [], []. split_and!; try done. apply um_sees_nil. }
  destruct (Z.ltb_spec 0 n) as [Hpos|Hz].
  2:{ wp_steps. apply Hstop. right. cbn. split; [lia|]. left. split_and!; [done|lia|constructor]. }
  wp_steps. rewrite n_committed_zero by done. destruct (cons_counts (cs s)) as [Hc0 _].
  destruct (Z.eqb_spec (n_committed (cs s)) 0) as [E|E].
  { assert (Hnil : committed (cs s) = []) by (unfold committed; by rewrite E).
    destruct (killed n) eqn:Ek; wp_steps; apply Hstop; cbn; rewrite ?Z.sub_0_r, ?Z.add_0_r; [left|]; split_and!; auto; lia. }
  destruct (cons_take (cs s) Hi ltac:(lia)) as (Hi' & Hed & Hnc & Hcom & Hb & Hback).
  set (c := nth _ _ _) in *. set (s1 := Cons _ _ _ _) in *.
  unfold set_cs. wp_steps. cbn [cs um kern out wakes]. fold s1.
  destruct (Z.eqb_spec c CTRL_D) as [Ec|Ec].
  { destruct (Z.ltb_spec n target) as [Hnt|Hnt]; wp_steps; cbn [cs um].
    - rewrite Hback. apply Hstop. right. cbn. rewrite Z.sub_0_r, Z.add_0_r. split; [done|].
      do 2 right; left. split_and!; [done|constructor|done|]. rewrite Hcom, Ec. eauto.
    - exists [], [c]. split_and!; try done; [apply um_sees_nil|]. right. cbn. rewrite Z.sub_0_r, Z.add_0_r.
      split; [done|]. do 3 right; left. by rewrite Ec. }
  unfold either_copyout, user. change (c_true 1) with true. cbv iota. wp_steps. cbn [um].
  eapply wp_mono; [apply (um_copyout_law (um s) dst [c] Hu); [mlia|by constructor]|].
  cbn beta. intros r u (Hu' & Hkeep & Hr). destruct Hr as [[-> Hs]| ->].
  2:{ rewrite Z.eqb_refl. wp_steps. cbn [cs um]. exists [], [c]. split_and!; try done; [apply um_sees_nil| |].
      - intros a bs' H1 H2. apply Hkeep; auto.
      - right. cbn. rewrite Z.add_0_r. split; [done|]. do 4 right. exists c. split_and!; [done|constructor|lia]. }
  change (0 =? -1) with false. cbv iota. destruct (Z.eqb_spec c NL) as [En|En].
  { wp_steps. cbn [cs um]. exists [c], [c]. split_and!; try done.
    - intros a bs' H1 H2. apply Hkeep; auto.
    - right. cbn. split; [lia|]. right; left. split; [done|]. exists []. by rewrite En. }
  rewrite (u64_id (dst + 1)) by mlia.
  eapply wp_mono; [apply (IH (Cst s1 u (kern s) (out s) (wakes s)) (dst + 1) (n - 1)); cbn; try done; lia|].
  cbn [cs um]. intros r s' (bs & taken & H1 & H2 & H3 & H4 & H5 & H6 & H7). exists (c :: bs), (c :: taken).
  split_and!; [done|done|by rewrite H3|by rewrite Hcom, H4| | |by apply read_end_cons].
  - change (c :: bs) with ([c] ++ bs). apply um_sees_app; [|done]. apply H6; [done|cbn; lia].
  - intros a bs' Ha1 Ha2. apply H6; [|lia]. apply Hkeep; [done|lia].
Qed.

(** [consoleread] hands a process a prefix of the committed input: the bytes
    it stores are those the process then sees at [dst], and it stops exactly at
    a newline (delivered), at the requested count, at an end-of-file mark, which
    is left in the buffer when bytes were already delivered and consumed
    otherwise, or when a store fails; it blocks only on empty input and returns
    -1 only when killed there.  The line being edited is not touched. *)
Theorem consoleread_prefix killed (s : cst) dst n :
  cons_inv (cs s) -> um_ok (um s) -> 0 <= n -> 0 <= dst -> dst + n < 2 ^ 64 ->
  wp (consoleread killed 1 dst n n) (fun r s' => exists bs taken,
    cons_inv (cs s') /\ um_ok (um s') /\ editing (cs s') = editing (cs s) /\
    committed (cs s) = taken ++ committed (cs s') /\ um_sees (um s') dst bs /\
    read_end killed dst n n bs taken (committed (cs s')) r) s.
Proof.
  intros Hi Hu Hn Hd Hdn. eapply wp_mono; [apply (consoleread_loop_wp _ killed s dst n n); try done; lia|].
  intros r s' (bs & taken & H1 & H2 & H3 & H4 & H5 & _ & H7). by exists bs, taken.
Qed.

Lemma consolewrite_loop_wp fuel s src n i :
  um_ok (um s) -> 0 <= i <= n -> 0 <= src -> src + n < 2 ^ 64 -> (Z.to_nat (n - i) < fuel)%nat ->
  wp (consolewrite_loop fuel 1 src n i) (fun r s' => exists bs,
    um_ok (um s') /\ cs s' = cs s /\ out s' = out s ++ map OChar bs /\ um_sees (um s') (src + i) bs /\
    (forall a bs', um_sees (um s) a bs' -> um_sees (um s') a bs') /\
    r = i + Z.of_nat (length bs) /\ r <= n) s.
Proof.
  revert s i. induction fuel as [|fuel IH]; intros s i Hu Hi Hs Hsn Hf; [lia|]. cbn [consolewrite_loop].
  destruct (Z.ltb_spec i n) as [Hlt|Hge].
  2:{ wp_steps. exists []. cbn. rewrite app_nil_r. split_and!; try done; [apply um_sees_nil|lia|lia]. }
  set (nn := if _ <? _ then _ else _). assert (Hnn : 0 < nn <= n - i) by (unfold nn; destruct (Z.ltb_spec (n - i) 32); lia).
  clearbody nn. unfold either_copyin, user. change (c_true 1) with true. cbv iota. rewrite (u64_id (src + i)) by mlia.
  wp_steps. eapply wp_mono; [apply (um_copyin_law (um s) (src + i) nn Hu); [mlia|lia]|].
  cbn beta. intros [r bs] u (Hu' & Hkeep & Hr). destruct Hr as [(-> & Hl & Hb & Hsee)| ->].
  2:{ rewrite Z.eqb_refl. wp_steps. exists []. cbn. rewrite app_nil_r. split_and!; try done; [apply um_sees_nil|lia|lia]. }
  change (0 =? -1) with false. cbv iota. unfold emit. wp_steps. cbn [cs um kern out wakes].
  eapply wp_mono; [apply (IH (Cst (cs s) u (kern s) (out s ++ map OChar bs) (wakes s)) (i + nn)); cbn; try done; lia|].
  cbn [cs um out]. intros r s' (bs' & H1 & H2 & H3 & H4 & H5 & H6 & H7). exists (bs ++ bs').
  rewrite map_app, app_assoc, length_app. split_and!; try done; [|by auto|lia].
  apply um_sees_app; [by apply H5|]. by replace (src + i + Z.of_nat (length bs)) with (src + (i + nn)) by lia.
Qed.

End Console.

Definition a_cst : @cst memory :=
  Cst (Cons (replicate 128 0) 4294967295 4294967295 4294967295) (fun a => a) (fun _ => 0) [] 0.
Lemma a_cst_inv : cons_inv (cs a_cst).
Proof. split; [done|apply Forall_replicate; done|done|done|done|done|constructor]. Qed.

Lemma consoleintr_edits_witness :
  wp (consoleintr 13) (fun _ s' => (committed (cs s'), editing (cs s')) = ([10], [])) a_cst.
Proof.
  eapply wp_mono; [apply (consoleintr_edits a_cst 13 a_cst_inv); unfold is_u8; lia|].
  intros _ s' (_ & H & _). rewrite H. vm_compute. reflexivity.
Defined.

Lemma consoleread_prefix_witness :
  wp (consoleread (UM := flat_user_mem 100) (fun _ => false) 1 10 5 5) (fun r s' => exists bs taken,
    committed (cs a_cst) = taken ++ committed (cs s') /\
    read_end (fun _ => false) 10 5 5 bs taken (committed (cs s')) r) a_cst.
Proof.
  eapply wp_mono;
    [apply (consoleread_prefix (UM := flat_user_mem 100) (UML := flat_user_mem_laws 100));
       [exact a_cst_inv|exact I|lia|lia|lia]|].
  intros r s' (bs & taken & _ & _ & _ & H4 & _ & H6). exists bs, taken. split; [exact H4|exact H6].
Defined.
