(* ===== verification/VmFree.v ===== *)
(** * Freeing page tables

    [freewalk] returns every table page of an address space to the allocator:
    on a tree whose leaves are empty it does not panic, frees exactly the table
    pages, each once, and touches no other page.  With it [uvmfree] gives back
    everything an address space owns. *)
From S2P Require Import Prelude Machine Memory Kalloc Vm VmTables VmMap VmUser VmGrow VmCopy VmFork.

Section VmFree.
Context `{KI : KernelImage} `{KIO : !KernelImageOk}.
Hint Resolve okpath_nil okpath_path_of in_user_MAXVA : core.

(** The tables of the subtree of height [h] at [pt]. *)
Definition subpages (h : nat) (m : memory) (pt p : Z) : Prop :=
  exists rest, Forall okidx rest /\ (length rest <= h)%nat /\ node m pt rest = Some p.

Record sub_inv (h : nat) (m : memory) (pt : Z) (l : list Z) : Prop := {
  sv_valid : forall rest p, Forall okidx rest -> (length rest <= h)%nat -> node m pt rest = Some p ->
    valid_page p /\ (p ∉ l);
  sv_inj : forall rest rest' p, Forall okidx rest -> Forall okidx rest' ->
    (length rest <= h)%nat -> (length rest' <= h)%nat ->
    node m pt rest = Some p -> node m pt rest' = Some p -> rest = rest';
  sv_dir : forall rest p i, Forall okidx rest -> okidx i -> (length rest < h)%nat -> node m pt rest = Some p ->
    pte_has (load64 m (pte_addr p i)) PTE_V = true -> pte_has (load64 m (pte_addr p i)) PTE_RWX = false;
  sv_leaf : forall rest p i, Forall okidx rest -> okidx i -> length rest = h -> node m pt rest = Some p ->
    pte_has (load64 m (pte_addr p i)) PTE_V = false
}.

Lemma subpages_root h m pt : subpages h m pt pt.
Proof. exists []. split_and!; [constructor|cbn; lia|done]. Qed.

Lemma subpages_child h m pt i p :
  okidx i -> pte_has (load64 m (pte_addr pt i)) PTE_V = true ->
  subpages h m (PTE2PA (load64 m (pte_addr pt i))) p -> subpages (S h) m pt p.
Proof.
  intros Hi HV (rest & Hr & Hl & Hn). exists (i :: rest). split_and!; [by constructor|cbn; lia|].
  cbn [node]. by rewrite HV.
Qed.

(** Changes outside the subtree leave it as it was. *)
Lemma sub_node_frame (P : Z -> Prop) h m m' pt l rest :
  sub_inv h m pt l -> frame P m m' -> (forall p, P p -> valid_page p) ->
  (forall p, subpages h m pt p -> ~ P p) -> Forall okidx rest -> (length rest <= h)%nat ->
  node m' pt rest = node m pt rest.
Proof.
  intros Hs HF HP Hd. induction rest as [|i rest IH] using rev_ind; intros Hr Hl; [done|].
  apply Forall_app in Hr as [Hr Hi]. inversion Hi; subst. rewrite length_app in Hl. cbn in Hl.
  rewrite !node_snoc, IH by (done || lia). destruct (node m pt rest) as [r|] eqn:E; [|done]. cbn.
  destruct (sv_valid _ _ _ _ Hs rest r Hr ltac:(lia) E) as [Hv _].
  rewrite (load_pte_frame P m m' r i); try done. apply Hd. exists rest. split_and!; [done|lia|done].
Qed.

Lemma sub_entry_frame (P : Z -> Prop) h m m' pt l rest p i :
  sub_inv h m pt l -> frame P m m' -> (forall p, P p -> valid_page p) ->
  (forall p, subpages h m pt p -> ~ P p) -> Forall okidx rest -> (length rest <= h)%nat -> okidx i ->
  node m pt rest = Some p -> load64 m' (pte_addr p i) = load64 m (pte_addr p i).
Proof.
  intros Hs HF HP Hd Hr Hl Hi Hn. destruct (sv_valid _ _ _ _ Hs rest p Hr Hl Hn) as [Hv _].
  apply (load_pte_frame P); try done. apply Hd. by exists rest.
Qed.

Lemma subpages_frame (P : Z -> Prop) h m m' pt l p :
  sub_inv h m pt l -> frame P m m' -> (forall p, P p -> valid_page p) ->
  (forall p, subpages h m pt p -> ~ P p) -> subpages h m' pt p <-> subpages h m pt p.
Proof.
  intros Hs HF HP Hd. split; intros (rest & Hr & Hl & Hn); exists rest; (split_and!; [done|done|]);
    by rewrite (sub_node_frame P h m m' pt l rest) in *.
Qed.

Lemma sub_inv_frame (P : Z -> Prop) h m m' pt l l' :
  sub_inv h m pt l -> frame P m m' -> (forall p, P p -> valid_page p) ->
  (forall p, subpages h m pt p -> ~ P p) -> (forall p, p ∈ l' -> p ∈ l \/ P p) ->
  sub_inv h m' pt l'.
Proof.
  intros Hs HF HP Hd Hl'.
  assert (Hn : forall rest, Forall okidx rest -> (length rest <= h)%nat -> node m' pt rest = node m pt rest)
    by (intros; by eapply (sub_node_frame P)).
  split.
  - intros rest p Hr Hl. rewrite Hn by done. intros Hp. destruct (sv_valid _ _ _ _ Hs rest p Hr Hl Hp) as [Hv Hnl].
    split; [done|]. intros [?|HPp]%Hl'; [done|]. apply (Hd p); [by exists rest|done].
  - intros rest rest' p Hr Hr' Hl Hl2. rewrite !Hn by done. by apply (sv_inj _ _ _ _ Hs).
  - intros rest p i Hr Hi Hl. rewrite Hn by (done || lia). intros Hp.
    rewrite (sub_entry_frame P h m m' pt l rest p i) by (done || lia). by apply (sv_dir _ _ _ _ Hs rest).
  - intros rest p i Hr Hi Hl. rewrite Hn by (done || lia). intros Hp.
    rewrite (sub_entry_frame P h m m' pt l rest p i) by (done || lia). by apply (sv_leaf _ _ _ _ Hs rest).
Qed.

(** ** The pass over the entries of one table *)

Definition entry (s : kmem) (pt j : Z) : Z := load64 (phys s) (pte_addr pt j).
Definition live (s : kmem) (pt j : Z) : Prop := okidx j /\ pte_has (entry s pt j) PTE_V = true.

(** The entries from [i] on are still to be freed. *)
Record pass_inv (h : nat) (s : kmem) (pt : Z) (l : list Z) (i : Z) : Prop := {
  ps_pt : valid_page pt /\ (pt ∉ l);
  ps_child : forall j, i <= j -> live s pt j -> pte_has (entry s pt j) PTE_RWX = false /\
    sub_inv h (phys s) (PTE2PA (entry s pt j)) l /\ ~ subpages h (phys s) (PTE2PA (entry s pt j)) pt;
  ps_disj : forall j j' p, i <= j -> i <= j' -> j <> j' -> live s pt j -> live s pt j' ->
    subpages h (phys s) (PTE2PA (entry s pt j)) p -> ~ subpages h (phys s) (PTE2PA (entry s pt j')) p
}.
Definition below (h : nat) (s : kmem) (pt i p : Z) : Prop :=
  exists j, i <= j /\ live s pt j /\ subpages h (phys s) (PTE2PA (entry s pt j)) p.

(** Freeing child [i]: its pages change, and entry [i]. *)
Section Step.
Context (h : nat) (s s1 : kmem) (pt i : Z) (l t : list Z).
Hypothesis (HP : pass_inv h s pt l i) (Hi : live s pt i) (HK : kmem_inv s1 (t ++ l)).
Let c := PTE2PA (entry s pt i).
Hypothesis (Ht : forall p, p ∈ t <-> subpages h (phys s) c p)
           (HF : frame (subpages h (phys s) c) (phys s) (phys s1)).
Let s2 := set_phys (store64 (phys s1) (pte_addr pt i) 0) s1.
Let P p := p = pt \/ subpages h (phys s) c p.

Lemma step_valid p : P p -> valid_page p.
Proof.
  intros [->|(rest & Hr & Hl & Hn)]; [apply HP|].
  destruct (ps_child _ _ _ _ _ HP i ltac:(lia) Hi) as (_ & Hs & _). by apply (sv_valid _ _ _ _ Hs rest).
Qed.

Lemma step_frame : frame P (phys s) (phys s2).
Proof.
  apply (frame_trans _ _ (phys s1)).
  - eapply frame_mono; [|exact HF]. intros p Hp. by right.
  - destruct Hi as [Hok _]. eapply frame_mono; [|apply (frame_store64 pt); unfold okidx in Hok; mlia].
    intros p <-. by left.
Qed.

Lemma step_kmem : kmem_inv s2 (t ++ l).
Proof.
  eapply (kmem_inv_frame (eq pt)); [| | |exact HK].
  - destruct Hi as [Hok _]. apply frame_store64; unfold okidx in Hok; mlia.
  - intros ? <-. apply HP.
  - intros p Hp <-. apply elem_of_app in Hp as [Hp%Ht|Hp]; [|by apply HP].
    destruct (ps_child _ _ _ _ _ HP i ltac:(lia) Hi) as (_ & _ & Hn). done.
Qed.

Lemma step_entry j : okidx j -> j <> i -> entry s2 pt j = entry s pt j.
Proof.
  intros Hj Hne. destruct Hi as [Hok _]. unfold entry, s2. cbn [phys set_phys].
  rewrite load64_store64_ne by (unfold pte_addr, okidx in *; lia).
  apply (load_pte_frame (subpages h (phys s) c)); try done; [intros p Hp; apply step_valid; by right|apply HP|].
  destruct (ps_child _ _ _ _ _ HP i ltac:(lia) Hi) as (_ & _ & Hn). done.
Qed.

Lemma step_disj j p : i + 1 <= j -> live s pt j -> subpages h (phys s) (PTE2PA (entry s pt j)) p -> ~ P p.
Proof.
  intros Hj Hl Hp [->|Hc].
  - by destruct (ps_child _ _ _ _ _ HP j ltac:(lia) Hl) as (_ & _ & Hn).
  - by apply (ps_disj _ _ _ _ _ HP j i p); try lia.
Qed.

Lemma step_live j : i + 1 <= j -> live s2 pt j <-> live s pt j.
Proof.
  intros Hj. unfold live. split; intros [H1 H2]; (split; [done|]); by rewrite step_entry in * by (done || lia).
Qed.

Lemma step_sub j p : i + 1 <= j -> live s pt j ->
  subpages h (phys s2) (PTE2PA (entry s2 pt j)) p <-> subpages h (phys s) (PTE2PA (entry s pt j)) p.
Proof.
  intros Hj Hl. rewrite step_entry by (lia || apply Hl).
  destruct (ps_child _ _ _ _ _ HP j ltac:(lia) Hl) as (_ & Hs & _).
  apply (subpages_frame P h _ _ _ l); [done|apply step_frame|apply step_valid|]. intros q Hq. by apply (step_disj j).
Qed.

Lemma step_pass : pass_inv h s2 pt (t ++ l) (i + 1).
Proof.
  split.
  - split; [apply HP|]. intros [Hp%Ht|Hp]%elem_of_app; [|by apply HP].
    by destruct (ps_child _ _ _ _ _ HP i ltac:(lia) Hi) as (_ & _ & Hn).
  - intros j Hj Hl. apply (step_live j Hj) in Hl. rewrite (step_entry j) by (lia || apply Hl).
    destruct (ps_child _ _ _ _ _ HP j ltac:(lia) Hl) as (H1 & H2 & H3). split_and!; [done| |].
    + apply (sub_inv_frame P h (phys s) (phys s2) _ l); [done|apply step_frame|apply step_valid| |].
      * intros q Hq. by apply (step_disj j).
      * intros p [Hp%Ht|Hp]%elem_of_app; [by right; right|by left].
    + rewrite <- (step_entry j) by (lia || apply Hl). by rewrite (step_sub j).
  - intros j j' p Hj Hj' Hne Hl Hl'. apply (step_live j Hj) in Hl. apply (step_live j' Hj') in Hl'.
    rewrite (step_sub j), (step_sub j') by done. apply (ps_disj _ _ _ _ _ HP); try done; lia.
Qed.

Lemma step_below p : below h s pt i p <-> subpages h (phys s) c p \/ below h s2 pt (i + 1) p.
Proof.
  unfold below. split.
  - intros (j & Hj & Hl & Hp). destruct (decide (j = i)) as [->|]; [by left|right].
    exists j. split_and!; [lia|apply step_live; [lia|done]|]. by rewrite step_sub by (done || lia).
  - intros [Hp|(j & Hj & Hl & Hp)]; [by exists i; split_and!|].
    apply (step_live j Hj) in Hl. exists j. rewrite step_sub in Hp by done. split_and!; [lia|done|done].
Qed.
End Step.

(** What freeing a subtree does. *)
Definition frees (Q : Z -> Prop) (s s' : kmem) (l : list Z) : Prop := exists t,
  kmem_inv s' (t ++ l) /\ (forall p, p ∈ t <-> Q p) /\ frame Q (phys s) (phys s').

Lemma freewalk_entries_wp h (sub : Z -> M kmem unit) :
  (forall s l c, kmem_inv s l -> sub_inv h (phys s) c l ->
     wp (sub c) (fun _ s' => frees (subpages h (phys s) c) s s' l) s) ->
  forall n s l pt, (n <= 512)%nat -> kmem_inv s l -> pass_inv h s pt l (512 - Z.of_nat n) ->
  wp (freewalk_entries sub pt n) (fun _ s' => exists t,
    kmem_inv s' (t ++ l) /\ (forall p, p ∈ t <-> below h s pt (512 - Z.of_nat n) p) /\
    frame (fun p => p = pt \/ below h s pt (512 - Z.of_nat n) p) (phys s) (phys s')) s.
Proof.
  intros Hsub. induction n as [|n IH]; intros s l pt Hn HK HP.
  { cbn [freewalk_entries]. wp_steps. exists []. split_and!; [done| |apply frame_refl]. intros p. split.
    - by intros ?%not_elem_of_nil.
    - intros (j & Hj & [Hok _] & _). unfold okidx in Hok. lia. }
  cbn [freewalk_entries]. set (i := 512 - Z.of_nat (S n)) in *. unfold rd64. wp_steps. fold (entry s pt i).
  assert (Hnext : 512 - Z.of_nat n = i + 1) by (unfold i; lia). rewrite Hnext in IH.
  assert (Hoki : okidx i) by (unfold okidx, i; lia).
  destruct (pte_has (entry s pt i) PTE_V) eqn:EV.
  - assert (Hl : live s pt i) by done.
    destruct (ps_child _ _ _ _ _ HP i ltac:(lia) Hl) as (Hd & Hs & _).
    fold PTE_RWX. rewrite Hd. cbn [negb andb]. wp_steps.
    eapply wp_mono; [by apply (Hsub s l)|]. cbn beta. intros _ s1 (t & HK1 & Ht & HF).
    unfold wr64. wp_steps. eapply wp_mono; [apply IH|]; [lia|by eapply step_kmem|by eapply step_pass|].
    cbn beta. intros _ s' (t' & HK' & Ht' & HF'). exists (t' ++ t). rewrite <- app_assoc. split_and!; [done| |].
    + intros p. rewrite elem_of_app, Ht, Ht'. rewrite (step_below h s s1 pt i l HP Hl HF p). tauto.
    + eapply frame_trans.
      * eapply frame_mono; [|by eapply step_frame]. cbn beta. intros p [?|?]; [by left|right].
        apply (step_below h s s1 pt i l HP Hl HF p). by left.
      * eapply frame_mono; [|exact HF']. cbn beta. intros p [?|?]; [by left|right].
        apply (step_below h s s1 pt i l HP Hl HF p). by right.
  - cbn [andb]. wp_steps.
    assert (Hbel : forall p, below h s pt i p <-> below h s pt (i + 1) p).
    { intros p. unfold below. split; intros (j & Hj & Hl & Hp); exists j; (split_and!; [|done|done]); [|lia].
      destruct (decide (j = i)) as [->|]; [|lia]. destruct Hl as [_ Hl]. congruence. }
    eapply wp_mono; [apply (IH s l pt); [lia|done|]|].
    + destruct HP as [H1 H2 H3]. split; [done| |]; intros; [apply H2|eapply H3]; eauto; lia.
    + cbn beta. intros _ s' (t & H1 & H2 & H3). exists t. split_and!; [done| |].
      * intros p. by rewrite H2, Hbel.
      * eapply frame_mono; [|exact H3]. cbn beta. intros p [?|?%Hbel]; auto.
Qed.

(** The entries of a leaf table are all invalid. *)
Lemma freewalk_entries_leaf sub pt n s :
  (n <= 512)%nat -> (forall i, okidx i -> pte_has (load64 (phys s) (pte_addr pt i)) PTE_V = false) ->
  freewalk_entries sub pt n s = Ok (tt, s).
Proof.
  intros Hn Hz. induction n as [|n IH]; [done|]. cbn [freewalk_entries]. unfold rd64, gets, bind.
  rewrite Hz by (unfold okidx; lia). cbn. apply IH. lia.
Qed.

(** Subtrees of a well-formed tree are well formed, and disjoint. *)
Lemma sub_inv_pass h s pt l : sub_inv (S h) (phys s) pt l -> pass_inv h s pt l 0.
Proof.
  intros Hs.
  assert (Hc : forall j, live s pt j -> forall rest, node (phys s) pt (j :: rest) = node (phys s) (PTE2PA (entry s pt j)) rest).
  { intros j [_ HV] rest. cbn [node]. unfold entry in HV. by rewrite HV. }
  split.
  - exact (sv_valid _ _ _ _ Hs [] pt ltac:(constructor) ltac:(cbn; lia) eq_refl).
  - intros j _ Hl. pose proof (Hc j Hl) as Hcj. destruct Hl as [Hok HV]. split_and!.
    + exact (sv_dir _ _ _ _ Hs [] pt j ltac:(constructor) Hok ltac:(cbn; lia) eq_refl HV).
    + split.
      * intros rest p Hr Hlen. rewrite <- Hcj. apply (sv_valid _ _ _ _ Hs); [by constructor|cbn; lia].
      * intros rest rest' p Hr Hr' Hlen Hlen'. rewrite <- !Hcj. intros H1 H2.
        assert (j :: rest = j :: rest') as [= ->]; [|done].
        by eapply (sv_inj _ _ _ _ Hs); [constructor|constructor|cbn; lia|cbn; lia|..].
      * intros rest p i Hr Hi Hlen. rewrite <- Hcj. apply (sv_dir _ _ _ _ Hs (j :: rest)); [by constructor|done|cbn; lia].
      * intros rest p i Hr Hi Hlen. rewrite <- Hcj. apply (sv_leaf _ _ _ _ Hs (j :: rest)); [by constructor|done|cbn; lia].
    + intros (rest & Hr & Hlen & Hn). rewrite <- Hcj in Hn.
      assert (j :: rest = []); [|done].
      by eapply (sv_inj _ _ _ _ Hs); [constructor|constructor|cbn; lia|cbn; lia|exact Hn|].
  - intros j j' p _ _ Hne Hl Hl' (rest & Hr & Hlen & Hn) (rest' & Hr' & Hlen' & Hn').
    rewrite <- Hc in Hn, Hn' by done. destruct Hl as [Hok _], Hl' as [Hok' _].
    assert (j :: rest = j' :: rest') as [= ? _]; [|done].
    by eapply (sv_inj _ _ _ _ Hs); [constructor|constructor|cbn; lia|cbn; lia|exact Hn|exact Hn'].
Qed.

Lemma subpages_S h s pt p :
  subpages (S h) (phys s) pt p <-> p = pt \/ below h s pt 0 p.
Proof.
  split.
  - intros (rest & Hr & Hl & Hn). destruct rest as [|j rest]; cbn [node] in Hn; [injection Hn as <-; by left|right].
    inversion Hr as [|?? Hj Hr']; subst. cbn in Hl. destruct (pte_has _ _) eqn:EV; [|done].
    exists j. split_and!; [unfold okidx in Hj; lia|done|]. exists rest. split_and!; [done|lia|done].
  - intros [->|(j & _ & [Hj HV] & Hp)]; [apply subpages_root|]. by apply (subpages_child h _ pt j).
Qed.

Lemma freewalk_wp h s l pt :
  kmem_inv s l -> sub_inv h (phys s) pt l ->
  wp (freewalk (S h) pt) (fun _ s' => frees (subpages h (phys s) pt) s s' l) s.
Proof.
  revert s l pt. induction h as [|h IH]; intros s l pt HK Hs.
  - destruct (sv_valid _ _ _ _ Hs [] pt ltac:(constructor) ltac:(cbn; lia) eq_refl) as [Hv Hnl].
    cbn [freewalk]. wp_steps. unfold wp at 1. rewrite freewalk_entries_leaf; [|lia|].
    2:{ intros i Hi. by apply (sv_leaf _ _ _ _ Hs [] pt i). }
    eapply wp_mono; [by apply (kfree_wp s l pt)|]. cbn beta. intros _ s' [HK' HF'].
    assert (Hsub : forall p, subpages 0 (phys s) pt p <-> pt = p).
    { intros p. split; [|intros <-; apply subpages_root]. intros (rest & _ & Hl & Hn).
      destruct rest; [by injection Hn|cbn in Hl; lia]. }
    exists [pt]. split_and!; [done| |].
    + intros p. rewrite Hsub, list_elem_of_singleton. naive_solver.
    + eapply frame_mono; [|exact HF']. intros p Hp. by apply Hsub.
  - remember (S h) as h1 eqn:Eh. cbn [freewalk]. subst h1. wp_steps.
    pose proof (sub_inv_pass h s pt l Hs) as HP.
    eapply wp_mono; [apply (freewalk_entries_wp h (freewalk (S h)) IH 512 s l pt); [lia|done|]|].
    { by replace (512 - Z.of_nat 512) with 0 by lia. }
    replace (512 - Z.of_nat 512) with 0 by lia. cbn beta. intros _ s1 (t & HK1 & Ht & HF1).
    assert (Hpt : pt ∉ t).
    { rewrite Ht. intros (j & Hj & Hl & Hp). by destruct (ps_child _ _ _ _ _ HP j Hj Hl) as (_ & _ & ?). }
    destruct (ps_pt _ _ _ _ _ HP) as [Hv Hnl].
    eapply wp_mono; [apply (kfree_wp s1 (t ++ l) pt HK1 Hv)|].
    { rewrite elem_of_app. tauto. }
    cbn beta. intros _ s' [HK' HF']. exists (pt :: t). split_and!; [done| |].
    + intros p. rewrite elem_of_cons, Ht, subpages_S. done.
    + eapply frame_trans; [eapply frame_mono; [|exact HF1]|eapply frame_mono; [|exact HF']];
        cbn beta; intros p Hp; apply subpages_S; [done|by left].
Qed.

(** ** The whole tree *)

Lemma subpages_node m root p : subpages 2 m root p <-> is_node m root p.
Proof. unfold subpages, is_node, okpath. naive_solver. Qed.

(** The address with the given indices. *)
Definition va_of (i2 i1 i0 : Z) : Z := i2 * 2 ^ 30 + i1 * 2 ^ 21 + i0 * 2 ^ 12.

Lemma va_of_spec i2 i1 i0 :
  0 <= i2 < 256 -> okidx i1 -> okidx i0 ->
  0 <= va_of i2 i1 i0 < MAXVA /\ PX 2 (va_of i2 i1 i0) = i2 /\ PX 1 (va_of i2 i1 i0) = i1 /\ PX 0 (va_of i2 i1 i0) = i0.
Proof.
  unfold okidx. intros H2 H1 H0. assert (Hr : 0 <= va_of i2 i1 i0 < MAXVA) by (unfold va_of; mlia).
  split; [done|]. rewrite !PX_spec by mlia.
  change (12 + 9 * 2) with 30. change (12 + 9 * 1) with 21. change (12 + 9 * 0) with 12. unfold va_of in *.
  split_and!.
  - rewrite <- (Z.div_unique_pos (i2 * 2 ^ 30 + i1 * 2 ^ 21 + i0 * 2 ^ 12) (2 ^ 30) i2 (i1 * 2 ^ 21 + i0 * 2 ^ 12)) by lia.
    apply Z.mod_small. lia.
  - rewrite <- (Z.div_unique_pos (i2 * 2 ^ 30 + i1 * 2 ^ 21 + i0 * 2 ^ 12) (2 ^ 21) (i1 + i2 * 512) (i0 * 2 ^ 12)) by lia.
    rewrite Z.mod_add by lia. apply Z.mod_small. lia.
  - rewrite <- (Z.div_unique_pos (i2 * 2 ^ 30 + i1 * 2 ^ 21 + i0 * 2 ^ 12) (2 ^ 12) (i0 + (i2 * 512 + i1) * 512) 0) by lia.
    rewrite Z.mod_add by lia. apply Z.mod_small. lia.
Qed.

Lemma pt_inv_sub m root l :
  pt_inv m root l -> (forall va, 0 <= va < MAXVA -> mapped m root va = false) -> sub_inv 2 m root l.
Proof.
  intros Hi Hun. split.
  - intros rest p Hr Hl Hn. split; [exact (pt_valid _ _ _ Hi rest p (conj Hr Hl) Hn)|exact (pt_used _ _ _ Hi rest p (conj Hr Hl) Hn)].
  - intros rest rest' p Hr Hr' Hl Hl'. apply (pt_inj _ _ _ Hi); done.
  - intros rest p i Hr Hok Hl Hn HV. apply (pt_dir _ _ _ Hi rest p i); try done.
    split; [apply Forall_app; split; [done|by constructor]|rewrite length_app; cbn; lia].
  - intros rest p i0 Hr Hok Hl Hn. destruct rest as [|i2 [|i1 [|? ?]]]; cbn in Hl; try lia.
    inversion Hr as [|?? H2 Hr1]; subst. inversion Hr1 as [|?? H1 _]; subst.
    assert (Hlow : i2 < 256).
    { cbn [node] in Hn. destruct (pte_has (load64 m (pte_addr root i2)) PTE_V) eqn:E; [|done].
      destruct (pt_dir _ _ _ Hi [] root i2) as [_ Hlow]; try done; [|by apply Hlow].
      split; [by constructor|cbn; lia]. }
    unfold okidx in H2. destruct (va_of_spec i2 i1 i0 ltac:(lia) H1 Hok) as (Hva & P2 & P1 & P0).
    specialize (Hun _ Hva). unfold mapped, pte_of, leaf_slot, path_of in Hun. by rewrite P2, P1, P0, Hn in Hun.
Qed.

Lemma frees_trans (Q R T : Z -> Prop) s1 s2 s3 l t :
  kmem_inv s2 (t ++ l) -> (forall p, p ∈ t <-> Q p) -> frame (fun p => Q p \/ R p) (phys s1) (phys s2) ->
  frees R s2 s3 (t ++ l) -> (forall p, T p <-> Q p \/ R p) -> frees T s1 s3 l.
Proof.
  intros HK Ht HF (t' & HK' & Ht' & HF') HT. exists (t' ++ t). rewrite <- app_assoc. split_and!; [done| |].
  - intros p. rewrite elem_of_app, Ht, Ht', HT. tauto.
  - eapply frame_trans; (eapply frame_mono; [|eassumption]); cbn beta; intros p Hp; apply HT; tauto.
Qed.

(** The pages of an address space all of whose mappings are below [hi]. *)
Lemma owned_below m root hi p :
  page_aligned hi -> 0 <= hi <= TRAPFRAME ->
  (forall va, 0 <= va < MAXVA -> mapped m root va = true -> va < hi) ->
  owned m root p <-> p ∈ mapped_pages m root 0 (Z.to_nat (hi / PGSIZE)) \/ is_node m root p.
Proof.
  intros Ha Hh Honly. pose proof (page_div_mul hi Ha) as Ehi.
  assert (Hq : 0 <= hi / PGSIZE) by (apply Z.div_pos; [lia|mlia]).
  unfold owned. rewrite elem_of_mapped_pages. split.
  - intros [H|(va & Hu & Hm & <-)]; [by right|left]. pose proof (Honly va ltac:(auto) Hm) as Hlt.
    pose proof (Z.div_mod va PGSIZE ltac:(mlia)) as Hdm. pose proof (Z.mod_pos_bound va PGSIZE ltac:(mlia)) as Hmb.
    assert (Hva : 0 <= va / PGSIZE) by (apply Z.div_pos; [apply Hu|mlia]).
    assert (Hpg : pte_of m root (0 + va / PGSIZE * PGSIZE) = pte_of m root va).
    { apply pte_of_same_page; [auto|unfold in_user in Hu; clear -Hu Hdm Hmb Hva; munfold; lia|].
      rewrite Z.add_0_l. apply Z.div_mul. mlia. }
    exists (va / PGSIZE). unfold mapped, pa_of in *. rewrite Hpg. split_and!; [lia| |done|done].
    clear -Hdm Hmb Hlt Ehi Hq. munfold. lia.
  - intros [(i & Hi & Hm & ->)|H]; [right|by left]. exists (0 + i * PGSIZE). split_and!; [|done|done].
    unfold in_user. clear -Hi Ehi Hh Hq. munfold. lia.
Qed.

Lemma uvmfree_wp s l root sz :
  kmem_inv s l -> as_inv (phys s) root l -> 0 <= sz <= TRAPFRAME ->
  (forall va, 0 <= va < MAXVA -> mapped (phys s) root va = true -> va < PGROUNDUP sz) ->
  wp (uvmfree root sz) (fun _ s' => frees (owned (phys s) root) s s' l) s.
Proof.
  intros HK Has Hsz Honly. unfold uvmfree. destruct (PGROUNDUP_TRAPFRAME sz Hsz) as (Ha & Hb & Hh).
  set (hi := PGROUNDUP sz) in *. pose proof (page_div_mul hi Ha) as Ehi.
  assert (Hq : 0 <= hi / PGSIZE) by (apply Z.div_pos; [lia|mlia]).
  pose proof (fun p => owned_below (phys s) root hi p Ha ltac:(lia) Honly) as Hown.
  destruct (Z.ltb_spec 0 sz) as [Hpos|Hz].
  - wp_steps. eapply wp_mono; [apply (uvmunmap_wp s l root 0 (hi / PGSIZE) HK Has); [done|lia|done|lia]|].
    cbn beta zeta. set (freed := mapped_pages _ _ _ _) in *. intros _ s1 (HK1 & Has1 & Hpte1 & Hn1 & HF1).
    assert (Hnode : forall p, is_node (phys s1) root p <-> is_node (phys s) root p) by (intros; by apply is_node_eq).
    eapply wp_mono; [apply (freewalk_wp 2 s1 (reverse freed ++ l) root HK1)|].
    + apply pt_inv_sub; [apply Has1|]. intros va Hva. unfold mapped. rewrite (Hpte1 va Hva), Ehi, Z.add_0_l.
      rewrite (proj2 (Z.leb_le 0 va)) by lia. cbn [andb].
      destruct (mapped (phys s) root va) eqn:Em; [|rewrite andb_false_r; exact Em].
      by rewrite (proj2 (Z.ltb_lt _ _)) by (by apply Honly).
    + cbn beta. intros _ s2 Hfr.
      apply (frees_trans (fun p => p ∈ freed) (subpages 2 (phys s1) root) _ s s1 s2 l (reverse freed)); try done.
      * intros p. apply elem_of_reverse.
      * eapply frame_mono; [|exact HF1]. intros p [?|?]; [by left|right]. apply subpages_node. by apply Hnode.
      * intros p. by rewrite subpages_node, Hnode.
  - wp_steps. assert (sz = 0) as -> by lia. assert (Hhi : hi = 0) by done.
    eapply wp_mono; [apply (freewalk_wp 2 s l root HK)|].
    + apply pt_inv_sub; [apply Has|]. intros va Hva. destruct (mapped (phys s) root va) eqn:Em; [|done].
      apply Honly in Em; [|done]. lia.
    + cbn beta. intros _ s2 (t & H1 & H2 & H3). exists t.
      assert (Heq : forall p, subpages 2 (phys s) root p <-> owned (phys s) root p).
      { intros p. rewrite subpages_node, Hown, Hhi. cbn. set_solver. }
      split_and!; [done|intros p; by rewrite H2|]. eapply frame_mono; [|exact H3]. intros p. apply Heq.
Qed.

End VmFree.
