(* ===== verification/VmProps.v ===== *)
(** * The properties of the memory subsystem

    kernel/kalloc.c and kernel/vm.c: the theorems about the allocator, the page
    tables and the copies to and from user space, each proved from the lemmas of
    the files before this one, and a concrete machine of eight free pages on
    which they are run. *)
From S2P Require Import Prelude Machine Memory Kalloc Vm VmTables VmMap VmUser VmGrow VmCopy VmFork VmFree.

Section VmProps.
Context `{KI : KernelImage} `{KIO : !KernelImageOk}.

(** C18: The page allocator refines a stack of pages.  [kalloc] pops the top page
    and fills it with junk, or returns 0 and changes nothing when there is none;
    [kfree] pushes a page that is aligned, in range and not free, and panics on
    any address that is not an aligned page above the kernel and below PHYSTOP;
    neither touches another page. *)
Theorem allocator_refines_stack s l :
  kmem_inv s l ->
  wp kalloc (fun r s' =>
    match l with
    | [] => r = 0 /\ s' = s
    | p :: l' => r = p /\ kmem_inv s' l' /\ frame (eq p) (phys s) (phys s') /\
                 (forall x, in_page p x -> phys s' x = 5)
    end) s /\
  (forall p, valid_page p -> p ∉ l ->
     wp (kfree p) (fun _ s' => kmem_inv s' (p :: l) /\ frame (eq p) (phys s) (phys s')) s) /\
  (forall p, ~ valid_page p -> kfree p s = Panic "kfree").
Proof.
  intros HK. split_and!; [by apply kalloc_wp|intros p Hv Hn; by apply kfree_wp|intros p; apply kfree_bad_panics].
Qed.

(** Boot frees every whole page between the end of the kernel and PHYSTOP,
    each exactly once. *)
Theorem kinit_frees_every_page (m : memory) :
  wp kinit (fun _ s' => exists l, kmem_inv s' l /\ forall p, p ∈ l <-> valid_page p) (Kmem m 0).
Proof.
  eapply wp_mono; [apply kinit_free_pages|]. cbn beta zeta. intros [] s' HK. eexists. split; [exact HK|]. intros p.
  rewrite elem_of_reverse, elem_of_page_range. pose proof kend_lo. pose proof kend_hi.
  destruct (PGROUNDUP_bounds kend) as [Hb Ha]; [mlia|mlia|]. set (p0 := PGROUNDUP kend) in *.
  assert (HPA : page_aligned PHYSTOP) by reflexivity.
  assert (Hp0 : p0 <= PHYSTOP).
  { destruct (decide (p0 <= PHYSTOP)); [done|]. pose proof (page_aligned_dist p0 PHYSTOP Ha HPA). mlia. }
  pose proof (npg_spec p0 PHYSTOP Ha HPA) as Hn. unfold npg in Hn.
  assert (Hq : 0 <= (PHYSTOP - p0) / PGSIZE) by (apply Z.div_pos; mlia). split.
  - intros (i & Hi & ->). split; [|clear -Hi Hn Hq Hb; munfold; lia].
    apply page_aligned_add; [done|]. unfold page_aligned. apply Z.mod_mul. mlia.
  - intros (Hpa & Hl & Hh). assert (Hp : p0 <= p).
    { destruct (decide (p0 <= p)); [done|]. pose proof (page_aligned_dist p p0 Hpa Ha). mlia. }
    pose proof (npg_spec p0 p Ha Hpa) as Hn'. unfold npg in Hn'.
    exists ((p - p0) / PGSIZE). split; [|lia]. rewrite Z2Nat.id by done. clear -Hn Hn' Hp Hh. munfold. lia.
Qed.

(** [mappages] on an unmapped range either maps every page of the range to
    consecutive physical pages with the given permissions and changes no other
    translation, or returns -1 because the allocator is exhausted, having mapped
    a proper prefix of the range. *)
Theorem mappages_maps_range s l root va size pa perm :
  kmem_inv s l -> pt_inv (phys s) root l -> page_aligned va -> 0 <= va ->
  page_aligned size -> 0 < size -> va + size <= MAXVA ->
  is_pa pa -> pa + size <= 2 ^ 56 -> is_perm perm ->
  (forall va', va <= va' < va + size -> mapped (phys s) root va' = false) ->
  wp (mappages root va size pa perm) (fun r s' => exists l' len,
    tbl_ok s s' root l l' /\
    (r = 0 /\ len = size \/ r = -1 /\ 0 <= len < size /\ l' = []) /\
    (forall va', 0 <= va' < MAXVA -> pte_of (phys s') root va' =
       if (va <=? va') && (va' <? va + len)
       then mkpte (pa + (va' - va) / PGSIZE * PGSIZE) perm
       else pte_of (phys s) root va')) s.
Proof. apply mappages_wp. Qed.

(** Mapping an address that is mapped already panics. *)
Theorem mappages_panics_on_remap s root l va size pa perm :
  pt_inv (phys s) root l -> page_aligned va -> 0 <= va < MAXVA -> page_aligned size -> 0 < size ->
  mapped (phys s) root va = true ->
  mappages root va size pa perm s = Panic "mappages: remap".
Proof. apply mappages_remap_panics. Qed.

(** C19: [uvmalloc] is all or nothing.  Growing an address space either maps every
    page between the two sizes to a page of its own from the allocator, filled
    with zeros and with the requested permissions, or returns 0 and leaves every
    translation as it was; other translations and the memory outside the free
    pages and the tables are untouched. *)
Theorem uvmalloc_all_or_nothing s l root oldsz newsz xperm :
  kmem_inv s l -> as_inv (phys s) root l -> 0 <= oldsz <= newsz -> newsz <= TRAPFRAME ->
  is_perm (perm_uvmalloc xperm) ->
  (forall va, PGROUNDUP oldsz <= va < PGROUNDUP newsz -> mapped (phys s) root va = false) ->
  wp (uvmalloc root oldsz newsz xperm) (fun r s' =>
    (exists l', as_step no_page s s' root l l') /\
    ((r = newsz /\ forall va, 0 <= va < MAXVA ->
        if (PGROUNDUP oldsz <=? va) && (va <? PGROUNDUP newsz)
        then zero_mapped (phys s') root l (perm_uvmalloc xperm) va
        else tr (phys s') root va = tr (phys s) root va) \/
     (r = 0 /\ forall va, 0 <= va < MAXVA -> tr (phys s') root va = tr (phys s) root va))) s.
Proof. apply uvmalloc_wp. Qed.

(** [uvmdealloc] unmaps exactly the mapped pages above the new size, gives
    them back to the allocator, each once, and keeps every other translation. *)
Theorem uvmdealloc_frees_pages s l root oldsz newsz :
  kmem_inv s l -> as_inv (phys s) root l -> 0 <= newsz -> 0 <= oldsz <= TRAPFRAME ->
  let lo := PGROUNDUP newsz in let hi := PGROUNDUP oldsz in
  let freed := if newsz <? oldsz then mapped_pages (phys s) root lo (Z.to_nat (npg lo hi)) else [] in
  wp (uvmdealloc root oldsz newsz) (fun r s' =>
    r = Z.min oldsz newsz /\
    kmem_inv s' (reverse freed ++ l) /\ as_inv (phys s') root (reverse freed ++ l) /\
    (forall va, 0 <= va < MAXVA -> pte_of (phys s') root va =
       if (lo <=? va) && (va <? hi) && (newsz <? oldsz) && mapped (phys s) root va
       then 0 else pte_of (phys s) root va)) s.
Proof.
  intros HK Has Hn Ho. cbn zeta. eapply wp_mono; [by apply (uvmdealloc_wp s l)|].
  cbn beta zeta. intros r s' (H1 & H2 & H3 & H4 & _). done.
Qed.

(** [vmfault] allocates lazily.  A fault at or above the process size, or on
    a mapped page, changes nothing and returns 0; any other fault either maps the
    page of the address to a fresh page of zeros, readable and writable by the
    user, and returns its address, or returns 0 for lack of memory with every
    translation as it was. *)
Theorem vmfault_allocates_lazily s l p va read :
  kmem_inv s l -> as_inv (phys s) (u_pagetable p) l -> 0 <= va -> u_sz p <= TRAPFRAME ->
  let root := u_pagetable p in
  wp (vmfault p root va read) (fun r s' =>
    if (u_sz p <=? va) || mapped (phys s) root va then r = 0 /\ s' = s
    else exists l', as_step no_page s s' root l l' /\
      ((r = 0 /\ forall va', 0 <= va' < MAXVA -> tr (phys s') root va' = tr (phys s) root va') \/
       (r <> 0 /\ forall va', 0 <= va' < MAXVA ->
          if va' / PGSIZE =? va / PGSIZE
          then zero_mapped (phys s') root l perm_vmfault va' /\ pa_of (phys s') root va' = r
          else tr (phys s') root va' = tr (phys s) root va'))) s.
Proof. apply vmfault_wp. Qed.

(** C5: Fork's copy.  [uvmcopy] leaves the parent's translations and memory as
    they were; on success every page the parent has mapped below its size is
    mapped in the child at the same address with the same permissions, in a page
    of its own holding the same bytes, and nothing else changed in the child; on
    failure the child's translations are as before. *)
Theorem uvmcopy_copies_address_space s l old new sz :
  kmem_inv s l -> as_inv (phys s) old l -> as_inv (phys s) new l -> apart (phys s) old new ->
  0 <= sz <= TRAPFRAME ->
  (forall va, 0 <= va < PGROUNDUP sz -> mapped (phys s) new va = false) ->
  wp (uvmcopy old new sz) (fun r s' =>
    (exists l', as_step no_page s s' new l l' /\ as_inv (phys s') old l') /\
    (forall va, pte_of (phys s') old va = pte_of (phys s) old va) /\
    (forall p x, owned (phys s) old p -> in_page p x -> phys s' x = phys s x) /\
    ((r = 0 /\ forall va, 0 <= va < MAXVA ->
        if (va <? PGROUNDUP sz) && mapped (phys s) old va then copied s s' old new l va
        else tr (phys s') new va = tr (phys s) new va) \/
     (r = -1 /\ forall va, 0 <= va < MAXVA -> tr (phys s') new va = tr (phys s) new va))) s.
Proof. apply uvmcopy_wp. Qed.

(** C6: [uvmfree] leaks nothing.  On an address space whose mappings are all
    below its size it does not panic and hands back to the allocator exactly the
    pages the address space owns, user pages and table pages alike, each once. *)
Theorem uvmfree_returns_everything s l root sz :
  kmem_inv s l -> as_inv (phys s) root l -> 0 <= sz <= TRAPFRAME ->
  (forall va, 0 <= va < MAXVA -> mapped (phys s) root va = true -> va < PGROUNDUP sz) ->
  wp (uvmfree root sz) (fun _ s' => exists t,
    kmem_inv s' (t ++ l) /\ (forall p, p ∈ t <-> owned (phys s) root p) /\
    frame (owned (phys s) root) (phys s) (phys s')) s.
Proof. apply uvmfree_wp. Qed.

(** C13: [copyout] followed by [copyin] is a round trip.  When [copyout] returns 0,
    [copyin] of the same range returns the same bytes; it fails only when some
    address of the range is not a writable user address; and whatever it returns,
    no mapped byte outside the range and no page of another address space has
    changed. *)
Theorem copyout_copyin_roundtrip s l p dstva src :
  let root := u_pagetable p in
  kmem_inv s l -> as_inv (phys s) root l -> high_ok (phys s) root -> u_sz p <= TRAPFRAME ->
  is_u64 dstva -> Forall is_u8 src ->
  wp (copyout p root dstva src) (fun r s' =>
    (exists l', cp_step (fun va => dstva <= va < dstva + Z.of_nat (length src)) s s' root l l') /\
    (r = 0 /\ wp (copyin p root dstva (Z.of_nat (length src))) (fun '(r', bs) _ => r' = 0 /\ bs = src) s' \/
     r = -1 /\ exists i, 0 <= i < Z.of_nat (length src) /\
       ~ (in_user (dstva + i) /\ writable (phys s) root (dstva + i) = true))) s.
Proof.
  intros root HK Has Hh Hsz Hd Hb. eapply wp_mono; [apply (copyout_loop_wp _ s l p dstva src); try done; lia|].
  fold root. intros r s' [[l' C] Hpost]. split; [by exists l'|].
  destruct Hpost as [[-> Hsee]|Hpost]; [left|by right]. split; [done|].
  assert (Hs : sees (phys s') root dstva src).
  { intros i b Hi. destruct (Hsee i b Hi) as (H1 & H2 & H3). split_and!; [done|done|].
    rewrite H3. apply u8_id. rewrite Forall_lookup in Hb. by eapply Hb. }
  eapply wp_mono; [apply (copyin_loop_wp _ s' l' p dstva (Z.of_nat (length src)) []);
    [apply C|apply C|by apply (cp_high_ok _ _ _ _ _ _ C)|done|done|lia|lia]|].
  intros [r' bs] s'' [[l'' C'] [(-> & bs' & -> & Hl & Hs')|(-> & i & Hi & Hno)]].
  - split; [done|]. cbn. apply (sees_inj (phys s'') root dstva); [done| |lia]. by apply (sees_step _ _ _ _ _ _ _ C').
  - exfalso. apply Hno. destruct (lookup_lt_is_Some_2 src (Z.to_nat i)) as [b Eb]; [lia|].
    destruct (Hs _ _ Eb) as (H1 & H2 & _). rewrite Z2Nat.id in H1, H2 by lia. done.
Qed.

(** C31: [copyinstr] finds exactly the strings that are there: it returns 0 and
    the string with its NUL when the process sees a NUL-terminated string of less
    than [max] characters at the address, and -1 when it does not. *)
Theorem copyinstr_finds_string s l root srcva max :
  as_inv (phys s) root l -> high_ok (phys s) root -> is_u64 srcva -> 0 <= max ->
  wp (copyinstr root srcva max) (fun '(r, bs) s' => s' = s /\
    ((r = 0 /\ exists str, bs = str ++ [0] /\ sees_string (phys s) root srcva max str) \/
     (r = -1 /\ forall str, ~ sees_string (phys s) root srcva max str))) s.
Proof.
  intros Has Hh Hs Hm. apply (copyinstr_loop_wp _ s l root srcva max []); try done; [apply Has| |lia].
  intros va Hu Hmp. by apply (pa_of_pos _ _ l).
Qed.

End VmProps.

(** ** A machine with sixteen free pages *)

#[local] Instance demo_image : KernelImage :=
  {| kend := PHYSTOP - 16 * PGSIZE; etext := KERNBASE + 32768; trampoline := KERNBASE + 28672 |}.
#[local] Instance demo_image_ok : KernelImageOk.
Proof. split; cbn; munfold; (lia || reflexivity). Qed.

(** After [kinit]; then with one and with two empty address spaces. *)
Definition demo_boot : kmem := (run_or kinit (Kmem (fun _ => 0) 0) tt).2.
Definition demo_pages : list Z := reverse (page_range (PHYSTOP - 16 * PGSIZE) 16).
Definition demo_root : Z := (run_or uvmcreate demo_boot 0).1.
Definition demo_one : kmem := (run_or uvmcreate demo_boot 0).2.
Definition demo_child : Z := (run_or uvmcreate demo_one 0).1.
Definition demo_two : kmem := (run_or uvmcreate demo_one 0).2.

Lemma demo_boot_inv : kmem_inv demo_boot demo_pages.
Proof. exact (run_or_wp kinit (Kmem (fun _ => 0) 0) tt _ (kinit_free_pages (fun _ => 0))). Qed.

Lemma demo_one_inv :
  kmem_inv demo_one (tail demo_pages) /\ as_inv (phys demo_one) demo_root (tail demo_pages) /\
  forall va, pte_of (phys demo_one) demo_root va = 0.
Proof.
  pose proof (run_or_wp uvmcreate demo_boot 0 _ (uvmcreate_wp demo_boot demo_pages demo_boot_inv)) as H.
  cbv beta in H. destruct demo_pages as [|pg l] eqn:E; [done|]. unfold demo_root, demo_one. destruct H as (-> & H1 & H2 & H3 & _). done.
Qed.

Lemma demo_two_inv :
  kmem_inv demo_two (tail (tail demo_pages)) /\ as_inv (phys demo_two) demo_root (tail (tail demo_pages)) /\
  as_inv (phys demo_two) demo_child (tail (tail demo_pages)) /\ apart (phys demo_two) demo_root demo_child /\
  (forall va, pte_of (phys demo_two) demo_child va = 0).
Proof.
  destruct demo_one_inv as (HK & Has & _).
  pose proof (run_or_wp uvmcreate demo_one 0 _ (uvmcreate_apart demo_one (tail demo_pages) demo_root HK Has)) as H.
  cbv beta in H. destruct (tail demo_pages) as [|pg l] eqn:E; [done|].
  unfold demo_child, demo_two. destruct H as (-> & H1 & H2 & H3 & H4 & H5 & _). done.
Qed.

Lemma demo_unmapped va : mapped (phys demo_one) demo_root va = false.
Proof. unfold mapped. destruct demo_one_inv as (_ & _ & H). by rewrite H. Qed.
Lemma demo_high : high_ok (phys demo_one) demo_root.
Proof. intros va _. unfold readable. by rewrite demo_unmapped. Qed.

Lemma allocator_refines_stack_witness :
  wp kalloc (fun r s' => r = hd 0 demo_pages /\ kmem_inv s' (tail demo_pages)) demo_boot.
Proof.
  eapply wp_mono; [apply (allocator_refines_stack demo_boot demo_pages demo_boot_inv)|].
  intros r s' H. change demo_pages with (hd 0 demo_pages :: tail demo_pages) in H.
  cbv beta iota in H. destruct H as (H1 & H2 & _). split; [exact H1|exact H2].
Defined.

Lemma kinit_frees_every_page_witness :
  wp kinit (fun _ s' => exists l, kmem_inv s' l /\ forall p, p ∈ l <-> valid_page p) (Kmem (fun _ => 0) 0).
Proof. apply kinit_frees_every_page. Defined.

Lemma mappages_maps_range_witness :
  wp (mappages demo_root 4096 8192 (PHYSTOP - 65536) 22) (fun r s' => exists len,
    (r = 0 /\ len = 8192 \/ r = -1 /\ 0 <= len < 8192) /\
    forall va, 4096 <= va < 4096 + len -> pte_of (phys s') demo_root va =
      mkpte (PHYSTOP - 65536 + (va - 4096) / PGSIZE * PGSIZE) 22) demo_one.
Proof.
  destruct demo_one_inv as (HK & Has & Hz).
  eapply wp_mono; [apply (mappages_maps_range demo_one _ demo_root 4096 8192 (PHYSTOP - 65536) 22 HK (as_pt _ _ _ Has));
    [reflexivity|lia|reflexivity|lia|mlia|split; [mlia|reflexivity]|mlia|split; lia|intros; apply demo_unmapped]|].
  intros r s' (l' & len & _ & Hr & H). exists len. split; [tauto|]. intros va Hva.
  rewrite H by mlia. rewrite (proj2 (Z.leb_le _ _)), (proj2 (Z.ltb_lt _ _)) by lia. reflexivity.
Defined.

Lemma uvmalloc_all_or_nothing_witness :
  wp (uvmalloc demo_root 0 5000 PTE_W) (fun r s' => (r = 5000 \/ r = 0) /\ exists l', kmem_inv s' l') demo_one.
Proof.
  destruct demo_one_inv as (HK & Has & Hz).
  eapply wp_mono; [apply (uvmalloc_all_or_nothing demo_one _ demo_root 0 5000 PTE_W HK Has);
    [lia|mlia|split; vm_compute; congruence|intros; apply demo_unmapped]|].
  intros r s' [[l' St] H]. split; [tauto|]. exists l'. apply St.
Defined.

Lemma uvmdealloc_frees_pages_witness :
  wp (uvmdealloc demo_root 5000 100) (fun r s' => r = 100 /\ exists l', kmem_inv s' l') demo_one.
Proof.
  destruct demo_one_inv as (HK & Has & Hz).
  eapply wp_mono; [apply (uvmdealloc_frees_pages demo_one _ demo_root 5000 100 HK Has); [lia|mlia]|].
  intros r s' (H1 & H2 & _). split; [exact H1|]. eexists. exact H2.
Defined.

Lemma vmfault_allocates_lazily_witness :
  wp (vmfault (Uvm 8192 demo_root) demo_root 4100 true) (fun r s' => exists l', kmem_inv s' l') demo_one.
Proof.
  destruct demo_one_inv as (HK & Has & Hz).
  eapply wp_mono; [apply (vmfault_allocates_lazily demo_one _ (Uvm 8192 demo_root) 4100 true HK Has); [lia|cbn; mlia]|].
  cbn [u_sz u_pagetable]. rewrite demo_unmapped. intros r s' (l' & St & _). exists l'. apply St.
Defined.

Lemma uvmcopy_copies_address_space_witness :
  wp (uvmcopy demo_root demo_child 8192) (fun r s' => r = 0 \/ r = -1) demo_two.
Proof.
  destruct demo_two_inv as (HK & Ho & Hn & Hd & Hz).
  eapply wp_mono; [apply (uvmcopy_copies_address_space demo_two _ demo_root demo_child 8192 HK Ho Hn Hd); [mlia|]|].
  - intros va _. unfold mapped. rewrite Hz. reflexivity.
  - intros r s' (_ & _ & _ & [[H _]|[H _]]); tauto.
Defined.

Lemma uvmfree_returns_everything_witness :
  wp (uvmfree demo_root 0) (fun _ s' => exists l', kmem_inv s' l') demo_one.
Proof.
  destruct demo_one_inv as (HK & Has & Hz).
  eapply wp_mono; [apply (uvmfree_returns_everything demo_one _ demo_root 0 HK Has); [mlia|]|].
  - intros va _ Hm. rewrite demo_unmapped in Hm. discriminate Hm.
  - intros _ s' (t & H & _). eexists. exact H.
Defined.

Lemma copyout_copyin_roundtrip_witness :
  wp (copyout (Uvm 8192 demo_root) demo_root 4095 [1; 2; 3]) (fun r s' => r = 0 \/ r = -1) demo_one.
Proof.
  destruct demo_one_inv as (HK & Has & Hz).
  eapply wp_mono; [apply (copyout_copyin_roundtrip demo_one _ (Uvm 8192 demo_root) 4095 [1; 2; 3] HK Has demo_high);
    [cbn; mlia|mlia|repeat constructor; lia]|].
  intros r s' [_ [[H _]|[H _]]]; tauto.
Defined.

Lemma copyinstr_finds_string_witness :
  wp (copyinstr demo_root 100 16) (fun '(r, bs) s' => r = 0 \/ r = -1) demo_one.
Proof.
  destruct demo_one_inv as (HK & Has & Hz).
  eapply wp_mono; [apply (copyinstr_finds_string demo_one _ demo_root 100 16 Has demo_high); [mlia|lia]|].
  intros [r bs] s' (_ & [[H _]|[H _]]); tauto.
Defined.

(** One page mapped at address 0. *)
Definition demo_mapped : kmem := (run_or (mappages demo_root 0 PGSIZE (PHYSTOP - 65536) 22) demo_one 0).2.

Lemma demo_mapped_pt : exists l, pt_inv (phys demo_mapped) demo_root l.
Proof.
  destruct demo_one_inv as (HK & Has & Hz).
  assert (Hd : is_pa (PHYSTOP - 65536)) by (split; [mlia|reflexivity]).
  assert (Hp : is_perm 22) by (split; lia).
  destruct (run_or_wp (mappages demo_root 0 PGSIZE (PHYSTOP - 65536) 22) demo_one 0 _
    (mappages1_wp demo_one _ demo_root 0 (PHYSTOP - 65536) 22 HK (as_pt _ _ _ Has) eq_refl ltac:(lia) ltac:(mlia)
       Hd Hp (demo_unmapped 0))) as (l' & Ht & _).
  exists l'. apply Ht.
Qed.

Lemma mappages_panics_on_remap_witness :
  mappages demo_root 0 PGSIZE (PHYSTOP - 65536) 22 demo_mapped = Panic "mappages: remap".
Proof.
  destruct demo_mapped_pt as [l Hl].
  apply (mappages_panics_on_remap demo_mapped demo_root l 0 PGSIZE (PHYSTOP - 65536) 22 Hl);
    [reflexivity|mlia|reflexivity|mlia|vm_compute; reflexivity].
Defined.
