(* ===== verification/Bytes.v ===== *)
(** * Structures inside byte arrays

    Disk blocks and directory entries are byte arrays that the code reads
    through casts to structures.  A field is a little-endian integer at an offset
    ([get_le], [put_le]); larger parts are read with [slice] and overwritten with
    [splice]. *)
From S2P Require Import Prelude.

Fixpoint le (k : nat) (v : Z) : list Z :=
  match k with O => [] | S k' => v mod 256 :: le k' (v / 256) end.
Fixpoint of_le (bs : list Z) : Z :=
  match bs with [] => 0 | b :: bs' => u8 b + 256 * of_le bs' end.

Definition slice (off n : nat) (d : list Z) : list Z := take n (drop off d).
Definition splice (off : nat) (bs d : list Z) : list Z := take off d ++ bs ++ drop (off + length bs) d.
Definition get_le (k : nat) (d : list Z) (off : nat) : Z := of_le (slice off k d).
Definition put_le (k : nat) (d : list Z) (off : nat) (v : Z) : list Z := splice off (le k v) d.

#[global] Arguments slice : simpl never.
#[global] Arguments splice : simpl never.
#[global] Arguments get_le : simpl never.
#[global] Arguments put_le : simpl never.

Lemma le_length k v : length (le k v) = k.
Proof. revert v. induction k as [|k IH]; intros v; cbn; [done|]. by rewrite IH. Qed.

Lemma le_bytes k v : Forall is_u8 (le k v).
Proof.
  revert v. induction k as [|k IH]; intros v; cbn; constructor; [|done].
  apply (Z.mod_pos_bound v 256). lia.
Qed.

Lemma of_le_le k v : of_le (le k v) = v mod 256 ^ Z.of_nat k.
Proof.
  revert v. induction k as [|k IH]; intros v; cbn [le of_le]; [by rewrite Z.mod_1_r|].
  rewrite IH. rewrite u8_id by apply (Z.mod_pos_bound v 256 eq_refl).
  rewrite Nat2Z.inj_succ, Z.pow_succ_r by lia. rewrite Z.rem_mul_r by lia. done.
Qed.

Lemma of_le_range bs : 0 <= of_le bs < 256 ^ Z.of_nat (length bs).
Proof.
  induction bs as [|b bs IH]; cbn [of_le length]; [lia|].
  pose proof (u8_range b) as Hb. unfold is_u8 in Hb. rewrite Nat2Z.inj_succ, Z.pow_succ_r by lia. lia.
Qed.

Lemma splice_length off bs d : (off + length bs <= length d)%nat -> length (splice off bs d) = length d.
Proof. intros. unfold splice. rewrite !length_app, length_take, length_drop. lia. Qed.

Lemma splice_lookup_in off bs d i :
  (off + length bs <= length d)%nat -> (off <= i < off + length bs)%nat -> splice off bs d !! i = bs !! (i - off)%nat.
Proof.
  intros. unfold splice. rewrite lookup_app_r; rewrite length_take; [|lia].
  rewrite lookup_app_l by lia. f_equal. lia.
Qed.

Lemma splice_lookup_out off bs d i :
  (off + length bs <= length d)%nat -> (i < off \/ off + length bs <= i)%nat -> splice off bs d !! i = d !! i.
Proof.
  intros Hl [Hi|Hi]; unfold splice.
  - rewrite lookup_app_l by (rewrite length_take; lia). by rewrite lookup_take_lt.
  - rewrite !lookup_app_r; rewrite ?length_take; [|lia|lia]. rewrite lookup_drop. f_equal. lia.
Qed.

Lemma slice_lookup off n d i : (i < n)%nat -> slice off n d !! i = d !! (off + i)%nat.
Proof. intros. unfold slice. by rewrite lookup_take_lt, lookup_drop. Qed.

Lemma slice_ext off n d d' :
  length d = length d' -> (forall i, (off <= i < off + n)%nat -> d !! i = d' !! i) -> slice off n d = slice off n d'.
Proof.
  intros Hl H. apply list_eq. intros i. destruct (decide (i < n)%nat) as [Hi|Hi].
  - rewrite !slice_lookup by done. apply H. lia.
  - unfold slice. rewrite !lookup_take_ge; [done|lia|lia].
Qed.

Lemma slice_splice_eq off bs d :
  (off + length bs <= length d)%nat -> slice off (length bs) (splice off bs d) = bs.
Proof.
  intros Hl. apply list_eq. intros i. destruct (decide (i < length bs)%nat) as [Hi|Hi].
  - rewrite slice_lookup, splice_lookup_in by lia. f_equal. lia.
  - unfold slice. rewrite lookup_take_ge, lookup_ge_None_2; [done|lia|lia].
Qed.

Lemma slice_splice_ne off bs d off' n :
  (off + length bs <= length d)%nat -> (off' + n <= off \/ off + length bs <= off')%nat ->
  slice off' n (splice off bs d) = slice off' n d.
Proof.
  intros Hl Ho. apply slice_ext; [by apply splice_length|]. intros i Hi. apply splice_lookup_out; [done|lia].
Qed.

Lemma put_le_length k d off v : (off + k <= length d)%nat -> length (put_le k d off v) = length d.
Proof. intros. apply splice_length. by rewrite le_length. Qed.

Lemma get_put_le_eq k d off v :
  (off + k <= length d)%nat -> 0 <= v < 256 ^ Z.of_nat k -> get_le k (put_le k d off v) off = v.
Proof.
  intros Hl Hv. unfold get_le, put_le. rewrite <- (le_length k v) at 1.
  rewrite slice_splice_eq by (by rewrite le_length). rewrite of_le_le. by apply Z.mod_small.
Qed.

Lemma get_put_le_ne k k' d off off' v :
  (off + k <= length d)%nat -> (off' + k' <= off \/ off + k <= off')%nat ->
  get_le k' (put_le k d off v) off' = get_le k' d off'.
Proof. intros. unfold get_le, put_le. f_equal. apply slice_splice_ne; by rewrite le_length. Qed.

Lemma slice_length off n d : (off + n <= length d)%nat -> length (slice off n d) = n.
Proof. intros. unfold slice. rewrite length_take, length_drop. lia. Qed.

Lemma get_le_range k d off : (off + k <= length d)%nat -> 0 <= get_le k d off < 256 ^ Z.of_nat k.
Proof. intros. unfold get_le. rewrite <- (slice_length off k d) at 3 by done. apply of_le_range. Qed.

Lemma Forall_splice (P : Z -> Prop) off bs d : Forall P bs -> Forall P d -> Forall P (splice off bs d).
Proof. intros. unfold splice. rewrite !Forall_app. split_and!; [by apply Forall_take|done|by apply Forall_drop]. Qed.
