(* ===== verification/Bio.v ===== *)
(** * The buffer cache: kernel/bio.c

    Thirty [struct buf] on a circular doubly-linked list, most recently used
    first, over one disk.  Buffers are numbered [0 .. NBUF-1] and [bcache.head]
    is number [NBUF]; pointers are these numbers, so the list surgery of [brelse]
    and [binit] is modelled store by store.  [bc_rep] relates a cache to what it
    stands for ([cmodel]): one current content per block ([view]), the content the
    disk holds, the reference counts and the buffers held.  [BufCache] and
    [BufCacheLaws] are the contract the log and the file system are proved
    against; this file's routines implement it ([bio_laws]).

    The driver call [virtio_disk_rw] is modelled by its effect on the disk: the
    block is read into, or written from, the buffer's data; [trace] records the
    blocks written, in order.  [VirtioProps] proves that the driver refines it. *)
From stdpp Require Import gmap.
From S2P Require Import Prelude Machine Spinlock.
Import SleepLock.

Definition BSIZE : Z := 1024.

Record buf : Type := Buf {
  valid : Z; bdev : Z; blockno : Z; lock : sleeplock; refcnt : Z;
  prev : nat; next : nat; bdata : list Z
}.

Definition set_valid (v : Z) (b : buf) : buf :=
  Buf v (bdev b) (blockno b) (lock b) (refcnt b) (prev b) (next b) (bdata b).
Definition set_key (d n : Z) (b : buf) : buf :=
  Buf (valid b) d n (lock b) (refcnt b) (prev b) (next b) (bdata b).
Definition set_lock (k : sleeplock) (b : buf) : buf :=
  Buf (valid b) (bdev b) (blockno b) k (refcnt b) (prev b) (next b) (bdata b).
Definition set_refcnt (n : Z) (b : buf) : buf :=
  Buf (valid b) (bdev b) (blockno b) (lock b) n (prev b) (next b) (bdata b).
Definition set_prev (p : nat) (b : buf) : buf :=
  Buf (valid b) (bdev b) (blockno b) (lock b) (refcnt b) p (next b) (bdata b).
Definition set_next (p : nat) (b : buf) : buf :=
  Buf (valid b) (bdev b) (blockno b) (lock b) (refcnt b) (prev b) p (bdata b).
Definition set_data (d : list Z) (b : buf) : buf :=
  Buf (valid b) (bdev b) (blockno b) (lock b) (refcnt b) (prev b) (next b) d.

Definition block : Type := list Z.

(** [bcache], the disk and the blocks written to it. *)
Record bst : Type := Bst { bufs : nat -> buf; disk : Z -> block; trace : list (Z * block) }.

Definition nbuf : nat := Z.to_nat NBUF.
Definition HEAD : nat := nbuf.

Definition rd (i : nat) : M bst buf := gets (fun s => bufs s i).
(** A store to fields of buffer [i]. *)
Definition st (bs : nat -> buf) (i : nat) (f : buf -> buf) : nat -> buf :=
  fun j => if decide (j = i) then f (bs j) else bs j.
Definition upd (i : nat) (f : buf -> buf) : M bst unit :=
  modify (fun s => Bst (st (bufs s) i f) (disk s) (trace s)).
Definition set_block (d : Z -> block) (n : Z) (x : block) : Z -> block :=
  fun j => if decide (j = n) then x else d j.

(** The driver: one block to or from the disk. *)
Definition virtio_disk_rw (i : nat) (write : bool) : M bst unit :=
  let! b := rd i in
  if write then
    modify (fun s => Bst (bufs s) (set_block (disk s) (blockno b) (bdata b)) (trace s ++ [(blockno b, bdata b)]))
  else
    let! d := gets (fun s => disk s (blockno b)) in
    upd i (set_data d).

(** Making [b] the front of the list, as [binit] and [brelse] do: [b]'s own
    pointers first, then the two that point to it. *)
Definition link_out (b : nat) : M bst unit :=
  let! h := rd HEAD in
  upd b (set_next (next h)) ;;
  upd b (set_prev HEAD).
Definition link_in (b : nat) : M bst unit :=
  let! h := rd HEAD in
  upd (next h) (set_prev b) ;;
  upd HEAD (set_next b).

Fixpoint binit_loop (b : nat) (n : nat) : M bst unit :=
  match n with
  | O => ret tt
  | S n' => link_out b ;; upd b (set_lock initsleeplock) ;; link_in b ;; binit_loop (S b) n'
  end.
Definition binit : M bst unit :=
  upd HEAD (set_prev HEAD) ;;
  upd HEAD (set_next HEAD) ;;
  binit_loop 0 nbuf.

(** Sleep-locks of buffers, for the process [me]; a call that would sleep ends
    with [Sleep]. *)
Definition put_lock (i : nat) (k : sleeplock) (s : bst) : bst := Bst (st (bufs s) i (set_lock k)) (disk s) (trace s).
Definition block_acquire (me : Z) (i : nat) : M bst unit :=
  let! _ := acquiresleep (fun s => lock (bufs s i)) (put_lock i) (fun _ => sleep_on 0) me Test in
  ret tt.
Definition block_release (i : nat) : M bst unit := releasesleep (put_lock i) wake_all.
Definition block_holding (me : Z) (i : nat) : M bst bool := holdingsleep (fun s => lock (bufs s i)) me.

(** The two loops of [bget]: forward for the block, backward for a free buffer. *)
Fixpoint bget_find (fuel : nat) (dev n : Z) (b : nat) : M bst (option nat) :=
  match fuel with
  | O => out_of_fuel
  | S f =>
      if decide (b = HEAD) then ret None
      else
        let! x := rd b in
        if (bdev x =? dev) && (blockno x =? n) then ret (Some b)
        else bget_find f dev n (next x)
  end.
Fixpoint bget_recycle (fuel : nat) (b : nat) : M bst (option nat) :=
  match fuel with
  | O => out_of_fuel
  | S f =>
      if decide (b = HEAD) then ret None
      else
        let! x := rd b in
        if refcnt x =? 0 then ret (Some b) else bget_recycle f (prev x)
  end.
Definition bget (me dev n : Z) : M bst nat :=
  let! h := rd HEAD in
  let! r := bget_find (S nbuf) dev n (next h) in
  match r with
  | Some b =>
      upd b (fun x => set_refcnt (u32 (refcnt x + 1)) x) ;;
      block_acquire me b ;;
      ret b
  | None =>
      let! r := bget_recycle (S nbuf) (prev h) in
      match r with
      | Some b =>
          upd b (fun x => set_refcnt 1 (set_valid 0 (set_key dev n x))) ;;
          block_acquire me b ;;
          ret b
      | None => panic "bget: no buffers"
      end
  end.

Definition bread (me dev n : Z) : M bst nat :=
  let! b := bget me dev n in
  let! x := rd b in
  (if negb (c_true (valid x)) then virtio_disk_rw b false ;; upd b (set_valid 1) else ret tt) ;;
  ret b.

Definition bwrite (me : Z) (b : nat) : M bst unit :=
  let! h := block_holding me b in
  if negb h then panic "bwrite" else virtio_disk_rw b true.

Definition brelse (me : Z) (b : nat) : M bst unit :=
  let! h := block_holding me b in
  if negb h then panic "brelse"
  else
    block_release b ;;
    upd b (fun x => set_refcnt (u32 (refcnt x - 1)) x) ;;
    let! x := rd b in
    if refcnt x =? 0 then
      upd (next x) (set_prev (prev x)) ;;
      let! x := rd b in
      upd (prev x) (set_next (next x)) ;;
      link_out b ;;
      link_in b
    else ret tt.

Definition bpin (b : nat) : M bst unit := upd b (fun x => set_refcnt (u32 (refcnt x + 1)) x).
Definition bunpin (b : nat) : M bst unit := upd b (fun x => set_refcnt (u32 (refcnt x - 1)) x).

(** ** What a cache stands for *)

Record cmodel : Type := Cm {
  cm_view : Z -> block;        (* the current content of each block *)
  cm_disk : Z -> block;        (* the content on the disk *)
  cm_trace : list (Z * block); (* the blocks written so far *)
  cm_refs : gmap Z nat;        (* blocks with a reference, and how many *)
  cm_held : gmap nat Z         (* buffers held, and their blocks *)
}.

(** Reference counts as a finite map: no entry means no reference. *)
Definition rcount (g : gmap Z nat) (n : Z) : nat := default O (g !! n).
Definition radd (n : Z) (g : gmap Z nat) : gmap Z nat := <[n := S (rcount g n)]> g.
Definition rdrop (n : Z) (g : gmap Z nat) : gmap Z nat :=
  match rcount g n with S (S k) => <[n := S k]> g | _ => delete n g end.

Definition ref_of (m : cmodel) (n : Z) : nat := rcount (cm_refs m) n.
(** A buffer can be found for block [n]. *)
Definition has_room (m : cmodel) (n : Z) : Prop :=
  is_Some (cm_refs m !! n) \/ (size (cm_refs m) < nbuf)%nat.
Definition not_held (m : cmodel) (n : Z) : Prop := forall i, cm_held m !! i <> Some n.
Definition add_ref (n : Z) (m : cmodel) : cmodel :=
  Cm (cm_view m) (cm_disk m) (cm_trace m) (radd n (cm_refs m)) (cm_held m).
Definition drop_ref (n : Z) (m : cmodel) : cmodel :=
  Cm (cm_view m) (cm_disk m) (cm_trace m) (rdrop n (cm_refs m)) (cm_held m).
Definition hold (i : nat) (n : Z) (m : cmodel) : cmodel :=
  Cm (cm_view m) (cm_disk m) (cm_trace m) (cm_refs m) (<[i := n]> (cm_held m)).
Definition unhold (i : nat) (m : cmodel) : cmodel :=
  Cm (cm_view m) (cm_disk m) (cm_trace m) (cm_refs m) (delete i (cm_held m)).
Definition see (n : Z) (d : block) (m : cmodel) : cmodel :=
  Cm (set_block (cm_view m) n d) (cm_disk m) (cm_trace m) (cm_refs m) (cm_held m).
Definition flush (n : Z) (m : cmodel) : cmodel :=
  Cm (cm_view m) (set_block (cm_disk m) n (cm_view m n)) (cm_trace m ++ [(n, cm_view m n)])
     (cm_refs m) (cm_held m).

(** ** The contract *)

Class BufCache (B : Type) : Type := {
  bc_bread : Z -> M B nat;
  bc_blockno : nat -> M B Z;
  bc_data : nat -> M B block;
  bc_store : nat -> block -> M B unit;
  bc_bwrite : nat -> M B unit;
  bc_brelse : nat -> M B unit;
  bc_bpin : nat -> M B unit;
  bc_bunpin : nat -> M B unit;
  bc_is : B -> cmodel -> Prop
}.

Class BufCacheLaws (B : Type) `{BufCache B} : Prop := {
  bc_bread_law s m n : bc_is s m -> is_u32 n -> has_room m n -> not_held m n ->
    Z.of_nat (ref_of m n) + 1 < 2 ^ 32 ->
    wp (bc_bread n) (fun i s' => cm_held m !! i = None /\ bc_is s' (hold i n (add_ref n m))) s;
  bc_blockno_law s m i n : bc_is s m -> cm_held m !! i = Some n ->
    wp (bc_blockno i) (fun r s' => r = n /\ s' = s) s;
  bc_data_law s m i n : bc_is s m -> cm_held m !! i = Some n ->
    wp (bc_data i) (fun d s' => d = cm_view m n /\ s' = s) s;
  bc_store_law s m i n d : bc_is s m -> cm_held m !! i = Some n ->
    wp (bc_store i d) (fun _ s' => bc_is s' (see n d m)) s;
  bc_bwrite_law s m i n : bc_is s m -> cm_held m !! i = Some n ->
    wp (bc_bwrite i) (fun _ s' => bc_is s' (flush n m)) s;
  bc_brelse_law s m i n : bc_is s m -> cm_held m !! i = Some n ->
    (ref_of m n = 1%nat -> cm_view m n = cm_disk m n) ->
    wp (bc_brelse i) (fun _ s' => bc_is s' (drop_ref n (unhold i m))) s;
  bc_bpin_law s m i n : bc_is s m -> cm_held m !! i = Some n ->
    Z.of_nat (ref_of m n) + 1 < 2 ^ 32 ->
    wp (bc_bpin i) (fun _ s' => bc_is s' (add_ref n m)) s;
  bc_bunpin_law s m i n : bc_is s m -> cm_held m !! i = Some n -> (2 <= ref_of m n)%nat ->
    wp (bc_bunpin i) (fun _ s' => bc_is s' (drop_ref n m)) s;
  bc_refs_pos s m n : bc_is s m -> cm_refs m !! n <> Some O;
  bc_unref_clean s m n : bc_is s m -> ref_of m n = O -> cm_view m n = cm_disk m n;
  bc_held_ref s m i n : bc_is s m -> cm_held m !! i = Some n -> ref_of m n <> O
}.

(** ** The recency list *)

(** From [a], the [next] pointers run through [l] to [z], and [prev] back. *)
Fixpoint seg (bs : nat -> buf) (a : nat) (l : list nat) (z : nat) : Prop :=
  match l with
  | [] => next (bs a) = z /\ prev (bs z) = a
  | x :: l' => next (bs a) = x /\ prev (bs x) = a /\ seg bs x l' z
  end.
Definition dll (bs : nat -> buf) (l : list nat) : Prop := NoDup (HEAD :: l) /\ seg bs HEAD l HEAD.

Lemma seg_ext bs bs' a l z :
  (forall x, x ∈ a :: l -> next (bs' x) = next (bs x)) ->
  (forall x, x ∈ l ++ [z] -> prev (bs' x) = prev (bs x)) ->
  seg bs a l z -> seg bs' a l z.
Proof.
  revert a. induction l as [|x l IH]; intros a Hn Hp; cbn [seg app] in *.
  - rewrite Hn, Hp by set_solver. done.
  - intros (H1 & H2 & H3). rewrite Hn, Hp by set_solver. split_and!; [done|done|].
    apply IH; [| |done]; set_solver.
Qed.

Lemma seg_app bs a l1 x l2 z : seg bs a (l1 ++ x :: l2) z <-> seg bs a l1 x /\ seg bs x l2 z.
Proof. revert a. induction l1 as [|y l1 IH]; intros a; cbn [seg app]; [|rewrite IH]; tauto. Qed.

(** The effect of pointer stores, one field at a time. *)
Lemma st_eq bs i f : st bs i f i = f (bs i).
Proof. unfold st. by rewrite decide_True. Qed.
Lemma st_ne bs i f j : j <> i -> st bs i f j = bs j.
Proof. intros. unfold st. by rewrite decide_False. Qed.

Lemma seg_st bs i f a l z :
  (i ∈ a :: l -> next (f (bs i)) = next (bs i)) ->
  (i ∈ l ++ [z] -> prev (f (bs i)) = prev (bs i)) ->
  seg bs a l z -> seg (st bs i f) a l z.
Proof.
  intros H1 H2. apply seg_ext; intros x Hx; (destruct (decide (x = i)) as [->|]; [rewrite st_eq; auto|by rewrite st_ne]).
Qed.

Ltac elems :=
  repeat match goal with
  | H : context [_ ∈ _ :: _] |- _ => rewrite elem_of_cons in H
  | H : context [_ ∈ _ ++ _] |- _ => rewrite elem_of_app in H
  | H : context [_ ∈ []] |- _ => rewrite elem_of_nil in H
  end;
  rewrite ?elem_of_cons, ?elem_of_app, ?elem_of_cons, ?elem_of_nil; intuition congruence.

(** Unlinking: the neighbours of [b] are joined. *)
Section Unlink.
Context (bs bs' : nat -> buf) (b p : nat).
Hypothesis (Hn : forall x, next (bs' x) = if decide (x = p) then next (bs b) else next (bs x)).
Hypothesis (Hp : forall x, prev (bs' x) = if decide (x = next (bs b)) then p else prev (bs x)).

Lemma seg_join l z : NoDup l -> p ∉ l -> z ∉ l -> seg bs b l z -> seg bs' p l z.
Proof.
  intros Hnd Hpl Hz Hs. destruct l as [|n l]; cbn [seg] in Hs |- *.
  - destruct Hs as [E _]. by rewrite Hn, Hp, !decide_True.
  - destruct Hs as (E & _ & Hs). rewrite Hn, Hp, !decide_True by done. split_and!; [done|done|].
    apply NoDup_cons in Hnd as [? ?]. revert Hs. apply seg_ext; intros x Hx.
    + rewrite Hn, decide_False; [done|]. by intros ->.
    + rewrite Hp, decide_False; [done|]. elems.
Qed.

Lemma seg_unlink a l1 l2 z :
  NoDup (a :: l1 ++ b :: l2) -> z ∉ l1 ++ b :: l2 -> prev (bs b) = p ->
  seg bs a (l1 ++ b :: l2) z -> seg bs' a (l1 ++ l2) z.
Proof.
  intros Hnd Hz Hb. rewrite seg_app. intros [H1 H2]. apply NoDup_cons in Hnd as [Ha Hnd].
  apply NoDup_app in Hnd as (N1 & N2 & N3). apply NoDup_cons in N3 as [N3 N4].
  destruct l1 as [|q l1 _] using rev_ind.
  - cbn in *. destruct H1 as [_ H1]. replace a with p by congruence. rewrite Hb in H1. subst a.
    apply seg_join; [done|elems|elems|done].
  - rewrite <- app_assoc in *. cbn [app] in *. rewrite seg_app in H1. destruct H1 as [H1 [_ Hq]].
    replace q with p in * by congruence. clear Hq q.
    assert (Hnb : next (bs b) ∈ l2 ++ [z]) by (destruct l2; cbn in H2; destruct H2 as [-> _]; elems).
    assert (p ∉ l2). { specialize (N2 p). elems. }
    rewrite seg_app. split; [|apply seg_join; [done|done|elems|done]].
    revert H1. apply seg_ext; intros x Hx; (rewrite Hn || rewrite Hp); rewrite decide_False; try done; intros ->.
    + apply NoDup_app in N1 as (_ & N1 & _). specialize (N1 p). elems.
    + specialize (N2 (next (bs b))). elems.
Qed.
End Unlink.

(** Pushing [b] in front of the list. *)
Lemma seg_push bs bs' b l :
  (forall x, next (bs' x) = if decide (x = HEAD) then b else if decide (x = b) then next (bs HEAD) else next (bs x)) ->
  (forall x, prev (bs' x) = if decide (x = next (bs HEAD)) then b else if decide (x = b) then HEAD else prev (bs x)) ->
  NoDup (HEAD :: l) -> b ∉ HEAD :: l -> seg bs HEAD l HEAD -> seg bs' HEAD (b :: l) HEAD.
Proof.
  intros Hn Hp Hnd Hb Hs. apply NoDup_cons in Hnd as [Hh Hnd].
  assert (b <> HEAD /\ b ∉ l) as [Hbh Hbl] by elems.
  assert (Hne : b <> next (bs HEAD)) by (destruct l; cbn in Hs; destruct Hs as [-> _]; elems).
  cbn [seg]. rewrite Hn, decide_True by done. rewrite Hp, decide_False, decide_True by done.
  split_and!; [done|done|]. destruct l as [|n l]; cbn [seg] in *.
  - destruct Hs as [E _]. rewrite Hn, Hp, decide_False, !decide_True by done. done.
  - destruct Hs as (E & _ & Hs). rewrite Hn, Hp, decide_False, !decide_True by done. split_and!; [done|done|].
    apply NoDup_cons in Hnd as [Hnl _]. revert Hs. apply seg_ext; intros x Hx.
    + rewrite Hn, !decide_False; [done| |]; elems.
    + rewrite Hp, !decide_False; [done| |]; elems.
Qed.

(** Everything but the pointers. *)
Record core_eq (x y : buf) : Prop := {
  ce_valid : valid y = valid x; ce_dev : bdev y = bdev x; ce_blockno : blockno y = blockno x;
  ce_lock : lock y = lock x; ce_refcnt : refcnt y = refcnt x; ce_data : bdata y = bdata x
}.

Lemma wp_rd i Q s : wp (rd i) Q s <-> Q (bufs s i) s.
Proof. done. Qed.
Lemma wp_upd i f Q s : wp (upd i f) Q s <-> Q tt (Bst (st (bufs s) i f) (disk s) (trace s)).
Proof. done. Qed.
Ltac bio_step := first [rewrite wp_rd | rewrite wp_upd | wp_step]; cbn beta.
Ltac bio_steps := repeat bio_step; cbn [bufs disk trace].

Lemma core_eq_refl x : core_eq x x.
Proof. by split. Qed.
Lemma core_eq_trans x y z : core_eq x y -> core_eq y z -> core_eq x z.
Proof. intros [] []. split; congruence. Qed.

Ltac st_cases := unfold st; repeat case_decide; subst; cbn [next prev set_next set_prev set_lock]; try congruence.

Lemma unlink_ok bs b l1 l2 :
  dll bs (l1 ++ b :: l2) ->
  let bs1 := st bs (next (bs b)) (set_prev (prev (bs b))) in
  let bs2 := st bs1 (prev (bs1 b)) (set_next (next (bs1 b))) in
  dll bs2 (l1 ++ l2) /\ forall x, core_eq (bs x) (bs2 x).
Proof.
  intros [Hnd Hs] bs1 bs2. split.
  - assert (NoDup (HEAD :: l1 ++ l2)).
    { assert (Pm : HEAD :: l1 ++ b :: l2 ≡ₚ b :: HEAD :: l1 ++ l2)
        by (rewrite <- Permutation_middle; apply Permutation_swap).
      rewrite Pm in Hnd. by apply NoDup_cons in Hnd as [_ ?]. }
    split; [done|].
    assert (Hself : next (bs b) <> b).
    { apply seg_app in Hs as [_ Hs]. apply NoDup_cons in Hnd as [Hh Hnd].
      apply NoDup_app in Hnd as (_ & _ & Hnd). apply NoDup_cons in Hnd as [Hb _].
      destruct l2; cbn in Hs; destruct Hs as [-> _]; elems. }
    eapply (seg_unlink bs _ b (prev (bs b))); [| |done| |done|done].
    + intros x. unfold bs2, bs1. st_cases.
    + intros x. unfold bs2, bs1. st_cases.
    + apply NoDup_cons in Hnd. tauto.
  - intros x. unfold bs2, bs1, st. repeat case_decide; by split.
Qed.

(** Both uses of the four stores that link [b] in, with or without a store to
    the lock in between. *)
Ltac link_solve Hnd Hs Hb HQ :=
  unfold link_out, link_in; bio_steps;
  match goal with b : nat |- _ => assert (b <> HEAD) by elems end;
  match type of Hs with seg (bufs ?s) HEAD ?l HEAD => match type of Hb with ?b ∉ _ =>
    assert (b <> next (bufs s HEAD)) by (destruct l; cbn in Hs; destruct Hs as [-> _]; elems);
    apply HQ; [split|];
    [ apply NoDup_cons in Hnd as [? ?]; rewrite !NoDup_cons; split_and!; [elems|elems|done]
    | eapply (seg_push (bufs s)); [intros x; st_cases|intros x; st_cases|done..]
    | intros x; unfold st; repeat case_decide; by split ] end end.

Lemma link_wp s b l Q :
  dll (bufs s) l -> b ∉ HEAD :: l ->
  (forall bs', dll bs' (b :: l) -> (forall x, core_eq (bufs s x) (bs' x)) ->
     Q tt (Bst bs' (disk s) (trace s))) ->
  wp (link_out b ;; link_in b) Q s.
Proof. intros [Hnd Hs] Hb HQ. link_solve Hnd Hs Hb HQ. Qed.

(** The whole of [brelse]'s list surgery. *)
Lemma relink_wp s i l1 l2 Q :
  dll (bufs s) (l1 ++ i :: l2) ->
  (forall bs', dll bs' (i :: l1 ++ l2) -> (forall x, core_eq (bufs s x) (bs' x)) ->
     Q tt (Bst bs' (disk s) (trace s))) ->
  wp (upd (next (bufs s i)) (set_prev (prev (bufs s i))) ;;
      let! x := rd i in
      upd (prev x) (set_next (next x)) ;;
      link_out i ;;
      link_in i) Q s.
Proof.
  intros Hd HQ. destruct (unlink_ok (bufs s) i l1 l2 Hd) as [Hd2 Hc2].
  bio_steps. eapply link_wp; cbn [bufs]; [exact Hd2| |].
  { destruct Hd as [Hd _]. assert (Pm : HEAD :: l1 ++ i :: l2 ≡ₚ i :: HEAD :: l1 ++ l2)
      by (rewrite <- Permutation_middle; apply Permutation_swap).
    rewrite Pm in Hd. by apply NoDup_cons in Hd as [? _]. }
  cbn [bufs disk trace]. intros bs' Hd' Hc'. apply HQ; [done|].
  intros x. eapply core_eq_trans; [apply Hc2|apply Hc'].
Qed.

Lemma link_lock_wp s b k l Q :
  dll (bufs s) l -> b ∉ HEAD :: l ->
  (forall bs', dll bs' (b :: l) -> (forall x, core_eq (st (bufs s) b (set_lock k) x) (bs' x)) ->
     Q tt (Bst bs' (disk s) (trace s))) ->
  wp (link_out b ;; upd b (set_lock k) ;; link_in b) Q s.
Proof. intros [Hnd Hs] Hb HQ. link_solve Hnd Hs Hb HQ. Qed.

(** The two searches see every buffer of the list. *)
Lemma bget_find_wp dev n s a l fuel :
  seg (bufs s) a l HEAD -> HEAD ∉ l -> (length l < fuel)%nat ->
  wp (bget_find fuel dev n (next (bufs s a))) (fun r s' => s' = s /\
    match r with
    | Some b => b ∈ l /\ bdev (bufs s b) = dev /\ blockno (bufs s b) = n
    | None => forall b, b ∈ l -> bdev (bufs s b) = dev -> blockno (bufs s b) <> n
    end) s.
Proof.
  revert a fuel. induction l as [|x l IH]; intros a [|f] Hs Hh Hl; cbn [length] in Hl; try lia;
    cbn [seg] in Hs; destruct Hs as [E Hs]; rewrite E; cbn [bget_find].
  - rewrite decide_True by done. bio_steps. split; [done|]. intros b Hb. elems.
  - rewrite decide_False by elems. bio_steps. destruct (_ && _) eqn:Ek; breflect.
    + bio_steps. split_and!; [done|elems|done|done].
    + eapply wp_mono; [apply IH; [tauto|elems|lia]|]. intros [b|] s' [-> H]; split; try done.
      * destruct H as (? & ? & ?). split_and!; [elems|done|done].
      * intros b Hb Hd. rewrite elem_of_cons in Hb. destruct Hb as [->|Hb]; [|by apply H].
        rewrite Hd, Z.eqb_refl in Ek. cbn in Ek. by breflect.
Qed.

(** The buffer recycled is the least recently used one nobody refers to. *)
Lemma bget_recycle_wp s a l z fuel :
  seg (bufs s) HEAD l z -> HEAD ∉ l -> (length l < fuel)%nat -> a = prev (bufs s z) ->
  wp (bget_recycle fuel a) (fun r s' => s' = s /\
    match r with
    | Some b => refcnt (bufs s b) = 0 /\
        exists l1 l2, l = l1 ++ b :: l2 /\ forall x, x ∈ l2 -> refcnt (bufs s x) <> 0
    | None => forall b, b ∈ l -> refcnt (bufs s b) <> 0
    end) s.
Proof.
  revert a z fuel. induction l as [|x l IH] using rev_ind; intros a z [|f] Hs Hh Hl ->;
    rewrite ?length_app in Hl; cbn [length] in Hl; try lia; cbn [bget_recycle].
  - destruct Hs as [_ ->]. rewrite decide_True by done. bio_steps. split; [done|]. intros b Hb. elems.
  - rewrite seg_app in Hs. destruct Hs as [Hs [_ ->]]. rewrite decide_False by elems. bio_steps.
    destruct (_ =? _) eqn:Ek; breflect.
    + bio_steps. split_and!; [done|done|]. exists l, []. split; [done|]. intros b Hb. elems.
    + eapply wp_mono; [eapply (IH _ x); [done|elems|lia|done]|]. intros [b|] s' [-> H]; split; try done.
      * destruct H as (? & l1 & l2 & -> & H). split; [done|]. exists l1, (l2 ++ [x]). split; [by rewrite <- app_assoc|].
        intros y Hy. rewrite elem_of_app, list_elem_of_singleton in Hy. destruct Hy as [Hy| ->]; [by apply H|done].
      * intros b Hb. rewrite elem_of_app, list_elem_of_singleton in Hb. destruct Hb as [Hb| ->]; [by apply H|done].
Qed.

(** ** The cache implements its contract *)

Lemma rcount_radd g n : rcount (radd n g) n = S (rcount g n).
Proof. unfold rcount at 1, radd. by rewrite lookup_insert_eq. Qed.
Lemma rcount_rdrop g n : rcount (rdrop n g) n = pred (rcount g n).
Proof.
  unfold rcount at 1, rdrop. destruct (rcount g n) as [|[|k]]; rewrite ?lookup_delete_eq, ?lookup_insert_eq; done.
Qed.
Lemma radd_ne g n b : b <> n -> radd n g !! b = g !! b.
Proof. intros. unfold radd. by rewrite lookup_insert_ne. Qed.
Lemma rdrop_ne g n b : b <> n -> rdrop n g !! b = g !! b.
Proof. intros. unfold rdrop. destruct (rcount g n) as [|[|k]]; by rewrite ?lookup_delete_ne, ?lookup_insert_ne. Qed.
Lemma rdrop_pos g n : rdrop n g !! n <> Some O.
Proof. unfold rdrop. destruct (rcount g n) as [|[|k]]; by rewrite ?lookup_delete_eq, ?lookup_insert_eq. Qed.
Lemma ref_of_add m n : ref_of (add_ref n m) n = S (ref_of m n).
Proof. apply rcount_radd. Qed.
Lemma ref_of_drop m n : ref_of (drop_ref n m) n = pred (ref_of m n).
Proof. apply rcount_rdrop. Qed.

Lemma size_list_to_set_le (l : list Z) : (size (list_to_set (C := gset Z) l) <= length l)%nat.
Proof.
  induction l as [|x l IH]; cbn [list_to_set length]; [by rewrite size_empty|].
  rewrite size_union_alt, size_singleton. pose proof (subseteq_size (list_to_set (C := gset Z) l ∖ {[x]}) (list_to_set l)).
  enough (size (list_to_set (C := gset Z) l ∖ {[x]}) <= size (list_to_set (C := gset Z) l))%nat by lia. apply H. set_solver.
Qed.

Section Rep.
Context (me dev : Z).

Definition cached (bs : nat -> buf) (n : Z) (i : nat) : Prop :=
  (i < nbuf)%nat /\ bdev (bs i) = dev /\ blockno (bs i) = n.

#[global] Instance cached_dec bs n i : Decision (cached bs n i).
Proof. unfold cached. apply _. Defined.

Record bc_rep (s : bst) (m : cmodel) : Prop := {
  rep_lru : exists l, dll (bufs s) l /\ l ≡ₚ seq 0 nbuf;
  rep_dev i : (i < nbuf)%nat -> bdev (bufs s i) <> dev -> valid (bufs s i) = 0 /\ refcnt (bufs s i) = 0;
  rep_uniq i j n : cached (bufs s) n i -> cached (bufs s) n j -> i = j;
  rep_in i n : cached (bufs s) n i -> valid (bufs s i) <> 0 -> bdata (bufs s i) = cm_view m n;
  rep_out n : (forall i, cached (bufs s) n i -> valid (bufs s i) = 0) -> cm_view m n = cm_disk m n;
  rep_clean i n : cached (bufs s) n i -> valid (bufs s i) <> 0 -> refcnt (bufs s i) = 0 ->
    cm_view m n = cm_disk m n;
  rep_count i n : cached (bufs s) n i -> refcnt (bufs s i) = Z.of_nat (ref_of m n) /\ is_u32 (refcnt (bufs s i));
  rep_refs n k : cm_refs m !! n = Some k -> k <> O /\ exists i, cached (bufs s) n i;
  rep_held i n : cm_held m !! i = Some n ->
    cached (bufs s) n i /\ valid (bufs s i) <> 0 /\ lock (bufs s i) = Sl 1 me /\ ref_of m n <> O;
  rep_free i : (i < nbuf)%nat -> cm_held m !! i = None -> locked (lock (bufs s i)) = 0;
  rep_disk : disk s = cm_disk m;
  rep_trace : trace s = cm_trace m
}.

(** Changing one buffer's fields other than its pointers and its key. *)
Lemma dll_st bs i f l :
  (forall x, next (f x) = next x /\ prev (f x) = prev x) -> dll bs l -> dll (st bs i f) l.
Proof. intros Hf [? ?]. split; [done|]. apply seg_st; [intros; apply Hf|intros; apply Hf|done]. Qed.

Lemma dll_core bs bs' l : (forall x, next (bs' x) = next (bs x) /\ prev (bs' x) = prev (bs x)) -> dll bs l -> dll bs' l.
Proof. intros Hf [? ?]. split; [done|]. revert H0. apply seg_ext; intros; apply Hf. Qed.

Lemma bio_blockno_ok s m i n : bc_rep s m -> cm_held m !! i = Some n ->
  wp (let! x := rd i in ret (blockno x)) (fun r s' => r = n /\ s' = s) s.
Proof. intros R H. bio_steps. split; [|done]. by destruct (rep_held _ _ R _ _ H) as [(_ & _ & ?) _]. Qed.

Lemma bio_data_ok s m i n : bc_rep s m -> cm_held m !! i = Some n ->
  wp (let! x := rd i in ret (bdata x)) (fun d s' => d = cm_view m n /\ s' = s) s.
Proof.
  intros R H. bio_steps. split; [|done]. destruct (rep_held _ _ R _ _ H) as (Hc & Hv & _).
  by apply (rep_in _ _ R).
Qed.

(** After a store to buffer [i], what is cached where is as before. *)
Lemma cached_st bs i f n j :
  (forall x, bdev (f x) = bdev x /\ blockno (f x) = blockno x) ->
  cached (st bs i f) n j <-> cached bs n j.
Proof.
  intros Hf. unfold cached, st. case_decide; [|done]. subst. by rewrite !(proj1 (Hf _)), !(proj2 (Hf _)).
Qed.

Lemma set_block_eq d n x : set_block d n x n = x.
Proof. unfold set_block. by rewrite decide_True. Qed.
Lemma set_block_ne d n x b : b <> n -> set_block d n x b = d b.
Proof. intros. unfold set_block. by rewrite decide_False. Qed.

(** The general change of one buffer: buffer [i] now holds block [n], either as
    before or after being recycled. *)
Section Change.
Context (s : bst) (m m' : cmodel) (bs' : nat -> buf) (i : nat) (n : Z).
Hypothesis (R : bc_rep s m).
Hypothesis (Hi : (i < nbuf)%nat).
Hypothesis (Hold : cached (bufs s) n i \/ (refcnt (bufs s i) = 0 /\ forall j, ~ cached (bufs s) n j)).
Hypothesis (Hlru : exists l, dll bs' l /\ l ≡ₚ seq 0 nbuf).
Hypothesis (Hcore : forall j, j <> i -> core_eq (bufs s j) (bs' j)).
Hypothesis (Hkey : bdev (bs' i) = dev /\ blockno (bs' i) = n).
Hypothesis (Hview : forall b, b <> n -> cm_view m' b = cm_view m b).
Hypothesis (Hdisk : forall b, b <> n -> cm_disk m' b = cm_disk m b).
Hypothesis (Hrefs : forall b, b <> n -> cm_refs m' !! b = cm_refs m !! b).
Hypothesis (Hheld : forall j, j <> i -> cm_held m' !! j = cm_held m !! j).
Hypothesis (Hdata : valid (bs' i) <> 0 -> bdata (bs' i) = cm_view m' n).
Hypothesis (Hclean : valid (bs' i) = 0 \/ refcnt (bs' i) = 0 -> cm_view m' n = cm_disk m' n).
Hypothesis (Hcount : refcnt (bs' i) = Z.of_nat (ref_of m' n) /\ is_u32 (refcnt (bs' i))).
Hypothesis (Hsome : cm_refs m' !! n <> Some O).
Hypothesis (Hmine : forall b, cm_held m' !! i = Some b ->
  b = n /\ valid (bs' i) <> 0 /\ lock (bs' i) = Sl 1 me /\ ref_of m' n <> O).
Hypothesis (Hfree : cm_held m' !! i = None -> locked (lock (bs' i)) = 0).

Lemma cached_old b j : b <> n -> cached bs' b j -> cached (bufs s) b j /\ j <> i.
Proof.
  intros Hb (H1 & H2 & H3). assert (j <> i) as Hj by (intros ->; destruct Hkey; congruence).
  destruct (Hcore j Hj). split; [|done]. split_and!; congruence.
Qed.
Lemma cached_new j : cached bs' n j -> j = i.
Proof.
  intros (H1 & H2 & H3). destruct (decide (j = i)) as [|Hj]; [done|]. destruct (Hcore j Hj).
  assert (cached (bufs s) n j) by (split_and!; congruence).
  destruct Hold as [?|[_ Hno]]; [by apply (rep_uniq _ _ R _ _ n)|by destruct (Hno j)].
Qed.
Lemma cached_kept b j : b <> n -> cached (bufs s) b j -> j <> i \/ (j = i /\ refcnt (bufs s i) = 0).
Proof.
  intros Hb (H1 & H2 & H3). destruct (decide (j = i)) as [->|]; [right|by left].
  destruct Hold as [(_ & _ & ?)|[? _]]; [congruence|done].
Qed.

Lemma refs_zero b : cached (bufs s) b i -> refcnt (bufs s i) = 0 -> cm_refs m !! b = None.
Proof.
  intros Hc Hz. destruct (cm_refs m !! b) as [k|] eqn:E; [|done]. destruct (rep_refs _ _ R _ _ E) as [Hk _].
  destruct (rep_count _ _ R _ _ Hc) as [Hr _]. unfold ref_of, rcount in Hr. rewrite E in Hr. cbn in Hr. lia.
Qed.

Lemma rep_change d t : d = cm_disk m' -> t = cm_trace m' -> bc_rep (Bst bs' d t) m'.
Proof.
  intros -> ->. split; cbn [bufs disk trace]; try done.
  - intros j Hj Hd. assert (j <> i) as Hji by (intros ->; by destruct Hkey). destruct (Hcore j Hji).
    destruct (rep_dev _ _ R j Hj); [congruence|]. split; congruence.
  - intros j k b Hj Hk. destruct (decide (b = n)) as [->|Hb]; [by rewrite (cached_new j), (cached_new k)|].
    apply (rep_uniq _ _ R _ _ b); by apply cached_old.
  - intros j b Hj Hv. destruct (decide (b = n)) as [->|Hb].
    { rewrite (cached_new j Hj) in *. by apply Hdata. }
    destruct (cached_old b j Hb Hj) as [Hc Hji]. destruct (Hcore j Hji). rewrite Hview by done.
    rewrite ce_data0. apply (rep_in _ _ R); congruence.
  - intros b Hno. destruct (decide (b = n)) as [->|Hb].
    { apply Hclean. left. apply Hno. by destruct Hkey. }
    rewrite Hview, Hdisk by done.
    destruct (decide (cached (bufs s) b i /\ valid (bufs s i) <> 0)) as [[Hc Hv]|Hn].
    { destruct (cached_kept b i Hb Hc) as [?|[_ Hz]]; [done|]. by apply (rep_clean _ _ R i). }
    apply (rep_out _ _ R). intros j Hj. destruct (decide (j = i)) as [->|Hji]; [destruct (decide (valid (bufs s i) = 0)); tauto|].
    destruct (Hcore j Hji). rewrite <- ce_valid0. apply Hno. destruct Hj as (? & ? & ?). split_and!; congruence.
  - intros j b Hj Hv Hz. destruct (decide (b = n)) as [->|Hb].
    { apply Hclean. rewrite (cached_new j Hj) in Hz. by right. }
    destruct (cached_old b j Hb Hj) as [Hc Hji]. destruct (Hcore j Hji). rewrite Hview, Hdisk by done.
    apply (rep_clean _ _ R j); congruence.
  - intros j b Hj. destruct (decide (b = n)) as [->|Hb]; [by rewrite (cached_new j Hj)|].
    destruct (cached_old b j Hb Hj) as [Hc Hji]. destruct (Hcore j Hji). rewrite ce_refcnt0.
    unfold ref_of, rcount. rewrite Hrefs by done. apply (rep_count _ _ R _ _ Hc).
  - intros b k Hk. destruct (decide (b = n)) as [->|Hb].
    { split; [by intros ->|]. exists i. by destruct Hkey. }
    rewrite Hrefs in Hk by done. destruct (rep_refs _ _ R _ _ Hk) as [? [j Hc]]. split; [done|].
    destruct (cached_kept b j Hb Hc) as [Hji|[-> Hz]].
    + exists j. destruct (Hcore j Hji). destruct Hc as (? & ? & ?). split_and!; congruence.
    + rewrite (refs_zero b Hc Hz) in Hk. done.
  - intros j b Hj. destruct (decide (j = i)) as [->|Hji].
    { destruct (Hmine b Hj) as (-> & ? & ? & ?). by destruct Hkey. }
    rewrite Hheld in Hj by done. destruct (rep_held _ _ R _ _ Hj) as (Hc & ? & ? & ?). destruct (Hcore j Hji).
    assert (b <> n).
    { intros ->. destruct Hold as [Ho|[_ Ho]]; [by apply Hji, (rep_uniq _ _ R _ _ n)|by destruct (Ho j)]. }
    unfold ref_of, rcount in *. rewrite Hrefs by done. destruct Hc as (? & ? & ?). split_and!; try congruence. split_and!; congruence.
  - intros j Hj Hn. destruct (decide (j = i)) as [->|Hji]; [by apply Hfree|]. rewrite Hheld in Hn by done.
    destruct (Hcore j Hji). rewrite ce_lock0. by apply R.
Qed.
End Change.

Lemma core_st bs i f j : j <> i -> core_eq (bs j) (st bs i f j).
Proof. intros. rewrite st_ne by done. apply core_eq_refl. Qed.
Lemma lru_st s m i f : bc_rep s m -> (forall x, next (f x) = next x /\ prev (f x) = prev x) ->
  exists l, dll (st (bufs s) i f) l /\ l ≡ₚ seq 0 nbuf.
Proof. intros R Hf. destruct (rep_lru _ _ R) as (l & ? & ?). exists l. split; [by apply dll_st|done]. Qed.

Lemma refs_not_zero s m n : bc_rep s m -> cm_refs m !! n <> Some O.
Proof. intros R E. by destruct (rep_refs _ _ R _ _ E) as [? _]. Qed.

Lemma bio_store_ok s m i n d : bc_rep s m -> cm_held m !! i = Some n ->
  wp (upd i (set_data d)) (fun _ s' => bc_rep s' (see n d m)) s.
Proof.
  intros R H. bio_steps. destruct (rep_held _ _ R _ _ H) as (Hc & Hv & Hl & Hr).
  destruct (rep_count _ _ R _ _ Hc) as [Hn Hu].
  eapply (rep_change s m _ _ i n); try done; try apply R; rewrite ?st_eq; cbn; try done.
  - apply Hc.
  - by left.
  - by eapply lru_st.
  - intros. by apply core_st.
  - by destruct Hc.
  - intros. by rewrite set_block_ne.
  - intros. by rewrite set_block_eq.
  - rewrite Hn. intros [?|?]; [done|lia].
  - by eapply refs_not_zero.
  - intros b Hb. split_and!; [congruence|done|done|exact Hr].
  - congruence.
Qed.

Lemma wp_holding s i n m Q : bc_rep s m -> cm_held m !! i = Some n -> Q true s -> wp (block_holding me i) Q s.
Proof.
  intros R H HQ. destruct (rep_held _ _ R _ _ H) as (_ & _ & Hl & _). unfold block_holding, holdingsleep. wp_steps.
  rewrite Hl. cbn. by rewrite Z.eqb_refl.
Qed.

Lemma bio_bwrite_ok s m i n : bc_rep s m -> cm_held m !! i = Some n ->
  wp (bwrite me i) (fun _ s' => bc_rep s' (flush n m)) s.
Proof.
  intros R H. destruct (rep_held _ _ R _ _ H) as (Hc & Hv & Hl & Hr).
  unfold bwrite. bio_step. eapply wp_holding; [done..|]. cbn [negb]. unfold virtio_disk_rw. bio_steps.
  destruct (rep_count _ _ R _ _ Hc) as [Hn Hu]. destruct Hc as (Hi & Hd & Hb). rewrite Hb.
  rewrite (rep_in _ _ R i n) by done. rewrite (rep_disk _ _ R), (rep_trace _ _ R).
  eapply (rep_change s m _ _ i n); try done; try apply R; cbn; try done.
  - by left.
  - intros. by rewrite set_block_ne.
  - intros. by rewrite set_block_eq.
  - by eapply refs_not_zero.
  - intros b Hb'. split_and!; [congruence|done|done|exact Hr].
Qed.

Lemma bio_bpin_ok s m i n : bc_rep s m -> cm_held m !! i = Some n ->
  Z.of_nat (ref_of m n) + 1 < 2 ^ 32 -> wp (bpin i) (fun _ s' => bc_rep s' (add_ref n m)) s.
Proof.
  intros R H Hb. unfold bpin. bio_steps. destruct (rep_held _ _ R _ _ H) as (Hc & Hv & Hl & Hr).
  destruct (rep_count _ _ R _ _ Hc) as [Hn Hu].
  assert (u32 (refcnt (bufs s i) + 1) = Z.of_nat (S (ref_of m n))) as E by (rewrite u32_id; unfold is_u32; lia).
  eapply (rep_change s m _ _ i n); try done; try apply R; rewrite ?st_eq; cbn; try done.
  - apply Hc.
  - by left.
  - by eapply lru_st.
  - intros. by apply core_st.
  - by destruct Hc.
  - intros. by rewrite radd_ne.
  - by apply R.
  - rewrite E. lia.
  - rewrite E, ref_of_add. unfold is_u32. lia.
  - unfold radd. by rewrite lookup_insert_eq.
  - intros b Hb'. rewrite ref_of_add. split_and!; [congruence|done|done|lia].
  - congruence.
Qed.

Lemma bio_bunpin_ok s m i n : bc_rep s m -> cm_held m !! i = Some n -> (2 <= ref_of m n)%nat ->
  wp (bunpin i) (fun _ s' => bc_rep s' (drop_ref n m)) s.
Proof.
  intros R H Hb. unfold bunpin. bio_steps. destruct (rep_held _ _ R _ _ H) as (Hc & Hv & Hl & Hr).
  destruct (rep_count _ _ R _ _ Hc) as [Hn Hu].
  assert (u32 (refcnt (bufs s i) - 1) = Z.of_nat (pred (ref_of m n))) as E
    by (unfold is_u32 in Hu; rewrite u32_id; unfold is_u32; lia).
  eapply (rep_change s m _ _ i n); try done; try apply R; rewrite ?st_eq; try done.
  - apply Hc.
  - by left.
  - by eapply lru_st.
  - intros. by apply core_st.
  - by destruct Hc.
  - intros. by apply rdrop_ne.
  - by apply R.
  - cbn [refcnt valid set_refcnt]. rewrite E. lia.
  - cbn [refcnt set_refcnt]. rewrite E, ref_of_drop. unfold is_u32 in *. lia.
  - apply rdrop_pos.
  - intros b Hb'. cbn in Hb'. rewrite ref_of_drop. split_and!; [congruence|done|done|lia].
  - cbn. congruence.
Qed.

Lemma bio_brelse_ok s m i n : bc_rep s m -> cm_held m !! i = Some n ->
  (ref_of m n = 1%nat -> cm_view m n = cm_disk m n) ->
  wp (brelse me i) (fun _ s' => bc_rep s' (drop_ref n (unhold i m))) s.
Proof.
  intros R H Hcl. destruct (rep_held _ _ R _ _ H) as (Hc & Hv & Hl & Hr).
  destruct (rep_count _ _ R _ _ Hc) as [Hn Hu].
  assert (E : u32 (refcnt (bufs s i) - 1) = Z.of_nat (pred (ref_of m n)))
    by (unfold is_u32 in Hu; rewrite u32_id; unfold is_u32; lia).
  assert (Hfin : forall bs', (exists l, dll bs' l /\ l ≡ₚ seq 0 nbuf) ->
    (forall x, core_eq (st (st (bufs s) i (set_lock (Sl 0 0))) i (fun x => set_refcnt (u32 (refcnt x - 1)) x) x) (bs' x)) ->
    bc_rep (Bst bs' (disk s) (trace s)) (drop_ref n (unhold i m))).
  { intros bs' Hlru Hce. pose proof (Hce i) as [C1 C2 C3 C4 C5 C6]. rewrite !st_eq in C1, C2, C3, C4, C5, C6.
    cbn in C1, C2, C3, C4, C5, C6. rewrite E in C5.
    eapply (rep_change s m _ _ i n); try done; try apply R; rewrite ?C1, ?C5, ?C6, ?C4; try done.
    - apply Hc.
    - by left.
    - intros j Hj. specialize (Hce j). by rewrite !st_ne in Hce by done.
    - rewrite C2, C3. by destruct Hc.
    - intros. cbn. by rewrite rdrop_ne.
    - intros j Hj. cbn. by rewrite lookup_delete_ne.
    - intros _. by apply (rep_in _ _ R).
    - intros [?|Hz]; [done|]. apply Hcl. lia.
    - rewrite ref_of_drop. change (ref_of (unhold i m) n) with (ref_of m n). unfold is_u32 in *. lia.
    - apply rdrop_pos.
    - intros b. cbn. by rewrite lookup_delete_eq. }
  unfold brelse. bio_step. eapply wp_holding; [done..|]. cbn [negb]. unfold block_release, releasesleep, wake_all. bio_steps.
  destruct (_ =? 0) eqn:Ez.
  2:{ bio_steps. apply Hfin; [|intros; apply core_eq_refl].
      destruct (rep_lru _ _ R) as (l & Hd & Hp). exists l. split; [|done]. by apply dll_st, dll_st. }
  destruct (rep_lru _ _ R) as (l & Hd & Hp).
  assert (Hin : i ∈ l) by (rewrite Hp; apply elem_of_seq; destruct Hc; lia).
  apply list_elem_of_split in Hin as (l1 & l2 & ->).
  match goal with |- wp _ _ ?t => apply (relink_wp t i l1 l2) end; cbn [bufs disk trace]; [by apply dll_st, dll_st|]. intros bs' Hd' Hc'. apply Hfin; [|done].
  exists (i :: l1 ++ l2). split; [done|]. by rewrite Permutation_middle.
Qed.

(** When fewer than [NBUF] blocks are referenced, a buffer is free. *)
Lemma spare s m : bc_rep s m -> (size (cm_refs m) < nbuf)%nat ->
  ~ (forall i, (i < nbuf)%nat -> refcnt (bufs s i) <> 0).
Proof.
  intros R Hsz Hall.
  assert (Hd : forall i, (i < nbuf)%nat -> bdev (bufs s i) = dev).
  { intros i Hi. destruct (decide (bdev (bufs s i) = dev)) as [|Hn]; [done|].
    destruct (rep_dev _ _ R i Hi Hn) as [_ Hz]. by destruct (Hall i Hi). }
  pose (f := fun i => blockno (bufs s i)).
  assert (NoDup (f <$> seq 0 nbuf)) as Hnd.
  { apply NoDup_fmap_2_strong; [|apply NoDup_seq]. intros i j Hi Hj E. apply elem_of_seq in Hi, Hj.
    apply (rep_uniq _ _ R i j (f i)); unfold cached; split_and!; try lia; try apply Hd; try lia; done. }
  assert (Hsub : list_to_set (C := gset Z) (f <$> seq 0 nbuf) ⊆ dom (cm_refs m)).
  { intros b Hb. rewrite elem_of_list_to_set in Hb. apply list_elem_of_fmap in Hb as (i & -> & Hi).
    apply elem_of_seq in Hi. apply elem_of_dom. assert (cached (bufs s) (f i) i) as Hc by (split_and!; [lia|apply Hd; lia|done]).
    destruct (rep_count _ _ R _ _ Hc) as [Hr _]. specialize (Hall i ltac:(lia)). unfold ref_of, rcount in Hr.
    destruct (cm_refs m !! f i); [done|]. cbn in Hr. lia. }
  apply subseteq_size in Hsub. rewrite size_list_to_set, length_fmap, length_seq, size_dom in Hsub by done. lia.
Qed.

Lemma find_wp s m n : bc_rep s m -> has_room m n ->
  wp (let! h := rd HEAD in bget_find (S nbuf) dev n (next h)) (fun r s' => s' = s /\
    match r with
    | Some b => cached (bufs s) n b
    | None => (forall j, ~ cached (bufs s) n j) /\ (size (cm_refs m) < nbuf)%nat
    end) s.
Proof.
  intros R Hroom. bio_steps. destruct (rep_lru _ _ R) as (l & [Hnd Hs] & Hp).
  apply NoDup_cons in Hnd as [Hh Hnd].
  eapply wp_mono; [apply (bget_find_wp dev n s HEAD l); [done|done|rewrite Hp, length_seq; lia]|].
  intros [b|] s' [-> H]; split; try done.
  - destruct H as (Hb & ? & ?). rewrite Hp in Hb. apply elem_of_seq in Hb. split_and!; [lia|done|done].
  - assert (Hno : forall j, ~ cached (bufs s) n j).
    { intros j (Hj & Hd & Hb). apply (H j); [|done|done]. rewrite Hp. apply elem_of_seq. lia. }
    split; [done|]. destruct Hroom as [[k Hk]|]; [|done]. destruct (rep_refs _ _ R _ _ Hk) as [_ [j Hj]]. by destruct (Hno j).
Qed.

Lemma recycle_wp s m : bc_rep s m -> (size (cm_refs m) < nbuf)%nat ->
  wp (let! h := rd HEAD in bget_recycle (S nbuf) (prev h)) (fun r s' => s' = s /\
    exists b, r = Some b /\ (b < nbuf)%nat /\ refcnt (bufs s b) = 0) s.
Proof.
  intros R Hsz. bio_steps. destruct (rep_lru _ _ R) as (l & [Hnd Hs] & Hp).
  apply NoDup_cons in Hnd as [Hh Hnd].
  eapply wp_mono; [apply (bget_recycle_wp s _ l HEAD); [done|done|rewrite Hp, length_seq; lia|done]|].
  intros [b|] s' [-> H]; split; try done.
  - destruct H as (Hz & l1 & l2 & -> & _). exists b. split_and!; [done| |done].
    assert (b ∈ seq 0 nbuf) as Hb by (rewrite <- Hp; elems). apply elem_of_seq in Hb. lia.
  - exfalso. apply (spare s m R Hsz). intros i Hi. apply H. rewrite Hp. apply elem_of_seq. lia.
Qed.

Lemma not_held_none s m n i : bc_rep s m -> not_held m n -> cached (bufs s) n i -> cm_held m !! i = None.
Proof.
  intros R Hnh Hc. destruct (cm_held m !! i) as [b|] eqn:E; [|done].
  destruct (rep_held _ _ R _ _ E) as ((_ & _ & Hb) & _). destruct Hc as (_ & _ & Hn). rewrite Hb in Hn. subst.
  by destruct (Hnh i).
Qed.

(** A buffer nobody refers to is not held. *)
Lemma unref_none s m i : bc_rep s m -> refcnt (bufs s i) = 0 -> cm_held m !! i = None.
Proof.
  intros R Hz. destruct (cm_held m !! i) as [b|] eqn:E; [|done].
  destruct (rep_held _ _ R _ _ E) as (Hc & _ & _ & Hr). destruct (rep_count _ _ R _ _ Hc). lia.
Qed.

(** What [bread] has made of buffer [i]. *)
Lemma bread_rep s m n i bs' : bc_rep s m -> (i < nbuf)%nat -> cm_held m !! i = None ->
  Z.of_nat (ref_of m n) + 1 < 2 ^ 32 ->
  cached (bufs s) n i \/ (refcnt (bufs s i) = 0 /\ forall j, ~ cached (bufs s) n j) ->
  (exists l, dll bs' l /\ l ≡ₚ seq 0 nbuf) ->
  (forall j, j <> i -> core_eq (bufs s j) (bs' j)) ->
  bdev (bs' i) = dev -> blockno (bs' i) = n -> lock (bs' i) = Sl 1 me ->
  valid (bs' i) <> 0 -> bdata (bs' i) = cm_view m n -> refcnt (bs' i) = Z.of_nat (S (ref_of m n)) ->
  bc_rep (Bst bs' (disk s) (trace s)) (hold i n (add_ref n m)).
Proof.
  intros R Hi Hnh Hb Hold Hlru Hcore Hd Hn Hl Hv Hdat Href.
  eapply (rep_change s m _ _ i n); try done; try apply R.
  - intros. cbn. by rewrite radd_ne.
  - intros. cbn. by rewrite lookup_insert_ne.
  - intros [?|?]; [done|]. lia.
  - rewrite Href. split; [|unfold is_u32; lia]. by rewrite <- (ref_of_add m n).
  - cbn. unfold radd. by rewrite lookup_insert_eq.
  - intros b. cbn. rewrite lookup_insert_eq. intros [= <-]. split_and!; try done.
    change (ref_of (hold i n (add_ref n m)) n) with (ref_of (add_ref n m) n). by rewrite ref_of_add.
  - cbn. by rewrite lookup_insert_eq.
Qed.

Lemma acquire_wp s i Q : locked (lock (bufs s i)) = 0 ->
  Q tt (Bst (st (bufs s) i (set_lock (Sl 1 me))) (disk s) (trace s)) -> wp (block_acquire me i) Q s.
Proof. intros Hl HQ. unfold block_acquire, acquiresleep. wp_steps. rewrite Hl. done. Qed.

Lemma bio_bread_ok s m n : bc_rep s m -> has_room m n -> not_held m n ->
  Z.of_nat (ref_of m n) + 1 < 2 ^ 32 ->
  wp (bread me dev n) (fun i s' => cm_held m !! i = None /\ bc_rep s' (hold i n (add_ref n m))) s.
Proof.
  intros R Hroom Hnh Hb. unfold bread, bget. rewrite !wp_bind. rewrite wp_rd. cbn beta. rewrite wp_bind.
  pose proof (find_wp s m n R Hroom) as F. rewrite wp_bind, wp_rd in F. cbn beta in F.
  eapply wp_mono; [exact F|]. intros [i|] ? [-> Hc]; cbn beta iota.
  - (* found in the cache *)
    assert (Hi : cm_held m !! i = None) by (by eapply not_held_none).
    assert (Hin : (i < nbuf)%nat) by apply Hc. destruct (rep_count _ _ R _ _ Hc) as [Hr _].
    assert (E : u32 (refcnt (bufs s i) + 1) = Z.of_nat (S (ref_of m n))) by (rewrite u32_id; unfold is_u32; lia).
    bio_steps. eapply acquire_wp; cbn [bufs].
    { rewrite st_eq. cbn. by apply (rep_free _ _ R). }
    bio_steps. rewrite !st_eq. cbn [valid set_lock set_refcnt]. unfold c_true. rewrite negb_involutive.
    destruct (valid (bufs s i) =? 0) eqn:Ev; breflect; unfold virtio_disk_rw; bio_steps; (split; [done|]);
      (eapply (bread_rep s m n i); try done; [by left| | | | | | | | ]); rewrite ?st_eq; try done; try (by destruct Hc as (? & ? & ?)).
    + destruct (rep_lru _ _ R) as (l & ? & ?). exists l. split; [|done]. by repeat apply dll_st.
    + intros. rewrite !st_ne by done. apply core_eq_refl.
    + cbn. pose proof Hc as (_ & _ & Hbn). rewrite Hbn, (rep_disk _ _ R). symmetry. apply (rep_out _ _ R).
      intros j Hj. assert (j = i) as -> by (by apply (rep_uniq _ _ R j i n)). done.
    + destruct (rep_lru _ _ R) as (l & ? & ?). exists l. split; [|done]. by repeat apply dll_st.
    + intros. rewrite !st_ne by done. apply core_eq_refl.
    + cbn. by apply (rep_in _ _ R).
  - (* recycled *)
    destruct Hc as [Hno Hsz]. pose proof (recycle_wp s m R Hsz) as F'. rewrite wp_bind, wp_rd in F'. cbn beta in F'.
    bio_step. eapply wp_mono; [exact F'|]. intros r s' (-> & i & -> & Hin & Hz). cbn beta iota.
    assert (Hi : cm_held m !! i = None) by (by eapply unref_none).
    assert (Hr : ref_of m n = O).
    { unfold ref_of, rcount. destruct (cm_refs m !! n) eqn:E; [|done]. destruct (rep_refs _ _ R _ _ E) as [_ [j Hj]]. by destruct (Hno j). }
    bio_steps. eapply acquire_wp; cbn [bufs].
    { rewrite st_eq. cbn. by apply (rep_free _ _ R). }
    bio_steps. rewrite !st_eq. cbn [valid set_lock set_refcnt set_valid]. cbn [c_true negb Z.eqb]. unfold virtio_disk_rw. bio_steps. split; [done|].
    eapply (bread_rep s m n i); try done; [by right| | | | | | | | ]; rewrite ?st_eq; try done.
    + destruct (rep_lru _ _ R) as (l & ? & ?). exists l. split; [|done]. by repeat apply dll_st.
    + intros. rewrite !st_ne by done. apply core_eq_refl.
    + cbn. rewrite (rep_disk _ _ R). symmetry. apply (rep_out _ _ R). intros j Hj. by destruct (Hno j).
    + cbn. by rewrite Hr.
Qed.

(** When [NBUF] blocks are referenced, no buffer is free. *)
Lemma no_spare s m : bc_rep s m -> (nbuf <= size (cm_refs m))%nat -> forall i, (i < nbuf)%nat -> refcnt (bufs s i) <> 0.
Proof.
  intros R Hsz i Hi Hz. assert (Hin : i ∈ seq 0 nbuf) by (apply elem_of_seq; lia).
  apply list_elem_of_split in Hin as (l1 & l2 & El).
  assert (Hsub : dom (cm_refs m) ⊆ list_to_set (C := gset Z) ((fun j => blockno (bufs s j)) <$> l1 ++ l2)).
  { intros b [k Hk]%elem_of_dom. destruct (rep_refs _ _ R _ _ Hk) as (Hk0 & j & Hc). destruct (rep_count _ _ R _ _ Hc) as [Hr _].
    destruct Hc as (Hj & _ & <-). rewrite elem_of_list_to_set. apply list_elem_of_fmap. exists j. split; [done|].
    assert (Hs : j ∈ l1 ++ i :: l2) by (rewrite <- El; apply elem_of_seq; lia). assert (j <> i).
    { intros ->. unfold ref_of, rcount in Hr. rewrite Hk in Hr. cbn in Hr. lia. }
    rewrite elem_of_app, elem_of_cons in Hs. rewrite elem_of_app. naive_solver. }
  apply subseteq_size in Hsub. pose proof (size_list_to_set_le ((fun j => blockno (bufs s j)) <$> l1 ++ l2)) as Hle.
  apply (f_equal length) in El. rewrite length_seq, length_app in El. cbn [length] in El.
  rewrite length_fmap, length_app in Hle. rewrite size_dom in Hsub. lia.
Qed.
(** [bread] of a block without a buffer then stops the kernel. *)
Lemma bread_full s m n : bc_rep s m -> (nbuf <= size (cm_refs m))%nat -> cm_refs m !! n = None ->
  bread me dev n s = Panic "bget: no buffers".
Proof.
  intros R Hsz Hn. pose proof (no_spare s m R Hsz) as Hall. destruct (rep_lru _ _ R) as (l & [Hnd Hs] & Hp).
  apply NoDup_cons in Hnd as [Hh Hnd].
  assert (Hl : forall b, b ∈ l <-> (b < nbuf)%nat) by (intros b; rewrite Hp, elem_of_seq; lia).
  assert (Hfuel : (length l < S nbuf)%nat) by (rewrite Hp, length_seq; lia).
  enough (E : bget me dev n s = Panic "bget: no buffers") by (unfold bread; unfold bind at 1; by rewrite E).
  unfold bget. apply bind_panic. rewrite wp_rd. apply bind_panic.
  eapply wp_mono; [by apply (bget_find_wp dev n s HEAD l)|]. cbn beta. intros [b|] ? [-> Hf].
  - exfalso. destruct Hf as (Hb & Hd & Hbn). apply Hl in Hb. destruct (rep_count _ _ R b n) as [Hr _]; [done|].
    unfold ref_of, rcount in Hr. rewrite Hn in Hr. by apply (Hall b Hb).
  - apply bind_panic. eapply wp_mono; [by apply (bget_recycle_wp s _ l HEAD)|]. cbn beta. intros [b|] ? [-> Hr]; [|done].
    exfalso. destruct Hr as (Hz & l1 & l2 & -> & _). apply (Hall b); [|done]. apply Hl, elem_of_app. right. by left.
Qed.

Lemma bio_unref_clean s m n : bc_rep s m -> ref_of m n = O -> cm_view m n = cm_disk m n.
Proof.
  intros R Hz.
  destruct (decide (Exists (fun i => cached (bufs s) n i /\ valid (bufs s i) <> 0) (seq 0 nbuf))) as [He|Hn].
  - apply Exists_exists in He as (i & _ & Hc & Hv). apply (rep_clean _ _ R i n Hc Hv).
    destruct (rep_count _ _ R _ _ Hc). lia.
  - apply (rep_out _ _ R). intros i Hc. destruct (decide (valid (bufs s i) = 0)); [done|].
    destruct Hn. apply Exists_exists. exists i. split; [|done]. apply elem_of_seq. destruct Hc. lia.
Qed.

#[global] Instance bio_cache : BufCache bst := {|
  bc_bread := bread me dev;
  bc_blockno i := let! x := rd i in ret (blockno x);
  bc_data i := let! x := rd i in ret (bdata x);
  bc_store i d := upd i (set_data d);
  bc_bwrite := bwrite me;
  bc_brelse := brelse me;
  bc_bpin := bpin;
  bc_bunpin := bunpin;
  bc_is := bc_rep
|}.
End Rep.

Lemma bio_laws me dev : BufCacheLaws bst (H := bio_cache me dev).
Proof.
  split; cbn [bc_is bio_cache bc_bread bc_blockno bc_data bc_store bc_bwrite bc_brelse bc_bpin bc_bunpin]; intros.
  - by apply bio_bread_ok.
  - by eapply bio_blockno_ok.
  - by eapply bio_data_ok.
  - by apply bio_store_ok.
  - by apply bio_bwrite_ok.
  - by apply bio_brelse_ok.
  - by apply bio_bpin_ok.
  - by apply bio_bunpin_ok.
  - by eapply refs_not_zero.
  - by eapply bio_unref_clean.
  - by destruct (rep_held _ _ _ _ H _ _ H0) as (_ & _ & _ & ?).
Qed.

(** ** Boot *)

(** The zeroed [bcache] of the kernel image, over a disk. *)
Definition bss_buf : buf := Buf 0 0 0 (Sl 0 0) 0 O O [].
Definition bio_boot (d : Z -> block) : bst := Bst (fun _ => bss_buf) d [].
Definition fresh_cache (d : Z -> block) : cmodel := Cm d d [] ∅ ∅.

Lemma binit_loop_ok d n b s l :
  (b + n = nbuf)%nat -> dll (bufs s) l -> l ≡ₚ seq 0 b -> disk s = d -> trace s = [] ->
  (forall x, (x < nbuf)%nat -> core_eq bss_buf (bufs s x)) ->
  wp (binit_loop b n) (fun _ s' => disk s' = d /\ trace s' = [] /\
    (exists l', dll (bufs s') l' /\ l' ≡ₚ seq 0 nbuf) /\
    forall x, (x < nbuf)%nat -> core_eq bss_buf (bufs s' x)) s.
Proof.
  revert b s l. induction n as [|n IH]; intros b s l Hb Hd Hp Hdk Htr Hc; cbn [binit_loop].
  - bio_steps. split_and!; [done|done| |done]. exists l. split; [done|]. by replace nbuf with b by lia.
  - assert (Hassoc : forall Q, wp (link_out b ;; upd b (set_lock initsleeplock) ;; link_in b)
                                 (fun _ s' => wp (binit_loop (S b) n) Q s') s ->
      wp (link_out b ;; upd b (set_lock initsleeplock) ;; link_in b ;; binit_loop (S b) n) Q s).
    { intros Q. rewrite !wp_bind. intros H. eapply wp_mono; [exact H|]. intros [] s1. cbn beta. by rewrite !wp_bind. }
    apply Hassoc. eapply link_lock_wp; [exact Hd| |].
    { rewrite elem_of_cons, Hp, elem_of_seq. unfold HEAD. lia. }
    intros bs' Hd' Hc'. apply (IH (S b) _ (b :: l)); cbn [bufs disk trace]; try done.
    + lia.
    + rewrite seq_S, Hp. cbn. apply Permutation_cons_append.
    + intros x Hx. eapply core_eq_trans; [|apply Hc']. unfold st. case_decide; [|by apply Hc].
      subst. destruct (Hc b Hx). by split.
Qed.

Lemma binit_ok me dev d : dev <> 0 ->
  wp binit (fun _ s => bc_rep me dev s (fresh_cache d)) (bio_boot d).
Proof.
  intros Hdev. unfold binit. bio_steps. eapply wp_mono; [apply (binit_loop_ok d nbuf O _ [])|]; try done.
  - split; [apply NoDup_singleton|]. cbn [seg bufs]. rewrite !st_eq. done.
  - intros x Hx. cbn. unfold st. repeat case_decide; try by split.
  - cbn beta. intros _ s (Hd & Ht & Hl & Hc).
    assert (Hno : forall n i, ~ cached dev (bufs s) n i).
    { intros n i (Hi & Hdv & _). destruct (Hc i Hi) as [? Hcd]. cbn in Hcd. congruence. }
    split; try done; try (intros; exfalso; by eapply Hno).
    + intros i Hi _. by destruct (Hc i Hi).
    + intros i Hi _. by destruct (Hc i Hi) as [_ _ _ -> _ _].
Qed.

(** ** Replacement *)

Lemma filter_absent (l : list nat) i : i ∉ l -> filter (fun x => x <> i) l = l.
Proof.
  induction l as [|x l IH]; intros Hi; [done|]. rewrite filter_cons_True by elems. f_equal. apply IH. elems.
Qed.

Lemma filter_other (l1 l2 : list nat) i : NoDup (l1 ++ i :: l2) ->
  filter (fun x => x <> i) (l1 ++ i :: l2) = l1 ++ l2.
Proof.
  intros Hnd. apply NoDup_app in Hnd as (_ & N2 & N3). apply NoDup_cons in N3 as [N3 _].
  rewrite filter_app, filter_cons_False by (intros H; by apply H).
  rewrite !filter_absent; [done|done|]. intros Hi. apply (N2 i Hi). elems.
Qed.

Lemma brelse_front me dev s m l i n :
  bc_rep me dev s m -> dll (bufs s) l -> l ≡ₚ seq 0 nbuf -> cm_held m !! i = Some n -> ref_of m n = 1%nat ->
  wp (brelse me i) (fun _ s' => dll (bufs s') (i :: filter (fun x => x <> i) l)) s.
Proof.
  intros R Hd Hp H Hr1. destruct (rep_held _ _ _ _ R _ _ H) as (Hc & Hv & Hl & Hr).
  destruct (rep_count _ _ _ _ R _ _ Hc) as [Hn Hu].
  assert (Hin : i ∈ l) by (rewrite Hp; apply elem_of_seq; destruct Hc; lia).
  apply list_elem_of_split in Hin as (l1 & l2 & ->). destruct Hd as [Hnd Hs].
  pose proof Hnd as Hnd'. apply NoDup_cons in Hnd' as [_ Hnd']. rewrite (filter_other _ _ _ Hnd').
  unfold brelse. bio_step. eapply wp_holding; [done..|]. cbn [negb]. unfold block_release, releasesleep, wake_all. bio_steps.
  replace (refcnt _ =? 0) with true.
  2:{ unfold put_lock; cbn [bufs]. rewrite !st_eq. cbn [refcnt set_refcnt set_lock]. rewrite Hn, Hr1. reflexivity. }
  match goal with |- wp _ _ ?t => apply (relink_wp t i l1 l2) end; cbn [bufs disk trace]; [by apply dll_st, dll_st|]. done.
Qed.

Lemma bget_lru me dev s m l n :
  bc_rep me dev s m -> dll (bufs s) l -> l ≡ₚ seq 0 nbuf ->
  (forall j, ~ cached dev (bufs s) n j) -> (size (cm_refs m) < nbuf)%nat ->
  wp (bget me dev n) (fun i s' => dll (bufs s') l /\
    exists l1 l2, l = l1 ++ i :: l2 /\ refcnt (bufs s i) = 0 /\ forall x, x ∈ l2 -> refcnt (bufs s x) <> 0) s.
Proof.
  intros R Hd Hp Hno Hsz. unfold bget. bio_step. rewrite wp_rd. cbn beta. bio_step.
  pose proof (find_wp me dev s m n R (or_intror Hsz)) as F. rewrite wp_bind, wp_rd in F. cbn beta in F.
  eapply wp_mono; [exact F|]. intros [i|] ? [-> Hc]; cbn beta iota; [by destruct (Hno i)|]. bio_step.
  destruct Hd as [Hnd Hs]. pose proof Hnd as Hnd'. apply NoDup_cons in Hnd' as [Hh _].
  eapply wp_mono; [apply (bget_recycle_wp s _ l HEAD); [done|done|rewrite Hp, length_seq; lia|done]|].
  intros [i|] s' [-> H]; cbn beta iota.
  2:{ exfalso. apply (spare me dev s m R Hsz). intros i Hi. apply H. rewrite Hp. apply elem_of_seq. lia. }
  destruct H as (Hz & l1 & l2 & -> & H).
  assert (Hi : (i < nbuf)%nat).
  { assert (i ∈ seq 0 nbuf) as Hb by (rewrite <- Hp; elems). apply elem_of_seq in Hb. lia. }
  bio_steps. eapply acquire_wp; cbn [bufs].
  { rewrite st_eq. cbn. apply (rep_free _ _ _ _ R); [done|]. by eapply unref_none. }
  bio_steps. split; [|eauto]. by repeat apply dll_st.
Qed.

(** ** Properties *)

(** C14: [bread] returns a locked buffer holding the block's current content,
    cached or read from the disk, writes nothing to the disk, and leaves the
    current content of every block as it was: recycling a buffer loses nothing. *)
Theorem bread_sees_current_content me dev s m n :
  bc_rep me dev s m -> has_room m n -> not_held m n -> Z.of_nat (ref_of m n) + 1 < 2 ^ 32 ->
  wp (bread me dev n) (fun i s' =>
    blockno (bufs s' i) = n /\ bdata (bufs s' i) = cm_view m n /\ lock (bufs s' i) = Sl 1 me /\
    disk s' = disk s /\ trace s' = trace s /\ bc_rep me dev s' (hold i n (add_ref n m))) s.
Proof.
  intros R H1 H2 H3. eapply wp_mono; [by apply bio_bread_ok|]. cbn beta. intros i s' [_ R'].
  destruct (rep_held _ _ _ _ R' i n) as ((Hi & Hd & Hn) & Hv & Hl & _).
  { cbn. by rewrite lookup_insert_eq. }
  rewrite (rep_disk _ _ _ _ R'), (rep_trace _ _ _ _ R'), (rep_disk _ _ _ _ R), (rep_trace _ _ _ _ R).
  split_and!; try done. by apply (rep_in _ _ _ _ R').
Qed.

Lemma bread_sees_current_content_witness :
  exists s, binit (bio_boot (fun n => [n])) = Ok (tt, s) /\
    wp (bread 7 1 5) (fun i s' => bdata (bufs s' i) = [5]) s.
Proof.
  pose proof (binit_ok 7 1 (fun n => [n]) ltac:(lia)) as H.
  destruct (proj1 (wp_ok _ _ _) H) as ([] & s & E & R).
  exists s. split; [exact E|]. clear E H.
  eapply wp_mono; [apply (bread_sees_current_content 7 1 s _ 5 R)|].
  - right. vm_compute. lia.
  - intros i. cbn. by rewrite lookup_empty.
  - vm_compute. reflexivity.
  - cbn beta. intros i s' (_ & H & _). exact H.
Defined.

(** The replacement policy is least recently used.  [brelse] of the last
    reference moves the buffer to the front of the list and keeps the order of
    the others; a [bget] that misses takes the unreferenced buffer closest to the
    back. *)
Theorem cache_replaces_least_recently_used me dev s m l i n :
  bc_rep me dev s m -> dll (bufs s) l -> l ≡ₚ seq 0 nbuf ->
  (cm_held m !! i = Some n -> ref_of m n = 1%nat ->
     wp (brelse me i) (fun _ s' => dll (bufs s') (i :: filter (fun x => x <> i) l)) s) /\
  ((forall j, ~ cached dev (bufs s) n j) -> (size (cm_refs m) < nbuf)%nat ->
     wp (bget me dev n) (fun j s' => dll (bufs s') l /\
       exists l1 l2, l = l1 ++ j :: l2 /\ refcnt (bufs s j) = 0 /\
         forall x, x ∈ l2 -> refcnt (bufs s x) <> 0) s).
Proof. intros. split; intros; [by eapply brelse_front|by eapply bget_lru]. Qed.

Lemma cache_replaces_least_recently_used_witness :
  exists s l i, dll (bufs s) l /\ blockno (bufs s i) = 5 /\
    wp (brelse 7 i) (fun _ s' => dll (bufs s') (i :: filter (fun x => x <> i) l)) s.
Proof.
  pose proof (binit_ok 7 1 (fun n => [n]) ltac:(lia)) as H.
  destruct (proj1 (wp_ok _ _ _) H) as ([] & s & _ & R). clear H.
  assert (H : wp (bread 7 1 5) (fun i s' => cm_held (fresh_cache (fun n => [n])) !! i = None /\
      bc_rep 7 1 s' (hold i 5 (add_ref 5 (fresh_cache (fun n => [n]))))) s).
  { apply bio_bread_ok; [exact R|right; vm_compute; lia|intros i; apply lookup_empty_Some|by vm_compute]. }
  destruct (proj1 (wp_ok _ _ _) H)
    as (i & s' & _ & _ & R'). clear H.
  destruct (rep_lru _ _ _ _ R') as (l & Hd & Hp).
  assert (Hi : cm_held (hold i 5 (add_ref 5 (fresh_cache (fun n => [n])))) !! i = Some 5) by (cbn; by rewrite lookup_insert_eq).
  exists s', l, i. split_and!; [exact Hd| |].
  - by destruct (rep_held _ _ _ _ R' _ _ Hi) as ((_ & _ & ?) & _).
  - apply (cache_replaces_least_recently_used 7 1 s' _ l i 5 R' Hd Hp); [exact Hi|]. by vm_compute.
Defined.
