(* ===== verification/Virtio.v ===== *)
(** * The disk driver: kernel/virtio_disk.c, kernel/virtio.h

    The driver and the device share memory: a table of [NUM] descriptors, the
    ring in which the driver announces requests ([avail]) and the one in which
    the device reports the finished ones ([used]), the request headers, the
    status bytes and the data of the buffers.  Addresses in descriptors are the
    four kinds of object the driver points at ([daddr]).

    [virtio_disk_rw] and [virtio_disk_intr] are cut at the points where other
    code may run: the calls of [acquire] and [sleep], the two fences around the
    update of [avail->idx], and each iteration of the interrupt handler's loop.
    [pc] says where a thread is, [exec] is its next segment.  The device is a
    parameter ([VirtioDevice]) of which only the virtio specification is assumed
    ([vdev]); any number of threads, interrupts and device steps interleave in
    [vstep].  [virtio_disk_init] is modelled against the device registers. *)
From S2P Require Import Prelude Machine Memory Kalloc Bio.

(** ** kernel/virtio.h *)

Definition NUM : Z := 8.
Definition VRING_DESC_F_NEXT : Z := 1.
Definition VRING_DESC_F_WRITE : Z := 2.
Definition VIRTIO_BLK_T_IN : Z := 0.
Definition VIRTIO_BLK_T_OUT : Z := 1.

(** What a descriptor can point at: nothing, [&disk.ops[i]], [b->data] and
    [&disk.info[i].status]. *)
Inductive daddr : Type := ANull | AOps (i : Z) | AData (b : nat) | AStatus (i : Z).

Record virtq_desc : Type := Desc { addr : daddr; dlen : Z; dflags : Z; dnext : Z }.
Record virtq_avail : Type := Avail { a_flags : Z; a_idx : Z; a_ring : Z -> Z }.
Record virtq_used_elem : Type := UsedElem { uid : Z; ulen : Z }.
Record virtq_used : Type := Used { u_flags : Z; u_idx : Z; u_ring : Z -> virtq_used_elem }.
Record virtio_blk_req : Type := BlkReq { rtype : Z; reserved : Z; sector : Z }.
(** An element of [disk.info]. *)
Record vinfo : Type := Info { info_b : option nat; info_status : Z }.

(** [struct disk] without its lock. *)
Record vdisk : Type := Vdisk {
  desc : Z -> virtq_desc; avail : virtq_avail; used : virtq_used;
  free : Z -> Z; used_idx : Z; info : Z -> vinfo; ops : Z -> virtio_blk_req
}.

Definition fset {A} (f : Z -> A) (i : Z) (a : A) : Z -> A := fun j => if decide (j = i) then a else f j.

Definition set_desc (i : Z) (x : virtq_desc) (v : vdisk) : vdisk :=
  Vdisk (fset (desc v) i x) (avail v) (used v) (free v) (used_idx v) (info v) (ops v).
Definition set_avail (x : virtq_avail) (v : vdisk) : vdisk :=
  Vdisk (desc v) x (used v) (free v) (used_idx v) (info v) (ops v).
Definition set_used (x : virtq_used) (v : vdisk) : vdisk :=
  Vdisk (desc v) (avail v) x (free v) (used_idx v) (info v) (ops v).
Definition set_free (i x : Z) (v : vdisk) : vdisk :=
  Vdisk (desc v) (avail v) (used v) (fset (free v) i x) (used_idx v) (info v) (ops v).
Definition set_used_idx (x : Z) (v : vdisk) : vdisk :=
  Vdisk (desc v) (avail v) (used v) (free v) x (info v) (ops v).
Definition set_info_b (i : Z) (b : option nat) (v : vdisk) : vdisk :=
  Vdisk (desc v) (avail v) (used v) (free v) (used_idx v) (fset (info v) i (Info b (info_status (info v i)))) (ops v).
Definition set_info_status (i x : Z) (v : vdisk) : vdisk :=
  Vdisk (desc v) (avail v) (used v) (free v) (used_idx v) (fset (info v) i (Info (info_b (info v i)) x)) (ops v).
Definition set_ops (i : Z) (x : virtio_blk_req) (v : vdisk) : vdisk :=
  Vdisk (desc v) (avail v) (used v) (free v) (used_idx v) (info v) (fset (ops v) i x).

(** ** The device

    What the device can reach: the queue, the buffers, the interrupt-status
    register it sets, and whether it was notified and has not yet seen the
    available ring empty. *)
Record dmem : Type := Dmem { vd : vdisk; dbufs : nat -> buf; isr : Z; kick : bool }.

(** How far it has read the available ring, the chains it has taken, those
    whose transfer is done but not reported, and the medium by sectors. *)
Record devview : Type := Dev { last_avail : Z; pending : list Z; served : list Z; media : Z -> list Z }.

Definition SECTOR : Z := 512.
Fixpoint read_sectors (m : Z -> list Z) (s : Z) (n : nat) : list Z :=
  match n with O => [] | S n' => m s ++ read_sectors m (s + 1) n' end.
Fixpoint write_sectors (m : Z -> list Z) (s : Z) (n : nat) (d : list Z) : Z -> list Z :=
  match n with
  | O => m
  | S n' => write_sectors (fset m s (take (Z.to_nat SECTOR) d)) (s + 1) n' (drop (Z.to_nat SECTOR) d)
  end.

(** A block request: a header the device reads, the data, which it reads or
    writes according to the type, and the status byte, which it writes. *)
Record request : Type := Request { q_write : bool; q_sector : Z; q_buf : nat; q_status : Z }.
Definition parse_chain (v : vdisk) (h : Z) : option request :=
  let d0 := desc v h in
  let d1 := desc v (dnext d0) in
  let d2 := desc v (dnext d1) in
  match addr d0, addr d1, addr d2 with
  | AOps i, AData b, AStatus j =>
      if (dlen d0 =? 16) && (dflags d0 =? VRING_DESC_F_NEXT) && (dlen d1 =? BSIZE) && (dlen d2 =? 1)
         && (dflags d2 =? VRING_DESC_F_WRITE) then
        let r := ops v i in
        if (rtype r =? VIRTIO_BLK_T_OUT) && (dflags d1 =? VRING_DESC_F_NEXT) then
          Some (Request true (sector r) b j)
        else if (rtype r =? VIRTIO_BLK_T_IN) && (dflags d1 =? Z.lor VRING_DESC_F_WRITE VRING_DESC_F_NEXT) then
          Some (Request false (sector r) b j)
        else None
      else None
  | _, _, _ => None
  end.

Definition nsect : nat := Z.to_nat (BSIZE / SECTOR).
Definition transfer (q : request) (media : Z -> list Z) (bs : nat -> buf) : (Z -> list Z) * (nat -> buf) :=
  if q_write q then (write_sectors media (q_sector q) nsect (bdata (bs (q_buf q))), bs)
  else (media, st bs (q_buf q) (set_data (read_sectors media (q_sector q) nsect))).

(** The virtio specification of a block device, one step: it takes the next
    announced chain; transfers the data of a chain it has taken, in any order,
    and writes status 0, or reports an error leaving data alone; puts a finished
    chain in the used ring, advances the index and raises the interrupt; or
    finds the available ring empty.  Nothing is promised once a chain it has
    taken is not a block request; only a [faulty] device reports errors. *)
Inductive vdev (faulty : bool) : devview -> dmem -> devview -> dmem -> Prop :=
| dv_take d m :
    last_avail d <> a_idx (avail (vd m)) ->
    vdev faulty d m (Dev (u16 (last_avail d + 1)) (pending d ++ [a_ring (avail (vd m)) (last_avail d mod NUM)])
                  (served d) (media d)) m
| dv_ok d m p1 h p2 q :
    pending d = p1 ++ h :: p2 -> parse_chain (vd m) h = Some q ->
    vdev faulty d m (Dev (last_avail d) (p1 ++ p2) (served d ++ [h]) (transfer q (media d) (dbufs m)).1)
      (Dmem (set_info_status (q_status q) 0 (vd m)) (transfer q (media d) (dbufs m)).2 (isr m) (kick m))
| dv_err d m p1 h p2 q e :
    pending d = p1 ++ h :: p2 -> parse_chain (vd m) h = Some q -> faulty = true -> e <> 0 ->
    vdev faulty d m (Dev (last_avail d) (p1 ++ p2) (served d ++ [h]) (media d))
      (Dmem (set_info_status (q_status q) e (vd m)) (dbufs m) (isr m) (kick m))
| dv_bad d m p1 h p2 d' m' :
    pending d = p1 ++ h :: p2 -> parse_chain (vd m) h = None -> vdev faulty d m d' m'
| dv_use d m s1 h s2 len :
    served d = s1 ++ h :: s2 ->
    let u := used (vd m) in
    vdev faulty d m (Dev (last_avail d) (pending d) (s1 ++ s2) (media d))
      (Dmem (set_used (Used (u_flags u) (u16 (u_idx u + 1)) (fset (u_ring u) (u_idx u mod NUM) (UsedElem h len))) (vd m))
            (dbufs m) (Z.lor (isr m) 1) (kick m))
| dv_idle d m :
    last_avail d = a_idx (avail (vd m)) -> vdev faulty d m d (Dmem (vd m) (dbufs m) (isr m) false).

(** A device, and that it keeps to the specification. *)
Class VirtioDevice (D : Type) : Type := {
  dstep : D -> dmem -> D -> dmem -> Prop;
  dview : D -> devview;
  faulty : bool;
  dstep_conforms d m d' m' : dstep d m d' m' -> vdev faulty (dview d) m (dview d') m'
}.

(** ** Threads *)

Inductive pc : Type :=
| Out                                  (* neither in the driver nor in the handler *)
| RwAcquire (b : nat) (w : bool)       (* virtio_disk_rw(b, w), at acquire *)
| RwAlloc (b : nat) (w : bool)         (* holds the lock, at alloc3_desc *)
| RwSleepFree (b : nat) (w : bool)     (* asleep on &disk.free[0] *)
| RwWakeFree (b : nat) (w : bool)      (* woken, sleep takes the lock again *)
| RwPublish (b : nat) (w : bool) (i : Z)   (* before disk.avail->idx += 1 *)
| RwNotify (b : nat) (w : bool) (i : Z)    (* before the write to QUEUE_NOTIFY *)
| RwTest (b : nat) (w : bool) (i : Z)      (* at while(b->disk == 1) *)
| RwSleepBuf (b : nat) (w : bool) (i : Z)  (* asleep on b *)
| RwWakeBuf (b : nat) (w : bool) (i : Z)   (* woken, sleep takes the lock again *)
| IntrAcquire                          (* virtio_disk_intr, at acquire *)
| IntrAck                              (* before the write to INTERRUPT_ACK *)
| IntrLoop.                            (* at while(disk.used_idx != disk.used->idx) *)

Inductive chan : Type := CFree | CBuf (b : nat).

Definition wake_pc (c : chan) (p : pc) : pc :=
  match c, p with
  | CFree, RwSleepFree b w => RwWakeFree b w
  | CBuf b', RwSleepBuf b w i => if decide (b = b') then RwWakeBuf b w i else p
  | _, _ => p
  end.

(** Calls, returns and stores to buffers not in use, as seen from outside. *)
Inductive event : Type :=
| ECall (t b : nat) (w : bool)
| ERet (t b : nat) (w : bool)
| EStore (b : nat) (x : buf).

Record sys (D : Type) : Type := Sys {
  mem : dmem; bdisk : nat -> Z; vdisk_lock : option nat; pcs : nat -> pc; dev : D
}.
Arguments Sys {D}.
Arguments mem {D}.
Arguments bdisk {D}.
Arguments vdisk_lock {D}.
Arguments pcs {D}.
Arguments dev {D}.

Section Driver.
Context {D : Type}.
Abbreviation sys := (sys D).

Definition nset {A} (f : nat -> A) (i : nat) (a : A) : nat -> A := fun j => if decide (j = i) then a else f j.
Definition on_vd (f : vdisk -> vdisk) (s : sys) : sys :=
  Sys (Dmem (f (vd (mem s))) (dbufs (mem s)) (isr (mem s)) (kick (mem s))) (bdisk s) (vdisk_lock s) (pcs s) (dev s).
Definition on_mem (m : dmem) (s : sys) : sys := Sys m (bdisk s) (vdisk_lock s) (pcs s) (dev s).
Definition on_bdisk (b : nat) (x : Z) (s : sys) : sys :=
  Sys (mem s) (nset (bdisk s) b x) (vdisk_lock s) (pcs s) (dev s).
Definition on_lock (l : option nat) (s : sys) : sys := Sys (mem s) (bdisk s) l (pcs s) (dev s).
Definition on_pcs (f : nat -> pc) (s : sys) : sys := Sys (mem s) (bdisk s) (vdisk_lock s) f (dev s).

Definition rdv {A} (f : vdisk -> A) : M sys A := gets (fun s => f (vd (mem s))).
Definition wrv (f : vdisk -> vdisk) : M sys unit := modify (on_vd f).
Definition goto (t : nat) (p : pc) : M sys unit := modify (fun s => on_pcs (nset (pcs s) t p) s).
Definition wakeup (c : chan) : M sys unit := modify (fun s => on_pcs (fun t => wake_pc c (pcs s t)) s).
(** [acquire]: spins while another thread holds the lock. *)
Definition acquire (t : nat) : M sys unit :=
  let! l := gets vdisk_lock in
  match l with None => modify (on_lock (Some t)) | Some _ => sleep_on 0 end.
Definition release : M sys unit := modify (on_lock None).
(** An array access of the code is inside its array. *)
Definition index (i : Z) : M sys unit := if (0 <=? i) && (i <? NUM) then ret tt else panic "index out of bounds".

(** ** Descriptors *)

Fixpoint alloc_desc_loop (n : nat) (i : Z) : M sys Z :=
  match n with
  | O => ret (-1)
  | S n' =>
      let! f := rdv (fun v => free v i) in
      if c_true f then wrv (set_free i 0) ;; ret i else alloc_desc_loop n' (i + 1)
  end.
Definition alloc_desc : M sys Z := alloc_desc_loop (Z.to_nat NUM) 0.

Definition free_desc (i : Z) : M sys unit :=
  if NUM <=? i then panic "free_desc 1"
  else
    index i ;;
    let! f := rdv (fun v => free v i) in
    if c_true f then panic "free_desc 2"
    else
      wrv (set_desc i (Desc ANull 0 0 0)) ;;
      wrv (set_free i 1) ;;
      wakeup CFree.

Fixpoint free_chain_loop (fuel : nat) (i : Z) : M sys unit :=
  match fuel with
  | O => out_of_fuel
  | S f =>
      index i ;;
      let! flag := rdv (fun v => dflags (desc v i)) in
      let! nxt := rdv (fun v => dnext (desc v i)) in
      free_desc i ;;
      if c_true (Z.land flag VRING_DESC_F_NEXT) then free_chain_loop f nxt else ret tt
  end.
Definition free_chain (i : Z) : M sys unit := free_chain_loop (Z.to_nat NUM) i.

Fixpoint free_descs (l : list Z) : M sys unit :=
  match l with [] => ret tt | i :: l' => free_desc i ;; free_descs l' end.
(** The result, and the entries of [idx] written. *)
Fixpoint alloc3_desc_loop (n : nat) (idx : list Z) : M sys (Z * list Z) :=
  match n with
  | O => ret (0, idx)
  | S n' =>
      let! i := alloc_desc in
      if i <? 0 then free_descs idx ;; ret (-1, idx) else alloc3_desc_loop n' (idx ++ [i])
  end.
Definition alloc3_desc : M sys (Z * list Z) := alloc3_desc_loop 3 [].

(** ** virtio_disk_rw *)

(** From the formatting of the descriptors to the store into the available ring. *)
Definition rw_format (b : nat) (write : bool) (i0 i1 i2 : Z) : M sys unit :=
  let! n := gets (fun s => blockno (dbufs (mem s) b)) in
  let sector := u32 (n * (BSIZE / 512)) in
  wrv (set_ops i0 (BlkReq (if write then VIRTIO_BLK_T_OUT else VIRTIO_BLK_T_IN) 0 sector)) ;;
  wrv (set_desc i0 (Desc (AOps i0) 16 VRING_DESC_F_NEXT i1)) ;;
  wrv (set_desc i1 (Desc (AData b) BSIZE
                      (Z.lor (if write then 0 else VRING_DESC_F_WRITE) VRING_DESC_F_NEXT) i2)) ;;
  wrv (set_info_status i0 255) ;;
  wrv (set_desc i2 (Desc (AStatus i0) 1 VRING_DESC_F_WRITE 0)) ;;
  modify (on_bdisk b 1) ;;
  wrv (set_info_b i0 (Some b)) ;;
  wrv (fun v => let a := avail v in
                set_avail (Avail (a_flags a) (a_idx a) (fset (a_ring a) (a_idx a mod NUM) i0)) v).

(** One turn of the loop around [alloc3_desc]. *)
Definition rw_alloc (t b : nat) (write : bool) : M sys unit :=
  let! '(r, idx) := alloc3_desc in
  match idx with
  | [i0; i1; i2] =>
      if r =? 0 then rw_format b write i0 i1 i2 ;; goto t (RwPublish b write i0)
      else release ;; goto t (RwSleepFree b write)
  | _ => release ;; goto t (RwSleepFree b write)
  end.

Definition rw_publish : M sys unit :=
  wrv (fun v => let a := avail v in set_avail (Avail (a_flags a) (u16 (a_idx a + 1)) (a_ring a)) v).

Definition rw_notify : M sys unit :=
  modify (fun s => on_mem (Dmem (vd (mem s)) (dbufs (mem s)) (isr (mem s)) true) s).

(** One test of the waiting loop, and what follows when the request is done;
    the result tells whether the call returns. *)
Definition rw_wait (t b : nat) (write : bool) (i0 : Z) : M sys bool :=
  let! d := gets (fun s => bdisk s b) in
  if d =? 1 then release ;; goto t (RwSleepBuf b write i0) ;; ret false
  else
    wrv (set_info_b i0 None) ;;
    free_chain i0 ;;
    release ;;
    goto t Out ;;
    ret true.

(** ** virtio_disk_intr *)

(** Acknowledging clears the bits written in the status register. *)
Definition intr_ack : M sys unit :=
  modify (fun s => on_mem (Dmem (vd (mem s)) (dbufs (mem s))
                                (Z.land (isr (mem s)) (Z.lnot (Z.land (isr (mem s)) 3))) (kick (mem s))) s).

(** One test of the loop over the used ring, with its body. *)
Definition intr_loop (t : nat) : M sys unit :=
  let! v := rdv id in
  if used_idx v =? u_idx (used v) then release ;; goto t Out
  else
    let id := i32 (uid (u_ring (used v) (used_idx v mod NUM))) in
    index id ;;
    if c_true (info_status (info v id)) then panic "virtio_disk_intr status"
    else
      match info_b (info v id) with
      | None => panic "null pointer"
      | Some b =>
          modify (on_bdisk b 0) ;;
          wakeup (CBuf b) ;;
          wrv (fun v => set_used_idx (u16 (used_idx v + 1)) v)
      end.

(** The next segment of thread [t]. *)
Definition exec (t : nat) : M sys (option event) :=
  let! p := gets (fun s => pcs s t) in
  match p with
  | Out | RwSleepFree _ _ | RwSleepBuf _ _ _ => sleep_on 0
  | RwAcquire b w | RwWakeFree b w => acquire t ;; goto t (RwAlloc b w) ;; ret None
  | RwAlloc b w => rw_alloc t b w ;; ret None
  | RwPublish b w i => rw_publish ;; goto t (RwNotify b w i) ;; ret None
  | RwNotify b w i => rw_notify ;; goto t (RwTest b w i) ;; ret None
  | RwWakeBuf b w i => acquire t ;; goto t (RwTest b w i) ;; ret None
  | RwTest b w i => let! r := rw_wait t b w i in ret (if r : bool then Some (ERet t b w) else None)
  | IntrAcquire => acquire t ;; goto t IntrAck ;; ret None
  | IntrAck => intr_ack ;; goto t IntrLoop ;; ret None
  | IntrLoop => intr_loop t ;; ret None
  end.

(** ** The system *)

(** The buffer a thread was called with. *)
Definition pc_buf (p : pc) : option nat :=
  match p with
  | RwAcquire b _ | RwAlloc b _ | RwSleepFree b _ | RwWakeFree b _
  | RwPublish b _ _ | RwNotify b _ _ | RwTest b _ _ | RwSleepBuf b _ _ | RwWakeBuf b _ _ => Some b
  | Out | IntrAcquire | IntrAck | IntrLoop => None
  end.

(** The callers hold the buffer's sleep-lock, so a buffer is passed to one call
    at a time and nobody else stores to it; its block is on a disk of less than
    2^31 blocks. *)
Definition unused (s : sys) (b : nat) : Prop := forall t, pc_buf (pcs s t) <> Some b.
Definition buf_ok (x : buf) : Prop := 0 <= blockno x < 2 ^ 31 /\ length (bdata x) = Z.to_nat BSIZE.

Inductive vstep `{VirtioDevice D} (s : sys) : option event -> sys -> Prop :=
| v_call t b w :
    pcs s t = Out -> unused s b -> buf_ok (dbufs (mem s) b) ->
    vstep s (Some (ECall t b w)) (on_pcs (nset (pcs s) t (RwAcquire b w)) s)
| v_store b x :
    unused s b ->
    vstep s (Some (EStore b x))
      (on_mem (Dmem (vd (mem s)) (st (dbufs (mem s)) b (fun _ => x)) (isr (mem s)) (kick (mem s))) s)
| v_interrupt t :
    pcs s t = Out -> vstep s None (on_pcs (nset (pcs s) t IntrAcquire) s)
| v_exec t e s' :
    exec t s = Ok (e, s') -> vstep s e s'
| v_device d' m' :
    dstep (dev s) (mem s) d' m' ->
    vstep s None (Sys m' (bdisk s) (vdisk_lock s) (pcs s) d').

End Driver.

(** Runs and their visible events. *)
Inductive traces {S E : Type} (R : S -> option E -> S -> Prop) : S -> list E -> S -> Prop :=
| tr_nil s : traces R s [] s
| tr_snoc s tr s1 e s2 : traces R s tr s1 -> R s1 e s2 -> traces R s (tr ++ option_list e) s2.

(** ** virtio_disk_init *)

(** The registers of the memory-mapped interface. *)
Inductive vreg : Type :=
| MAGIC_VALUE | VERSION | DEVICE_ID | VENDOR_ID | DEVICE_FEATURES | DRIVER_FEATURES
| QUEUE_SEL | QUEUE_NUM_MAX | QUEUE_NUM | QUEUE_READY | QUEUE_NOTIFY | INTERRUPT_STATUS | INTERRUPT_ACK | STATUS
| QUEUE_DESC_LOW | QUEUE_DESC_HIGH | DRIVER_DESC_LOW | DRIVER_DESC_HIGH | DEVICE_DESC_LOW | DEVICE_DESC_HIGH.
Definition vreg_offset (r : vreg) : Z :=
  match r with
  | MAGIC_VALUE => 0 | VERSION => 4 | DEVICE_ID => 8 | VENDOR_ID => 12 | DEVICE_FEATURES => 16 | DRIVER_FEATURES => 32
  | QUEUE_SEL => 48 | QUEUE_NUM_MAX => 52 | QUEUE_NUM => 56 | QUEUE_READY => 68 | QUEUE_NOTIFY => 80
  | INTERRUPT_STATUS => 96 | INTERRUPT_ACK => 100 | STATUS => 112
  | QUEUE_DESC_LOW => 128 | QUEUE_DESC_HIGH => 132 | DRIVER_DESC_LOW => 144 | DRIVER_DESC_HIGH => 148
  | DEVICE_DESC_LOW => 160 | DEVICE_DESC_HIGH => 164
  end.
Definition R (r : vreg) : Z := VIRTIO0 + vreg_offset r.

Definition S_ACKNOWLEDGE : Z := 1.
Definition S_DRIVER : Z := 2.
Definition S_DRIVER_OK : Z := 4.
Definition S_FEATURES_OK : Z := 8.

(** The features the driver refuses, by bit: RO, SCSI, CONFIG_WCE, MQ,
    ANY_LAYOUT, EVENT_IDX and INDIRECT_DESC. *)
Definition refused : list Z := [5; 7; 11; 12; 27; 29; 28].

(** The writes to the registers so far, newest last; the pages of the queue. *)
Record vinit : Type := Vinit {
  wlog : list (Z * Z); vkmem : kmem; q_desc : Z; q_avail : Z; q_used : Z; vfree : Z -> Z
}.

Section Init.
Context `{KI : KernelImage}.
(** What the device answers to a read of a register, after these writes. *)
Context (mmio : list (Z * Z) -> Z -> Z).

Definition rdr (r : vreg) : M vinit Z := gets (fun s => mmio (wlog s) (R r)).
Definition wrr (r : vreg) (x : Z) : M vinit unit :=
  modify (fun s => Vinit (wlog s ++ [(R r, u32 x)]) (vkmem s) (q_desc s) (q_avail s) (q_used s) (vfree s)).
Definition vkalloc : M vinit Z :=
  zoom vkmem (fun k s => Vinit (wlog s) k (q_desc s) (q_avail s) (q_used s) (vfree s)) kalloc.
Definition zero_page (p : Z) : M vinit unit :=
  modify (fun s => Vinit (wlog s) (set_phys (fill_range (phys (vkmem s)) p 0 PGSIZE) (vkmem s)) (q_desc s) (q_avail s) (q_used s) (vfree s)).
Definition set_queue (d a u : Z) : M vinit unit :=
  modify (fun s => Vinit (wlog s) (vkmem s) d a u (vfree s)).
Fixpoint free_all (n : nat) (i : Z) : M vinit unit :=
  match n with
  | O => ret tt
  | S n' => modify (fun s => Vinit (wlog s) (vkmem s) (q_desc s) (q_avail s) (q_used s) (fset (vfree s) i 1)) ;; free_all n' (i + 1)
  end.

(** Reset, acknowledge and feature negotiation; the result is [status]. *)
Definition negotiate : M vinit Z :=
  wrr STATUS 0 ;;
  wrr STATUS S_ACKNOWLEDGE ;;
  let status := Z.lor S_ACKNOWLEDGE S_DRIVER in
  wrr STATUS status ;;
  let! features := rdr DEVICE_FEATURES in
  wrr DRIVER_FEATURES (fold_left (fun f b => Z.land f (Z.lnot (Z.shiftl 1 b))) refused features) ;;
  wrr STATUS (Z.lor status S_FEATURES_OK) ;;
  let! status := rdr STATUS in
  if negb (c_true (Z.land status S_FEATURES_OK)) then panic "virtio disk FEATURES_OK unset" else ret status.

Definition virtio_disk_init : M vinit unit :=
  let! magic := rdr MAGIC_VALUE in
  let! version := rdr VERSION in
  let! device := rdr DEVICE_ID in
  let! vendor := rdr VENDOR_ID in
  if negb (magic =? 1953655158) || negb (version =? 2) || negb (device =? 2) || negb (vendor =? 1431127377)
  then panic "could not find virtio disk"
  else
    let! status := negotiate in
    wrr QUEUE_SEL 0 ;;
    let! ready := rdr QUEUE_READY in
    if c_true ready then panic "virtio disk should not be ready"
    else
      let! max := rdr QUEUE_NUM_MAX in
      if max =? 0 then panic "virtio disk has no queue 0"
      else if max <? NUM then panic "virtio disk max queue too short"
      else
        let! d := vkalloc in
        let! a := vkalloc in
        let! u := vkalloc in
        set_queue d a u ;;
        if negb (c_true d) || negb (c_true a) || negb (c_true u) then panic "virtio disk kalloc"
        else
          zero_page d ;; zero_page a ;; zero_page u ;;
          wrr QUEUE_NUM NUM ;;
          wrr QUEUE_DESC_LOW d ;;
          wrr QUEUE_DESC_HIGH (Z.shiftr d 32) ;;
          wrr DRIVER_DESC_LOW a ;;
          wrr DRIVER_DESC_HIGH (Z.shiftr a 32) ;;
          wrr DEVICE_DESC_LOW u ;;
          wrr DEVICE_DESC_HIGH (Z.shiftr u 32) ;;
          wrr QUEUE_READY 1 ;;
          free_all (Z.to_nat NUM) 0 ;;
          wrr STATUS (Z.lor status S_DRIVER_OK).

(** A device that is what the driver looks for: its identity, a queue that is
    not in use and long enough, and FEATURES_OK kept after negotiation. *)
Definition log1 : list (Z * Z) := [(R STATUS, 0); (R STATUS, 1); (R STATUS, 3)].
Definition accepted : Z := fold_left (fun f b => Z.land f (Z.lnot (Z.shiftl 1 b))) refused (mmio log1 (R DEVICE_FEATURES)).
Definition log2 : list (Z * Z) := log1 ++ [(R DRIVER_FEATURES, u32 accepted); (R STATUS, 11)].
Definition log3 : list (Z * Z) := log2 ++ [(R QUEUE_SEL, 0)].
Record qualified : Prop := {
  ql_magic : mmio [] (R MAGIC_VALUE) = 1953655158; ql_version : mmio [] (R VERSION) = 2;
  ql_device : mmio [] (R DEVICE_ID) = 2; ql_vendor : mmio [] (R VENDOR_ID) = 1431127377;
  ql_features : Z.land (mmio log2 (R STATUS)) S_FEATURES_OK <> 0;
  ql_ready : mmio log3 (R QUEUE_READY) = 0; ql_max : NUM <= mmio log3 (R QUEUE_NUM_MAX)
}.

Lemma free_all_wp n i s :
  wp (free_all n i) (fun _ s' =>
    wlog s' = wlog s /\ vkmem s' = vkmem s /\ q_desc s' = q_desc s /\ q_avail s' = q_avail s /\ q_used s' = q_used s /\
    forall j, vfree s' j = if decide (i <= j < i + Z.of_nat n) then 1 else vfree s j) s.
Proof.
  revert i s. induction n as [|n IH]; intros i s; cbn [free_all]; wp_steps.
  { split_and!; try done. intros j. by rewrite decide_False by lia. }
  eapply wp_mono; [apply IH|]. cbn [wlog vkmem q_desc q_avail q_used vfree].
  intros _ s' (->&->&->&->&->&Hf). split_and!; try done. intros j. rewrite Hf. unfold fset. repeat case_decide; lia || done.
Qed.

Context {KIO : KernelImageOk}.

Lemma negotiate_wp s :
  qualified -> wlog s = [] ->
  wp negotiate (fun st s' => st = mmio log2 (R STATUS) /\
    s' = Vinit log2 (vkmem s) (q_desc s) (q_avail s) (q_used s) (vfree s)) s.
Proof.
  intros HQ Hw. unfold negotiate, rdr, wrr. wp_steps. cbn [wlog vkmem q_desc q_avail q_used vfree]. rewrite Hw. cbn [app].
  change [(R STATUS, u32 0); (R STATUS, u32 S_ACKNOWLEDGE); (R STATUS, u32 (Z.lor S_ACKNOWLEDGE S_DRIVER))] with log1.
  fold accepted.
  change ((R STATUS, u32 0) :: (R STATUS, u32 S_ACKNOWLEDGE) :: (R STATUS, u32 (Z.lor S_ACKNOWLEDGE S_DRIVER)) ::
    (R DRIVER_FEATURES, u32 accepted) :: [(R STATUS, u32 (Z.lor (Z.lor S_ACKNOWLEDGE S_DRIVER) S_FEATURES_OK))]) with log2.
  unfold c_true. rewrite (proj2 (Z.eqb_neq _ _) (ql_features HQ)). cbn [negb]. by wp_steps.
Qed.

Lemma zeroed_pages m d a u p x :
  p = d \/ p = a \/ p = u -> in_page p x ->
  fill_range (fill_range (fill_range m d 0 PGSIZE) a 0 PGSIZE) u 0 PGSIZE x = 0.
Proof.
  intros Hp Hx. assert (forall m q y, in_page q y \/ m y = 0 -> fill_range m q 0 PGSIZE y = 0) as H.
  { intros m' q y [Hy|Hy]; [by rewrite fill_range_in|]. unfold fill_range. by case_match. }
  destruct Hp as [->|[->| ->]]; repeat (apply H; (by left) || right).
Qed.

(** [virtio_disk_init] on a qualified device with three free pages: it takes the
    three pages for the queue, zeroes them, tells the device where they are in
    the order the specification asks for, and leaves every descriptor free. *)
Theorem virtio_disk_init_ready (s : vinit) (d a u : Z) (l : list Z) :
  qualified -> wlog s = [] -> kmem_inv (vkmem s) (d :: a :: u :: l) ->
  wp virtio_disk_init (fun _ s' =>
    (q_desc s', q_avail s', q_used s') = (d, a, u) /\ kmem_inv (vkmem s') l /\
    (forall p x, p = d \/ p = a \/ p = u -> in_page p x -> phys (vkmem s') x = 0) /\
    (forall i, 0 <= i < NUM -> vfree s' i = 1) /\
    wlog s' = log3 ++ [(R QUEUE_NUM, NUM);
      (R QUEUE_DESC_LOW, u32 d); (R QUEUE_DESC_HIGH, Z.shiftr d 32);
      (R DRIVER_DESC_LOW, u32 a); (R DRIVER_DESC_HIGH, Z.shiftr a 32);
      (R DEVICE_DESC_LOW, u32 u); (R DEVICE_DESC_HIGH, Z.shiftr u 32);
      (R QUEUE_READY, 1); (R STATUS, u32 (Z.lor (mmio log2 (R STATUS)) S_DRIVER_OK))]) s.
Proof.
  intros HQ Hw Hk. unfold virtio_disk_init, rdr. wp_steps. rewrite Hw, (ql_magic HQ), (ql_version HQ), (ql_device HQ), (ql_vendor HQ).
  cbn [Z.eqb Pos.eqb negb orb]. wp_step. eapply wp_mono; [by apply negotiate_wp|]. cbn beta. intros st s1 [-> ->].
  unfold wrr. wp_steps. cbn [wlog vkmem q_desc q_avail q_used vfree]. change (log2 ++ [(R QUEUE_SEL, u32 0)]) with log3.
  rewrite (ql_ready HQ). cbn [c_true Z.eqb negb]. wp_steps. cbn [wlog vkmem q_desc q_avail q_used vfree]. pose proof (ql_max HQ).
  rewrite (proj2 (Z.eqb_neq _ 0)), (proj2 (Z.ltb_ge _ NUM)) by (unfold NUM in *; lia).
  pose proof (ki_valid _ _ Hk) as Hv. pose proof (ki_nodup _ _ Hk) as Hn. rewrite !Forall_cons in Hv. destruct Hv as (Vd&Va&Vu&_).
  unfold vkalloc. wp_steps. eapply wp_mono; [by apply kalloc_wp|]. cbn [vkmem]. cbn beta. intros ? k1 (->&K1&F1&_).
  wp_steps. eapply wp_mono; [by apply kalloc_wp|]. cbn [vkmem]. cbn beta. intros ? k2 (->&K2&F2&_).
  wp_steps. eapply wp_mono; [by apply kalloc_wp|]. cbn [vkmem]. cbn beta. intros ? k3 (->&K3&F3&_).
  unfold set_queue, zero_page. wp_steps. pose proof (valid_page_range _ Vd). pose proof (valid_page_range _ Va). pose proof (valid_page_range _ Vu).
  unfold c_true. rewrite !(proj2 (Z.eqb_neq _ 0)) by lia. cbn [negb orb].
  repeat (wp_step; cbn [wlog vkmem q_desc q_avail q_used vfree]).
  eapply wp_mono; [apply free_all_wp|]. cbn [wlog vkmem q_desc q_avail q_used vfree]. intros _ s' (Ew&Ek&Ed&Ea&Eu&Hf).
  wp_steps. cbn [wlog vkmem q_desc q_avail q_used vfree]. rewrite Ew, Ek, Ed, Ea, Eu. cbn [phys set_phys]. split_and!; [done|..].
  - apply (kmem_inv_frame (fun p => p = d \/ p = a \/ p = u) (set_phys (phys k3) k3)).
    + cbn [phys set_phys]. eapply frame_trans; [|eapply frame_trans]; (eapply frame_mono; [|apply frame_fill]); cbn; intros ? <-; auto.
    + intros p [->|[->| ->]]; done.
    + intros p Hp [->|[->| ->]]; rewrite !NoDup_cons in Hn; set_solver.
    + by destruct k3.
  - intros p x Hp Hx. by eapply zeroed_pages.
  - intros i Hi. rewrite Hf, decide_True; [done|unfold NUM in *; lia].
  - assert (forall p, valid_page p -> u32 (p ≫ 32) = p ≫ 32) as Hhi.
    { intros p Hp%valid_page_range. apply u32_id. rewrite Z.shiftr_div_pow2 by lia. unfold is_u32, is_u64 in *. 
      split; [apply Z.div_pos; lia|]. apply Z.div_lt_upper_bound; lia. }
    rewrite !Hhi by done. by rewrite <- !app_assoc.
Qed.
End Init.
