(* ===== verification/VirtioProps.v ===== *)
(** * Correctness of the disk driver

    The contract of [virtio_disk_rw] that the buffer cache relies on
    ([Bio.virtio_disk_rw]) is a machine whose calls transfer their block in one
    atomic step between call and return ([astep]).  Every run of driver, threads,
    interrupts and device is a run of that machine with the same calls, returns
    and stores.  The simulation carries the driver's invariant: the descriptors
    are partitioned among the requests in flight and the free ones, each request
    is in exactly one phase of its life ([ghost]), the rings hold the announced
    and the finished requests in order, and whoever sleeps will be woken. *)
From S2P Require Import Prelude Machine Spinlock Bio Virtio.

(** ** The contract *)

Inductive tstat : Type := TIdle | TCalled (b : nat) (w : bool) | TDone (b : nat) (w : bool).
Definition tbuf (a : tstat) : option nat :=
  match a with TIdle => None | TCalled b _ | TDone b _ => Some b end.
Record aspec : Type := ASpec { abst : bst; athr : nat -> tstat }.

Definition aunused (a : aspec) (b : nat) : Prop := forall t, tbuf (athr a t) <> Some b.

Inductive astep (a : aspec) : option event -> aspec -> Prop :=
| a_call t b w :
    athr a t = TIdle -> aunused a b -> buf_ok (bufs (abst a) b) ->
    astep a (Some (ECall t b w)) (ASpec (abst a) (nset (athr a) t (TCalled b w)))
| a_transfer t b w s' :
    athr a t = TCalled b w -> virtio_disk_rw b w (abst a) = Ok (tt, s') ->
    astep a None (ASpec s' (nset (athr a) t (TDone b w)))
| a_return t b w :
    athr a t = TDone b w ->
    astep a (Some (ERet t b w)) (ASpec (abst a) (nset (athr a) t TIdle))
| a_store b x :
    aunused a b ->
    astep a (Some (EStore b x))
      (ASpec (Bst (st (bufs (abst a)) b (fun _ => x)) (disk (abst a)) (trace (abst a))) (athr a)).

(** ** Requests in flight *)

Record rq : Type := Rq { rt : nat; rb : nat; rw : bool; r0 : Z; r1 : Z; r2 : Z }.
#[global] Instance rq_eq : EqDecision rq.
Proof. solve_decision. Defined.
Definition idxs (r : rq) : list Z := [r0 r; r1 r; r2 r].

(** Formatted, announced, taken by the device, transferred, reported in the used
    ring, and seen by the interrupt handler. *)
Inductive phase : Type := Fmt | Announced | Taken | Served | Reported | Done.
#[global] Instance phase_eq : EqDecision phase.
Proof. solve_decision. Defined.
Record ghost : Type := G { gF : list rq; gA : list rq; gP : list rq; gS : list rq; gU : list rq; gD : list rq }.
Definition glist (g : ghost) (p : phase) : list rq :=
  match p with Fmt => gF g | Announced => gA g | Taken => gP g | Served => gS g | Reported => gU g | Done => gD g end.
Definition all (g : ghost) : list rq := gF g ++ gA g ++ gP g ++ gS g ++ gU g ++ gD g.

Definition pc_req (p : pc) : option (nat * bool * Z) :=
  match p with
  | RwPublish b w i | RwNotify b w i | RwTest b w i | RwSleepBuf b w i | RwWakeBuf b w i => Some (b, w, i)
  | _ => None
  end.
Definition holds (p : pc) : bool :=
  match p with RwAlloc _ _ | RwPublish _ _ _ | RwNotify _ _ _ | RwTest _ _ _ | IntrAck | IntrLoop => true | _ => false end.
Definition is_publish (p : pc) : bool := match p with RwPublish _ _ _ => true | _ => false end.
Definition is_sleepbuf (p : pc) : bool := match p with RwSleepBuf _ _ _ => true | _ => false end.

Definition chain_ok (v : vdisk) (bs : nat -> buf) (r : rq) : Prop :=
  desc v (r0 r) = Desc (AOps (r0 r)) 16 VRING_DESC_F_NEXT (r1 r) /\
  desc v (r1 r) = Desc (AData (rb r)) BSIZE (Z.lor (if rw r then 0 else VRING_DESC_F_WRITE) VRING_DESC_F_NEXT) (r2 r) /\
  desc v (r2 r) = Desc (AStatus (r0 r)) 1 VRING_DESC_F_WRITE 0 /\
  ops v (r0 r) = BlkReq (if rw r then VIRTIO_BLK_T_OUT else VIRTIO_BLK_T_IN) 0 (u32 (blockno (bs (rb r)) * (BSIZE / 512))) /\
  info_b (info v (r0 r)) = Some (rb r).

Definition done_stat (v : vdisk) (r : rq) (p : phase) : tstat :=
  match p with
  | Fmt | Announced | Taken => TCalled (rb r) (rw r)
  | Served | Reported => if info_status (info v (r0 r)) =? 0 then TDone (rb r) (rw r) else TCalled (rb r) (rw r)
  | Done => TDone (rb r) (rw r)
  end.

Record req_ok (v : vdisk) (bs : nat -> buf) (bd : nat -> Z) (p : pc) (a : tstat) (ph : phase) (r : rq) : Prop := {
  rk_chain : chain_ok v bs r;
  rk_pc : pc_req p = Some (rb r, rw r, r0 r);
  rk_fmt : is_publish p = bool_decide (ph = Fmt);
  rk_awake : ph = Done -> is_sleepbuf p = false;
  rk_disk : bd (rb r) = if decide (ph = Done) then 0 else 1;
  rk_stat : a = done_stat v r ph
}.

(** ** The invariant, by what it is about *)

Definition idle_stat (p : pc) : option tstat :=
  match p with
  | Out | IntrAcquire | IntrAck | IntrLoop => Some TIdle
  | RwAcquire b w | RwAlloc b w | RwSleepFree b w | RwWakeFree b w => Some (TCalled b w)
  | _ => None
  end.

Record thr_inv (l : option nat) (ps : nat -> pc) (at_ : nat -> tstat) (bs : nat -> buf) (L : list rq) : Prop := {
  t_lock : forall t, holds (ps t) = true <-> l = Some t;
  t_users : forall t t' b, pc_buf (ps t) = Some b -> pc_buf (ps t') = Some b -> t = t';
  t_idle : forall t a, idle_stat (ps t) = Some a -> at_ t = a;
  t_active : forall t x, pc_req (ps t) = Some x -> t ∈ (rt <$> L);
  t_nodup : NoDup (rt <$> L);
  t_bufs : forall t b, pc_buf (ps t) = Some b -> buf_ok (bs b)
}.

Record desc_inv (fr : Z -> Z) (L : list rq) : Prop := {
  d_nodup : NoDup (L ≫= idxs);
  d_range : Forall (fun i => 0 <= i < NUM) (L ≫= idxs);
  d_free : forall i, 0 <= i < NUM -> fr i = if decide (i ∈ (L ≫= idxs)) then 0 else 1
}.

Definition req_inv (v : vdisk) (bs : nat -> buf) (bd : nat -> Z) (ps : nat -> pc) (at_ : nat -> tstat) (g : ghost) : Prop :=
  forall ph r, r ∈ glist g ph -> req_ok v bs bd (ps (rt r)) (at_ (rt r)) ph r.

Definition slots (ring : Z -> Z) (start : Z) (l : list rq) : Prop :=
  forall k r, l !! k = Some r -> ring ((start + Z.of_nat k) mod NUM) = r0 r.

Record ring_inv (a : virtq_avail) (u : virtq_used) (ui : Z) (d : devview) (g : ghost) : Prop := {
  q_avail : a_idx a = u16 (last_avail d + Z.of_nat (length (gA g)));
  q_last : u16 (last_avail d) = last_avail d;
  q_aslots : slots (a_ring a) (last_avail d) (gA g);
  q_fmt : forall r, r ∈ gF g -> a_ring a (a_idx a mod NUM) = r0 r;
  q_pending : pending d = r0 <$> gP g;
  q_served : served d = r0 <$> gS g;
  q_used : u_idx u = u16 (ui + Z.of_nat (length (gU g)));
  q_ui : u16 ui = ui;
  q_uslots : slots (fun i => uid (u_ring u i)) ui (gU g)
}.

Record wake_inv (i : Z) (k : bool) (ps : nat -> pc) (g : ghost) : Prop := {
  w_isr : gU g <> [] -> Z.testbit i 0 = true \/ exists t, ps t = IntrLoop;
  w_kick : gA g <> [] -> k = true \/ exists t b w j, ps t = RwNotify b w j;
  w_free : forall t b w, ps t = RwSleepFree b w -> (2 <= length (all g))%nat
}.

Record data_inv (b : bst) (bs : nat -> buf) (m : Z -> list Z) : Prop := {
  m_bufs : bufs b = bs;
  m_disk : forall n, 0 <= n < 2 ^ 31 -> disk b n = read_sectors m (2 * n) nsect;
  m_sector : forall n, length (m n) = Z.to_nat SECTOR
}.

(** ** Facts about the parts *)

Lemma fset_eq {A} (f : Z -> A) i a : fset f i a i = a.
Proof. unfold fset. by rewrite decide_True. Qed.
Lemma fset_ne {A} (f : Z -> A) i j a : j <> i -> fset f i a j = f j.
Proof. intros. unfold fset. by rewrite decide_False. Qed.
Lemma nset_eq {A} (f : nat -> A) i a : nset f i a i = a.
Proof. unfold nset. by rewrite decide_True. Qed.
Lemma nset_ne {A} (f : nat -> A) i j a : j <> i -> nset f i a j = f j.
Proof. intros. unfold nset. by rewrite decide_False. Qed.

Lemma elem_of_all g r : r ∈ all g <-> exists ph, r ∈ glist g ph.
Proof.
  unfold all. rewrite !elem_of_app. split.
  - intros [?|[?|[?|[?|[?|?]]]]]; [by exists Fmt|by exists Announced|by exists Taken|by exists Served|by exists Reported|by exists Done].
  - intros [[] ?]; cbn in *; tauto.
Qed.
Lemma glist_all g ph r : r ∈ glist g ph -> r ∈ all g.
Proof. intros. apply elem_of_all. eauto. Qed.

Lemma phase_unique g r p1 p2 : NoDup (all g) -> r ∈ glist g p1 -> r ∈ glist g p2 -> p1 = p2.
Proof.
  unfold all. rewrite !NoDup_app. intros (_&HF&_&HA&_&HP&_&HS&_&HU&_) H1 H2.
  destruct p1, p2; try done; exfalso; cbn [glist] in *;
    first [ eapply HF; [eassumption|] | eapply HA; [eassumption|] | eapply HP; [eassumption|]
          | eapply HS; [eassumption|] | eapply HU; [eassumption|] ]; rewrite ?elem_of_app; tauto.
Qed.

(** One request changes phase, the others stay. *)
Definition moved (g g' : ghost) (r : rq) (ph : phase) : Prop :=
  all g ≡ₚ all g' /\
  forall p x, x ∈ glist g' p -> (x = r /\ p = ph) \/ (x <> r /\ x ∈ glist g p).
Lemma moved_intro g g' r ph :
  NoDup (all g) -> all g ≡ₚ all g' -> r ∈ glist g' ph ->
  (forall p x, x <> r -> x ∈ glist g' p -> x ∈ glist g p) -> moved g g' r ph.
Proof.
  intros Hn Hp Hr Ho. split; [done|]. intros p x Hx. destruct (decide (x = r)) as [->|Hne].
  - left. split; [done|]. eapply phase_unique; [by rewrite <- Hp|done..].
  - right. eauto.
Qed.

Ltac move_tac :=
  apply moved_intro; [assumption | unfold all; cbn [gF gA gP gS gU gD]; solve_Permutation
    | cbn [glist gF gA gP gS gU gD]; rewrite ?elem_of_app, ?elem_of_cons; tauto
    | intros [] ? ?; cbn [glist gF gA gP gS gU gD]; rewrite ?elem_of_app, ?elem_of_cons;
      try tauto; intros; set_unfold; naive_solver ].

Lemma nodup_rt l r r' : NoDup (rt <$> l) -> r ∈ l -> r' ∈ l -> rt r = rt r' -> r = r'.
Proof.
  intros Hn Hr Hr' E. apply list_elem_of_lookup in Hr as [i Hi]. apply list_elem_of_lookup in Hr' as [j Hj].
  assert (i = j) as ->; [|congruence].
  eapply (NoDup_lookup _ _ _ (rt r) Hn); rewrite list_lookup_fmap; [by rewrite Hi|rewrite Hj; cbn; by rewrite E].
Qed.

Lemma idxs_mem l r i : r ∈ l -> i ∈ idxs r -> i ∈ (l ≫= idxs).
Proof. intros. apply list_elem_of_bind. eauto. Qed.
Lemma idxs_disjoint l r r' i : NoDup (l ≫= idxs) -> r ∈ l -> r' ∈ l -> i ∈ idxs r -> i ∈ idxs r' -> r = r'.
Proof.
  intros Hn. induction l as [|x l IH]; [by intros ?%elem_of_nil|]. rewrite bind_cons in Hn. apply NoDup_app in Hn as (_&Hd&Hn).
  rewrite !elem_of_cons. intros [->|Hr] [->|Hr'] Hi Hi'; [done|..|by apply IH].
  - exfalso. eapply Hd; [exact Hi|]. by eapply idxs_mem.
  - exfalso. eapply Hd; [exact Hi'|]. by eapply idxs_mem.
Qed.
Lemma r0_idxs r : r0 r ∈ idxs r.
Proof. unfold idxs. rewrite elem_of_cons. tauto. Qed.

Lemma length_idxs l : length (l ≫= idxs) = (3 * length l)%nat.
Proof. induction l as [|r l IH]; [done|]. cbn in *. rewrite IH. lia. Qed.

Lemma below_NUM (l : list Z) : NoDup l -> Forall (fun i => 0 <= i < NUM) l -> (length l <= 8)%nat.
Proof.
  intros Hn Hr. change 8%nat with (length (seqZ 0 NUM)). apply submseteq_length, NoDup_submseteq; [done|].
  intros x Hx. rewrite Forall_forall in Hr. apply Hr in Hx. apply elem_of_seqZ. lia.
Qed.

(** Three descriptors a request: there are at most two requests. *)
Lemma desc_inv_two fr l : desc_inv fr l -> (length l <= 2)%nat.
Proof. intros [Hn Hr _]. pose proof (below_NUM _ Hn Hr). rewrite length_idxs in H. lia. Qed.

Lemma desc_inv_perm fr l l' : l ≡ₚ l' -> desc_inv fr l -> desc_inv fr l'.
Proof.
  intros Hp [Hn Hr Hf]. assert (Hq : (l ≫= idxs) ≡ₚ (l' ≫= idxs)) by (by rewrite Hp). split.
  - by rewrite <- Hq.
  - by rewrite <- Hq.
  - intros i Hi. rewrite Hf by done. apply decide_ext. by rewrite Hq.
Qed.
Lemma thr_inv_perm l ps at_ bs L L' : L ≡ₚ L' -> thr_inv l ps at_ bs L -> thr_inv l ps at_ bs L'.
Proof.
  intros Hp [H1 H2 H3 H4 H5 H6]. split; try done; [|by rewrite <- Hp].
  intros. rewrite <- Hp. eauto.
Qed.

Lemma u16_mod_NUM z : u16 z mod NUM = z mod NUM.
Proof. unfold u16. apply Z.mod_mod_divide. by exists (2 ^ 13). Qed.
Lemma u16_add_l a b : u16 (u16 a + b) = u16 (a + b).
Proof. unfold u16. apply Z.add_mod_idemp_l. lia. Qed.
Lemma u16_add_inj a n m : 0 <= n < 2 ^ 16 -> 0 <= m < 2 ^ 16 -> u16 (a + n) = u16 (a + m) -> n = m.
Proof.
  intros Hn Hm E. assert (n mod 2 ^ 16 = m mod 2 ^ 16) as E'.
  { replace n with ((a + n) - a) by lia. replace m with ((a + m) - a) by lia.
    rewrite (Zminus_mod (a + n)), (Zminus_mod (a + m)). unfold u16 in E. by rewrite E. }
  rewrite !Z.mod_small in E' by lia. done.
Qed.

Lemma slots_cons ring x r l : slots ring x (r :: l) <-> ring (x mod NUM) = r0 r /\ slots ring (x + 1) l.
Proof.
  unfold slots. split.
  - intros H. split; [specialize (H 0%nat r eq_refl); by rewrite Z.add_0_r in H|].
    intros k y Hk. rewrite <- (H (S k) y Hk). f_equal. f_equal. lia.
  - intros [H0 H] [|k] y; cbn; [intros [= <-]; by rewrite Z.add_0_r|].
    intros Hk. rewrite <- (H k y Hk). f_equal. f_equal. lia.
Qed.
Lemma slots_u16 ring x l : slots ring (u16 x) l <-> slots ring x l.
Proof.
  unfold slots. assert (forall k, (u16 x + k) mod NUM = (x + k) mod NUM) as E.
  { intros. by rewrite <- Z.add_mod_idemp_l, u16_mod_NUM, Z.add_mod_idemp_l by done. }
  split; intros H k r Hk; specialize (H k r Hk); by rewrite E in *.
Qed.
(** The entry after the last does not overwrite one in use. *)
Lemma slots_end ring x l i :
  (length l < 8)%nat -> i mod NUM = (x + Z.of_nat (length l)) mod NUM -> forall v,
  slots ring x l -> slots (fset ring (i mod NUM) v) x l.
Proof.
  intros Hl Hi v H k r Hk. rewrite fset_ne; [by apply H|]. rewrite Hi. intros E.
  apply lookup_lt_Some in Hk. unfold NUM in E.
  pose proof (Z.div_mod (x + Z.of_nat k) 8). pose proof (Z.div_mod (x + Z.of_nat (length l)) 8). lia.
Qed.

Lemma parse_chain_ok v bs r :
  chain_ok v bs r -> 0 <= blockno (bs (rb r)) < 2 ^ 31 ->
  parse_chain v (r0 r) = Some (Request (rw r) (2 * blockno (bs (rb r))) (rb r) (r0 r)).
Proof.
  intros (H0&H1&H2&Ho&_) Hn. unfold parse_chain. rewrite H0. cbn [addr dnext dlen dflags]. rewrite H1.
  cbn [addr dnext dlen dflags]. rewrite H2. cbn [addr dnext dlen dflags]. rewrite Ho.
  change (BSIZE / 512) with 2. rewrite u32_id by (unfold is_u32; lia). rewrite Z.mul_comm. by destruct (rw r).
Qed.

Lemma req_ok_frame v bs bd p a ph r v' bs' bd' :
  req_ok v bs bd p a ph r ->
  (forall i, i ∈ idxs r -> desc v' i = desc v i) -> ops v' (r0 r) = ops v (r0 r) -> info v' (r0 r) = info v (r0 r) ->
  blockno (bs' (rb r)) = blockno (bs (rb r)) -> bd' (rb r) = bd (rb r) ->
  req_ok v' bs' bd' p a ph r.
Proof.
  intros [(C0&C1&C2&C3&C4) ?????] Hd Ho Hi Hb Hbd. split; try done.
  - unfold chain_ok. rewrite !Hd by (unfold idxs; set_unfold; tauto). by rewrite Ho, Hi, Hb.
  - by rewrite Hbd.
  - unfold done_stat in *. by rewrite Hi.
Qed.

(** What waking does not change about a thread. *)
Lemma wake_pc_same c p :
  pc_req (wake_pc c p) = pc_req p /\ pc_buf (wake_pc c p) = pc_buf p /\ holds (wake_pc c p) = holds p /\
  idle_stat (wake_pc c p) = idle_stat p /\ is_publish (wake_pc c p) = is_publish p /\
  (is_sleepbuf (wake_pc c p) = true -> is_sleepbuf p = true) /\
  (wake_pc c p = IntrLoop <-> p = IntrLoop) /\
  (forall b w j, wake_pc c p = RwNotify b w j <-> p = RwNotify b w j) /\
  (forall b w, wake_pc c p = RwSleepFree b w -> p = RwSleepFree b w).
Proof. destruct c, p; cbn; try case_decide; cbn; repeat split; done. Qed.

(** A thread that was possibly woken. *)
Definition woken (c : chan) (p p' : pc) : Prop := p' = p \/ p' = wake_pc c p.
Lemma woken_same c p p' :
  woken c p p' ->
  pc_req p' = pc_req p /\ pc_buf p' = pc_buf p /\ holds p' = holds p /\
  idle_stat p' = idle_stat p /\ is_publish p' = is_publish p /\
  (is_sleepbuf p' = true -> is_sleepbuf p = true) /\
  (p' = IntrLoop <-> p = IntrLoop) /\
  (forall b w j, p' = RwNotify b w j <-> p = RwNotify b w j) /\
  (forall b w, p' = RwSleepFree b w -> p = RwSleepFree b w).
Proof. intros [->| ->]; [done|apply wake_pc_same]. Qed.

Lemma thr_inv_woken c l ps ps' at_ bs L :
  (forall t, woken c (ps t) (ps' t)) -> thr_inv l ps at_ bs L -> thr_inv l ps' at_ bs L.
Proof.
  intros Hw [H1 H2 H3 H4 H5 H6].
  split; try done; intros t; destruct (woken_same c _ _ (Hw t)) as (E1&E2&E3&E4&_);
    rewrite ?E1, ?E2, ?E3, ?E4; eauto.
  intros t' b. destruct (woken_same c _ _ (Hw t')) as (_&->&_). eauto.
Qed.
Lemma req_ok_woken c v bs bd p p' a ph r : woken c p p' -> req_ok v bs bd p a ph r -> req_ok v bs bd p' a ph r.
Proof.
  intros Hw [H1 H2 H3 H4 H5 H6]. destruct (woken_same c _ _ Hw) as (E1&E2&E3&E4&E5&E6&_). split; try done.
  - by rewrite E1.
  - by rewrite E5.
  - intros Hd. specialize (H4 Hd). destruct (is_sleepbuf p'); [|done]. by rewrite E6 in H4.
Qed.
Lemma wake_inv_woken c i k ps ps' g :
  (forall t, woken c (ps t) (ps' t)) -> wake_inv i k ps g -> wake_inv i k ps' g.
Proof.
  intros Hw [H1 H2 H3]. split.
  - intros H. destruct (H1 H) as [|[t Ht]]; [by left|right]. exists t. by apply (woken_same c _ _ (Hw t)).
  - intros H. destruct (H2 H) as [|(t&b&w&j&Ht)]; [by left|right]. exists t, b, w, j. by apply (woken_same c _ _ (Hw t)).
  - intros t b w Ht. eapply (H3 t b w). by apply (woken_same c _ _ (Hw t)).
Qed.

Lemma thr_inv_nset l ps at_ bs L t p :
  thr_inv l ps at_ bs L ->
  pc_req p = pc_req (ps t) -> pc_buf p = pc_buf (ps t) -> holds p = holds (ps t) -> idle_stat p = idle_stat (ps t) ->
  thr_inv l (nset ps t p) at_ bs L.
Proof.
  intros [H1 H2 H3 H4 H5 H6] Er Eb Eh Ei.
  assert (forall t', pc_req (nset ps t p t') = pc_req (ps t') /\ pc_buf (nset ps t p t') = pc_buf (ps t') /\
    holds (nset ps t p t') = holds (ps t') /\ idle_stat (nset ps t p t') = idle_stat (ps t')) as HE.
  { intros t'. destruct (decide (t' = t)) as [->|]; rewrite ?nset_eq, ?nset_ne by done; done. }
  split; try done; intros t'; destruct (HE t') as (E1&E2&E3&E4); rewrite ?E1, ?E2, ?E3, ?E4; eauto.
  intros t2 b. destruct (HE t2) as (_&->&_). eauto.
Qed.

(** A thread that was allocating has a request now. *)
Lemma thr_inv_new l ps at_ bs L r w :
  thr_inv l ps at_ bs L -> ps (rt r) = RwAlloc (rb r) w -> (forall x, x ∈ L -> rt x <> rt r) ->
  thr_inv l (nset ps (rt r) (RwPublish (rb r) w (r0 r))) at_ bs (r :: L).
Proof.
  intros [L1 L2 L3 L4 L5 L6] Hp Hoth. set (ps' := nset _ _ _).
  assert (Hsame : forall t, pc_buf (ps' t) = pc_buf (ps t) /\ holds (ps' t) = holds (ps t)).
  { intros t. unfold ps'. destruct (decide (t = rt r)) as [->|]; rewrite ?nset_eq, ?nset_ne by done; [by rewrite Hp|done]. }
  split.
  - intros t. destruct (Hsame t) as [_ ->]. apply L1.
  - intros t t' b. destruct (Hsame t) as [-> _], (Hsame t') as [-> _]. apply L2.
  - intros t x. unfold ps'. destruct (decide (t = rt r)) as [->|]; rewrite ?nset_eq, ?nset_ne by done; [done|apply L3].
  - intros t x. rewrite fmap_cons, elem_of_cons. unfold ps'.
    destruct (decide (t = rt r)) as [->|]; rewrite ?nset_eq, ?nset_ne by done; [by left|].
    intros Hx. right. eapply L4, Hx.
  - rewrite fmap_cons. apply NoDup_cons. split; [|done]. intros (x&Hx&Hxl)%list_elem_of_fmap. by apply (Hoth x Hxl).
  - intros t b. destruct (Hsame t) as [-> _]. apply L6.
Qed.
Lemma desc_inv_new fr fr' L r :
  desc_inv fr L -> NoDup (idxs r) -> Forall (fun i => 0 <= i < NUM) (idxs r) ->
  (forall x j, x ∈ L -> j ∈ idxs x -> j ∉ idxs r) ->
  (forall j, fr' j = if decide (j ∈ idxs r) then 0 else fr j) -> desc_inv fr' (r :: L).
Proof.
  intros [D1 D2 D3] Hn Hr Hdis Hf. split; rewrite bind_cons.
  - apply NoDup_app. split; [done|]. split; [|done]. intros j Hj (x&Hjx&Hx)%list_elem_of_bind. by apply (Hdis x j).
  - by apply Forall_app.
  - intros j Hj. rewrite Hf, D3 by done. repeat case_decide; rewrite ?elem_of_app in *; tauto.
Qed.
(** The request of a thread that leaves the driver is gone. *)
Lemma thr_inv_del l ps at_ bs L r at' ps' :
  thr_inv l ps at_ bs (r :: L) -> l = Some (rt r) -> (forall t, t <> rt r -> woken CFree (ps t) (ps' t)) -> ps' (rt r) = Out ->
  (forall t, t <> rt r -> at' t = at_ t) -> at' (rt r) = TIdle ->
  thr_inv None ps' at' bs L.
Proof.
  intros [L1 L2 L3 L4 L5 L6] Hl Hw Ho Ha Ha'. rewrite fmap_cons in *. apply NoDup_cons in L5 as [L5 L5']. split.
  - intros t. split; [|done]. destruct (decide (t = rt r)) as [->|Hne]; [by rewrite Ho|].
    destruct (woken_same _ _ _ (Hw t Hne)) as (_&_&->&_). rewrite L1, Hl. congruence.
  - intros t t' b. destruct (decide (t = rt r)) as [->|Hne]; [by rewrite Ho|].
    destruct (decide (t' = rt r)) as [->|Hne']; [by rewrite Ho|].
    destruct (woken_same _ _ _ (Hw t Hne)) as (_&->&_), (woken_same _ _ _ (Hw t' Hne')) as (_&->&_). apply L2.
  - intros t x. destruct (decide (t = rt r)) as [->|Hne]; [rewrite Ho, Ha'; by intros [= <-]|].
    destruct (woken_same _ _ _ (Hw t Hne)) as (_&_&_&->&_). rewrite Ha by done. apply L3.
  - intros t x. destruct (decide (t = rt r)) as [->|Hne]; [by rewrite Ho|].
    destruct (woken_same _ _ _ (Hw t Hne)) as (->&_). intros Hx. apply L4 in Hx. set_solver.
  - done.
  - intros t b. destruct (decide (t = rt r)) as [->|Hne]; [by rewrite Ho|].
    destruct (woken_same _ _ _ (Hw t Hne)) as (_&->&_). apply L6.
Qed.
Lemma desc_inv_del fr fr' L r :
  desc_inv fr (r :: L) -> (forall j, fr' j = if decide (j ∈ idxs r) then 1 else fr j) -> desc_inv fr' L.
Proof.
  intros [D1 D2 D3] Hf. rewrite bind_cons in D1, D2. apply NoDup_app in D1 as (D1&Hdis&D1'). apply Forall_app in D2 as [D2 D2'].
  split; [done..|]. intros j Hj. rewrite Hf, D3, bind_cons by done. pose proof (Hdis j).
  repeat case_decide; rewrite ?elem_of_app in *; tauto.
Qed.

(** Blocks on the medium. *)
Lemma length_read_sectors m s n :
  (forall k, length (m k) = Z.to_nat SECTOR) -> length (read_sectors m s n) = (n * Z.to_nat SECTOR)%nat.
Proof. intros H. revert s. induction n as [|n IH]; intros s; [done|]. cbn [read_sectors]. rewrite length_app, H, IH. lia. Qed.
Lemma read_write_sectors m d n n' :
  length d = Z.to_nat BSIZE ->
  read_sectors (write_sectors m (2 * n) nsect d) (2 * n') nsect =
  if decide (n' = n) then d else read_sectors m (2 * n') nsect.
Proof.
  intros Hd. change nsect with 2%nat. cbn [read_sectors write_sectors]. rewrite !app_nil_r. case_decide as E.
  - subst. rewrite fset_ne, !fset_eq by lia. rewrite (take_ge (drop _ d)) by (rewrite length_drop, Hd; unfold BSIZE, SECTOR; lia).
    apply take_drop.
  - by rewrite !fset_ne by lia.
Qed.
Lemma write_sectors_length m d n k :
  length d = Z.to_nat BSIZE -> (forall k, length (m k) = Z.to_nat SECTOR) ->
  length (write_sectors m (2 * n) nsect d k) = Z.to_nat SECTOR.
Proof.
  intros Hd Hm. change nsect with 2%nat. cbn [write_sectors].
  destruct (decide (k = 2 * n + 1)) as [->|]; [|destruct (decide (k = 2 * n)) as [->|]].
  - rewrite fset_eq, length_take, length_drop, Hd. unfold BSIZE, SECTOR. lia.
  - rewrite fset_ne, fset_eq, length_take, Hd by lia. unfold BSIZE, SECTOR. lia.
  - rewrite !fset_ne by done. apply Hm.
Qed.

Section Inv.
Context {D : Type} `{VD : VirtioDevice D}.

Record inv (s : sys D) (a : aspec) (g : ghost) : Prop := {
  i_thr : thr_inv (vdisk_lock s) (pcs s) (athr a) (dbufs (mem s)) (all g);
  i_desc : desc_inv (free (vd (mem s))) (all g);
  i_req : req_inv (vd (mem s)) (dbufs (mem s)) (bdisk s) (pcs s) (athr a) g;
  i_ring : ring_inv (avail (vd (mem s))) (used (vd (mem s))) (used_idx (vd (mem s))) (dview (dev s)) g;
  i_wake : wake_inv (isr (mem s)) (kick (mem s)) (pcs s) g;
  i_data : data_inv (abst a) (dbufs (mem s)) (media (dview (dev s)));
  i_status : faulty = false -> forall r, r ∈ gS g \/ r ∈ gU g -> info_status (info (vd (mem s)) (r0 r)) = 0
}.


Lemma inv_active s a g r : inv s a g -> r ∈ all g -> pc_req (pcs s (rt r)) = Some (rb r, rw r, r0 r).
Proof. intros Hi [ph Hr]%elem_of_all. apply (rk_pc _ _ _ _ _ _ _ (i_req _ _ _ Hi ph r Hr)). Qed.
Lemma inv_find s a g t x :
  inv s a g -> pc_req (pcs s t) = Some x -> exists r ph, r ∈ glist g ph /\ rt r = t /\ x = (rb r, rw r, r0 r).
Proof.
  intros Hi Hx. pose proof (t_active _ _ _ _ _ (i_thr _ _ _ Hi) _ _ Hx) as Hr.
  apply list_elem_of_fmap in Hr as (r&->&Hr). pose proof (inv_active _ _ _ _ Hi Hr) as E. rewrite Hx in E. injection E as ->.
  apply elem_of_all in Hr as [ph Hr]. eauto.
Qed.
Lemma inv_other s a g t r : inv s a g -> pc_req (pcs s t) = None -> r ∈ all g -> rt r <> t.
Proof. intros Hi Ht Hr E. pose proof (inv_active _ _ _ _ Hi Hr) as H. rewrite E, Ht in H. done. Qed.
Lemma inv_same_buf s a g r r' : inv s a g -> r ∈ all g -> r' ∈ all g -> rb r = rb r' -> r = r'.
Proof.
  intros Hi Hr Hr' E. eapply nodup_rt; [apply (i_thr _ _ _ Hi)|done..|].
  pose proof (inv_active _ _ _ _ Hi Hr) as H1. pose proof (inv_active _ _ _ _ Hi Hr') as H2.
  assert (forall p b w i, pc_req p = Some (b, w, i) -> pc_buf p = Some b) as Hpb by (intros []; cbn; congruence).
  eapply (t_users _ _ _ _ _ (i_thr _ _ _ Hi)); [by eapply Hpb|rewrite E; by eapply Hpb].
Qed.
Lemma inv_buf_ok s a g r : inv s a g -> r ∈ all g -> buf_ok (dbufs (mem s) (rb r)).
Proof.
  intros Hi Hr. pose proof (inv_active _ _ _ _ Hi Hr) as H.
  eapply (t_bufs _ _ _ _ _ (i_thr _ _ _ Hi) (rt r)). by destruct (pcs s (rt r)); cbn in *; simplify_eq.
Qed.
Lemma inv_nodup s a g : inv s a g -> NoDup (all g).
Proof. intros Hi. eapply NoDup_fmap_1, (t_nodup _ _ _ _ _ (i_thr _ _ _ Hi)). Qed.
Lemma inv_two s a g : inv s a g -> (length (all g) <= 2)%nat.
Proof. intros Hi. eapply desc_inv_two, Hi. Qed.

(** A thread without a request goes on to another place without one. *)
Lemma inv_moves s a g t p' l' a2 :
  inv s a g -> pc_req (pcs s t) = None -> pc_req p' = None ->
  (pcs s t = IntrLoop -> gU g = []) ->
  (forall t', t' <> t -> vdisk_lock s = Some t' <-> l' = Some t') -> (holds p' = true <-> l' = Some t) ->
  (forall b, pc_buf p' = Some b -> buf_ok (dbufs (mem s) b) /\ forall t', t' <> t -> pc_buf (pcs s t') <> Some b) ->
  (forall b w, p' = RwSleepFree b w -> (2 <= length (all g))%nat) ->
  abst a2 = abst a -> (forall t', t' <> t -> athr a2 t' = athr a t') -> idle_stat p' = Some (athr a2 t) ->
  inv (Sys (mem s) (bdisk s) l' (nset (pcs s) t p') (dev s)) a2 g.
Proof.
  intros Hi Hp Hp' Hu Hl Hl' Hb Hw Ha Hat Hid.
  assert (forall r, r ∈ all g -> rt r <> t) as Hne by (intros; by eapply inv_other).
  destruct Hi as [[L1 L2 L3 L4 L5 L6] Hd Hr Hq [W1 W2 W3] Hm Hst].
  split; cbn [mem bdisk vdisk_lock pcs dev]; try done; [split|..|split|by rewrite Ha].
  - intros t'. destruct (decide (t' = t)) as [->|]; [by rewrite nset_eq|]. by rewrite nset_ne, L1, Hl.
  - intros t1 t2 b. destruct (decide (t1 = t)) as [->|], (decide (t2 = t)) as [->|];
      rewrite ?nset_eq, ?nset_ne by done; eauto; intros H1 H2.
    + by destruct (proj2 (Hb b H1) t2).
    + by destruct (proj2 (Hb b H2) t1).
  - intros t' x. destruct (decide (t' = t)) as [->|]; rewrite ?nset_eq, ?nset_ne by done; [congruence|].
    rewrite Hat by done. eauto.
  - intros t' x. destruct (decide (t' = t)) as [->|]; rewrite ?nset_eq, ?nset_ne by done; [congruence|eauto].
  - done.
  - intros t' b. destruct (decide (t' = t)) as [->|]; rewrite ?nset_eq, ?nset_ne by done; [|eauto].
    intros H%Hb. apply H.
  - intros ph r Hg. pose proof (Hne r (glist_all _ _ _ Hg)). rewrite nset_ne, Hat by done. auto.
  - intros H. destruct (W1 H) as [|[t' Ht']]; [by left|right]. exists t'. rewrite nset_ne; [done|].
    intros ->. apply H, Hu, Ht'.
  - intros H. destruct (W2 H) as [|(t'&b&w&j&Ht')]; [by left|right]. exists t', b, w, j. rewrite nset_ne; [done|].
    intros ->. by rewrite Ht' in Hp.
  - intros t' b w. destruct (decide (t' = t)) as [->|]; rewrite ?nset_eq, ?nset_ne by done; eauto.
Qed.

(** A thread waiting for its request moves within the waiting loop. *)
Lemma inv_goto_active s a g t p' l' k' b w i :
  inv s a g -> pc_req (pcs s t) = Some (b, w, i) -> pc_req p' = Some (b, w, i) ->
  is_publish (pcs s t) = false -> is_publish p' = false ->
  (is_sleepbuf p' = true -> bdisk s b = 1) ->
  (forall t', t' <> t -> vdisk_lock s = Some t' <-> l' = Some t') -> (holds p' = true <-> l' = Some t) ->
  (kick (mem s) = true -> k' = true) -> (pcs s t = RwNotify b w i -> k' = true) ->
  inv (Sys (Dmem (vd (mem s)) (dbufs (mem s)) (isr (mem s)) k') (bdisk s) l' (nset (pcs s) t p') (dev s)) a g.
Proof.
  intros Hi Hp Hp' Hf Hf' Hs Hl Hl' Hk Hn.
  assert (Hpb : forall q, pc_req q = Some (b, w, i) -> pc_buf q = Some b /\ idle_stat q = None /\ q <> IntrLoop
                /\ (forall b w, q <> RwSleepFree b w)) by (intros []; cbn; intros [=]; subst; repeat split; done).
  destruct (Hpb _ Hp) as (B1&_&B3&_), (Hpb _ Hp') as (B1'&B2'&_&B4').
  destruct Hi as [[L1 L2 L3 L4 L5 L6] Hd Hr Hq [W1 W2 W3] Hm Hst].
  split; cbn [mem bdisk vdisk_lock pcs dev vd dbufs isr kick]; try done; [split|..|split].
  - intros t'. destruct (decide (t' = t)) as [->|]; [by rewrite nset_eq|]. by rewrite nset_ne, L1, Hl.
  - intros t1 t2 b'. destruct (decide (t1 = t)) as [->|], (decide (t2 = t)) as [->|];
      rewrite ?nset_eq, ?nset_ne by done; rewrite ?B1'; eauto; intros; simplify_eq; eauto.
  - intros t' x. destruct (decide (t' = t)) as [->|]; rewrite ?nset_eq, ?nset_ne by done; [congruence|eauto].
  - intros t' x. destruct (decide (t' = t)) as [->|]; rewrite ?nset_eq, ?nset_ne by done; eauto.
  - done.
  - intros t' b'. destruct (decide (t' = t)) as [->|]; rewrite ?nset_eq, ?nset_ne by done; [|eauto].
    rewrite B1'. intros [= <-]. eauto.
  - intros ph r Hg. destruct (decide (rt r = t)) as [<-|]; rewrite ?nset_eq, ?nset_ne by done; [|auto].
    destruct (Hr ph r Hg) as [K1 K2 K3 K4 K5 K6]. rewrite Hp in K2. injection K2 as -> -> ->. split; try done.
    + by rewrite Hf', <- K3, Hf.
    + intros ->. destruct (is_sleepbuf p'); [|done]. rewrite Hs in K5 by done. done.
  - intros H. destruct (W1 H) as [|[t' Ht']]; [by left|right]. exists t'. rewrite nset_ne; [done|congruence].
  - intros H. destruct (W2 H) as [|(t'&b'&w'&j&Ht')]; [auto|]. destruct (decide (t' = t)) as [->|].
    + left. apply Hn. rewrite Ht' in Hp. cbn in Hp. by injection Hp as -> -> ->.
    + right. exists t', b', w', j. by rewrite nset_ne.
  - intros t' b' w'. destruct (decide (t' = t)) as [->|]; rewrite ?nset_eq, ?nset_ne by done; eauto.
    intros E. by apply B4' in E.
Qed.

Lemma inv_goto_waiting s a g t p' l' b w i :
  inv s a g -> pc_req (pcs s t) = Some (b, w, i) -> pc_req p' = Some (b, w, i) ->
  is_publish (pcs s t) = false -> is_publish p' = false -> pcs s t <> RwNotify b w i ->
  (is_sleepbuf p' = true -> bdisk s b = 1) ->
  (forall t', t' <> t -> vdisk_lock s = Some t' <-> l' = Some t') -> (holds p' = true <-> l' = Some t) ->
  inv (Sys (mem s) (bdisk s) l' (nset (pcs s) t p') (dev s)) a g.
Proof.
  intros Hi Hp Hp' Hf Hf' Hn Hs Hl Hl'. pose proof (inv_goto_active s a g t p' l' (kick (mem s)) b w i Hi Hp Hp' Hf Hf' Hs Hl Hl' id) as H.
  destruct s as [[]]. by apply H.
Qed.

Lemma inv_fmt_single s a g r : inv s a g -> r ∈ gF g -> gF g = [r].
Proof.
  intros Hi Hr. assert (Hall : forall x, x ∈ gF g -> x = r).
  { intros x Hx. eapply nodup_rt; [apply (i_thr _ _ _ Hi)|by eapply (glist_all g Fmt)..|].
    assert (forall y, y ∈ gF g -> vdisk_lock s = Some (rt y)) as Hl.
    { intros y Hy. apply (t_lock _ _ _ _ _ (i_thr _ _ _ Hi)).
      pose proof (rk_fmt _ _ _ _ _ _ _ (i_req _ _ _ Hi Fmt y Hy)) as H. by destruct (pcs s (rt y)). }
    pose proof (Hl _ Hr). pose proof (Hl _ Hx). congruence. }
  pose proof (inv_nodup _ _ _ Hi) as Hn. unfold all in Hn. apply NoDup_app in Hn as [Hn _].
  destruct (gF g) as [|x [|y l]]; [by apply elem_of_nil in Hr|by rewrite (Hall x (list_elem_of_here _ _))|].
  exfalso. apply NoDup_cons in Hn as [Hn _]. apply Hn. rewrite (Hall x), <- (Hall y); set_solver.
Qed.

(** [disk.avail->idx += 1]. *)
Lemma inv_publish s a g t b w i :
  inv s a g -> pcs s t = RwPublish b w i ->
  exists g', inv (on_pcs (nset (pcs s) t (RwNotify b w i))
    (on_vd (fun v => let a := avail v in set_avail (Avail (a_flags a) (u16 (a_idx a + 1)) (a_ring a)) v) s)) a g'.
Proof.
  intros Hi Hp. destruct (inv_find s a g t (b, w, i) Hi ltac:(by rewrite Hp)) as (r&ph&Hr&<-&[= -> -> ->]).
  pose proof (rk_fmt _ _ _ _ _ _ _ (i_req _ _ _ Hi ph r Hr)) as Hph. rewrite Hp in Hph.
  symmetry in Hph. apply bool_decide_eq_true in Hph as ->. pose proof (inv_fmt_single _ _ _ _ Hi Hr) as HF.
  pose proof (inv_two _ _ _ Hi) as H2. pose proof (inv_nodup _ _ _ Hi) as Hn.
  set (L := all g) in *.
  destruct g as [F A P S U E]. cbn [glist gF] in *. subst F.
  set (g' := G [] (A ++ [r]) P S U E).
  assert (Hmv : moved (G [r] A P S U E) g' r Announced) by (unfold g'; move_tac).
  exists g'. destruct Hi as [HL Hd Hreq [Q1 Q2 Q3 Q4 Q5 Q6 Q7 Q8 Q9] [W1 W2 W3] Hm Hst].
  split; cbn [mem bdisk vdisk_lock pcs dev vd dbufs isr kick on_pcs on_vd set_avail avail used used_idx free a_idx a_ring]; try done.
  - eapply thr_inv_perm; [apply Hmv|]. by apply thr_inv_nset; rewrite ?Hp.
  - eapply desc_inv_perm; [apply Hmv|done].
  - intros ph x [[-> ->]|[Hne Hx]]%Hmv.
    + rewrite nset_eq. destruct (Hreq Fmt r Hr) as [K1 K2 K3 K4 K5 K6]. split; try done.
    + rewrite nset_ne; [by eapply req_ok_frame; [exact (Hreq ph x Hx)|..]|].
      intros HE. apply Hne. eapply nodup_rt; [apply HL|by eapply glist_all|by eapply (glist_all _ Fmt)|done].
  - assert (Hl : (length A < 2)%nat) by (unfold L, all in H2; cbn in H2; rewrite !length_app in H2; lia).
    split; cbn [g' gA gF gP gS gU a_idx a_ring]; try done.
    + cbn [gA] in Q1. rewrite Q1, u16_add_l, length_app. f_equal. cbn. lia.
    + intros k x. rewrite lookup_app. destruct (A !! k) eqn:Ek; [intros [= <-]; by apply Q3|].
      cbn [gA] in *. apply lookup_ge_None in Ek. intros Hx. assert (k = length A) as ->.
      { destruct (k - length A)%nat as [|] eqn:Ek2; [lia|done]. }
      rewrite Nat.sub_diag in Hx. injection Hx as <-. rewrite <- (Q4 r) by (cbn; set_solver). f_equal.
      by rewrite Q1, u16_mod_NUM.
    + intros x Hx. by apply elem_of_nil in Hx.
  - split; cbn [g' gU gA].
    + intros H. destruct (W1 H) as [|[t Ht]]; [by left|right]. exists t. rewrite nset_ne; [done|congruence].
    + intros _. right. exists (rt r), (rb r), (rw r), (r0 r). by rewrite nset_eq.
    + intros t b' w'. destruct (decide (t = rt r)) as [->|]; rewrite ?nset_eq, ?nset_ne by done; [done|].
      intros HE. rewrite <- (Permutation_length (proj1 Hmv)). eauto.
Qed.

(** ** The device's steps *)

Lemma fmap_r0_split l p1 h p2 :
  r0 <$> l = p1 ++ h :: p2 -> exists l1 r l2, l = l1 ++ r :: l2 /\ p1 = r0 <$> l1 /\ h = r0 r /\ p2 = r0 <$> l2.
Proof.
  intros (l1&l'&->&E&->)%fmap_app_inv. symmetry in E. apply fmap_cons_inv in E as (r&l2&->&->&->). eauto 10.
Qed.

Lemma inv_take s a g d' :
  inv s a g -> last_avail (dview (dev s)) <> a_idx (avail (vd (mem s))) ->
  dview d' = Dev (u16 (last_avail (dview (dev s)) + 1))
     (pending (dview (dev s)) ++ [a_ring (avail (vd (mem s))) (last_avail (dview (dev s)) mod NUM)])
     (served (dview (dev s))) (media (dview (dev s))) ->
  exists g', inv (Sys (mem s) (bdisk s) (vdisk_lock s) (pcs s) d') a g'.
Proof.
  intros Hi Hne Hd'. pose proof (inv_nodup _ _ _ Hi) as Hn.
  destruct Hi as [HL Hd Hreq [Q1 Q2 Q3 Q4 Q5 Q6 Q7 Q8 Q9] [W1 W2 W3] Hm Hst]. destruct g as [F [|r A] P S U E]; cbn [gF gA gP gS gU gD] in *.
  { exfalso. apply Hne. by rewrite Q1, Z.add_0_r, Q2. }
  set (g' := G F A (P ++ [r]) S U E).
  assert (Hmv : moved (G F (r :: A) P S U E) g' r Taken) by (unfold g'; move_tac).
  exists g'. apply slots_cons in Q3 as [Q3 Q3']. split; cbn [mem bdisk vdisk_lock pcs dev]; rewrite ?Hd'; try done.
  - eapply thr_inv_perm; [apply Hmv|done].
  - eapply desc_inv_perm; [apply Hmv|done].
  - intros ph x [[-> ->]|[_ Hx]]%Hmv; [|exact (Hreq ph x Hx)].
    destruct (Hreq Announced r ltac:(cbn; set_solver)). by split.
  - split; cbn [last_avail pending served g' gF gA gP gS gU]; try done.
    + rewrite Q1, u16_add_l. f_equal. cbn [length]. lia.
    + unfold u16. by rewrite Z.mod_mod by lia.
    + by apply slots_u16.
    + by rewrite Q5, Q3, fmap_app.
  - split; cbn [g' gU gA]; [done|intros _; by apply W2|].
    intros. rewrite <- (Permutation_length (proj1 Hmv)). eauto.
Qed.

(** A transfer: the medium and the buffer are what the contract makes them. *)
Lemma data_inv_transfer b bs m r s' :
  data_inv b bs m -> buf_ok (bs (rb r)) ->
  virtio_disk_rw (rb r) (rw r) b = Ok (tt, s') ->
  let q := Request (rw r) (2 * blockno (bs (rb r))) (rb r) (r0 r) in
  data_inv s' (transfer q m bs).2 (transfer q m bs).1 /\
  (forall x, blockno ((transfer q m bs).2 x) = blockno (bs x)) /\
  (forall x, buf_ok (bs x) -> buf_ok ((transfer q m bs).2 x)).
Proof.
  intros [<- Hd Hs] [Hn Hl]. unfold virtio_disk_rw, transfer. cbn [q_write q_sector q_buf].
  destruct (rw r); cbn; intros [= <-].
  - split; [|done]. split; cbn [bufs disk]; [done|..].
    + intros n Hn'. rewrite read_write_sectors by done. unfold set_block. case_decide as En; [done|]. by apply Hd.
    + intros n. by apply write_sectors_length.
  - split; [split; cbn [bufs disk]; try done; by rewrite Hd|].
    split; intros x; unfold st; case_decide; subst; cbn [blockno bdata set_data]; try done.
    intros [? ?]. split; [done|]. cbn [bdata set_data]. by rewrite length_read_sectors.
Qed.

Lemma inv_serve s a g d' p1 h p2 q e (ok : bool) :
  inv s a g -> pending (dview (dev s)) = p1 ++ h :: p2 -> parse_chain (vd (mem s)) h = Some q ->
  (if ok then e = 0 else faulty = true /\ e <> 0) ->
  let x := if ok then transfer q (media (dview (dev s))) (dbufs (mem s)) else (media (dview (dev s)), dbufs (mem s)) in
  dview d' = Dev (last_avail (dview (dev s))) (p1 ++ p2) (served (dview (dev s)) ++ [h]) x.1 ->
  exists a' g', (a' = a \/ astep a None a') /\
    inv (Sys (Dmem (set_info_status (q_status q) e (vd (mem s))) x.2 (isr (mem s)) (kick (mem s)))
             (bdisk s) (vdisk_lock s) (pcs s) d') a' g'.
Proof.
  intros Hi Hp Hq He x Hd'. pose proof (inv_nodup _ _ _ Hi) as Hn.
  rewrite (q_pending _ _ _ _ _ (i_ring _ _ _ Hi)) in Hp. apply fmap_r0_split in Hp as (P1&r&P2&HP&->&->&->).
  assert (Hr : r ∈ glist g Taken) by (cbn; rewrite HP; set_solver).
  pose proof (inv_buf_ok _ _ _ _ Hi (glist_all _ _ _ Hr)) as Hb.
  pose proof (i_req _ _ _ Hi _ _ Hr) as [K1 K2 K3 K4 K5 K6]. cbn in K6.
  rewrite (parse_chain_ok _ _ _ K1 (proj1 Hb)) in Hq. injection Hq as <-. cbn [q_status] in *.
  assert (exists s', virtio_disk_rw (rb r) (rw r) (abst a) = Ok (tt, s')) as [s' Hs'].
  { unfold virtio_disk_rw. destruct (rw r); cbn; eauto. }
  pose proof (data_inv_transfer _ _ _ _ _ (i_data _ _ _ Hi) Hb Hs') as (HD&HB&HO).
  set (a' := if ok then ASpec s' (nset (athr a) (rt r) (TDone (rb r) (rw r))) else a).
  destruct g as [F A P S U E]. cbn [gP glist] in *. subst P. set (g' := G F A (P1 ++ P2) (S ++ [r]) U E).
  assert (Hmv : moved (G F A (P1 ++ r :: P2) S U E) g' r Served) by (unfold g'; move_tac).
  assert (Hothers : forall y, y ∈ all (G F A (P1 ++ r :: P2) S U E) -> y <> r -> rt y <> rt r /\ r0 y <> r0 r).
  { intros y Hy Hne. split; intros HE; apply Hne.
    - eapply nodup_rt; [apply (i_thr _ _ _ Hi)|done|by eapply (glist_all _ Taken)|done].
    - eapply idxs_disjoint; [apply (i_desc _ _ _ Hi)|done|by eapply (glist_all _ Taken)|apply r0_idxs|rewrite HE; apply r0_idxs]. }
  exists a', g'. split.
  { destruct ok; [right|by left]. apply a_transfer; [|done]. by rewrite K6. }
  assert (HX : data_inv (abst a') x.2 x.1 /\ (forall y, blockno (x.2 y) = blockno (dbufs (mem s) y)) /\
               (forall y, buf_ok (dbufs (mem s) y) -> buf_ok (x.2 y))).
  { destruct ok; [exact (conj HD (conj HB HO))|]. split; [apply Hi|done]. }
  destruct HX as (HD'&HB'&HO'). clearbody x. clear HD HB HO.
  destruct Hi as [HL Hd Hreq [Q1 Q2 Q3 Q4 Q5 Q6 Q7 Q8 Q9] [W1 W2 W3] Hm Hst]. cbn [gF gA gP gS gU gD] in *.
  split; cbn [mem bdisk vdisk_lock pcs dev vd dbufs isr kick set_info_status avail used used_idx free]; rewrite ?Hd'; try done.
  - eapply thr_inv_perm; [apply Hmv|]. destruct HL as [L1 L2 L3 L4 L5 L6]. split; try done; [|eauto].
    intros t st0 Ht. destruct ok; [|by apply L3]. cbn [a' athr]. rewrite nset_ne; [by apply L3|].
    intros ->. by destruct (pcs s (rt r)).
  - eapply desc_inv_perm; [apply Hmv|done].
  - intros ph y [[-> ->]|[Hne Hy]]%Hmv.
    + split; try done.
      * destruct K1 as (C0&C1&C2&C3&C4). repeat split; cbn [desc ops info set_info_status]; try done; [by rewrite HB'|by rewrite fset_eq].
      * cbn [done_stat info set_info_status]. rewrite fset_eq. cbn [info_status].
        destruct ok; [subst e; cbn [a' athr]; by rewrite nset_eq|]. change (athr a' (rt r)) with (athr a (rt r)). by rewrite K6, (proj2 (Z.eqb_neq _ _) (proj2 He)).
    + destruct (Hothers y (glist_all _ _ _ Hy) Hne) as [Ht H0].
      assert (athr a' (rt y) = athr a (rt y)) as -> by (destruct ok; cbn [a' athr]; by rewrite ?nset_ne).
      eapply req_ok_frame; [exact (Hreq ph y Hy)|done|done|cbn [info set_info_status]; by rewrite fset_ne|apply HB'|done].
  - split; cbn [last_avail pending served g' gF gA gP gS gU]; try done; by rewrite ?Q6, fmap_app.
  - split; cbn [g' gU gA]; [done..|]. intros. rewrite <- (Permutation_length (proj1 Hmv)). eauto.
  - intros Hnf y Hy. cbn [info set_info_status]. destruct ok; [|by rewrite (proj1 He) in Hnf]. subst e.
    destruct (decide (y = r)) as [->|Hne]; [by rewrite fset_eq|]. cbn [g' gS gU] in Hy.
    assert (Hy' : y ∈ S \/ y ∈ U) by set_solver.
    rewrite fset_ne; [by apply Hst|]. apply Hothers; [|done].
    destruct Hy'; [by apply (glist_all _ Served)|by apply (glist_all _ Reported)].
Qed.

Lemma inv_use s a g d' s1 h s2 len :
  inv s a g -> served (dview (dev s)) = s1 ++ h :: s2 ->
  dview d' = Dev (last_avail (dview (dev s))) (pending (dview (dev s))) (s1 ++ s2) (media (dview (dev s))) ->
  let u := used (vd (mem s)) in
  exists g', inv (Sys (Dmem (set_used (Used (u_flags u) (u16 (u_idx u + 1))
                              (fset (u_ring u) (u_idx u mod NUM) (UsedElem h len))) (vd (mem s)))
                      (dbufs (mem s)) (Z.lor (isr (mem s)) 1) (kick (mem s)))
             (bdisk s) (vdisk_lock s) (pcs s) d') a g'.
Proof.
  intros Hi Hp Hd' u. pose proof (inv_nodup _ _ _ Hi) as Hn. pose proof (inv_two _ _ _ Hi) as H2.
  rewrite (q_served _ _ _ _ _ (i_ring _ _ _ Hi)) in Hp. apply fmap_r0_split in Hp as (P1&r&P2&HP&->&->&->).
  destruct g as [F A P S U E]. cbn [gS] in *. subst S. set (g' := G F A P (P1 ++ P2) (U ++ [r]) E).
  assert (Hmv : moved (G F A P (P1 ++ r :: P2) U E) g' r Reported) by (unfold g'; move_tac).
  exists g'. destruct Hi as [HL Hd Hreq [Q1 Q2 Q3 Q4 Q5 Q6 Q7 Q8 Q9] [W1 W2 W3] Hm Hst]. cbn [gF gA gP gS gU gD] in *.
  split; cbn [mem bdisk vdisk_lock pcs dev vd dbufs isr kick set_used avail used used_idx free]; rewrite ?Hd'; try done.
  - eapply thr_inv_perm; [apply Hmv|done].
  - eapply desc_inv_perm; [apply Hmv|done].
  - intros ph y [[-> ->]|[Hne Hy]]%Hmv; (apply (req_ok_frame (vd (mem s)) (dbufs (mem s)) (bdisk s)); [|done..]); [|exact (Hreq ph y Hy)].
    destruct (Hreq Served r ltac:(cbn; set_solver)). by split.
  - assert (Hl : (length U < 8)%nat) by (unfold all in H2; cbn in H2; rewrite !length_app in H2; cbn in H2; lia).
    split; cbn [last_avail pending served g' gF gA gP gS gU u_idx u_ring]; try done; [by rewrite fmap_app| |].
    + unfold u. rewrite Q7, u16_add_l, length_app. f_equal. cbn. lia.
    + assert (Hm8 : u_idx u mod NUM = (used_idx (vd (mem s)) + Z.of_nat (length U)) mod NUM) by (unfold u; by rewrite Q7, u16_mod_NUM).
      intros k y Hk. rewrite lookup_app in Hk. destruct (U !! k) eqn:Ek.
      * injection Hk as <-. pose proof (slots_end _ _ _ _ Hl Hm8 (r0 r) Q9 k _ Ek) as HS. rewrite <- HS.
        unfold fset. by case_decide.
      * apply lookup_ge_None in Ek. assert (k = length U) as ->.
        { destruct (k - length U)%nat as [|] eqn:Ek2; [lia|done]. }
        rewrite Nat.sub_diag in Hk. injection Hk as <-. by rewrite <- Hm8, fset_eq.
  - split; cbn [g' gU gA]; [intros _; left; rewrite Z.lor_spec; apply orb_true_r|done|].
    intros. rewrite <- (Permutation_length (proj1 Hmv)). eauto.
  - intros Hnf y Hy. apply Hst; [done|]. cbn [g' gS gU] in Hy. set_solver.
Qed.

Lemma inv_device s a g d' m' :
  inv s a g -> vdev faulty (dview (dev s)) (mem s) (dview d') m' ->
  exists a' g', (a' = a \/ astep a None a') /\ inv (Sys m' (bdisk s) (vdisk_lock s) (pcs s) d') a' g'.
Proof.
  intros Hi Hv. inversion Hv as [? ? Hla|? ? p1 h p2 q Hp Hq|? ? p1 h p2 q e Hp Hq Hfl He|? ? p1 h p2 ? ? Hp Hq|? ? s1 h s2 len Hp|? ? Hla Hx Hm Heq]; subst.
  - destruct (inv_take s a g d' Hi) as [g' ?]; eauto.
  - eapply (inv_serve s a g d' p1 h p2 q 0 true); eauto.
  - eapply (inv_serve s a g d' p1 h p2 q e false); eauto.
  - exfalso. rewrite (q_pending _ _ _ _ _ (i_ring _ _ _ Hi)) in Hp. apply fmap_r0_split in Hp as (P1&r&P2&HP&->&->&->).
    assert (Hr : r ∈ glist g Taken) by (cbn; rewrite HP; set_solver).
    rewrite (parse_chain_ok _ (dbufs (mem s)) r) in Hq; [done|apply (i_req _ _ _ Hi _ _ Hr)|].
    apply (inv_buf_ok _ _ _ _ Hi (glist_all _ _ _ Hr)).
  - destruct (inv_use s a g d' s1 h s2 len Hi) as [g' ?]; eauto.
  - exists a, g. split; [by left|]. pose proof (inv_two _ _ _ Hi) as Htwo.
    destruct Hi as [HL Hd Hreq HQ [W1 W2 W3] Hm Hst]. split; cbn [mem vd dbufs isr kick bdisk vdisk_lock pcs dev]; try done.
    + by rewrite <- Heq.
    + split; try done. intros HA. exfalso. apply HA. pose proof (q_avail _ _ _ _ _ HQ) as E.
      rewrite <- Hla, <- (q_last _ _ _ _ _ HQ) in E. rewrite u16_add_l, <- (Z.add_0_r (last_avail _)) in E at 1.
      apply u16_add_inj in E; [apply length_zero_iff_nil; lia|lia|].
      unfold all in Htwo. rewrite !length_app in Htwo. lia.
    + by rewrite <- Heq.
Qed.

(** ** Descriptor allocation *)

Lemma alloc_desc_loop_spec (s : sys D) n i :
  0 <= i -> i + Z.of_nat n = NUM -> (forall j, 0 <= j < i -> free (vd (mem s)) j = 0) ->
  wp (alloc_desc_loop n i)
     (fun k s' => (k = -1 /\ s' = s /\ forall j, 0 <= j < NUM -> free (vd (mem s)) j = 0) \/
                  (0 <= k < NUM /\ free (vd (mem s)) k <> 0 /\ s' = on_vd (set_free k 0) s)) s.
Proof.
  revert i. induction n as [|n IH]; intros i Hi Hn Hz; cbn [alloc_desc_loop].
  { wp_steps. left. split; [done|]. split; [done|]. intros. apply Hz. lia. }
  unfold rdv, wrv. wp_steps. unfold c_true. destruct (Z.eqb_spec (free (vd (mem s)) i) 0) as [E|E]; cbn [negb].
  - apply IH; [lia|lia|]. intros j Hj. destruct (decide (j = i)) as [->|]; [done|]. apply Hz. lia.
  - wp_steps. right. split; [lia|done].
Qed.
Lemma alloc_desc_spec (s : sys D) :
  wp alloc_desc
     (fun k s' => (k = -1 /\ s' = s /\ forall j, 0 <= j < NUM -> free (vd (mem s)) j = 0) \/
                  (0 <= k < NUM /\ free (vd (mem s)) k <> 0 /\ s' = on_vd (set_free k 0) s)) s.
Proof. apply alloc_desc_loop_spec; [lia|done|lia]. Qed.

(** The descriptors of [l] were freed, and their waiters woken. *)
Record freed (l : list Z) (s s' : sys D) : Prop := {
  f_free : forall j, free (vd (mem s')) j = if decide (j ∈ l) then 1 else free (vd (mem s)) j;
  f_desc : forall j, j ∉ l -> desc (vd (mem s')) j = desc (vd (mem s)) j;
  f_rings : avail (vd (mem s')) = avail (vd (mem s)) /\ used (vd (mem s')) = used (vd (mem s)) /\
            used_idx (vd (mem s')) = used_idx (vd (mem s));
  f_info : info (vd (mem s')) = info (vd (mem s)) /\ ops (vd (mem s')) = ops (vd (mem s));
  f_mem : dbufs (mem s') = dbufs (mem s) /\ isr (mem s') = isr (mem s) /\ kick (mem s') = kick (mem s);
  f_sys : bdisk s' = bdisk s /\ vdisk_lock s' = vdisk_lock s /\ dev s' = dev s;
  f_pcs : forall t, pcs s' t = match l with [] => pcs s t | _ => wake_pc CFree (pcs s t) end
}.

Lemma wake_idem c p : wake_pc c (wake_pc c p) = wake_pc c p.
Proof. by destruct c, p; cbn; try case_decide; cbn; try done; case_decide. Qed.

Lemma freed_nil s : freed [] s s.
Proof. by split; try done. Qed.
Lemma freed_cons i l s s1 s2 : freed [i] s s1 -> freed l s1 s2 -> freed (i :: l) s s2.
Proof.
  intros [A1 A2 (A3a&A3b&A3c) (A4a&A4b) (A5a&A5b&A5c) (A6a&A6b&A6c) A7] [B1 B2 (B3a&B3b&B3c) (B4a&B4b) (B5a&B5b&B5c) (B6a&B6b&B6c) B7].
  split; try (repeat split; congruence).
  - intros j. rewrite B1, A1. repeat case_decide; set_solver.
  - intros j Hj. rewrite B2, A2; set_solver.
  - intros t. rewrite B7. destruct l; rewrite A7; [done|]. apply wake_idem.
Qed.

Lemma free_desc_spec (s : sys D) i :
  0 <= i < NUM -> free (vd (mem s)) i = 0 -> wp (free_desc i) (fun _ s' => freed [i] s s') s.
Proof.
  intros Hi Hf. unfold free_desc, index, rdv, wrv, wakeup.
  rewrite (proj2 (Z.leb_gt _ _)), (proj2 (Z.leb_le _ _)), (proj2 (Z.ltb_lt _ _)) by lia. cbn [andb].
  wp_steps. rewrite Hf. cbn [c_true negb Z.eqb]. wp_steps.
  split; cbn [on_vd on_pcs mem vd dbufs isr kick bdisk vdisk_lock pcs dev set_desc set_free free desc avail used used_idx info ops]; try done.
  - intros j. unfold fset. repeat case_decide; set_solver.
  - intros j Hj. apply fset_ne. set_solver.
Qed.

Lemma free_descs_spec (s : sys D) l :
  NoDup l -> Forall (fun i => 0 <= i < NUM /\ free (vd (mem s)) i = 0) l -> wp (free_descs l) (fun _ s' => freed l s s') s.
Proof.
  revert s. induction l as [|i l IH]; intros s Hn Hf; cbn [free_descs]; [wp_steps; apply freed_nil|].
  apply NoDup_cons in Hn as [Hi Hn]. apply Forall_cons in Hf as [[Hr Hz] Hf]. wp_step.
  eapply wp_mono; [by apply free_desc_spec|]. cbn beta. intros _ s1 H1.
  eapply wp_mono; [apply IH; [done|]|cbn beta; intros _ s2 H2; by eapply freed_cons].
  rewrite Forall_forall in *. intros j Hj. destruct (Hf j Hj) as [? E]. split; [done|].
  rewrite (f_free _ _ _ H1), decide_False; [done|set_solver].
Qed.

Lemma alloc3_desc_spec (s : sys D) :
  (forall j, 0 <= j < NUM -> free (vd (mem s)) j = 0 \/ free (vd (mem s)) j = 1) ->
  wp alloc3_desc
    (fun '(r, l) s' => NoDup l /\ Forall (fun i => 0 <= i < NUM /\ free (vd (mem s)) i = 1) l /\
      ((r = 0 /\ exists i0 i1 i2, l = [i0; i1; i2] /\
          s' = on_vd (set_free i2 0) (on_vd (set_free i1 0) (on_vd (set_free i0 0) s))) \/
       (r = -1 /\ (length l <= 2)%nat /\ (forall j, 0 <= j < NUM -> j ∉ l -> free (vd (mem s)) j = 0) /\
        freed l s s'))) s.
Proof.
  intros H01. assert (Hone : forall j, 0 <= j < NUM -> free (vd (mem s)) j <> 0 -> free (vd (mem s)) j = 1) by naive_solver.
  unfold alloc3_desc. cbn [alloc3_desc_loop app].
  wp_step. eapply wp_mono; [apply alloc_desc_spec|]. cbn beta. intros i0 s0 [(->&->&Hz)|(R0&F0&->)].
  { cbn [Z.ltb Z.compare free_descs]. wp_steps. split; [constructor|]. split; [constructor|]. right.
    split; [done|]. split; [cbn; lia|]. split; [auto|]. apply freed_nil. }
  rewrite (proj2 (Z.ltb_ge i0 0)) by lia.
  wp_step. eapply wp_mono; [apply alloc_desc_spec|]. cbn beta. intros i1 s1 [(->&->&Hz)|(R1&F1&->)].
  { cbn [Z.ltb Z.compare]. wp_step. eapply wp_mono.
    { apply free_descs_spec; [apply NoDup_singleton|]. repeat constructor; try lia. cbn. apply fset_eq. }
    cbn beta. intros _ s2 H2. wp_steps. split; [apply NoDup_singleton|]. split; [repeat constructor; try lia; auto|]. right.
    split; [done|]. split; [cbn; lia|]. cbn [on_vd mem vd set_free free] in Hz. split.
    - intros j Hj Hn. specialize (Hz j Hj). rewrite fset_ne in Hz by set_solver. done.
    - destruct H2 as [B1 B2 B3 B4 B5 B6 B7]. split; try done. intros j. rewrite B1. cbn. unfold fset. repeat case_decide; set_solver. }
  rewrite (proj2 (Z.ltb_ge i1 0)) by lia. cbn [on_vd mem vd set_free free] in F1.
  assert (i1 <> i0) as N1 by (intros ->; by rewrite fset_eq in F1). rewrite fset_ne in F1 by done.
  wp_step. eapply wp_mono; [apply alloc_desc_spec|]. cbn beta. intros i2 s2 [(->&->&Hz)|(R2&F2&->)].
  { cbn [Z.ltb Z.compare]. assert (NoDup [i0; i1]) as ND by (repeat constructor; set_solver). wp_step. eapply wp_mono.
    { apply free_descs_spec; [done|]. repeat constructor; try lia; cbn; [rewrite fset_ne by done|]; apply fset_eq. }
    cbn beta. intros _ s2 H2. wp_steps. split; [done|]. split; [repeat constructor; try lia; auto|]. right.
    split; [done|]. split; [cbn; lia|]. cbn [on_vd mem vd set_free free] in Hz. split.
    - intros j Hj Hn. specialize (Hz j Hj). rewrite !fset_ne in Hz by set_solver. done.
    - destruct H2 as [B1 B2 B3 B4 B5 B6 B7]. split; try done. intros j. rewrite B1. cbn. unfold fset. repeat case_decide; set_solver. }
  rewrite (proj2 (Z.ltb_ge i2 0)) by lia. cbn [on_vd mem vd set_free free] in F2.
  assert (i2 <> i1) as N2 by (intros ->; by rewrite fset_eq in F2). rewrite fset_ne in F2 by done.
  assert (i2 <> i0) as N3 by (intros ->; by rewrite fset_eq in F2). rewrite fset_ne in F2 by done.
  wp_steps. split; [repeat constructor; set_solver|]. split; [repeat constructor; try lia; auto|]. left. eauto 10.
Qed.

Lemma free_chain_spec (s : sys D) bs r :
  chain_ok (vd (mem s)) bs r \/
  chain_ok (set_info_b (r0 r) (Some (rb r)) (vd (mem s))) bs r -> NoDup (idxs r) ->
  Forall (fun i => 0 <= i < NUM /\ free (vd (mem s)) i = 0) (idxs r) ->
  wp (free_chain (r0 r)) (fun _ s' => freed (idxs r) s s') s.
Proof.
  intros Hc Hn Hf.
  assert (desc (vd (mem s)) (r0 r) = Desc (AOps (r0 r)) 16 VRING_DESC_F_NEXT (r1 r) /\
    desc (vd (mem s)) (r1 r) = Desc (AData (rb r)) BSIZE (Z.lor (if rw r then 0 else VRING_DESC_F_WRITE) VRING_DESC_F_NEXT) (r2 r) /\
    desc (vd (mem s)) (r2 r) = Desc (AStatus (r0 r)) 1 VRING_DESC_F_WRITE 0) as (C0&C1&C2).
  { destruct Hc as [(?&?&?&_)|(?&?&?&_)]; done. }
  unfold idxs in *. apply NoDup_cons in Hn as [N0 Hn]. apply NoDup_cons in Hn as [N1 _].
  inversion_clear Hf as [|?? [R0 F0] Hf']. inversion_clear Hf' as [|?? [R1 F1] Hf]. inversion_clear Hf as [|?? [R2 F2] _].
  assert (Hidx : forall (s1 : sys D) i, 0 <= i < NUM -> index i s1 = Ok (tt, s1)).
  { intros. unfold index. by rewrite (proj2 (Z.leb_le _ _)), (proj2 (Z.ltb_lt _ _)) by lia. }
  unfold free_chain. change (Z.to_nat NUM) with 8%nat. cbn [free_chain_loop].
  wp_step. unfold wp at 1. rewrite Hidx by done. unfold rdv. wp_steps. rewrite C0. cbn [dflags dnext].
  eapply wp_mono; [by apply free_desc_spec|]. cbn beta. intros _ s1 H1. change (c_true (Z.land VRING_DESC_F_NEXT VRING_DESC_F_NEXT)) with true. cbv iota.
  wp_step. unfold wp at 1. rewrite Hidx by done. wp_steps. rewrite (f_desc _ _ _ H1) by set_solver. rewrite C1. cbn [dflags dnext].
  eapply wp_mono; [apply free_desc_spec; [done|]|].
  { rewrite (f_free _ _ _ H1), decide_False; [done|set_solver]. }
  cbn beta. intros _ s2 H2. pose proof (freed_cons _ _ _ _ _ H1 H2) as H12.
  assert (c_true (Z.land (Z.lor (if rw r then 0 else VRING_DESC_F_WRITE) VRING_DESC_F_NEXT) VRING_DESC_F_NEXT) = true) as -> by (by destruct (rw r)). cbv iota.
  wp_step. unfold wp at 1. rewrite Hidx by done. wp_steps. rewrite (f_desc _ _ _ H12) by set_solver. rewrite C2. cbn [dflags dnext].
  eapply wp_mono; [apply free_desc_spec; [done|]|].
  { rewrite (f_free _ _ _ H12), decide_False; [done|set_solver]. }
  cbn beta. intros _ s3 H3. cbn. eapply freed_cons; [exact H1|]. by eapply freed_cons.
Qed.

(** Nothing that a request in flight depends on has changed. *)
Lemma inv_frame s s' a g c :
  inv s a g ->
  (forall r i, r ∈ all g -> i ∈ idxs r -> desc (vd (mem s')) i = desc (vd (mem s)) i) ->
  (forall r, r ∈ all g -> info (vd (mem s')) (r0 r) = info (vd (mem s)) (r0 r) /\ ops (vd (mem s')) (r0 r) = ops (vd (mem s)) (r0 r)) ->
  (forall i, 0 <= i < NUM -> free (vd (mem s')) i = free (vd (mem s)) i) ->
  avail (vd (mem s')) = avail (vd (mem s)) -> used (vd (mem s')) = used (vd (mem s)) ->
  used_idx (vd (mem s')) = used_idx (vd (mem s)) ->
  dbufs (mem s') = dbufs (mem s) -> isr (mem s') = isr (mem s) -> kick (mem s') = kick (mem s) ->
  bdisk s' = bdisk s -> vdisk_lock s' = vdisk_lock s -> dev s' = dev s ->
  (forall t, woken c (pcs s t) (pcs s' t)) -> inv s' a g.
Proof.
  intros [HL Hd Hreq HQ HW Hm Hst] E1 E2 E3 E4 E5 E6 E7 E8 E9 E10 E11 E12 Hw. split.
  - rewrite E11, E7. by eapply thr_inv_woken.
  - destruct Hd as [? ? Hf]. split; try done. intros. rewrite E3 by done. auto.
  - intros ph r Hr. eapply req_ok_woken; [apply Hw|]. pose proof (E2 r (glist_all _ _ _ Hr)) as [? ?].
    apply (req_ok_frame (vd (mem s)) (dbufs (mem s)) (bdisk s)); [by apply Hreq|..|done|done|by rewrite E7|by rewrite E10].
    intros. eapply E1; [by eapply glist_all|done].
  - by rewrite E4, E5, E6, E12.
  - rewrite E8, E9. by eapply wake_inv_woken.
  - by rewrite E7, E12.
  - intros Hnf r Hr. rewrite (proj1 (E2 r ltac:(destruct Hr; [by apply (glist_all _ Served)|by apply (glist_all _ Reported)]))). by apply Hst.
Qed.

Lemma inv_free01 s a g j : inv s a g -> 0 <= j < NUM -> free (vd (mem s)) j = 0 \/ free (vd (mem s)) j = 1.
Proof. intros Hi Hj. rewrite (d_free _ _ (i_desc _ _ _ Hi)) by done. case_decide; auto. Qed.
Lemma inv_free1 s a g j : inv s a g -> 0 <= j < NUM -> free (vd (mem s)) j = 1 -> j ∉ (all g ≫= idxs).
Proof. intros Hi Hj. rewrite (d_free _ _ (i_desc _ _ _ Hi)) by done. by case_decide. Qed.

(** [alloc3_desc] failed: two requests are in flight, and nothing has changed. *)
Lemma inv_alloc_failed s a g l s' :
  inv s a g -> NoDup l -> Forall (fun i => 0 <= i < NUM /\ free (vd (mem s)) i = 1) l -> (length l <= 2)%nat ->
  (forall j, 0 <= j < NUM -> j ∉ l -> free (vd (mem s)) j = 0) -> freed l s s' ->
  inv s' a g /\ (2 <= length (all g))%nat.
Proof.
  intros Hi Hn Hl Hlen Hz [B1 B2 (B3&B4&B5) (B6&B7) (B8&B9&B10) (B11&B12&B13) B14]. rewrite Forall_forall in Hl. split.
  - eapply (inv_frame s s' a g CFree); try done.
    + intros r i Hr Hir. apply B2. intros Hil. eapply inv_free1; [done|by apply Hl..|]. by eapply idxs_mem.
    + intros r Hr. by rewrite B6, B7.
    + intros i Hir. rewrite B1. case_decide; [|done]. symmetry. by apply Hl.
    + intros t. rewrite B14. destruct l; [by left|by right].
  - assert (length (seqZ 0 NUM) <= length (l ++ (all g ≫= idxs)))%nat as H8.
    { apply submseteq_length, NoDup_submseteq; [apply NoDup_seqZ|]. intros j Hj%elem_of_seqZ.
      rewrite elem_of_app. destruct (decide (j ∈ l)) as [|Hj']; [by left|right].
      specialize (Hz j ltac:(unfold NUM in *; lia) Hj'). rewrite (d_free _ _ (i_desc _ _ _ Hi)) in Hz by (unfold NUM in *; lia).
      by case_decide. }
    rewrite length_app, length_idxs in H8. change (length (seqZ 0 NUM)) with 8%nat in H8. lia.
Qed.

(** The descriptors and the header that [rw_format] writes. *)
Lemma format_chain v bs bd t b w i0 i1 i2 n :
  NoDup [i0; i1; i2] -> n = blockno (bs b) ->
  let r := Rq t b w i0 i1 i2 in
  let a := avail v in
  let v' := set_avail (Avail (a_flags a) (a_idx a) (fset (a_ring a) (a_idx a mod NUM) i0))
    (set_info_b i0 (Some b) (set_desc i2 (Desc (AStatus i0) 1 VRING_DESC_F_WRITE 0)
    (set_info_status i0 255
    (set_desc i1 (Desc (AData b) BSIZE (Z.lor (if w then 0 else VRING_DESC_F_WRITE) VRING_DESC_F_NEXT) i2)
    (set_desc i0 (Desc (AOps i0) 16 VRING_DESC_F_NEXT i1)
    (set_ops i0 (BlkReq (if w then VIRTIO_BLK_T_OUT else VIRTIO_BLK_T_IN) 0 (u32 (n * (BSIZE / 512)))) v)))))) in
  req_ok v' bs (nset bd b 1) (RwPublish b w i0) (TCalled b w) Fmt r /\
  (forall j, j ∉ idxs r -> desc v' j = desc v j /\ info v' j = info v j /\ ops v' j = ops v j) /\
  free v' = free v /\ used v' = used v /\ used_idx v' = used_idx v.
Proof.
  intros Hn -> r a v'. apply NoDup_cons in Hn as [N0 Hn]. apply NoDup_cons in Hn as [N1 _].
  assert (i0 <> i1 /\ i0 <> i2 /\ i1 <> i2) as (D1&D2&D3) by (repeat split; intros ->; set_solver).
  split; [|split; [|done]].
  - split; cbn [r rt rb rw r0 r1 r2]; try done; [|by rewrite nset_eq].
    unfold chain_ok, r, v'. cbn [rb rw r0 r1 r2 set_avail set_info_b set_info_status set_desc set_ops desc ops info].
    rewrite !fset_eq. cbn [info_b]. rewrite (fset_ne _ i2 i0), (fset_ne _ i1 i0), fset_eq by done.
    by rewrite (fset_ne _ i2 i1), fset_eq by done.
  - intros j Hj. unfold idxs in Hj. cbn [r r0 r1 r2] in Hj. apply not_elem_of_cons in Hj as [J0 Hj].
    apply not_elem_of_cons in Hj as [J1 Hj]. apply not_elem_of_cons in Hj as [J2 _].
    cbn [v' set_avail set_info_b set_info_status set_desc set_ops desc ops info]. by rewrite !fset_ne by done.
Qed.

(** A new request: its descriptors were free, and it is formatted. *)
Lemma inv_new s a g t b w i0 i1 i2 v' :
  inv s a g -> pcs s t = RwAlloc b w ->
  let r := Rq t b w i0 i1 i2 in
  NoDup (idxs r) -> Forall (fun i => 0 <= i < NUM /\ free (vd (mem s)) i = 1) (idxs r) ->
  req_ok v' (dbufs (mem s)) (nset (bdisk s) b 1) (RwPublish b w i0) (TCalled b w) Fmt r ->
  (forall j, j ∉ idxs r -> desc v' j = desc (vd (mem s)) j /\ info v' j = info (vd (mem s)) j /\ ops v' j = ops (vd (mem s)) j) ->
  (forall j, free v' j = if decide (j ∈ idxs r) then 0 else free (vd (mem s)) j) ->
  let av := avail (vd (mem s)) in
  avail v' = Avail (a_flags av) (a_idx av) (fset (a_ring av) (a_idx av mod NUM) i0) ->
  used v' = used (vd (mem s)) -> used_idx v' = used_idx (vd (mem s)) ->
  exists g', inv (Sys (Dmem v' (dbufs (mem s)) (isr (mem s)) (kick (mem s))) (nset (bdisk s) b 1) (vdisk_lock s)
                      (nset (pcs s) t (RwPublish b w i0)) (dev s)) a g'.
Proof.
  intros Hi Hp r Hn Hf Hok Hd Hfr av Hav Hu Hui. rewrite Forall_forall in Hf.
  pose proof (inv_two _ _ _ Hi) as H2.
  assert (Hlock : vdisk_lock s = Some t) by (apply (t_lock _ _ _ _ _ (i_thr _ _ _ Hi)); by rewrite Hp).
  assert (Hoth : forall x, x ∈ all g -> rt x <> t) by (intros; eapply inv_other; [done|by rewrite Hp|done]).
  assert (HF : gF g = []).
  { destruct (gF g) as [|x F] eqn:EF; [done|]. exfalso. assert (Hx : x ∈ glist g Fmt) by (cbn; rewrite EF; set_solver).
    apply (Hoth x); [by eapply glist_all|]. pose proof (rk_fmt _ _ _ _ _ _ _ (i_req _ _ _ Hi _ _ Hx)) as HH.
    assert (vdisk_lock s = Some (rt x)) by (apply (t_lock _ _ _ _ _ (i_thr _ _ _ Hi)); by destruct (pcs s (rt x))). congruence. }
  assert (Hdis : forall x j, x ∈ all g -> j ∈ idxs x -> j ∉ idxs r).
  { intros x j Hx Hj Hr. eapply inv_free1; [done|by apply Hf..|]. by eapply idxs_mem. }
  assert (Hbuf : forall x, x ∈ all g -> rb x <> b).
  { intros x Hx E. apply (Hoth x Hx). pose proof (inv_active _ _ _ _ Hi Hx) as HA.
    eapply (t_users _ _ _ _ _ (i_thr _ _ _ Hi) _ _ b); [|by rewrite Hp].
    destruct (pcs s (rt x)); cbn in HA |- *; congruence. }
  assert (Hat : athr a t = TCalled b w) by (eapply (t_idle _ _ _ _ _ (i_thr _ _ _ Hi)); by rewrite Hp).
  destruct g as [F A P S U E]. cbn [gF] in HF. subst F. exists (G [r] A P S U E).
  change (all (G [r] A P S U E)) with (r :: all (G [] A P S U E)) in *. set (L := all (G [] A P S U E)) in *.
  destruct Hi as [HL Hd0 Hreq [Q1 Q2 Q3 Q4 Q5 Q6 Q7 Q8 Q9] [W1 W2 W3] Hm Hst].
  split; cbn [mem bdisk vdisk_lock pcs dev vd dbufs isr kick]; rewrite ?Hav, ?Hu, ?Hui; try done.
  - eapply (thr_inv_new _ _ _ _ L r w); try done.
  - apply (desc_inv_new _ _ L r Hd0); [done|..|done].
    + rewrite Forall_forall. intros j Hj. by apply Hf.
    + intros x j Hx Hj. by apply (Hdis x j).
  - intros ph x Hx. destruct (decide (x = r)) as [->|Hne].
    + assert (ph = Fmt) as ->.
      { destruct (decide (ph = Fmt)) as [|Hph]; [done|]. exfalso. apply (Hoth r); [|done].
        apply (glist_all (G [] A P S U E) ph). by destruct ph. }
      cbn [r rt]. by rewrite nset_eq, Hat.
    + assert (Hx' : x ∈ glist (G [] A P S U E) ph) by (destruct ph; cbn in *; set_solver). pose proof (glist_all _ _ _ Hx') as Hxl.
      rewrite nset_ne by (by apply Hoth).
      apply (req_ok_frame (vd (mem s)) (dbufs (mem s)) (bdisk s)); [by apply Hreq|..|done|by rewrite nset_ne by (by apply Hbuf)];
        [intros j Hj; by eapply Hd, Hdis|by eapply Hd, Hdis, r0_idxs..].
  - assert (Hl : (length A < 8)%nat) by (unfold L, all in H2; cbn in H2; rewrite !length_app in H2; lia).
    split; cbn [gF gA gP gS gU a_idx a_ring]; try done.
    + apply slots_end; [done| |done]. unfold av. cbn [gA] in Q1. by rewrite Q1, u16_mod_NUM.
    + intros x Hx. assert (x = r) as -> by set_solver. apply fset_eq.
  - split; cbn [gU gA].
    + intros H. destruct (W1 H) as [|[t' Ht]]; [by left|right]. exists t'. rewrite nset_ne; [done|congruence].
    + intros H. destruct (W2 H) as [|(t'&b'&w'&j&Ht)]; [by left|right]. exists t', b', w', j. rewrite nset_ne; [done|congruence].
    + intros t' b' w'. destruct (decide (t' = t)) as [->|]; rewrite ?nset_eq, ?nset_ne by done; [done|].
      intros HE. specialize (W3 _ _ _ HE). change (all (G [r] A P S U E)) with (r :: L). cbn [length]. unfold L. lia.
  - intros Hnf x Hx. cbn [gS gU] in Hx. assert (Hxl : x ∈ L) by (destruct Hx; [by apply (glist_all _ Served)|by apply (glist_all _ Reported)]).
    rewrite (proj1 (proj2 (Hd (r0 x) (Hdis x _ Hxl (r0_idxs x))))). by apply Hst.
Qed.

(** The call returns: its descriptors are free again and the waiters awake. *)
Lemma inv_finish s a g r b w i s1 :
  inv s a g -> pcs s (rt r) = RwTest b w i -> r ∈ gD g -> freed (idxs r) (on_vd (set_info_b (r0 r) None) s) s1 ->
  exists g', inv (on_pcs (nset (pcs s1) (rt r) Out) (on_lock None s1)) (ASpec (abst a) (nset (athr a) (rt r) TIdle)) g'.
Proof.
  intros Hi Hp Hr Hfr. pose proof (inv_nodup _ _ _ Hi) as Hn.
  assert (Hlock : vdisk_lock s = Some (rt r)) by (apply (t_lock _ _ _ _ _ (i_thr _ _ _ Hi)); by rewrite Hp).
  destruct Hi as [HL Hd Hreq [Q1 Q2 Q3 Q4 Q5 Q6 Q7 Q8 Q9] [W1 W2 W3] Hm Hst].
  destruct g as [F A P S U E]. cbn [gD] in Hr. apply list_elem_of_split in Hr as (E1&E2&->).
  set (g := G F A P S U (E1 ++ r :: E2)) in *. set (g' := G F A P S U (E1 ++ E2)).
  assert (Hperm : all g ≡ₚ r :: all g') by (unfold all, g, g'; cbn [gF gA gP gS gU gD]; solve_Permutation).
  assert (Hsub : forall ph x, x ∈ glist g' ph -> x ∈ glist g ph /\ x <> r).
  { intros ph x Hx. split; [destruct ph; cbn in *; set_solver|]. intros ->. rewrite Hperm in Hn.
    apply NoDup_cons in Hn as [Hn _]. by apply Hn, (glist_all g' ph). }
  assert (Hrg : r ∈ all g) by (apply (glist_all _ Done); cbn; set_solver).
  destruct Hfr as [B1 B2 (B3&B4&B5) (B6&B7) (B8&B9&B10) (B11&B12&B13) B14].
  cbn [on_vd mem vd set_info_b free desc avail used used_idx info ops dbufs isr kick bdisk vdisk_lock dev pcs] in *.
  assert (Hpcs : forall t, t <> rt r -> nset (pcs s1) (rt r) Out t = wake_pc CFree (pcs s t)).
  { intros t Ht. rewrite nset_ne by done. apply B14. }
  exists g'. split; cbn [on_pcs on_lock mem vd dbufs isr kick bdisk vdisk_lock pcs dev athr abst];
    rewrite ?B3, ?B4, ?B5, ?B8, ?B9, ?B10, ?B11, ?B13; try done.
  - eapply (thr_inv_del _ (pcs s) (athr a)); [by eapply thr_inv_perm|done|..].
    + intros t Ht. right. by apply Hpcs.
    + apply nset_eq.
    + intros. by apply nset_ne.
    + apply nset_eq.
  - eapply desc_inv_del; [by eapply desc_inv_perm|exact B1].
  - intros ph x [Hx Hne]%Hsub. pose proof (glist_all _ _ _ Hx) as Hxg.
    assert (rt x <> rt r) as Ht by (intros HE; apply Hne; by eapply nodup_rt; [apply HL|..]).
    assert (forall j, j ∈ idxs x -> j ∉ idxs r) as Hdis.
    { intros j Hj Hj'. apply Hne. by eapply idxs_disjoint; [apply Hd|..]. }
    rewrite Hpcs, (nset_ne (athr a)) by done. eapply req_ok_woken; [by right|].
    eapply req_ok_frame; [by apply Hreq|..|done|done]; [intros; by apply B2, Hdis|by rewrite B7|rewrite B6].
    apply fset_ne. intros HE. apply (Hdis (r0 x)); [apply r0_idxs|rewrite HE; apply r0_idxs].
  - split; cbn [gU gA g'].
    + intros H. destruct (W1 H) as [|[t Ht]]; [by left|right]. exists t. rewrite Hpcs by congruence. by rewrite Ht.
    + intros H. destruct (W2 H) as [|(t&b'&w'&j&Ht)]; [by left|right]. exists t, b', w', j. rewrite Hpcs by congruence. by rewrite Ht.
    + intros t b' w'. destruct (decide (t = rt r)) as [->|Hne]; [by rewrite nset_eq|]. rewrite Hpcs by done. by destruct (pcs s t).
  - intros Hnf x Hx. assert (Hx' : exists ph, x ∈ glist g' ph) by (destruct Hx; [by exists Served|by exists Reported]).
    destruct Hx' as [ph [Hxg Hne]%Hsub]. rewrite B6, fset_ne; [by apply Hst|]. intros HE. apply Hne.
    eapply idxs_disjoint; [apply Hd|by eapply glist_all|done|apply r0_idxs|rewrite HE; apply r0_idxs].
Qed.

(** One finished request is taken out of the used ring. *)
Lemma inv_completed s a g r U :
  inv s a g -> gU g = r :: U -> info_status (info (vd (mem s)) (r0 r)) = 0 ->
  exists g', inv (on_vd (fun v => set_used_idx (u16 (used_idx v + 1)) v)
    (on_pcs (fun t => wake_pc (CBuf (rb r)) (pcs s t)) (on_bdisk (rb r) 0 s))) a g'.
Proof.
  intros Hi HU Hst. pose proof (inv_nodup _ _ _ Hi) as Hn.
  assert (Hsame : forall x, x ∈ all g -> x <> r -> rb x <> rb r).
  { intros x Hx Hne HE. apply Hne. eapply inv_same_buf; [done..| |done]. apply (glist_all _ Reported). cbn. rewrite HU. set_solver. }
  destruct Hi as [HL Hd Hreq [Q1 Q2 Q3 Q4 Q5 Q6 Q7 Q8 Q9] HW Hm Hst'].
  destruct g as [F A P S U' E]. cbn [gF gA gP gS gU gD] in *. subst U'. set (g' := G F A P S U (E ++ [r])).
  assert (Hmv : moved (G F A P S (r :: U) E) g' r Done) by (unfold g'; move_tac).
  exists g'. apply slots_cons in Q9 as [Q9 Q9'].
  split; cbn [on_vd on_pcs on_bdisk mem bdisk vdisk_lock pcs dev vd dbufs isr kick set_used_idx avail used used_idx free]; try done.
  - eapply thr_inv_perm; [apply Hmv|]. eapply (thr_inv_woken (CBuf (rb r))); [|done]. by right.
  - eapply desc_inv_perm; [apply Hmv|done].
  - intros ph x [[-> ->]|[Hne Hx]]%Hmv.
    + destruct (Hreq Reported r ltac:(cbn; set_solver)) as [K1 K2 K3 K4 K5 K6].
      pose proof (wake_pc_same (CBuf (rb r)) (pcs s (rt r))) as (E1&_&_&_&E5&_). split; try done.
      * by rewrite E1.
      * by rewrite E5, K3.
      * intros _. destruct (pcs s (rt r)); cbn in K2 |- *; try done. injection K2 as -> -> ->. by rewrite decide_True.
      * by rewrite nset_eq.
      * cbn in K6 |- *. by rewrite K6, Hst.
    + eapply req_ok_woken; [by right|]. eapply req_ok_frame; [by apply Hreq|try done..].
      apply nset_ne. apply Hsame; [by eapply glist_all|done].
  - split; cbn [last_avail pending served g' gF gA gP gS gU u_idx u_ring]; try done.
    + rewrite Q7, u16_add_l. f_equal. cbn [length]. lia.
    + unfold u16. by rewrite Z.mod_mod by lia.
    + by apply slots_u16.
  - eapply (wake_inv_woken (CBuf (rb r)) _ _ (pcs s)); [by right|]. destruct HW as [W1 W2 W3]. split; cbn [g' gU gA]; [|done|].
    + intros _. by apply W1.
    + intros. rewrite <- (Permutation_length (proj1 Hmv)). eauto.
  - intros Hnf x Hx. apply Hst'; [done|]. cbn [g' gS gU] in Hx. set_solver.
Qed.

(** A store to a buffer that no call uses. *)
Lemma inv_store s a g b x :
  inv s a g -> unused s b ->
  inv (on_mem (Dmem (vd (mem s)) (st (dbufs (mem s)) b (fun _ => x)) (isr (mem s)) (kick (mem s))) s)
      (ASpec (Bst (st (bufs (abst a)) b (fun _ => x)) (disk (abst a)) (trace (abst a))) (athr a)) g.
Proof.
  intros Hi Hu. assert (Hpb : forall p b w i, pc_req p = Some (b, w, i) -> pc_buf p = Some b) by (intros []; cbn; congruence).
  assert (Hrb : forall r, r ∈ all g -> rb r <> b).
  { intros r Hr HE. apply (Hu (rt r)). rewrite <- HE. eapply Hpb. by eapply inv_active. }
  destruct Hi as [[L1 L2 L3 L4 L5 L6] Hd Hreq HQ HW [M1 M2 M3] Hst].
  split; cbn [on_mem mem bdisk vdisk_lock pcs dev vd dbufs isr kick athr abst]; try done.
  - split; try done. intros t b' Hb. unfold st. rewrite decide_False; [eauto|]. intros ->. by apply (Hu t).
  - intros ph r Hr. eapply req_ok_frame; [by apply Hreq|try done..]. unfold st. rewrite decide_False; [done|].
    apply Hrb. by eapply glist_all.
  - split; cbn [bufs disk]; [by rewrite M1|done..].
Qed.

Lemma inv_tbuf s a g t : inv s a g -> tbuf (athr a t) = pc_buf (pcs s t).
Proof.
  intros Hi. destruct (pc_req (pcs s t)) as [x|] eqn:Ex.
  - destruct (inv_find _ _ _ _ _ Hi Ex) as (r&ph&Hr&<-&->). rewrite (rk_stat _ _ _ _ _ _ _ (i_req _ _ _ Hi _ _ Hr)).
    assert (pc_buf (pcs s (rt r)) = Some (rb r)) as -> by (destruct (pcs s (rt r)); cbn in *; congruence).
    destruct ph; cbn; try case_match; done.
  - pose proof (t_idle _ _ _ _ _ (i_thr _ _ _ Hi) t) as H. destruct (pcs s t); cbn in *; try done; by rewrite (H _ eq_refl).
Qed.
Lemma inv_aunused s a g b : inv s a g -> unused s b -> aunused a b.
Proof. intros Hi Hu t. rewrite (inv_tbuf _ _ _ t Hi). apply Hu. Qed.

(** ** The simulation *)

Definition simulated (a : aspec) (e : option event) (s' : sys D) : Prop :=
  exists a' g', ((a' = a /\ e = None) \/ astep a e a') /\ inv s' a' g'.

Lemma sim_silent a s' g' : inv s' a g' -> simulated a None s'.
Proof. intros. exists a, g'. auto. Qed.

(** What the next segment of a thread does from a state with the invariant. *)
Definition segment_ok (m : M (sys D) (option event)) (a : aspec) (s : sys D) : Prop :=
  match m s with
  | Ok (e, s') => simulated a e s'
  | Panic msg => msg = "virtio_disk_intr status"%string /\ faulty = true
  | Sleep _ => True
  | Fuel => False
  end.
Lemma segment_wp m a s : wp m (fun e s' => simulated a e s') s -> segment_ok m a s.
Proof. unfold wp, segment_ok. by destruct (m s) as [[e s']| | |]. Qed.

Lemma acquire_segment a s t (p : pc) :
  (vdisk_lock s = None -> simulated a None (Sys (mem s) (bdisk s) (Some t) (nset (pcs s) t p) (dev s))) ->
  segment_ok (acquire t ;; goto t p ;; ret None) a s.
Proof. intros H. unfold acquire, segment_ok, bind, gets, sleep_on. destruct (vdisk_lock s); [done|]. by apply H. Qed.

(** Taking the lock with nothing in flight of one's own. *)
Lemma acquire_idle s a g t p :
  inv s a g -> pc_req (pcs s t) = None -> pc_req p = None -> pcs s t <> IntrLoop ->
  pc_buf p = pc_buf (pcs s t) -> holds p = true -> idle_stat p = idle_stat (pcs s t) ->
  segment_ok (acquire t ;; goto t p ;; ret None) a s.
Proof.
  intros Hi Hp Hp' Hl Hb Hh Hs. apply acquire_segment. intros Hnone.
  apply (sim_silent _ _ g). eapply (inv_moves s a g t p (Some t) a); eauto.
  - done.
  - intros t' Ht'. rewrite Hnone. split; congruence.
  - done.
  - intros b E. rewrite Hb in E. split; [by eapply (t_bufs _ _ _ _ _ (i_thr _ _ _ Hi))|].
    intros t' Ht' E'. apply Ht'. by eapply (t_users _ _ _ _ _ (i_thr _ _ _ Hi)).
  - intros b w ->. done.
  - rewrite Hs. pose proof (t_idle _ _ _ _ _ (i_thr _ _ _ Hi) t) as H.
    destruct (pcs s t); cbn in *; try done; by rewrite (H _ eq_refl).
Qed.

Lemma inv_lock_held s a g t t' : inv s a g -> holds (pcs s t) = true -> t' <> t -> vdisk_lock s = Some t' <-> None = Some t'.
Proof. intros Hi Hh Ht. apply (t_lock _ _ _ _ _ (i_thr _ _ _ Hi)) in Hh. rewrite Hh. split; congruence. Qed.

Lemma rw_alloc_ok s a g t b w :
  inv s a g -> pcs s t = RwAlloc b w -> segment_ok (rw_alloc t b w ;; ret None) a s.
Proof.
  intros Hi Hp. apply segment_wp. unfold rw_alloc. wp_step. wp_step.
  eapply wp_mono; [apply alloc3_desc_spec; intros; by eapply inv_free01|]. cbn beta.
  intros [k l] s' (Hn&Hl&[(->&i0&i1&i2&->&->)|(->&Hlen&Hz&Hfr)]).
  - change (0 =? 0) with true. cbv iota. unfold rw_format, wrv, goto. wp_steps.
    set (v := vd (mem s)). pose proof (format_chain (set_free i2 0 (set_free i1 0 (set_free i0 0 v))) (dbufs (mem s)) (bdisk s) t b w i0 i1 i2 _ Hn eq_refl)
      as (Hok&Hd&Hf&Hu&Hui).
    match type of Hf with free ?x = _ => set (v' := x) in * end.
    destruct (inv_new s a g t b w i0 i1 i2 v' Hi Hp Hn Hl Hok) as [g' Hg']; try done.
    + intros j. rewrite Hf. cbn [set_free free]. unfold fset, idxs. cbn [r0 r1 r2].
      repeat case_decide; subst; try done; set_solver.
    + by eapply sim_silent.
  - destruct (inv_alloc_failed _ _ _ _ _ Hi Hn Hl Hlen Hz Hfr) as [Hi' H2].
    assert (Hp' : pcs s' t = RwAlloc b w) by (rewrite (f_pcs _ _ _ Hfr), Hp; by destruct l).
    assert (wp (release ;; goto t (RwSleepFree b w)) (fun _ s2 => simulated a None s2) s') as HG.
    { unfold release, goto. wp_steps. apply (sim_silent _ _ g).
      eapply (inv_moves s' a g t (RwSleepFree b w) None a); try done; rewrite ?Hp'; try done.
      - intros t' Ht'. eapply inv_lock_held; [done| |done]. by rewrite Hp'.
      - intros b' [= <-]. split; [eapply (t_bufs _ _ _ _ _ (i_thr _ _ _ Hi') t); by rewrite Hp'|].
        intros t' Ht' E'. apply Ht'. eapply (t_users _ _ _ _ _ (i_thr _ _ _ Hi')); [done|by rewrite Hp'].
      - cbn. f_equal. symmetry. eapply (t_idle _ _ _ _ _ (i_thr _ _ _ Hi') t). by rewrite Hp'. }
    destruct l as [|? [|? [|? [|]]]]; cbv iota beta; change (-1 =? 0) with false; cbv iota;
      (eapply wp_mono; [exact HG|]; cbn beta; intros; by wp_steps).
Qed.

Lemma rw_wait_ok s a g t b w i :
  inv s a g -> pcs s t = RwTest b w i ->
  segment_ok (let! r := rw_wait t b w i in ret (if r : bool then Some (ERet t b w) else None)) a s.
Proof.
  intros Hi Hp. apply segment_wp. destruct (inv_find s a g t (b, w, i) Hi ltac:(by rewrite Hp)) as (r&ph&Hr&<-&[= -> -> ->]).
  pose proof (i_req _ _ _ Hi _ _ Hr) as [K1 K2 K3 K4 K5 K6].
  unfold rw_wait, release, goto, wrv. wp_steps. destruct (Z.eqb_spec (bdisk s (rb r)) 1) as [E|E].
  - wp_steps. apply (sim_silent _ _ g).
    eapply (inv_goto_waiting s a g (rt r) (RwSleepBuf (rb r) (rw r) (r0 r)) None); rewrite ?Hp; try done.
    intros t' Ht'. eapply inv_lock_held; [done| |done]. by rewrite Hp.
  - rewrite K5 in E. destruct (decide (ph = Done)) as [->|]; [|done]. wp_steps.
    eapply wp_mono; [apply (free_chain_spec _ (dbufs (mem s)))|].
    + right. destruct K1 as (C0&C1&C2&C3&C4). repeat split; try done. cbn. by rewrite fset_eq.
    + pose proof (d_nodup _ _ (i_desc _ _ _ Hi)) as Hn. apply (glist_all _ _ _), list_elem_of_split in Hr as (l1&l2&HL).
      rewrite HL in Hn. rewrite bind_app, bind_cons in Hn. apply NoDup_app in Hn as (_&_&Hn). by apply NoDup_app in Hn as [Hn _].
    + rewrite Forall_forall. intros j Hj. pose proof (idxs_mem _ _ _ (glist_all _ _ _ Hr) Hj) as Hin.
      pose proof (d_range _ _ (i_desc _ _ _ Hi)) as HR. rewrite Forall_forall in HR. split; [by apply HR|]. cbn.
      rewrite (d_free _ _ (i_desc _ _ _ Hi)) by (by apply HR). by rewrite decide_True.
    + cbn beta. intros _ s1 Hfr. wp_steps. destruct (inv_finish _ _ _ _ _ _ _ _ Hi Hp Hr Hfr) as [g' Hg'].
      eexists _, g'. split; [|exact Hg']. right. by apply a_return.
Qed.

Lemma intr_loop_ok s a g t :
  inv s a g -> pcs s t = IntrLoop -> segment_ok (intr_loop t ;; ret None) a s.
Proof.
  intros Hi Hp. pose proof (i_ring _ _ _ Hi) as HQ. pose proof (inv_two _ _ _ Hi) as H2.
  assert (HU : used_idx (vd (mem s)) = u_idx (used (vd (mem s))) <-> gU g = []).
  { rewrite (q_used _ _ _ _ _ HQ), <- (q_ui _ _ _ _ _ HQ) at 1. rewrite <- (Z.add_0_r (used_idx _)) at 1. split.
    - intros E%u16_add_inj; [apply length_zero_iff_nil; lia|lia|]. unfold all in H2. rewrite !length_app in H2. lia.
    - by intros ->. }
  destruct (gU g) as [|r U] eqn:EU.
  - apply segment_wp. unfold intr_loop, rdv, release, goto. wp_steps. unfold id. rewrite (proj2 HU eq_refl), Z.eqb_refl. wp_steps.
    apply (sim_silent _ _ g). eapply (inv_moves s a g t Out None a); rewrite ?Hp; try done.
    + intros t' Ht'. eapply inv_lock_held; [done| |done]. by rewrite Hp.
    + cbn. f_equal. symmetry. eapply (t_idle _ _ _ _ _ (i_thr _ _ _ Hi) t). by rewrite Hp.
  - assert (Hr : r ∈ glist g Reported) by (cbn; rewrite EU; set_solver).
    assert (R0 : 0 <= r0 r < NUM).
    { pose proof (d_range _ _ (i_desc _ _ _ Hi)) as HR. rewrite Forall_forall in HR. apply HR.
      eapply idxs_mem; [by eapply glist_all|apply r0_idxs]. }
    pose proof (q_uslots _ _ _ _ _ HQ) as Hs. rewrite EU in Hs. apply slots_cons in Hs as [Hs _].
    pose proof (i_req _ _ _ Hi _ _ Hr) as [(_&_&_&_&Hb) _ _ _ _ _].
    unfold segment_ok, intr_loop, rdv, index, bind, gets. unfold id.
    destruct (Z.eqb_spec (used_idx (vd (mem s))) (u_idx (used (vd (mem s))))) as [E|_]; [by apply HU in E|].
    rewrite Hs, i32_id by (unfold is_i32, NUM in *; lia).
    rewrite (proj2 (Z.leb_le _ _)), (proj2 (Z.ltb_lt _ _)) by lia. cbn [andb ret]. unfold c_true.
    destruct (Z.eqb_spec (info_status (info (vd (mem s)) (r0 r))) 0) as [E|E]; cbn [negb ret panic]; [|split; [done|]].
    2: { destruct (faulty) eqn:Ef; [done|]. exfalso. apply E. apply (i_status _ _ _ Hi Ef). right. rewrite EU. set_solver. }
    rewrite Hb. destruct (inv_completed s a g r U Hi EU E) as [g' Hg']. by eapply sim_silent.
Qed.

Lemma exec_ok s a g t : inv s a g -> segment_ok (exec t) a s.
Proof.
  intros Hi. unfold segment_ok, exec. unfold bind at 1, gets at 1. destruct (pcs s t) as [|b w|b w|b w|b w|b w i|b w i|b w i|b w i|b w i| | |] eqn:Hp; try done.
  - eapply (acquire_idle s a g); rewrite ?Hp; try done.
  - by eapply rw_alloc_ok.
  - eapply (acquire_idle s a g); rewrite ?Hp; try done.
  - destruct (inv_publish s a g t b w i Hi Hp) as [g' Hg']. by eapply sim_silent.
  - cbn. apply (sim_silent _ _ g). eapply (inv_goto_active s a g t (RwTest b w i) (vdisk_lock s) true); rewrite ?Hp; try done.
    cbn. split; [|done]. intros _. apply (t_lock _ _ _ _ _ (i_thr _ _ _ Hi)). by rewrite Hp.
  - by eapply rw_wait_ok.
  - eapply acquire_segment. intros Hnone. apply (sim_silent _ _ g).
    eapply (inv_goto_waiting s a g t (RwTest b w i) (Some t)); rewrite ?Hp; try done.
    intros t' Ht'. rewrite Hnone. split; congruence.
  - eapply (acquire_idle s a g); rewrite ?Hp; try done.
  - cbn. apply (sim_silent _ _ g).
    assert (HI : inv (Sys (mem s) (bdisk s) (vdisk_lock s) (nset (pcs s) t IntrLoop) (dev s)) a g).
    { eapply (inv_moves s a g t IntrLoop _ a); rewrite ?Hp; try done.
      - cbn. split; [|done]. intros _. apply (t_lock _ _ _ _ _ (i_thr _ _ _ Hi)). by rewrite Hp.
      - cbn. f_equal. symmetry. eapply (t_idle _ _ _ _ _ (i_thr _ _ _ Hi) t). by rewrite Hp. }
    destruct HI as [? ? ? ? [W1 W2 W3] ? ?]. split; try done. split; try done.
    intros _. right. exists t. apply nset_eq.
  - by eapply intr_loop_ok.
Qed.

Lemma step_simulated s a g e s' : inv s a g -> vstep s e s' -> simulated a e s'.
Proof.
  intros Hi [t b w Hp Hu Hb|b x Hu|t Hp|t e' s1 Hx|d' m' Hd].
  - eexists _, g. split.
    + right. apply a_call; [eapply (t_idle _ _ _ _ _ (i_thr _ _ _ Hi)); by rewrite Hp|by eapply inv_aunused|].
      by rewrite (m_bufs _ _ _ (i_data _ _ _ Hi)).
    + eapply (inv_moves s a g t (RwAcquire b w) (vdisk_lock s)); cbn [abst athr]; rewrite ?Hp; try done.
      * cbn. split; [done|]. intros E. apply (t_lock _ _ _ _ _ (i_thr _ _ _ Hi)) in E. by rewrite Hp in E.
      * intros b' [= <-]. split; [done|]. intros t' _. apply Hu.
      * intros. by apply nset_ne.
      * cbn. by rewrite nset_eq.
  - eexists _, g. split; [right; by apply a_store; eapply inv_aunused|by apply inv_store].
  - apply (sim_silent _ _ g). eapply (inv_moves s a g t IntrAcquire (vdisk_lock s) a); rewrite ?Hp; try done.
    + cbn. split; [done|]. intros E. apply (t_lock _ _ _ _ _ (i_thr _ _ _ Hi)) in E. by rewrite Hp in E.
    + cbn. f_equal. symmetry. eapply (t_idle _ _ _ _ _ (i_thr _ _ _ Hi) t). by rewrite Hp.
  - pose proof (exec_ok s a g t Hi) as H. unfold segment_ok in H. by rewrite Hx in H.
  - destruct (inv_device s a g d' m' Hi) as (a'&g'&[->|Ha]&Hi'); [by apply dstep_conforms|by eapply sim_silent|].
    exists a', g'. auto.
Qed.

(** ** Runs from the state [virtio_disk_init] leaves *)

Record initial (s : sys D) : Prop := {
  z_out : forall t, pcs s t = Out;
  z_lock : vdisk_lock s = None;
  z_rings : a_idx (avail (vd (mem s))) = 0 /\ u_idx (used (vd (mem s))) = 0 /\ used_idx (vd (mem s)) = 0;
  z_free : forall i, 0 <= i < NUM -> free (vd (mem s)) i = 1;
  z_dev : last_avail (dview (dev s)) = 0 /\ pending (dview (dev s)) = [] /\ served (dview (dev s)) = [];
  z_media : forall n, length (media (dview (dev s)) n) = Z.to_nat SECTOR
}.

(** The disk the contract speaks of: blocks of [nsect] sectors. *)
Definition blocks (s : sys D) : Z -> block := fun n => read_sectors (media (dview (dev s))) (2 * n) nsect.
Definition contract (s : sys D) : aspec := ASpec (Bst (dbufs (mem s)) (blocks s) []) (fun _ => TIdle).

Lemma initial_inv s : initial s -> inv s (contract s) (G [] [] [] [] [] []).
Proof.
  intros [Z1 Z2 (Z3&Z4&Z5) Z6 (Z7&Z8&Z9) Z10]. split.
  - split; rewrite ?Z2; try (intros t; rewrite Z1; try done).
    + intros a [= <-]. done.
    + constructor.
  - split; [constructor..|]. intros i Hi. by rewrite Z6, decide_False by (done || set_solver).
  - intros [] r Hr; cbn in Hr; by apply elem_of_nil in Hr.
  - split; cbn; rewrite ?Z3, ?Z4, ?Z5, ?Z7; try done. intros r Hr. by apply elem_of_nil in Hr.
  - split; try done. intros t b w. by rewrite Z1.
  - by split.
  - intros _ r [Hr|Hr]; by apply elem_of_nil in Hr.
Qed.

Lemma run_simulated s0 tr s :
  initial s0 -> traces vstep s0 tr s ->
  exists a g, traces astep (contract s0) tr a /\ inv s a g.
Proof.
  intros H0 Hr. induction Hr as [|s0 tr s1 e s2 Hr IH Hs].
  - eexists _, _. split; [apply tr_nil|by apply initial_inv].
  - destruct (IH H0) as (a&g&Ha&Hi). destruct (step_simulated _ _ _ _ _ Hi Hs) as (a'&g'&[[-> ->]|Hx]&Hi').
    + exists a, g'. cbn. by rewrite app_nil_r.
    + exists a', g'. split; [by eapply tr_snoc|done].
Qed.

(** C3: The disk driver implements the contract the buffer cache uses: whatever
    the interleaving of callers, interrupts and device, every run of
    virtio_disk_rw calls has the calls, returns and buffer contents of a machine
    in which each call transfers its own block, to or from its own buffer, in
    one atomic step between call and return, and the medium holds the same
    blocks. *)
Theorem disk_driver_refines_contract (s0 s : sys D) (tr : list event) :
  initial s0 -> traces vstep s0 tr s ->
  exists a, traces astep (contract s0) tr a /\
    bufs (abst a) = dbufs (mem s) /\ (forall n, 0 <= n < 2 ^ 31 -> disk (abst a) n = blocks s n).
Proof.
  intros H0 Hr. destruct (run_simulated _ _ _ H0 Hr) as (a&g&Ha&Hi). exists a. destruct (i_data _ _ _ Hi) as [M1 M2 M3]. auto.
Qed.

(** C10: The driver's data stay well formed: in every reachable state no access is
    outside its array, no null buffer is followed, no descriptor is freed twice
    and every loop inside a step of a thread ends; the one panic a thread can reach is the handler's
    refusal of a failed request, and only with a device that reports errors. *)
Theorem disk_driver_stays_well_formed (s0 s : sys D) (tr : list event) (t : nat) :
  initial s0 -> traces vstep s0 tr s ->
  exec t s <> Fuel /\
  forall msg, exec t s = Panic msg -> msg = "virtio_disk_intr status"%string /\ faulty = true.
Proof.
  intros H0 Hr. destruct (run_simulated _ _ _ H0 Hr) as (a&g&_&Hi).
  pose proof (exec_ok s a g t Hi) as H. unfold segment_ok in H. destruct (exec t s) as [[e s']|m| |]; split; try done.
  by intros msg [= <-].
Qed.

Definition free_count (s : sys D) : nat := length (filter (fun i => free (vd (mem s)) i <> 0) (seqZ 0 NUM)).

Lemma inv_free_count s a g : inv s a g -> free_count s = (8 - 3 * length (all g))%nat.
Proof.
  intros Hi. destruct (i_desc _ _ _ Hi) as [Hn Hr Hf]. unfold free_count. rewrite Forall_forall in Hr.
  assert (seqZ 0 NUM ≡ₚ filter (fun i => free (vd (mem s)) i <> 0) (seqZ 0 NUM) ++ (all g ≫= idxs)) as Hp.
  { apply NoDup_Permutation; [apply NoDup_seqZ|..].
    - apply NoDup_app. split; [apply NoDup_filter, NoDup_seqZ|]. split; [|done].
      intros i [Hz Hs]%list_elem_of_filter Hin. apply elem_of_seqZ in Hs. rewrite Hf, decide_True in Hz by (done || unfold NUM in *; lia). done.
    - intros i. rewrite elem_of_app, list_elem_of_filter. split.
      + intros Hs. pose proof Hs as Hs'. apply elem_of_seqZ in Hs'. rewrite Hf by (unfold NUM in *; lia). case_decide; auto.
      + intros [[_ ?]|Hin]; [done|]. apply Hr in Hin. apply elem_of_seqZ. lia. }
  apply Permutation_length in Hp. rewrite length_app, length_idxs in Hp. change (length (seqZ 0 NUM)) with 8%nat in Hp. lia.
Qed.

Lemma u16_sub_add x n : 0 <= n < 2 ^ 16 -> u16 (u16 (x + n) - x) = n.
Proof. intros Hn. unfold u16. Z.to_euclidean_division_equations. lia. Qed.

(** C12: Nobody sleeps for nothing: a thread asleep for descriptors finds fewer
    than three free, and the request of a thread asleep on its buffer is on its
    way: among the announced ones the device has not yet taken, and the device has
    been or is about to be notified; in the device's hands; or among the entries of
    the used ring not yet handled, with the interrupt pending or the handler at
    work. *)
Theorem disk_wakeups_are_not_lost (s0 s : sys D) (tr : list event) (t b : nat) (w : bool) :
  initial s0 -> traces vstep s0 tr s ->
  (pcs s t = RwSleepFree b w -> (free_count s < 3)%nat) /\
  forall i, pcs s t = RwSleepBuf b w i ->
    bdisk s b = 1 /\
    (let d := dview (dev s) in
     let a := avail (vd (mem s)) in
     let u := used (vd (mem s)) in
     ((exists k, 0 <= k < u16 (a_idx a - last_avail d) /\ a_ring a ((last_avail d + k) mod NUM) = i) /\
      (kick (mem s) = true \/ exists t' b' w' j, pcs s t' = RwNotify b' w' j)) \/
     i ∈ pending d \/ i ∈ served d \/
     ((exists k, 0 <= k < u16 (u_idx u - used_idx (vd (mem s))) /\ uid (u_ring u ((used_idx (vd (mem s)) + k) mod NUM)) = i) /\
      (Z.testbit (isr (mem s)) 0 = true \/ exists t', pcs s t' = IntrLoop))).
Proof.
  intros H0 Hr. destruct (run_simulated _ _ _ H0 Hr) as (a&g&_&Hi). pose proof (inv_two _ _ _ Hi) as H2. split.
  - intros Hp. rewrite (inv_free_count _ _ _ Hi). pose proof (w_free _ _ _ _ (i_wake _ _ _ Hi) _ _ _ Hp). lia.
  - intros i Hp. destruct (inv_find s a g t (b, w, i) Hi ltac:(by rewrite Hp)) as (r&ph&Hg&<-&[= -> -> ->]).
    destruct (i_req _ _ _ Hi _ _ Hg) as [K1 K2 K3 K4 K5 K6]. rewrite Hp in K3, K4. cbn in K3, K4.
    assert (ph <> Done) as Hnd by (intros ->; by specialize (K4 eq_refl)). rewrite decide_False in K5 by done. split; [done|].
    destruct (i_ring _ _ _ Hi) as [Q1 Q2 Q3 Q4 Q5 Q6 Q7 Q8 Q9]. destruct (i_wake _ _ _ Hi) as [W1 W2 W3]. cbv zeta.
    assert (Hlen : (length (gA g) <= 2)%nat /\ (length (gU g) <= 2)%nat) by (unfold all in H2; rewrite !length_app in H2; lia).
    destruct ph; cbn [glist] in Hg; try done.
    + left. split; [|apply W2; intros HE; rewrite HE in Hg; by apply elem_of_nil in Hg].
      apply list_elem_of_lookup in Hg as [k Hk]. pose proof (lookup_lt_Some _ _ _ Hk). exists (Z.of_nat k). split; [|by apply Q3].
      rewrite Q1, u16_sub_add by lia. lia.
    + right. left. rewrite Q5. by apply list_elem_of_fmap_2.
    + right. right. left. rewrite Q6. by apply list_elem_of_fmap_2.
    + right. right. right. split; [|apply W1; intros HE; rewrite HE in Hg; by apply elem_of_nil in Hg].
      apply list_elem_of_lookup in Hg as [k Hk]. pose proof (lookup_lt_Some _ _ _ Hk). exists (Z.of_nat k). split; [|by apply Q9].
      rewrite Q7, u16_sub_add by lia. lia.
Qed.

(** Waiting for descriptors is a busy wait: with one caller already asleep, an
    attempt to allocate fails, and undoing it wakes the sleeper, which will
    fail and wake the first in turn. *)
Theorem futile_allocation_wakes_waiters (s0 s : sys D) (tr : list event) (t t' b b' : nat) (w w' : bool) :
  initial s0 -> traces vstep s0 tr s -> pcs s t = RwAlloc b w -> pcs s t' = RwSleepFree b' w' ->
  wp (exec t) (fun e s' => e = None /\ pcs s' t = RwSleepFree b w /\ pcs s' t' = RwWakeFree b' w') s.
Proof.
  intros H0 Hr Hp Hp'. destruct (run_simulated _ _ _ H0 Hr) as (a&g&_&Hi).
  assert (Hc : free_count s = 2%nat).
  { rewrite (inv_free_count _ _ _ Hi). pose proof (inv_two _ _ _ Hi). pose proof (w_free _ _ _ _ (i_wake _ _ _ Hi) _ _ _ Hp'). lia. }
  assert (t' <> t) as Hne by congruence.
  unfold exec. wp_step. wp_step. rewrite Hp. unfold rw_alloc. wp_step. wp_step.
  eapply wp_mono; [apply alloc3_desc_spec; intros; by eapply inv_free01|]. cbn beta.
  intros [k l] s' (Hn&Hl&[(->&i0&i1&i2&->&->)|(->&Hlen&Hz&Hfr)]).
  - exfalso. assert (length [i0; i1; i2] <= free_count s)%nat; [|cbn in *; lia]. apply submseteq_length, NoDup_submseteq; [done|].
    rewrite Forall_forall in Hl. intros i [Hi1 Hi2]%Hl. apply list_elem_of_filter. split; [lia|]. apply elem_of_seqZ. lia.
  - destruct l as [|i l].
    { exfalso. unfold free_count in Hc. destruct (filter _ (seqZ 0 NUM)) as [|j r] eqn:Ef; [done|].
      assert (j ∈ j :: r) as Hj by set_solver. rewrite <- Ef in Hj. apply list_elem_of_filter in Hj as [Hj Hs].
      apply elem_of_seqZ in Hs. apply Hj, Hz; [lia|set_solver]. }
    assert (wp (release ;; goto t (RwSleepFree b w))
              (fun _ s2 => pcs s2 t = RwSleepFree b w /\ pcs s2 t' = RwWakeFree b' w') s') as HG.
    { unfold release, goto. wp_steps. cbn [on_pcs on_lock pcs]. rewrite nset_eq, nset_ne, (f_pcs _ _ _ Hfr), Hp' by done. done. }
    destruct l as [|? [|? [|? ?]]]; cbv iota beta; change (-1 =? 0) with false; cbv iota;
      (eapply wp_mono; [exact HG|]; cbn beta; intros; by wp_steps).
Qed.

End Inv.

(** ** A device that serves its requests in order, and a run with it *)

Definition ref_step (d : devview) (m : dmem) : devview * dmem :=
  match served d, pending d with
  | h :: s2, _ =>
      let u := used (vd m) in
      (Dev (last_avail d) (pending d) s2 (media d),
       Dmem (set_used (Used (u_flags u) (u16 (u_idx u + 1)) (fset (u_ring u) (u_idx u mod NUM) (UsedElem h 0))) (vd m))
            (dbufs m) (Z.lor (isr m) 1) (kick m))
  | [], h :: p2 =>
      match parse_chain (vd m) h with
      | Some q => (Dev (last_avail d) p2 [h] (transfer q (media d) (dbufs m)).1,
                   Dmem (set_info_status (q_status q) 0 (vd m)) (transfer q (media d) (dbufs m)).2 (isr m) (kick m))
      | None => (d, m)
      end
  | [], [] =>
      if last_avail d =? a_idx (avail (vd m)) then (d, Dmem (vd m) (dbufs m) (isr m) false)
      else (Dev (u16 (last_avail d + 1)) [a_ring (avail (vd m)) (last_avail d mod NUM)] [] (media d), m)
  end.

Lemma ref_step_conforms d m d' m' : ref_step d m = (d', m') -> vdev false d m d' m'.
Proof.
  unfold ref_step. destruct (served d) as [|h s2] eqn:Es; [destruct (pending d) as [|h p2] eqn:Ep|].
  - destruct (Z.eqb_spec (last_avail d) (a_idx (avail (vd m)))) as [E|E]; intros [= <- <-]; [by apply dv_idle|].
    pose proof (dv_take false d m E) as H. by rewrite Ep, Es in H.
  - destruct (parse_chain (vd m) h) as [q|] eqn:Eq; intros [= <- <-]; [|by eapply (dv_bad false d m [] h p2)].
    pose proof (dv_ok false d m [] h p2 q Ep Eq) as H. by rewrite Es in H.
  - intros [= <- <-]. pose proof (dv_use false d m [] h s2 0 Es) as H. exact H.
Qed.

#[export] Instance ref_device : VirtioDevice devview := {
  dstep d m d' m' := ref_step d m = (d', m'); dview d := d; faulty := false; dstep_conforms := ref_step_conforms
}.

Inductive choice : Type := Thread (t : nat) | Device | Interrupt (t : nat).
Definition choose (c : choice) (s : sys devview) : option (option event * sys devview) :=
  match c with
  | Thread t => match exec t s with Ok r => Some r | _ => None end
  | Device => let '(d, m) := ref_step (dev s) (mem s) in Some (None, Sys m (bdisk s) (vdisk_lock s) (pcs s) d)
  | Interrupt t => match pcs s t with Out => Some (None, on_pcs (nset (pcs s) t IntrAcquire) s) | _ => None end
  end.
Fixpoint schedule (l : list choice) (s : sys devview) (tr : list event) : option (list event * sys devview) :=
  match l with
  | [] => Some (tr, s)
  | c :: l' => match choose c s with Some (e, s') => schedule l' s' (tr ++ option_list e) | None => None end
  end.

Lemma schedule_traces l s0 s tr tr' s' :
  traces vstep s0 tr s -> schedule l s tr = Some (tr', s') -> traces vstep s0 tr' s'.
Proof.
  revert s tr. induction l as [|c l IH]; intros s tr Ht; cbn [schedule]; [by intros [= <- <-]|].
  destruct (choose c s) as [[e s1]|] eqn:Ec; [|done]. apply IH. eapply tr_snoc; [exact Ht|].
  destruct c as [t| |t]; cbn [choose] in Ec.
  - destruct (exec t s) as [[e' s2]| | |] eqn:Ex; simplify_eq. exact (v_exec _ _ _ _ Ex).
  - destruct (ref_step (dev s) (mem s)) as [d m] eqn:Er. simplify_eq. by eapply v_device.
  - destruct (pcs s t) eqn:Ep; simplify_eq. by apply v_interrupt.
Qed.

Definition zero_buf : buf := Buf 0 1 5 (SleepLock.initsleeplock) 1 0 0 (replicate (Z.to_nat BSIZE) 0).
Definition boot : sys devview :=
  Sys (Dmem (Vdisk (fun _ => Desc ANull 0 0 0) (Avail 0 0 (fun _ => 0)) (Used 0 0 (fun _ => UsedElem 0 0))
             (fun _ => 1) 0 (fun _ => Info None 0) (fun _ => BlkReq 0 0 0))
            (fun _ => zero_buf) 0 false)
      (fun _ => 0) None (fun _ => Out) (Dev 0 [] [] (fun n => replicate (Z.to_nat SECTOR) n)).
(** Thread 0 reads a block; the interrupt arrives on thread 9. *)
Definition demo : list choice :=
  [Thread 0; Thread 0; Thread 0; Thread 0; Thread 0; Device; Device; Device;
   Interrupt 9; Thread 9; Thread 9; Thread 9; Thread 9; Thread 0; Thread 0]%nat.
Definition called : sys devview := on_pcs (nset (pcs boot) 0%nat (RwAcquire 0 false)) boot.

Lemma boot_initial : initial boot.
Proof. split; try done. Qed.
Lemma called_run : traces vstep boot [ECall 0 0 false] called.
Proof.
  eapply (tr_snoc vstep boot [] boot (Some _)); [constructor|]. apply v_call; [done|intros t; done|]. split; [cbn; lia|]. apply length_replicate.
Qed.
Definition run_state (l : list choice) (s : sys devview) (tr : list event) : sys devview :=
  match schedule l s tr with Some (_, s') => s' | None => s end.
Lemma schedule_run l s0 s tr tr' :
  traces vstep s0 tr s -> fst <$> schedule l s tr = Some tr' -> traces vstep s0 tr' (run_state l s tr).
Proof.
  intros Ht. unfold run_state. destruct (schedule l s tr) as [[tr1 s1]|] eqn:E; [|done]. intros [= <-]. by eapply schedule_traces.
Qed.

Definition final : sys devview := run_state demo called [ECall 0 0 false].
Lemma demo_trace : traces vstep boot [ECall 0 0 false; ERet 0 0 false]%nat final.
Proof. apply schedule_run; [apply called_run|]. vm_compute. reflexivity. Qed.

Lemma disk_driver_refines_contract_witness :
  exists a, traces astep (contract boot) [ECall 0 0 false; ERet 0 0 false]%nat a /\
    bufs (abst a) = dbufs (mem final) /\ (forall n, 0 <= n < 2 ^ 31 -> disk (abst a) n = blocks final n).
Proof. apply (disk_driver_refines_contract boot final); [apply boot_initial|apply demo_trace]. Defined.

Lemma disk_driver_stays_well_formed_witness :
  exec 0%nat called <> Fuel /\
  forall msg, exec 0%nat called = Panic msg -> msg = "virtio_disk_intr status"%string /\ faulty = true.
Proof. apply (disk_driver_stays_well_formed boot called [ECall 0 0 false]); [apply boot_initial|apply called_run]. Defined.

(** The same request asleep on its buffer, after the first five segments. *)
Definition asleep : sys devview := run_state (take 5 demo) called [ECall 0 0 false].
Lemma asleep_run : traces vstep boot [ECall 0 0 false] asleep.
Proof. apply schedule_run; [apply called_run|]. vm_compute. reflexivity. Qed.
Lemma asleep_pc : pcs asleep 0%nat = RwSleepBuf 0 false 0.
Proof. by vm_compute. Qed.
Lemma disk_wakeups_are_not_lost_witness : pcs asleep 0%nat = RwSleepBuf 0 false 0 /\ bdisk asleep 0%nat = 1.
Proof.
  split; [apply asleep_pc|].
  apply (proj2 (disk_wakeups_are_not_lost boot asleep [ECall 0 0 false] 0 0 false boot_initial asleep_run) 0), asleep_pc.
Defined.
