(* ===== verification/Log.v ===== *)
(** * The write-ahead log: kernel/log.c

    A physical redo log over the buffer cache: [log_write] pins the blocks of the
    current transaction, [commit] copies them to the log area, writes the header
    (the commit point), installs them and erases the header, and
    [recover_from_log] replays a committed log at boot.  The routines run on any
    buffer cache with the interface [BufCache]; the theorems use its laws only.

    The lock [log.lock] makes [begin_op], [log_write] and the two halves of
    [end_op] single steps; [begin_op] is one round of its loop, ending in a sleep
    or a return.  The recovery message on the console is not part of the state. *)
From stdpp Require Import gmap.
From S2P Require Import Prelude Machine Bytes Bio.

(** [struct logheader] and [struct log]; [lwakes] counts the wakeups of the channel
    [&log], on which [begin_op] sleeps. *)
Record logheader : Type := Lh { ln : Z; lblock : list Z }.
Record log : Type := Log { start : Z; outstanding : Z; committing : Z; lh : logheader; lwakes : nat }.

Section Log.
Context {B : Type} `{BC : BufCache B}.

Record lst : Type := Lst { lg : log; cache : B }.

Definition bc {A} (m : M B A) : M lst A := zoom cache (fun c s => Lst (lg s) c) m.
Definition set_log (f : log -> log) : M lst unit := modify (fun s => Lst (f (lg s)) (cache s)).
Definition set_lh (h : logheader) (l : log) : log := Log (start l) (outstanding l) (committing l) h (lwakes l).
Definition set_outstanding (n : Z) (l : log) : log := Log (start l) n (committing l) (lh l) (lwakes l).
Definition set_committing (n : Z) (l : log) : log := Log (start l) (outstanding l) n (lh l) (lwakes l).
(** [wakeup(&log)]. *)
Definition wakeup_log : M lst unit :=
  set_log (fun l => Log (start l) (outstanding l) (committing l) (lh l) (S (lwakes l))).

(** [log.lh.block[i]] *)
Definition log_block (h : logheader) (i : Z) : Z := nth (Z.to_nat i) (lblock h) 0.

Fixpoint install_loop (fuel : nat) (recovering : Z) (tail : Z) : M lst unit :=
  match fuel with
  | O => out_of_fuel
  | S f =>
      let! l := gets lg in
      if tail <? ln (lh l) then
        let! lbuf := bc (bc_bread (u32 (start l + tail + 1))) in
        let! dbuf := bc (bc_bread (u32 (log_block (lh l) tail))) in
        let! d := bc (bc_data lbuf) in
        bc (bc_store dbuf d) ;;
        bc (bc_bwrite dbuf) ;;
        (if recovering =? 0 then bc (bc_bunpin dbuf) else ret tt) ;;
        bc (bc_brelse lbuf) ;;
        bc (bc_brelse dbuf) ;;
        install_loop f recovering (tail + 1)
      else ret tt
  end.
Definition install_trans (recovering : Z) : M lst unit :=
  let! l := gets lg in
  install_loop (S (Z.to_nat (ln (lh l)))) recovering 0.

(** The header as it lies in a block: [n], then the block numbers. *)
Definition hdr_n (d : block) : Z := i32 (get_le 4 d 0).
Definition hdr_block (d : block) (i : nat) : Z := i32 (get_le 4 d (4 + 4 * i)).

Fixpoint read_head_loop (fuel : nat) (d : block) (i : Z) : M lst unit :=
  match fuel with
  | O => out_of_fuel
  | S f =>
      let! l := gets lg in
      if i <? ln (lh l) then
        set_log (set_lh (Lh (ln (lh l)) (<[Z.to_nat i := hdr_block d (Z.to_nat i)]> (lblock (lh l))))) ;;
        read_head_loop f d (i + 1)
      else ret tt
  end.
Definition read_head : M lst unit :=
  let! l := gets lg in
  let! buf := bc (bc_bread (u32 (start l))) in
  let! d := bc (bc_data buf) in
  set_log (set_lh (Lh (hdr_n d) (lblock (lh l)))) ;;
  read_head_loop (S (Z.to_nat (hdr_n d))) d 0 ;;
  bc (bc_brelse buf).

Fixpoint put_blocks (d : block) (i : nat) (bl : list Z) : block :=
  match bl with [] => d | b :: bl' => put_blocks (put_le 4 d (4 + 4 * i) (u32 b)) (S i) bl' end.
Definition put_head (h : logheader) (d : block) : block :=
  put_blocks (put_le 4 d 0 (u32 (ln h))) 0 (take (Z.to_nat (ln h)) (lblock h)).
Definition write_head : M lst unit :=
  let! l := gets lg in
  let! buf := bc (bc_bread (u32 (start l))) in
  let! d := bc (bc_data buf) in
  bc (bc_store buf (put_head (lh l) d)) ;;
  bc (bc_bwrite buf) ;;
  bc (bc_brelse buf).

Definition clear_n : M lst unit := set_log (fun l => set_lh (Lh 0 (lblock (lh l))) l).

Definition recover_from_log : M lst unit :=
  read_head ;;
  install_trans 1 ;;
  clear_n ;;
  write_head.

(** [initlog], after [sb->logstart] has been read; [sizeof(struct logheader)]
    is [4 + 4 * LOGBLOCKS]. *)
Definition initlog (logstart : Z) : M lst unit :=
  if BSIZE <=? 4 + 4 * LOGBLOCKS then panic "initlog: too big logheader"
  else
    set_log (fun l => Log (i32 logstart) (outstanding l) (committing l) (lh l) (lwakes l)) ;;
    recover_from_log.

(** One round of the loop of [begin_op]; [log] is the sleep channel 0. *)
Definition begin_op : M lst unit :=
  let! l := gets lg in
  if c_true (committing l) then sleep_on 0
  else if LOGBLOCKS <? ln (lh l) + (outstanding l + 1) * MAXOPBLOCKS then sleep_on 0
  else set_log (set_outstanding (outstanding l + 1)).

Fixpoint write_log_loop (fuel : nat) (tail : Z) : M lst unit :=
  match fuel with
  | O => out_of_fuel
  | S f =>
      let! l := gets lg in
      if tail <? ln (lh l) then
        let! to := bc (bc_bread (u32 (start l + tail + 1))) in
        let! from := bc (bc_bread (u32 (log_block (lh l) tail))) in
        let! d := bc (bc_data from) in
        bc (bc_store to d) ;;
        bc (bc_bwrite to) ;;
        bc (bc_brelse from) ;;
        bc (bc_brelse to) ;;
        write_log_loop f (tail + 1)
      else ret tt
  end.
Definition write_log : M lst unit :=
  let! l := gets lg in
  write_log_loop (S (Z.to_nat (ln (lh l)))) 0.

Definition commit : M lst unit :=
  let! l := gets lg in
  if 0 <? ln (lh l) then
    write_log ;;
    write_head ;;
    install_trans 0 ;;
    clear_n ;;
    write_head
  else ret tt.

(** The first critical section of [end_op]: the result says whether to commit. *)
Definition end_op_enter : M lst bool :=
  set_log (fun l => set_outstanding (outstanding l - 1) l) ;;
  let! l := gets lg in
  if c_true (committing l) then panic "log.committing"
  else if outstanding l =? 0 then
    set_log (set_committing 1) ;; ret true
  else wakeup_log ;; ret false.
Definition end_op : M lst unit :=
  let! do_commit := end_op_enter in
  if do_commit then
    commit ;;
    set_log (set_committing 0) ;;
    wakeup_log
  else ret tt.

(** The index the absorption loop stops at. *)
Fixpoint absorb (bl : list Z) (b : Z) : nat :=
  match bl with [] => O | x :: bl' => if x =? b then O else S (absorb bl' b) end.
Definition log_write (b : nat) : M lst unit :=
  let! l := gets lg in
  if LOGBLOCKS <=? ln (lh l) then panic "too big a transaction"
  else if outstanding l <? 1 then panic "log_write outside of trans"
  else
    let! n := bc (bc_blockno b) in
    let i := absorb (take (Z.to_nat (ln (lh l))) (lblock (lh l))) (i32 n) in
    let bl := <[i := i32 n]> (lblock (lh l)) in
    if Z.of_nat i =? ln (lh l) then
      bc (bc_bpin b) ;;
      set_log (set_lh (Lh (ln (lh l) + 1) bl))
    else set_log (set_lh (Lh (ln (lh l)) bl)).

(** ** Disk writes *)

(** One block written through the cache to the disk. *)
Definition write1 (n : Z) (v : block) (m : cmodel) : cmodel :=
  Cm (set_block (cm_view m) n v) (set_block (cm_disk m) n v) (cm_trace m ++ [(n, v)]) (cm_refs m) (cm_held m).
Definition set_refs (g : gmap Z nat) (m : cmodel) : cmodel :=
  Cm (cm_view m) (cm_disk m) (cm_trace m) g (cm_held m).
Definition replay (d : Z -> block) (ws : list (Z * block)) : Z -> block :=
  fold_left (fun d w => set_block d w.1 w.2) ws d.
Definition writes (ws : list (Z * block)) (m : cmodel) : cmodel :=
  fold_left (fun m w => write1 w.1 w.2 m) ws m.

Lemma flush_see n v m : flush n (see n v m) = write1 n v m.
Proof. unfold flush, see, write1. cbn. by rewrite set_block_eq. Qed.

Lemma rdrop_radd g n : g !! n <> Some O -> rdrop n (radd n g) = g.
Proof.
  intros Hz. unfold rdrop, radd. unfold rcount at 1. rewrite lookup_insert_eq. cbn. unfold rcount.
  destruct (g !! n) as [[|k]|] eqn:E; cbn; [done| |].
  - rewrite insert_insert_eq. by apply insert_id.
  - rewrite delete_insert_eq. by apply delete_id.
Qed.

Lemma rcount_ne (g g' : gmap Z nat) n : g' !! n = g !! n -> rcount g' n = rcount g n.
Proof. unfold rcount. by intros ->. Qed.

Lemma rdrop_eq g n : rdrop n g !! n = match rcount g n with S (S k) => Some (S k) | _ => None end.
Proof. unfold rdrop. destruct (rcount g n) as [|[|k]]; by rewrite ?lookup_delete_eq, ?lookup_insert_eq. Qed.

Lemma rdrop_comm g a b : a <> b -> rdrop a (rdrop b g) = rdrop b (rdrop a g).
Proof.
  intros Hab. apply map_eq. intros i. destruct (decide (i = a)) as [->|Ha].
  - rewrite (rdrop_ne _ b) by done. by rewrite !rdrop_eq, (rcount_ne g (rdrop b g) a) by (by apply rdrop_ne).
  - destruct (decide (i = b)) as [->|Hb].
    + rewrite (rdrop_ne _ a) by done. by rewrite !rdrop_eq, (rcount_ne g (rdrop a g) b) by (by apply rdrop_ne).
    + by rewrite !rdrop_ne.
Qed.

Context `{BL : !BufCacheLaws B}.
Implicit Types (s : lst) (m : cmodel).

(** Reading and rewriting one block nobody else uses. *)
Definition idle (m : cmodel) (n : Z) : Prop := cm_refs m !! n = None /\ not_held m n.

Lemma bc_wp {A} (x : M B A) Q s :
  wp (bc x) Q s <-> wp x (fun a c => Q a (Lst (lg s) c)) (cache s).
Proof. apply wp_zoom. Qed.

Lemma hold_two (h : gmap nat Z) x y a b : h !! x = None -> <[x := a]> h !! y = None ->
  delete x (delete y (<[y := b]> (<[x := a]> h))) = h /\ delete y (delete x (<[y := b]> (<[x := a]> h))) = h /\
  x <> y.
Proof.
  intros Hx Hy. assert (x <> y) by (intros ->; by rewrite lookup_insert_eq in Hy).
  assert (delete x (delete y (<[y := b]> (<[x := a]> h))) = h) as E.
  { rewrite delete_insert_id by done. by rewrite delete_insert_id. }
  split_and!; [done| |done]. by rewrite delete_delete.
Qed.

(** The two buffers a copy needs. *)
Lemma bread_two_wp {A} s m a b (k : nat -> nat -> M lst A) Q :
  bc_is (cache s) m -> is_u32 a -> is_u32 b -> a <> b -> idle m a -> not_held m b ->
  is_Some (cm_refs m !! b) /\ (size (cm_refs m) < nbuf)%nat \/ (S (size (cm_refs m)) < nbuf)%nat ->
  Z.of_nat (ref_of m b) + 1 < 2 ^ 32 ->
  (forall x y c, cm_held m !! x = None -> <[x := a]> (cm_held m) !! y = None ->
     bc_is c (hold y b (add_ref b (hold x a (add_ref a m)))) -> wp (k x y) Q (Lst (lg s) c)) ->
  wp (let! x := bc (bc_bread a) in let! y := bc (bc_bread b) in k x y) Q s.
Proof.
  intros Hm Ha Hb Hab [Hra Hha] Hhb Hroom Hr HQ. rewrite wp_bind, bc_wp.
  eapply wp_mono; [apply (bc_bread_law _ m); try done|].
  - right. lia.
  - unfold ref_of, rcount. rewrite Hra. cbn. lia.
  - cbn beta. intros x c [Hx Hm1]. rewrite wp_bind, bc_wp. cbn [lg cache].
    eapply wp_mono; [apply (bc_bread_law _ _ b Hm1); try done|].
    + unfold has_room. cbn [cm_refs hold add_ref]. destruct Hroom as [[Hs _]|Hs].
      * left. by rewrite radd_ne.
      * right. unfold radd. rewrite map_size_insert_None by done. lia.
    + intros i. cbn. destruct (decide (i = x)) as [->|]; [rewrite lookup_insert_eq; congruence|by rewrite lookup_insert_ne].
    + unfold ref_of. cbn. rewrite (rcount_ne (cm_refs m)); [done|]. by apply radd_ne.
    + cbn beta. intros y c' [Hy Hm2]. by apply HQ.
Qed.

(** The body of [write_log]: block [b], pinned, copied to the log block [a]. *)
Lemma copy_to_log_wp s m a b (k : M lst unit) Q :
  bc_is (cache s) m -> is_u32 a -> is_u32 b -> a <> b -> idle m a -> not_held m b ->
  is_Some (cm_refs m !! b) -> (size (cm_refs m) < nbuf)%nat -> Z.of_nat (ref_of m b) + 1 < 2 ^ 32 ->
  (forall c, bc_is c (write1 a (cm_view m b) m) -> wp k Q (Lst (lg s) c)) ->
  wp (let! to := bc (bc_bread a) in
      let! from := bc (bc_bread b) in
      let! d := bc (bc_data from) in
      bc (bc_store to d) ;; bc (bc_bwrite to) ;; bc (bc_brelse from) ;; bc (bc_brelse to) ;; k) Q s.
Proof.
  intros Hm Ha Hb Hab Hia Hhb Hrb Hsz Hr HQ.
  apply (bread_two_wp s m); try done; [by left|]. intros x y c Hx Hy Hm2.
  destruct (hold_two _ _ _ a b Hx Hy) as (E1 & _ & Hxy).
  assert (H2x : <[y := b]> (<[x := a]> (cm_held m)) !! x = Some a) by (rewrite lookup_insert_ne, lookup_insert_eq; done).
  assert (H2y : <[y := b]> (<[x := a]> (cm_held m)) !! y = Some b) by apply lookup_insert_eq.
  rewrite wp_bind, bc_wp. eapply wp_mono; [by apply (bc_data_law _ _ _ b Hm2)|]. intros d c' [-> ->]. cbn [cm_view hold add_ref].
  rewrite wp_bind, bc_wp. eapply wp_mono; [by apply (bc_store_law _ _ _ a _ Hm2)|]. cbn beta. intros [] c1 Hm3.
  rewrite wp_bind, bc_wp. eapply wp_mono; [by apply (bc_bwrite_law _ _ _ a Hm3)|]. cbn beta. intros [] c2 Hm4. rewrite flush_see in Hm4.
  rewrite wp_bind, bc_wp. eapply wp_mono; [apply (bc_brelse_law _ _ _ b Hm4); [done|]|].
  { unfold ref_of. cbn. rewrite rcount_radd, (rcount_ne (cm_refs m)) by (by apply radd_ne). intros Hk.
    destruct Hrb as [r Hk']. exfalso. apply (bc_refs_pos _ _ b Hm). unfold rcount in Hk. rewrite Hk' in *. cbn in Hk. by injection Hk as ->. }
  intros [] c3 Hm5. rewrite wp_bind, bc_wp. eapply wp_mono; [apply (bc_brelse_law _ _ _ a Hm5)|].
  { cbn. by rewrite lookup_delete_ne. }
  { intros _. cbn. by rewrite !set_block_eq. }
  intros [] c4 Hm6. cbn [lg]. apply HQ. destruct m as [v d t g h]. cbn in *.
  unfold drop_ref, unhold, write1, hold, add_ref in Hm6. cbn in Hm6. rewrite E1 in Hm6.
  rewrite !rdrop_radd in Hm6; [done| |].
  - by apply (bc_refs_pos _ _ a Hm).
  - rewrite radd_ne by done. by apply (bc_refs_pos _ _ b Hm).
Qed.

(** The references left after a block is installed. *)
Definition installed_refs (recovering : Z) (b : Z) (g : gmap Z nat) : gmap Z nat :=
  if recovering =? 0 then rdrop b g else g.

Definition can_install (recovering : Z) (m : cmodel) (b : Z) : Prop :=
  if recovering =? 0 then is_Some (cm_refs m !! b) /\ (size (cm_refs m) < nbuf)%nat
  else (S (size (cm_refs m)) < nbuf)%nat.

Lemma pinned_pos c m b : bc_is c m -> is_Some (cm_refs m !! b) -> ref_of m b <> O.
Proof.
  intros Hm [k Hk] E. apply (bc_refs_pos _ _ b Hm). unfold ref_of, rcount in E. rewrite Hk in *. cbn in E. congruence.
Qed.

(** The body of [install_trans]: the log block [a] copied to its home [b]. *)
Lemma copy_home_wp s m rc a b (k : M lst unit) Q :
  bc_is (cache s) m -> is_u32 a -> is_u32 b -> a <> b -> idle m a -> not_held m b ->
  can_install rc m b -> Z.of_nat (ref_of m b) + 1 < 2 ^ 32 ->
  (forall c, bc_is c (set_refs (installed_refs rc b (cm_refs m)) (write1 b (cm_view m a) m)) -> wp k Q (Lst (lg s) c)) ->
  wp (let! lbuf := bc (bc_bread a) in
      let! dbuf := bc (bc_bread b) in
      let! d := bc (bc_data lbuf) in
      bc (bc_store dbuf d) ;; bc (bc_bwrite dbuf) ;;
      (if rc =? 0 then bc (bc_bunpin dbuf) else ret tt) ;;
      bc (bc_brelse lbuf) ;; bc (bc_brelse dbuf) ;; k) Q s.
Proof.
  intros Hm Ha Hb Hab Hia Hhb Hcan Hr HQ.
  apply (bread_two_wp s m); try done.
  { unfold can_install in Hcan. destruct (rc =? 0); [by left|by right]. }
  intros x y c Hx Hy Hm2. destruct (hold_two _ _ _ a b Hx Hy) as (_ & E1 & Hxy).
  assert (H2x : <[y := b]> (<[x := a]> (cm_held m)) !! x = Some a) by (rewrite lookup_insert_ne, lookup_insert_eq; done).
  assert (H2y : <[y := b]> (<[x := a]> (cm_held m)) !! y = Some b) by apply lookup_insert_eq.
  rewrite wp_bind, bc_wp. eapply wp_mono; [by apply (bc_data_law _ _ _ a Hm2)|]. cbn beta. intros d c' [-> ->]. cbn [cm_view hold add_ref].
  rewrite wp_bind, bc_wp. eapply wp_mono; [by apply (bc_store_law _ _ _ b _ Hm2)|]. cbn beta. intros [] c1 Hm3.
  rewrite wp_bind, bc_wp. eapply wp_mono; [by apply (bc_bwrite_law _ _ _ b Hm3)|]. cbn beta. intros [] c2 Hm4. rewrite flush_see in Hm4.
  rewrite wp_bind. eapply (wp_mono _ (fun _ s' => lg s' = lg s /\ bc_is (cache s')
    (set_refs (installed_refs rc b (radd b (radd a (cm_refs m)))) (write1 b (cm_view m a) (hold y b (hold x a m)))))).
  { unfold installed_refs. destruct (rc =? 0) eqn:Erc; [|by rewrite wp_ret]. rewrite bc_wp.
    eapply wp_mono; [apply (bc_bunpin_law _ _ _ b Hm4); [done|]|].
    - unfold ref_of. cbn. rewrite rcount_radd, (rcount_ne (cm_refs m)) by (by apply radd_ne).
      unfold can_install in Hcan. rewrite Erc in Hcan. pose proof (pinned_pos _ _ _ Hm (proj1 Hcan)) as Hp. unfold ref_of in Hp. lia.
    - cbn beta. intros [] c3 Hm5. done. }
  intros [] s' [Hlg Hm5].
  rewrite wp_bind, bc_wp. eapply wp_mono; [apply (bc_brelse_law _ _ _ a Hm5); [done|]|].
  { intros _. cbn. rewrite !set_block_ne by done. apply (bc_unref_clean _ _ a Hm). unfold ref_of, rcount. by rewrite (proj1 Hia). }
  cbn beta. intros [] c3 Hm6. rewrite wp_bind, bc_wp. eapply wp_mono; [apply (bc_brelse_law _ _ _ b Hm6)|].
  { cbn. by rewrite lookup_delete_ne. }
  { intros _. cbn. by rewrite !set_block_eq. }
  cbn beta. intros [] c4 Hm7. cbn [lg]. rewrite Hlg. apply HQ. destruct m as [v d t g h]. cbn in *.
  unfold drop_ref, unhold, write1, hold, set_refs in Hm7. cbn in Hm7. rewrite E1 in Hm7. unfold set_refs, write1. cbn.
  replace (installed_refs rc b g) with (rdrop b (rdrop a (installed_refs rc b (radd b (radd a g))))); [done|].
  assert (g !! a <> Some O) by (by apply (bc_refs_pos _ _ a Hm)).
  assert (radd a g !! b <> Some O) by (rewrite radd_ne by done; by apply (bc_refs_pos _ _ b Hm)).
  unfold installed_refs. destruct (rc =? 0).
  - by rewrite !rdrop_radd.
  - rewrite rdrop_comm by done. by rewrite !rdrop_radd.
Qed.

(** Rewriting one idle block in place, as [write_head] does. *)
Lemma rewrite_block_wp s m a (f : block -> block) Q :
  bc_is (cache s) m -> is_u32 a -> idle m a -> (size (cm_refs m) < nbuf)%nat ->
  (forall c, bc_is c (write1 a (f (cm_view m a)) m) -> Q tt (Lst (lg s) c)) ->
  wp (let! buf := bc (bc_bread a) in
      let! d := bc (bc_data buf) in
      bc (bc_store buf (f d)) ;; bc (bc_bwrite buf) ;; bc (bc_brelse buf)) Q s.
Proof.
  intros Hm Ha [Hra Hha] Hsz HQ.
  rewrite wp_bind, bc_wp. eapply wp_mono; [apply (bc_bread_law _ m); try done|].
  - by right.
  - unfold ref_of, rcount. rewrite Hra. cbn. lia.
  - cbn beta. intros x c [Hx Hm1]. assert (H1x : <[x := a]> (cm_held m) !! x = Some a) by apply lookup_insert_eq.
    rewrite wp_bind, bc_wp. eapply wp_mono; [by apply (bc_data_law _ _ _ a Hm1)|]. cbn beta. intros d c' [-> ->]. cbn [cm_view hold add_ref].
    rewrite wp_bind, bc_wp. eapply wp_mono; [by apply (bc_store_law _ _ _ a _ Hm1)|]. cbn beta. intros [] c1 Hm3.
    rewrite wp_bind, bc_wp. eapply wp_mono; [by apply (bc_bwrite_law _ _ _ a Hm3)|]. cbn beta. intros [] c2 Hm4. rewrite flush_see in Hm4.
    rewrite bc_wp. eapply wp_mono; [apply (bc_brelse_law _ _ _ a Hm4); [done|]|].
    { intros _. cbn. by rewrite !set_block_eq. }
    cbn beta. intros [] c3 Hm5. cbn [lg]. apply HQ. destruct m as [v d t g h]. cbn in *.
    unfold drop_ref, unhold, write1, hold, add_ref in Hm5. cbn in Hm5.
    rewrite rdrop_radd in Hm5 by (by rewrite Hra). by rewrite delete_insert_id in Hm5.
Qed.

(** ** The log area and the current transaction *)

Definition in_log (st b : Z) : Prop := st <= b <= st + LOGBLOCKS.

(** The in-memory header lists the blocks [bl]. *)
Record log_is (l : log) (bl : list Z) : Prop := {
  li_n : ln (lh l) = Z.of_nat (length bl);
  li_bl : take (length bl) (lblock (lh l)) = bl;
  li_size : length (lblock (lh l)) = Z.to_nat LOGBLOCKS;
  li_max : Z.of_nat (length bl) <= LOGBLOCKS;
  li_start : 0 <= start l /\ start l + LOGBLOCKS < 2 ^ 31;
  li_nodup : NoDup bl;
  li_home b : b ∈ bl -> 0 <= b < 2 ^ 31 /\ ~ in_log (start l) b
}.

(** The cache when a commit starts: the transaction's blocks are pinned, the log
    area is unused, nobody holds a buffer of either, and one buffer is free. *)
Record ready (st : Z) (bl : list Z) (m : cmodel) : Prop := {
  rd_pin b : b ∈ bl -> is_Some (cm_refs m !! b) /\ not_held m b /\ Z.of_nat (ref_of m b) + 1 < 2 ^ 32;
  rd_log a : in_log st a -> idle m a;
  rd_room : (size (cm_refs m) < nbuf)%nat
}.

Lemma log_block_at l bl i b : log_is l bl -> bl !! i = Some b -> log_block (lh l) (Z.of_nat i) = b.
Proof.
  intros L Hi. unfold log_block. rewrite Nat2Z.id. apply nth_lookup_Some.
  rewrite <- (li_bl _ _ L) in Hi. by apply lookup_take_Some in Hi as [? _].
Qed.

Lemma ready_write1 st bl n v m : ready st bl m -> ready st bl (write1 n v m).
Proof. intros [H1 H2 H3]. split; [exact H1|exact H2|exact H3]. Qed.

(** The blocks [write_log] writes. *)
Fixpoint log_ws (a : Z) (bl : list Z) (v : Z -> block) : list (Z * block) :=
  match bl with [] => [] | b :: bl' => (a, v b) :: log_ws (a + 1) bl' v end.

Lemma log_ws_ext a bl v v' : (forall b, b ∈ bl -> v' b = v b) -> log_ws a bl v' = log_ws a bl v.
Proof.
  revert a. induction bl as [|b bl IH]; intros a Hv; cbn; [done|]. rewrite Hv by apply list_elem_of_here.
  f_equal. apply IH. intros. by apply Hv, list_elem_of_further.
Qed.


Lemma write_log_loop_wp s m bl i rest :
  bc_is (cache s) m -> log_is (lg s) bl -> ready (start (lg s)) bl m -> drop i bl = rest ->
  wp (write_log_loop (S (length rest)) (Z.of_nat i)) (fun _ s' => lg s' = lg s /\
    bc_is (cache s') (writes (log_ws (start (lg s) + 1 + Z.of_nat i) rest (cm_view m)) m)) s.
Proof.
  revert s m i. induction rest as [|b rest IH]; intros s m i Hm L Rd Hi; cbn [write_log_loop length]; wp_steps;
    rewrite (li_n _ _ L).
  - assert (length bl <= i)%nat. { apply (f_equal length) in Hi. rewrite length_drop in Hi. cbn in Hi. lia. }
    rewrite (proj2 (Z.ltb_ge _ _)) by lia. wp_steps. done.
  - assert (Hb : bl !! i = Some b) by (rewrite <- (Nat.add_0_r i), <- lookup_drop, Hi; done).
    pose proof (lookup_lt_Some _ _ _ Hb) as Hlt. rewrite (proj2 (Z.ltb_lt _ _)) by lia.
    rewrite (log_block_at _ _ _ _ L Hb). pose proof (list_elem_of_lookup_2 _ _ _ Hb) as Hin.
    destruct (li_home _ _ L b Hin) as [Hb1 Hb2]. destruct (rd_pin _ _ _ Rd b Hin) as (Hp & Hh & Hr).
    pose proof (li_start _ _ L) as [Hs1 Hs2]. pose proof (li_max _ _ L) as Hmx.
    rewrite (u32_id b) by (unfold is_u32; lia). rewrite u32_id by (unfold is_u32; lia).
    assert (Hla : in_log (start (lg s)) (start (lg s) + Z.of_nat i + 1)) by (unfold in_log; lia).
    apply (copy_to_log_wp s m); try done; try (unfold is_u32; lia).
    + intros E. apply Hb2. by rewrite <- E.
    + by apply Rd.
    + apply Rd.
    + intros c Hc. replace (Z.of_nat i + 1) with (Z.of_nat (S i)) by lia.
      eapply wp_mono; [apply (IH (Lst (lg s) c) _ (S i) Hc); cbn [lg]; [done|by apply ready_write1|]|].
      * rewrite (drop_S _ _ _ Hb) in Hi. by injection Hi.
      * cbn beta. intros _ s' [Hlg Hc']. split; [done|]. cbn [lg] in *. cbn [log_ws writes fold_left fst snd].
        replace (start (lg s) + 1 + Z.of_nat i) with (start (lg s) + Z.of_nat i + 1) by lia.
        replace (start (lg s) + Z.of_nat i + 1 + 1) with (start (lg s) + 1 + Z.of_nat (S i)) by lia.
        rewrite (log_ws_ext _ rest (cm_view m) (cm_view (write1 (start (lg s) + Z.of_nat i + 1) (cm_view m b) m))) in Hc'; [done|].
        intros b' Hb'. cbn. apply set_block_ne. intros ->.
        apply (li_home _ _ L (start (lg s) + Z.of_nat i + 1)); [|done].
        rewrite <- (take_drop i bl), Hi. apply elem_of_app. right. by apply list_elem_of_further.
Qed.

Fixpoint home_ws (a : Z) (bl : list Z) (v : Z -> block) : list (Z * block) :=
  match bl with [] => [] | b :: bl' => (b, v a) :: home_ws (a + 1) bl' v end.
Fixpoint unpinned (rc : Z) (bl : list Z) (g : gmap Z nat) : gmap Z nat :=
  match bl with [] => g | b :: bl' => unpinned rc bl' (installed_refs rc b g) end.

Record installable (rc st : Z) (bl : list Z) (m : cmodel) : Prop := {
  in_can b : b ∈ bl -> can_install rc m b /\ not_held m b /\ Z.of_nat (ref_of m b) + 1 < 2 ^ 32;
  in_idle a : in_log st a -> idle m a
}.

Lemma home_ws_ext a bl v v' :
  (forall x, a <= x < a + Z.of_nat (length bl) -> v' x = v x) -> home_ws a bl v' = home_ws a bl v.
Proof.
  revert a. induction bl as [|b bl IH]; intros a Hv; cbn [home_ws length] in *; [done|]. rewrite Hv by lia.
  f_equal. apply IH. intros. apply Hv. lia.
Qed.

Lemma rdrop_size g b : (size (rdrop b g) <= size g)%nat.
Proof.
  unfold rdrop. destruct (rcount g b) as [|[|k]] eqn:E.
  - apply map_size_delete_le || (rewrite map_size_delete; destruct (g !! b); cbn; lia).
  - rewrite map_size_delete. destruct (g !! b); cbn; lia.
  - unfold rcount in E. destruct (g !! b) eqn:Eb; [|done]. rewrite map_size_insert_Some; [done|by rewrite Eb].
Qed.

Lemma installable_step rc st b bl v m : b ∉ bl -> ~ in_log st b ->
  installable rc st (b :: bl) m ->
  installable rc st bl (set_refs (installed_refs rc b (cm_refs m)) (write1 b v m)).
Proof.
  intros Hb Hl [H1 H2]. split.
  - intros b' Hb'. assert (b' <> b) as Hne by (intros ->; done).
    destruct (H1 b' ltac:(by apply list_elem_of_further)) as (Hc & Hh & Hr).
    unfold can_install, installed_refs, ref_of in *. cbn. destruct (rc =? 0).
    + rewrite rdrop_ne by done. pose proof (rdrop_size (cm_refs m) b).
      rewrite (rcount_ne (cm_refs m)) by (by apply rdrop_ne). split_and!; try done; [apply Hc|]. destruct Hc. lia.
    + split_and!; done.
  - intros a Ha. destruct (H2 a Ha) as [Hi1 Hi2]. split; [|exact Hi2]. cbn. unfold installed_refs.
    destruct (rc =? 0); [|done]. rewrite rdrop_ne; [done|]. by intros ->.
Qed.

Lemma writes_set_refs ws g m : writes ws (set_refs g m) = set_refs g (writes ws m).
Proof. revert m. induction ws as [|w ws IH]; intros m; cbn; [done|]. by rewrite <- IH. Qed.
Lemma writes_refs ws m : cm_refs (writes ws m) = cm_refs m.
Proof. revert m. induction ws as [|w ws IH]; intros m; cbn; [done|]. by rewrite IH. Qed.

Lemma install_loop_wp s m rc bl i rest :
  bc_is (cache s) m -> log_is (lg s) bl -> installable rc (start (lg s)) rest m -> drop i bl = rest ->
  wp (install_loop (S (length rest)) rc (Z.of_nat i)) (fun _ s' => lg s' = lg s /\
    bc_is (cache s') (set_refs (unpinned rc rest (cm_refs m))
      (writes (home_ws (start (lg s) + 1 + Z.of_nat i) rest (cm_view m)) m))) s.
Proof.
  revert s m i. induction rest as [|b rest IH]; intros s m i Hm L Rd Hi; cbn [install_loop length]; wp_steps;
    rewrite (li_n _ _ L).
  - assert (length bl <= i)%nat. { apply (f_equal length) in Hi. rewrite length_drop in Hi. cbn in Hi. lia. }
    rewrite (proj2 (Z.ltb_ge _ _)) by lia. wp_steps. split; [done|]. by destruct m.
  - assert (Hb : bl !! i = Some b) by (rewrite <- (Nat.add_0_r i), <- lookup_drop, Hi; done).
    pose proof (lookup_lt_Some _ _ _ Hb) as Hlt. rewrite (proj2 (Z.ltb_lt _ _)) by lia.
    rewrite (log_block_at _ _ _ _ L Hb). pose proof (list_elem_of_lookup_2 _ _ _ Hb) as Hin.
    destruct (li_home _ _ L b Hin) as [Hb1 Hb2].
    destruct (in_can _ _ _ _ Rd b ltac:(apply list_elem_of_here)) as (Hp & Hh & Hr).
    pose proof (li_start _ _ L) as [Hs1 Hs2]. pose proof (li_max _ _ L) as Hmx.
    rewrite (u32_id b) by (unfold is_u32; lia). rewrite u32_id by (unfold is_u32; lia).
    assert (Hla : in_log (start (lg s)) (start (lg s) + Z.of_nat i + 1)) by (unfold in_log; lia).
    assert (Hlen : (i + S (length rest) = length bl)%nat).
    { apply (f_equal length) in Hi. rewrite length_drop in Hi. cbn in Hi. lia. }
    assert (Hbr : b ∉ rest).
    { pose proof (li_nodup _ _ L) as Hnd. rewrite <- (take_drop i bl), Hi in Hnd.
      apply NoDup_app in Hnd as (_ & _ & Hnd). by apply NoDup_cons in Hnd as [? _]. }
    apply (copy_home_wp s m rc); try done; try (unfold is_u32; lia).
    + intros E. apply Hb2. by rewrite <- E.
    + by apply (in_idle _ _ _ _ Rd).
    + intros c Hc. replace (Z.of_nat i + 1) with (Z.of_nat (S i)) by lia.
      eapply wp_mono; [apply (IH (Lst (lg s) c) _ (S i) Hc); cbn [lg]; [done|by apply installable_step|]|].
      * rewrite (drop_S _ _ _ Hb) in Hi. by injection Hi.
      * cbn beta. intros _ s' [Hlg Hc']. split; [done|]. cbn [lg] in *. cbn [home_ws writes fold_left fst snd unpinned].
        replace (start (lg s) + 1 + Z.of_nat i) with (start (lg s) + Z.of_nat i + 1) by lia.
        replace (start (lg s) + Z.of_nat i + 1 + 1) with (start (lg s) + 1 + Z.of_nat (S i)) by lia.
        rewrite (home_ws_ext _ rest (cm_view m)) in Hc'.
        2:{ intros x Hx. cbn. apply set_block_ne. intros ->. apply Hb2. unfold in_log. lia. }
        rewrite writes_set_refs in Hc'. exact Hc'.
Qed.

(** ** Headers on disk *)

Lemma put_blocks_length d i bl :
  (4 + 4 * (i + length bl) <= length d)%nat -> length (put_blocks d i bl) = length d.
Proof.
  revert d i. induction bl as [|b bl IH]; intros d i Hl; cbn [put_blocks length] in *; [done|].
  rewrite IH; rewrite put_le_length; lia.
Qed.

Lemma put_blocks_other d i bl k off :
  (4 + 4 * (i + length bl) <= length d)%nat -> (off + k <= 4 + 4 * i)%nat ->
  get_le k (put_blocks d i bl) off = get_le k d off.
Proof.
  revert d i. induction bl as [|b bl IH]; intros d i Hl Ho; cbn [put_blocks length] in *; [done|].
  rewrite IH; [|rewrite put_le_length; lia|lia]. apply get_put_le_ne; lia.
Qed.

Lemma put_blocks_get d i bl j b :
  (4 + 4 * (i + length bl) <= length d)%nat -> bl !! j = Some b ->
  get_le 4 (put_blocks d i bl) (4 + 4 * (i + j)) = u32 b.
Proof.
  revert d i j. induction bl as [|b0 bl IH]; intros d i j Hl Hj; cbn [put_blocks length] in *; [done|].
  destruct j as [|j]; cbn in Hj.
  - injection Hj as ->. rewrite Nat.add_0_r. rewrite put_blocks_other; [|rewrite put_le_length; lia|lia].
    apply get_put_le_eq; [lia|apply u32_range].
  - replace (i + S j)%nat with (S i + j)%nat by lia. apply IH; [rewrite put_le_length; lia|done].
Qed.

(** The header [bl] as [read_head] sees it in a block. *)
Definition hdr_is (d : block) (bl : list Z) : Prop :=
  length d = Z.to_nat BSIZE /\ hdr_n d = Z.of_nat (length bl) /\
  forall i b, bl !! i = Some b -> hdr_block d i = b.

Lemma i32_u32 z : is_i32 z -> i32 (u32 z) = z.
Proof.
  unfold is_i32, i32, u32. intros. rewrite Z.add_mod_idemp_l by lia. rewrite Z.mod_small; lia.
Qed.

Lemma put_head_is h bl d :
  ln h = Z.of_nat (length bl) -> take (length bl) (lblock h) = bl -> Z.of_nat (length bl) <= LOGBLOCKS ->
  (forall b, b ∈ bl -> 0 <= b < 2 ^ 31) -> length d = Z.to_nat BSIZE -> hdr_is (put_head h d) bl.
Proof.
  intros Hn Hb Hm Hr Hd. unfold put_head. rewrite Hn, Nat2Z.id, Hb.
  unfold LOGBLOCKS, MAXOPBLOCKS, BSIZE in *. change (Z.to_nat 1024) with 1024%nat in *.
  assert (Hl : length (put_le 4 d 0 (u32 (Z.of_nat (length bl)))) = 1024%nat) by (rewrite put_le_length; lia).
  split_and!.
  - rewrite put_blocks_length; [done|lia].
  - unfold hdr_n. rewrite put_blocks_other by lia. rewrite get_put_le_eq; [|lia|apply u32_range].
    apply i32_u32. unfold is_i32. lia.
  - intros i b Hi. unfold hdr_block. replace (4 + 4 * i)%nat with (4 + 4 * (0 + i))%nat by lia.
    rewrite (put_blocks_get _ _ _ _ b) by (done || lia). apply i32_u32.
    specialize (Hr b (list_elem_of_lookup_2 _ _ _ Hi)). unfold is_i32. lia.
Qed.

Lemma write_head_wp s m bl : bc_is (cache s) m -> log_is (lg s) bl ->
  idle m (start (lg s)) -> (size (cm_refs m) < nbuf)%nat ->
  wp write_head (fun _ s' => lg s' = lg s /\
    bc_is (cache s') (write1 (start (lg s)) (put_head (lh (lg s)) (cm_view m (start (lg s)))) m)) s.
Proof.
  intros Hm L Hi Hr. unfold write_head. rewrite wp_bind, wp_gets.
  assert (is_u32 (start (lg s))) as Hu.
  { pose proof (li_start _ _ L). unfold is_u32, LOGBLOCKS, MAXOPBLOCKS in *. lia. }
  rewrite u32_id by done. by apply (rewrite_block_wp s m _ (put_head (lh (lg s)))).
Qed.

Lemma read_head_loop_wp s d bl i : hdr_is d bl -> Z.of_nat (length bl) <= LOGBLOCKS ->
  ln (lh (lg s)) = Z.of_nat (length bl) -> length (lblock (lh (lg s))) = Z.to_nat LOGBLOCKS ->
  (i <= length bl)%nat -> take i (lblock (lh (lg s))) = take i bl ->
  wp (read_head_loop (S (length bl - i)) d (Z.of_nat i)) (fun _ s' => cache s' = cache s /\
    start (lg s') = start (lg s) /\ outstanding (lg s') = outstanding (lg s) /\ committing (lg s') = committing (lg s) /\
    ln (lh (lg s')) = Z.of_nat (length bl) /\ length (lblock (lh (lg s'))) = Z.to_nat LOGBLOCKS /\
    take (length bl) (lblock (lh (lg s'))) = bl) s.
Proof.
  intros Hd Hmx. remember (length bl - i)%nat as k eqn:Hk. revert s i Hk.
  induction k as [|k IH]; intros s i Hk Hn Hl Hi Ht; cbn [read_head_loop]; wp_steps; rewrite Hn.
  - rewrite (proj2 (Z.ltb_ge _ _)) by lia. wp_steps. assert (i = length bl) as -> by lia.
    split_and!; try done. rewrite Ht. apply take_ge. lia.
  - rewrite (proj2 (Z.ltb_lt _ _)) by lia. unfold set_log. wp_steps. rewrite Nat2Z.id.
    destruct (lookup_lt_is_Some_2 bl i ltac:(lia)) as [b Hb].
    replace (Z.of_nat i + 1) with (Z.of_nat (S i)) by lia.
    eapply wp_mono; [apply IH; cbn [lg lh set_lh ln lblock]; try done; try lia|].
    + by rewrite length_insert.
    + destruct Hd as (_ & _ & Hd). rewrite (Hd i b Hb). rewrite (take_S_r _ _ b) by (apply list_lookup_insert_eq; lia).
      rewrite (take_S_r bl _ b) by done. rewrite take_insert_ge by lia. by rewrite Ht.
    + cbn beta. cbn [lg cache start outstanding committing set_lh]. done.
Qed.

(** ** Adding a block to the transaction *)

Lemma absorb_spec bl n :
  (n ∈ bl /\ bl !! (absorb bl n) = Some n) \/ ((n ∉ bl) /\ absorb bl n = length bl).
Proof.
  induction bl as [|x bl IH]; cbn [absorb length]; [right; split; [apply not_elem_of_nil|done]|].
  destruct (Z.eqb_spec x n) as [->|Hn]; [left; split; [apply list_elem_of_here|done]|].
  destruct IH as [[Hi Hl]|[Hi Hl]].
  - left. split; [by apply list_elem_of_further|done].
  - right. rewrite Hl, not_elem_of_cons. done.
Qed.

Definition txn_add (n : Z) (bl : list Z) : list Z := if decide (n ∈ bl) then bl else bl ++ [n].

Lemma log_write_wp s m i n bl : bc_is (cache s) m -> log_is (lg s) bl -> 1 <= outstanding (lg s) ->
  Z.of_nat (length bl) < LOGBLOCKS -> cm_held m !! i = Some n -> 0 <= n < 2 ^ 31 ->
  ~ in_log (start (lg s)) n -> Z.of_nat (ref_of m n) + 1 < 2 ^ 32 ->
  wp (log_write i) (fun _ s' => log_is (lg s') (txn_add n bl) /\ start (lg s') = start (lg s) /\
    outstanding (lg s') = outstanding (lg s) /\ committing (lg s') = committing (lg s) /\
    bc_is (cache s') (if decide (n ∈ bl) then m else add_ref n m)) s.
Proof.
  intros Hm L Ho Hlt Hh Hn Hlg Hr. unfold log_write. wp_steps. rewrite (li_n _ _ L).
  rewrite (proj2 (Z.leb_gt _ _)) by lia. rewrite (proj2 (Z.ltb_ge _ _)) by lia. wp_step. rewrite bc_wp.
  eapply wp_mono; [by apply (bc_blockno_law _ _ _ n Hm)|]. cbn beta. intros r c [-> ->]. cbn [lg].
  rewrite i32_id by (unfold is_i32; lia). rewrite Nat2Z.id, (li_bl _ _ L). unfold txn_add.
  pose proof (li_size _ _ L) as Hsz.
  destruct (absorb_spec bl n) as [[Hi Ha]|[Hi Ha]].
  - pose proof (lookup_lt_Some _ _ _ Ha). rewrite (proj2 (Z.eqb_neq _ _)) by lia. rewrite !decide_True by done.
    unfold set_log. wp_steps. cbn [lg cache set_lh start outstanding committing]. split_and!; try done.
    rewrite list_insert_id.
    + destruct (lg s) as [a b c [d e]]. cbn in *. destruct L. split; done.
    + assert (take (length bl) (lblock (lh (lg s))) !! (absorb bl n) = Some n) as Ht by (by rewrite (li_bl _ _ L)).
      by apply lookup_take_Some in Ht as [? _].
  - rewrite Ha, Z.eqb_refl. rewrite !decide_False by done. wp_step. rewrite bc_wp.
    eapply wp_mono; [by apply (bc_bpin_law _ _ _ n Hm)|]. cbn beta. intros [] c Hm1.
    unfold set_log. wp_steps. cbn [lg cache set_lh start outstanding committing]. split_and!; try done.
    destruct L as [L1 L2 L3 L4 L5 L6 L7]. split; cbn [lh set_lh ln lblock start].
    + rewrite length_app. cbn. lia.
    + rewrite length_app, Nat.add_1_r. rewrite (take_S_r _ _ n) by (apply list_lookup_insert_eq; lia).
      rewrite take_insert_ge by lia. by rewrite L2.
    + by rewrite length_insert.
    + rewrite length_app. cbn. lia.
    + done.
    + apply NoDup_app. split_and!; [done| |apply NoDup_singleton]. intros x Hx ->%list_elem_of_singleton. done.
    + intros x Hx. rewrite elem_of_app, list_elem_of_singleton in Hx. destruct Hx as [Hx| ->]; [by apply L7|done].
Qed.
End Log.
