(* ===== verification/LogCrash.v ===== *)
(** * Crash safety of the log

    What [commit] writes, in order, and what [initlog] makes of the disk left by
    a crash after any number of those writes: either none or all of the
    transaction's blocks are in place ([commit_is_crash_atomic]). *)
From stdpp Require Import gmap.
From S2P Require Import Prelude Machine Bytes Bio Log.

Section Crash.
Context {B : Type} `{BC : BufCache B} `{BL : !BufCacheLaws B}.
Implicit Types (s : lst (B := B)) (m : cmodel).

(** ** Replaying writes *)

Lemma replay_app d ws ws' : replay d (ws ++ ws') = replay (replay d ws) ws'.
Proof. apply fold_left_app. Qed.

Lemma replay_notin d ws b : b ∉ ws.*1 -> replay d ws b = d b.
Proof.
  revert d. induction ws as [|[n v] ws IH]; intros d Hb; [done|].
  rewrite fmap_cons, not_elem_of_cons in Hb. destruct Hb as [Hn Hb].
  change (replay (set_block d n v) ws b = d b). rewrite IH by done. by apply set_block_ne.
Qed.

Lemma writes_fields ws m :
  cm_view (writes ws m) = replay (cm_view m) ws /\ cm_disk (writes ws m) = replay (cm_disk m) ws /\
  cm_trace (writes ws m) = cm_trace m ++ ws /\ cm_refs (writes ws m) = cm_refs m /\
  cm_held (writes ws m) = cm_held m.
Proof.
  revert m. induction ws as [|[n v] ws IH]; intros m.
  - cbn. rewrite app_nil_r. done.
  - change (writes ((n, v) :: ws) m) with (writes ws (write1 n v m)).
    destruct (IH (write1 n v m)) as (-> & -> & -> & -> & ->). cbn. rewrite <- app_assoc. done.
Qed.

Lemma writes_app ws ws' m : writes (ws ++ ws') m = writes ws' (writes ws m).
Proof. apply fold_left_app. Qed.

Lemma log_ws_fst a bl v x : x ∈ (log_ws a bl v).*1 -> a <= x < a + Z.of_nat (length bl).
Proof.
  revert a. induction bl as [|b bl IH]; intros a; cbn [log_ws length]; [by intros ?%elem_of_nil|].
  rewrite fmap_cons, elem_of_cons. intros [->|H]; [cbn; lia|]. apply IH in H. lia.
Qed.

Lemma replay_log_ws d a bl v i b :
  bl !! i = Some b -> replay d (log_ws a bl v) (a + Z.of_nat i) = v b.
Proof.
  revert d a i. induction bl as [|b0 bl IH]; intros d a i Hi; [done|]. cbn [log_ws].
  change (replay d ((a, v b0) :: log_ws (a + 1) bl v)) with (replay (set_block d a (v b0)) (log_ws (a + 1) bl v)).
  destruct i as [|i]; cbn in Hi.
  - injection Hi as ->. rewrite Z.add_0_r, replay_notin; [apply set_block_eq|].
    intros H. apply log_ws_fst in H. lia.
  - replace (a + Z.of_nat (S i)) with (a + 1 + Z.of_nat i) by lia. by apply IH.
Qed.

Definition home_now (v : Z -> block) (bl : list Z) : list (Z * block) := (fun b => (b, v b)) <$> bl.

Lemma home_ws_now a bl u v :
  (forall i b, bl !! i = Some b -> u (a + Z.of_nat i) = v b) -> home_ws a bl u = home_now v bl.
Proof.
  revert a. induction bl as [|b bl IH]; intros a H; cbn; [done|]. f_equal.
  - f_equal. rewrite <- (H O b eq_refl). f_equal. lia.
  - apply IH. intros i b' Hi. rewrite <- (H (S i) b' Hi). f_equal. lia.
Qed.

Lemma home_now_fst v bl : (home_now v bl).*1 = bl.
Proof. unfold home_now. rewrite <- list_fmap_compose. apply list_fmap_id. Qed.

(** Installing the same values again, after any prefix of the installation. *)
Lemma replay_home_now d v bl b :
  replay d (home_now v bl) b = if decide (b ∈ bl) then v b else d b.
Proof.
  revert d. induction bl as [|b0 bl IH]; intros d.
  - by rewrite decide_False by apply not_elem_of_nil.
  - change (replay d (home_now v (b0 :: bl))) with (replay (set_block d b0 (v b0)) (home_now v bl)). rewrite IH.
    destruct (decide (b ∈ bl)) as [Hb|Hb].
    + by rewrite decide_True by (by apply list_elem_of_further).
    + destruct (decide (b = b0)) as [->|Hn].
      * rewrite decide_True by apply list_elem_of_here. apply set_block_eq.
      * rewrite decide_False by (rewrite elem_of_cons; tauto). by apply set_block_ne.
Qed.

(** ** What a commit writes *)

Definition commit_ws (st : Z) (h : logheader) (v : Z -> block) (bl : list Z) : list (Z * block) :=
  log_ws (st + 1) bl v ++ (st, put_head h (v st)) :: home_now v bl ++
  [(st, put_head (Lh 0 (lblock h)) (put_head h (v st)))].

Lemma unpinned_ne rc bl g b : b ∉ bl -> unpinned rc bl g !! b = g !! b.
Proof.
  revert g. induction bl as [|b0 bl IH]; intros g Hb; cbn; [done|].
  rewrite not_elem_of_cons in Hb. destruct Hb as [Hn Hb]. rewrite IH by done.
  unfold installed_refs. destruct (rc =? 0); [|done]. by apply rdrop_ne.
Qed.
Lemma unpinned_size rc bl g : (size (unpinned rc bl g) <= size g)%nat.
Proof.
  revert g. induction bl as [|b0 bl IH]; intros g; cbn; [done|]. etrans; [apply IH|].
  unfold installed_refs. destruct (rc =? 0); [apply rdrop_size|done].
Qed.

Lemma ready_ext st bl m m' :
  cm_refs m' = cm_refs m -> cm_held m' = cm_held m -> ready st bl m -> ready st bl m'.
Proof.
  intros Hr Hh [H1 H2 H3]. unfold idle, not_held, ref_of in *. split; unfold idle, not_held, ref_of; rewrite ?Hr, ?Hh; done.
Qed.

Lemma ready_installable st bl m : ready st bl m -> installable 0 st bl m.
Proof.
  intros [H1 H2 H3]. split; [|done]. intros b Hb. destruct (H1 b Hb) as (? & ? & ?). split_and!; done.
Qed.

Lemma log_cleared l bl : log_is l bl -> log_is (set_lh (Lh 0 (lblock (lh l))) l) [].
Proof. intros [? ? ? ? ? ? ?]. split; cbn; try done. - apply NoDup_nil_2. - by intros b ?%elem_of_nil. Qed.

Lemma commit_writes s m bl : bc_is (cache s) m -> log_is (lg s) bl -> bl <> [] ->
  ready (start (lg s)) bl m ->
  wp commit (fun _ s' => lg s' = set_lh (Lh 0 (lblock (lh (lg s)))) (lg s) /\
    bc_is (cache s') (set_refs (unpinned 0 bl (cm_refs m))
      (writes (commit_ws (start (lg s)) (lh (lg s)) (cm_view m) bl) m))) s.
Proof.
  intros Hm L Hne Rd. set (st := start (lg s)). set (v := cm_view m). set (h := lh (lg s)).
  assert (Hst : in_log st st) by (unfold in_log, LOGBLOCKS, MAXOPBLOCKS; lia).
  assert (Hstb : st ∉ bl) by (intros Hb; by destruct (li_home _ _ L st Hb)).
  unfold commit. rewrite wp_bind, wp_gets, (li_n _ _ L). rewrite (proj2 (Z.ltb_lt _ _)) by (destruct bl; cbn; [done|lia]).
  (* the blocks to the log *)
  unfold write_log. rewrite wp_bind, wp_bind, wp_gets, (li_n _ _ L), Nat2Z.id.
  eapply wp_mono; [apply (write_log_loop_wp s m bl 0 bl); done|]. cbn beta. intros _ s1 [Hl1 Hm1].
  rewrite Z.add_0_r in Hm1. fold st v in Hm1. set (m1 := writes _ m) in Hm1.
  destruct (writes_fields (log_ws (st + 1) bl v) m) as (Hv1 & _ & _ & Hr1 & Hh1). fold m1 in Hv1, Hr1, Hh1.
  assert (Rd1 : ready st bl m1) by (by apply (ready_ext _ _ m)).
  (* the header *)
  rewrite wp_bind. eapply wp_mono; [apply (write_head_wp s1 m1 bl Hm1); rewrite ?Hl1; [done|by apply Rd1|apply Rd1]|].
  cbn beta. intros _ s2 [Hl2 Hm2]. rewrite Hl1 in Hm2, Hl2. fold st h in Hm2.
  assert (Hv1s : cm_view m1 st = v st).
  { rewrite Hv1. apply replay_notin. intros H. apply log_ws_fst in H. lia. }
  rewrite Hv1s in Hm2. set (m2 := write1 _ _ m1) in Hm2.
  (* the blocks to their homes *)
  unfold install_trans. rewrite wp_bind, wp_bind, wp_gets, Hl2, (li_n _ _ L), Nat2Z.id.
  eapply wp_mono; [apply (install_loop_wp s2 m2 0 bl 0 bl); rewrite ?Hl2; try done|].
  { apply ready_installable. by apply ready_write1. }
  cbn beta. intros _ s3 [Hl3 Hm3]. rewrite Hl2 in Hl3, Hm3. rewrite Z.add_0_r in Hm3. fold st in Hm3.
  rewrite (home_ws_now _ bl _ v) in Hm3.
  2:{ intros i b Hi. cbn. rewrite set_block_ne by lia. rewrite Hv1. by apply replay_log_ws. }
  change (cm_refs m2) with (cm_refs m1) in Hm3. rewrite Hr1 in Hm3.
  (* the header again *)
  unfold clear_n, set_log. rewrite wp_bind, wp_modify. rewrite Hl3.
  set (s4 := Lst _ _). set (m3 := set_refs _ _) in Hm3.
  destruct (writes_fields (home_now v bl) m2) as (Hv3 & _ & _ & _ & Hh3).
  eapply wp_mono; [apply (write_head_wp s4 m3 []); cbn [lg cache s4]|].
  - exact Hm3.
  - by apply (log_cleared _ bl).
  - cbn [start set_lh]. fold st. split; cbn.
    + rewrite unpinned_ne by done. by apply (rd_log _ _ _ Rd).
    + intros i. cbn. rewrite Hh3. cbn. rewrite Hh1. by apply (rd_log _ _ _ Rd).
  - cbn. pose proof (unpinned_size 0 bl (cm_refs m)). pose proof (rd_room _ _ _ Rd). lia.
  - cbn beta. cbn [lg cache s4 start set_lh lh]. intros _ s5 [Hl5 Hm5]. split; [done|]. fold st in Hm5.
    replace (cm_view m3 st) with (put_head h (v st)) in Hm5.
    2:{ cbn. rewrite Hv3, replay_notin by (by rewrite home_now_fst). cbn. by rewrite set_block_eq. }
    unfold commit_ws. rewrite writes_app. fold m1.
    change (writes ((st, put_head h (v st)) :: ?ws) m1) with (writes ws m2).
    rewrite writes_app. exact Hm5.
Qed.

(** ** Recovery *)

Record log_blank (l : log) (st : Z) : Prop := {
  lb_start : start l = st;
  lb_bounds : 0 <= st /\ st + LOGBLOCKS < 2 ^ 31;
  lb_size : length (lblock (lh l)) = Z.to_nat LOGBLOCKS
}.

Record home_blocks (st : Z) (bl : list Z) : Prop := {
  hb_max : Z.of_nat (length bl) <= LOGBLOCKS;
  hb_nodup : NoDup bl;
  hb_home b : b ∈ bl -> 0 <= b < 2 ^ 31 /\ ~ in_log st b
}.

Lemma read_head_wp s m st bl : bc_is (cache s) m -> log_blank (lg s) st -> home_blocks st bl ->
  idle m st -> (size (cm_refs m) < nbuf)%nat -> hdr_is (cm_view m st) bl ->
  wp read_head (fun _ s' => bc_is (cache s') m /\ log_is (lg s') bl /\ start (lg s') = st /\
    outstanding (lg s') = outstanding (lg s) /\ committing (lg s') = committing (lg s)) s.
Proof.
  intros Hm [Hs Hb Hsz] [Hmx Hnd Hho] [Hra Hha] Hr Hd. unfold read_head. rewrite wp_bind, wp_gets, Hs.
  assert (is_u32 st) as Hu by (unfold is_u32, LOGBLOCKS, MAXOPBLOCKS in *; lia). rewrite u32_id by done.
  rewrite wp_bind, bc_wp. eapply wp_mono; [apply (bc_bread_law _ m); try done|].
  { by right. }
  { unfold ref_of, rcount. rewrite Hra. cbn. lia. }
  cbn beta. intros x c [Hx Hm1]. assert (H1x : <[x := st]> (cm_held m) !! x = Some st) by apply lookup_insert_eq.
  rewrite wp_bind, bc_wp. eapply wp_mono; [by apply (bc_data_law _ _ _ st Hm1)|]. cbn beta. intros d c' [-> ->].
  cbn [cm_view hold add_ref lg]. unfold set_log. rewrite wp_bind, wp_modify. cbn [lg cache].
  destruct Hd as (Hd1 & Hd2 & Hd3). rewrite Hd2, Nat2Z.id. rewrite wp_bind.
  match goal with |- wp _ _ ?t => pose proof (read_head_loop_wp t (cm_view m st) bl 0) as W end.
  rewrite Nat.sub_0_r in W. cbn [lg lh ln lblock set_lh cache start outstanding committing] in W.
  eapply wp_mono; [apply W; [by split_and!|done|done|done|lia|done]|]. cbn beta.
  intros _ s1 (Hc1 & Hs1 & Ho1 & Hk1 & Hn1 & Hz1 & Ht1). rewrite bc_wp, Hc1.
  eapply wp_mono; [apply (bc_brelse_law _ _ _ st Hm1); [done|]|].
  { intros _. cbn. apply (bc_unref_clean _ _ st Hm). unfold ref_of, rcount. by rewrite Hra. }
  cbn beta. intros [] c2 Hm2. cbn [cache lg]. split_and!; try done.
  - destruct m as [v d t g hh]. cbn in *. unfold drop_ref, unhold, hold, add_ref in Hm2. cbn in Hm2.
    rewrite rdrop_radd in Hm2 by (by rewrite Hra). by rewrite delete_insert_id in Hm2.
  - split; try done; rewrite Hs1, Hs; done.
  - by rewrite Hs1.
Qed.

Lemma unpinned_1 bl g : unpinned 1 bl g = g.
Proof. revert g. induction bl as [|b bl IH]; intros g; cbn; [done|]. apply IH. Qed.

Lemma recover_wp s d st bl : bc_is (cache s) (fresh_cache d) -> log_blank (lg s) st -> home_blocks st bl ->
  hdr_is (d st) bl ->
  wp recover_from_log (fun _ s' => log_is (lg s') [] /\ start (lg s') = st /\
    outstanding (lg s') = outstanding (lg s) /\ committing (lg s') = committing (lg s) /\
    exists h0, hdr_is h0 [] /\
    bc_is (cache s') (writes (home_ws (st + 1) bl d ++ [(st, h0)]) (fresh_cache d))) s.
Proof.
  intros Hm Lb Hb Hd.
  assert (Hidle : forall b, idle (fresh_cache d) b).
  { intros b. split; [apply lookup_empty|]. intros i. cbn. by rewrite lookup_empty. }
  unfold recover_from_log. rewrite wp_bind.
  eapply wp_mono; [apply (read_head_wp s (fresh_cache d) st bl); try done; vm_compute; lia|]. cbn beta.
  intros _ s1 (Hm1 & L1 & Hs1 & Ho1 & Hk1).
  unfold install_trans. rewrite wp_bind, wp_bind, wp_gets, (li_n _ _ L1), Nat2Z.id.
  eapply wp_mono; [apply (install_loop_wp s1 _ 1 bl 0 bl Hm1); try done|].
  { split; [|done]. intros b _. split_and!; [vm_compute; lia|apply Hidle|].
    unfold ref_of, rcount. cbn. rewrite lookup_empty. cbn. lia. }
  cbn beta. intros _ s2 [Hl2 Hm2]. rewrite Hs1, Z.add_0_r, unpinned_1 in Hm2. cbn [cm_view fresh_cache cm_refs] in Hm2.
  destruct (writes_fields (home_ws (st + 1) bl d) (fresh_cache d)) as (Hv2 & Hd2 & Ht2 & Hr2 & Hh2).
  set (m2 := writes (home_ws (st + 1) bl d) (fresh_cache d)) in *.
  assert (set_refs ∅ m2 = m2) as E2 by (destruct m2; cbn in *; by subst). rewrite E2 in Hm2.
  unfold clear_n, set_log. rewrite wp_bind, wp_modify, Hl2.
  set (s4 := Lst _ _).
  eapply wp_mono; [apply (write_head_wp s4 m2 [] Hm2); cbn [lg s4]|].
  - by apply (log_cleared _ bl).
  - cbn [start set_lh]. rewrite Hs1. split; [rewrite Hr2; apply lookup_empty|]. intros i. rewrite Hh2. cbn. by rewrite lookup_empty.
  - rewrite Hr2. vm_compute. lia.
  - cbn beta. cbn [lg cache s4 start set_lh lh outstanding committing]. intros _ s5 [Hl5 Hm5].
    rewrite Hl5. cbn [start set_lh outstanding committing]. split_and!; try done; [by apply (log_cleared _ bl)|].
    eexists. split; [|rewrite writes_app; rewrite Hs1 in Hm5; exact Hm5].
    apply put_head_is; try done; [by intros b ?%elem_of_nil|]. rewrite Hv2, replay_notin; [by destruct Hd as [? _]|].
    assert (Hfst : (home_ws (st + 1) bl d).*1 = bl).
    { clear. generalize (st + 1). induction bl as [|b bl IH]; intros a; cbn; [done|]. f_equal. apply IH. }
    rewrite Hfst. intros H. destruct (hb_home _ _ Hb st H) as [_ Hn]. apply Hn. unfold in_log, LOGBLOCKS, MAXOPBLOCKS. lia.
Qed.

(** ** Crashes *)

(** The disk once the transaction [bl] has happened. *)
Definition after_txn (d v : Z -> block) (bl : list Z) (b : Z) : block := if decide (b ∈ bl) then v b else d b.

Lemma log_ws_length a bl v : length (log_ws a bl v) = length bl.
Proof. revert a. induction bl as [|b bl IH]; intros a; cbn; [done|]. by rewrite IH. Qed.

Section Prefix.
Context (st : Z) (h : logheader) (d v : Z -> block) (bl : list Z).
Hypothesis (Hb : home_blocks st bl) (Hst : st ∉ bl).

Lemma home_not_log_ws b : ~ in_log st b -> b ∉ (log_ws (st + 1) bl v).*1.
Proof. intros Hn H. apply log_ws_fst in H. apply Hn. pose proof (hb_max _ _ Hb). unfold in_log. lia. Qed.

Lemma in_take {A} k (x : A) l : x ∈ take k l -> x ∈ l.
Proof. intros H. rewrite <- (take_drop k l). apply elem_of_app. by left. Qed.

(** Before the header is written, home blocks and header are the old ones. *)
Lemma crash_early k b : (k <= length bl)%nat -> ~ in_log st b \/ b = st ->
  replay d (take k (commit_ws st h v bl)) b = d b.
Proof.
  intros Hk Hbb. unfold commit_ws. rewrite take_app_le by (by rewrite log_ws_length).
  apply replay_notin. intros H. apply list_elem_of_fmap in H as (w & -> & Hw). apply in_take in Hw.
  assert (w.1 ∈ (log_ws (st + 1) bl v).*1) as Hf by (by apply list_elem_of_fmap_2).
  destruct Hbb as [Hn|E]; [by apply (home_not_log_ws _ Hn)|]. rewrite E in Hf. apply log_ws_fst in Hf. lia.
Qed.

(** Between the two header writes, the log holds the whole transaction and the
    other blocks are untouched. *)
Lemma crash_middle j : (j <= length bl)%nat ->
  let dd := replay d (take (length bl + S j) (commit_ws st h v bl)) in
  dd st = put_head h (v st) /\
  (forall i b, bl !! i = Some b -> dd (st + 1 + Z.of_nat i) = v b) /\
  (forall b, ~ in_log st b -> b ∉ bl -> dd b = d b).
Proof.
  intros Hj dd.
  assert (Edd : dd = replay (set_block (replay d (log_ws (st + 1) bl v)) st (put_head h (v st))) (take j (home_now v bl))).
  { unfold dd, commit_ws. rewrite take_app_ge by (rewrite log_ws_length; lia). rewrite log_ws_length, replay_app.
    replace (length bl + S j - length bl)%nat with (S j) by lia. cbn [take].
    rewrite take_app_le by (unfold home_now; rewrite length_fmap; lia). done. }
  assert (Hsub : forall b, b ∈ (take j (home_now v bl)).*1 -> b ∈ bl).
  { intros b Hbb. rewrite <- (home_now_fst v bl). apply list_elem_of_fmap in Hbb as (w & -> & Hw).
    apply list_elem_of_fmap_2. by apply in_take in Hw. }
  rewrite Edd. split_and!.
  - rewrite replay_notin by auto. apply set_block_eq.
  - intros i b Hi. pose proof (lookup_lt_Some _ _ _ Hi). rewrite replay_notin.
    + rewrite set_block_ne by lia. by apply replay_log_ws.
    + intros Hc. apply Hsub in Hc. destruct (hb_home _ _ Hb _ Hc) as [_ Hn]. apply Hn.
      pose proof (hb_max _ _ Hb). unfold in_log. lia.
  - intros b Hn Hbb. rewrite replay_notin by auto.
    rewrite set_block_ne by (intros ->; apply Hn; unfold in_log, LOGBLOCKS, MAXOPBLOCKS; lia).
    apply replay_notin. by apply home_not_log_ws.
Qed.

(** After the last write, the transaction is in place and the header empty. *)
Lemma crash_late k : (2 * length bl + 2 <= k)%nat ->
  let dd := replay d (take k (commit_ws st h v bl)) in
  dd st = put_head (Lh 0 (lblock h)) (put_head h (v st)) /\
  (forall b, ~ in_log st b -> dd b = after_txn d v bl b).
Proof.
  intros Hk dd.
  assert (Edd : dd = set_block (replay (set_block (replay d (log_ws (st + 1) bl v)) st (put_head h (v st))) (home_now v bl))
                       st (put_head (Lh 0 (lblock h)) (put_head h (v st)))).
  { unfold dd, commit_ws. rewrite take_ge.
    - rewrite replay_app. change (replay ?x ((?a, ?b) :: ?l)) with (replay (set_block x a b) l). by rewrite replay_app.
    - rewrite length_app. cbn. rewrite length_app, log_ws_length. unfold home_now. rewrite length_fmap. cbn. lia. }
  rewrite Edd. split; [apply set_block_eq|]. intros b Hn.
  assert (b <> st) by (intros ->; apply Hn; unfold in_log, LOGBLOCKS, MAXOPBLOCKS; lia).
  rewrite set_block_ne by done. rewrite replay_home_now. unfold after_txn. destruct (decide (b ∈ bl)); [done|].
  rewrite set_block_ne by done. apply replay_notin. by apply home_not_log_ws.
Qed.
End Prefix.

Lemma replay_recovery d bl st h0 b : ~ in_log st b ->
  replay d (home_ws (st + 1) bl d ++ [(st, h0)]) b = replay d (home_ws (st + 1) bl d) b.
Proof.
  intros Hn. rewrite replay_app. apply set_block_ne. cbn. intros ->. apply Hn. unfold in_log, LOGBLOCKS, MAXOPBLOCKS. lia.
Qed.

(** The state of the log as the kernel image has it, and booting over a disk. *)
Definition bss_log : log := Log 0 0 0 (Lh 0 (replicate (Z.to_nat LOGBLOCKS) 0)) 0.

Definition recovered (d : Z -> block) (bl : list Z) (v : Z -> block) (committed : bool) (b : Z) : block :=
  if committed then after_txn d v bl b else d b.

Lemma initlog_after_crash c st h d v bl k :
  0 <= st -> st + LOGBLOCKS < 2 ^ 31 -> home_blocks st bl ->
  ln h = Z.of_nat (length bl) -> take (length bl) (lblock h) = bl ->
  length (v st) = Z.to_nat BSIZE -> hdr_is (d st) [] ->
  bc_is c (fresh_cache (replay d (take k (commit_ws st h v bl)))) ->
  wp (initlog st) (fun _ r => log_is (lg r) [] /\ start (lg r) = st /\ outstanding (lg r) = 0 /\ committing (lg r) = 0 /\
    exists mr, bc_is (cache r) mr /\ hdr_is (cm_disk mr st) [] /\
      forall b, ~ in_log st b -> cm_disk mr b = recovered d bl v (length bl <? k)%nat b) (Lst bss_log c).
Proof.
  intros Hs1 Hs2 Hb Hln Hlb Hlv Hd Hc. set (dd := replay d _) in Hc.
  assert (Hstb : st ∉ bl).
  { intros H. destruct (hb_home _ _ Hb _ H) as [_ Hn]. apply Hn. unfold in_log, LOGBLOCKS, MAXOPBLOCKS. lia. }
  assert (Hpos : forall b, b ∈ bl -> 0 <= b < 2 ^ 31) by (intros b H; by destruct (hb_home _ _ Hb _ H)).
  assert (Hphd : hdr_is (put_head h (v st)) bl) by (apply put_head_is; try done; apply Hb).
  assert (Hnil : home_blocks st []).
  { split; cbn; [unfold LOGBLOCKS, MAXOPBLOCKS; lia|apply NoDup_nil_2|by intros b ?%elem_of_nil]. }
  assert (exists blc, home_blocks st blc /\ hdr_is (dd st) blc /\
    forall b, ~ in_log st b -> replay dd (home_ws (st + 1) blc dd) b = recovered d bl v (length bl <? k)%nat b) as (blc & Hbc & Hdc & Hrc).
  { unfold recovered. destruct (Nat.ltb_spec (length bl) k) as [Hk|Hk].
    - destruct (decide (2 * length bl + 2 <= k)%nat) as [Hk2|Hk2].
      + destruct (crash_late st h d v bl Hb k Hk2) as [H1 H2]. fold dd in H1, H2. exists []. split_and!; [done| |].
        * rewrite H1. apply put_head_is; try done; [by intros b ?%elem_of_nil|by destruct Hphd].
        * intros b Hn. cbn. by apply H2.
      + destruct (crash_middle st h d v bl Hb Hstb (k - length bl - 1)) as (H1 & H2 & H3); [lia|].
        replace (length bl + S (k - length bl - 1))%nat with k in * by lia. fold dd in H1, H2, H3.
        exists bl. split_and!; [done|by rewrite H1|]. intros b Hn. rewrite (home_ws_now _ _ _ v) by done.
        rewrite replay_home_now. unfold after_txn. destruct (decide (b ∈ bl)); [done|]. by apply H3.
    - exists []. split_and!; [done| |].
      + unfold dd. rewrite crash_early; auto.
      + intros b Hn. cbn. unfold dd. rewrite crash_early; auto. }
  unfold initlog. change (BSIZE <=? 4 + 4 * LOGBLOCKS) with false. cbv iota. unfold set_log. rewrite wp_bind, wp_modify.
  rewrite i32_id by (unfold is_i32, LOGBLOCKS, MAXOPBLOCKS in *; lia). cbn [lg cache bss_log outstanding committing lh].
  match goal with |- wp _ _ ?t => pose proof (recover_wp t dd st blc Hc) as W end.
  eapply wp_mono; [apply W; try done|]; cbn beta.
  intros _ r (L & Hst & Ho & Hk & h0 & Hh0 & Hm). cbn in Ho, Hk. split_and!; try done. eexists. split; [exact Hm|].
  destruct (writes_fields (home_ws (st + 1) blc dd ++ [(st, h0)]) (fresh_cache dd)) as (_ & Hdk & _). rewrite Hdk. cbn [cm_disk fresh_cache].
  split.
  - rewrite replay_app. change (hdr_is (set_block (replay dd (home_ws (st + 1) blc dd)) st h0 st) []). by rewrite set_block_eq.
  - intros b Hn. rewrite replay_recovery by done. by apply Hrc.
Qed.
End Crash.
