(* ===== verification/Txn.v ===== *)
(** * Transactions: how the file system uses the log

    File-system code between [begin_op] and [end_op] reads blocks with [bread],
    changes buffers it holds, records the change with [log_write] and lets go
    with [brelse].  [tx s bl v H D] describes such a moment: the transaction so far
    writes the blocks [bl], the current contents are [v], the buffers held are
    [H], and only blocks of [D] (changed, not yet recorded) or [bl] differ from the
    disk.  Each routine has one rule; the rules make the bookkeeping of pins,
    reference counts and free buffers invisible to the file system's proofs. *)
From stdpp Require Import gmap.
From S2P Require Import Prelude Machine Bytes Bio Log.

Section Txn.
Context {B : Type} `{BC : BufCache B} `{BL : !BufCacheLaws B}.
Implicit Types (s : lst (B := B)) (m : cmodel) (H : gmap nat Z) (bl D : list Z) (v : Z -> block).

Definition held_blocks (H : gmap nat Z) : list Z := (map_to_list H).*2.

Lemma elem_of_held H n : n ∈ held_blocks H <-> exists i, H !! i = Some n.
Proof.
  unfold held_blocks. rewrite list_elem_of_fmap. split.
  - intros ([i n'] & -> & Hi). exists i. by apply elem_of_map_to_list in Hi.
  - intros [i Hi]. exists (i, n). split; [done|]. by apply elem_of_map_to_list.
Qed.

(** One reference for a pin, one for a holder. *)
Definition tx_count (bl : list Z) (H : gmap nat Z) (b : Z) : nat :=
  ((if decide (b ∈ bl) then 1 else 0) + (if decide (b ∈ held_blocks H) then 1 else 0))%nat.

Record tx_model (bl : list Z) (v : Z -> block) (H : gmap nat Z) (D : list Z) (m : cmodel) : Prop := {
  tm_view : cm_view m = v;
  tm_held : cm_held m = H;
  tm_refs b : ref_of m b = tx_count bl H b;
  tm_clean b : b ∉ bl -> b ∉ D -> cm_view m b = cm_disk m b;
  tm_inj i j n : H !! i = Some n -> H !! j = Some n -> i = j
}.

Record tx (s : lst) (bl : list Z) (v : Z -> block) (H : gmap nat Z) (D : list Z) : Prop := {
  tx_log : log_is (lg s) bl;
  tx_out : 1 <= outstanding (lg s);
  tx_cache : exists m, bc_is (cache s) m /\ tx_model bl v H D m
}.

Lemma tx_size c bl v H D m : bc_is c m -> tx_model bl v H D m -> (size (cm_refs m) <= length bl + size H)%nat.
Proof.
  intros Hm T. rewrite <- (size_dom (D := gset Z)).
  assert (Hs : dom (cm_refs m) ⊆ list_to_set (C := gset Z) (bl ++ held_blocks H)).
  { intros b Hb. apply elem_of_dom in Hb as [k Hk]. rewrite elem_of_list_to_set, elem_of_app.
    assert (ref_of m b <> O) as Hr by (eapply pinned_pos; [exact Hm|by exists k]).
    rewrite (tm_refs _ _ _ _ _ T) in Hr. unfold tx_count in Hr.
    destruct (decide (b ∈ bl)); [by left|]. destruct (decide (b ∈ held_blocks H)); [by right|]. done. }
  apply subseteq_size in Hs. etrans; [exact Hs|]. etrans; [apply size_list_to_set_le|].
  rewrite length_app. unfold held_blocks. by rewrite length_fmap, length_map_to_list.
Qed.

Lemma held_insert H i n b : H !! i = None -> b ∈ held_blocks (<[i := n]> H) <-> b = n \/ b ∈ held_blocks H.
Proof.
  intros Hi. rewrite !elem_of_held. split.
  - intros [j Hj]. destruct (decide (j = i)) as [->|Hn].
    + rewrite lookup_insert_eq in Hj. left. congruence.
    + rewrite lookup_insert_ne in Hj by done. right. by exists j.
  - intros [->|[j Hj]]; [exists i; by rewrite lookup_insert_eq|]. exists j. rewrite lookup_insert_ne; [done|]. congruence.
Qed.

Lemma held_delete H i n b : H !! i = Some n -> (forall j, H !! j = Some n -> j = i) ->
  b ∈ held_blocks (delete i H) <-> b ∈ held_blocks H /\ b <> n.
Proof.
  intros Hi Hu. rewrite !elem_of_held. split.
  - intros [j Hj]. apply lookup_delete_Some in Hj as [Hji Hj]. split; [by exists j|]. intros ->. by apply Hji, symmetry, Hu.
  - intros [[j Hj] Hb]. exists j. rewrite lookup_delete_ne; [done|]. intros ->. congruence.
Qed.

Definition lg_same (l l' : log) : Prop :=
  start l' = start l /\ outstanding l' = outstanding l /\ committing l' = committing l.

(** [bread] of a block not held, with a buffer to spare. *)
Lemma tx_bread s bl v H D n : tx s bl v H D -> is_u32 n -> n ∉ held_blocks H ->
  (length bl + size H < nbuf)%nat ->
  wp (bc (bc_bread n)) (fun i s' => lg s' = lg s /\ H !! i = None /\ tx s' bl v (<[i := n]> H) D) s.
Proof.
  intros [L Ho (m & Hm & T)] Hn Hh Hsz. rewrite bc_wp. pose proof (tx_size _ _ _ _ _ _ Hm T).
  assert (Hc : tx_count bl H n = if decide (n ∈ bl) then 1%nat else 0%nat).
  { unfold tx_count. rewrite (decide_False (P := n ∈ held_blocks H)) by done. by rewrite Nat.add_0_r. }
  eapply wp_mono; [apply (bc_bread_law _ m); [done|done|right; lia| |]|].
  - intros i Hi. apply Hh, elem_of_held. exists i. by rewrite <- (tm_held _ _ _ _ _ T).
  - rewrite (tm_refs _ _ _ _ _ T), Hc. case_decide; lia.
  - cbn beta. intros i c [Hi Hm']. rewrite (tm_held _ _ _ _ _ T) in Hi. split_and!; [done|done|].
    split; [done|done|]. exists (hold i n (add_ref n m)). split; [done|]. destruct T as [T1 T2 T3 T4 T5].
    split; cbn; try done.
    + by rewrite T2.
    + intros b. unfold ref_of. cbn. destruct (decide (b = n)) as [->|Hb].
      * rewrite rcount_radd. change (rcount (cm_refs m) n) with (ref_of m n). rewrite T3, Hc. unfold tx_count.
        rewrite (decide_True (P := n ∈ held_blocks (<[i := n]> H))) by (apply held_insert; [done|by left]). lia.
      * rewrite (rcount_ne (cm_refs m)) by (by apply radd_ne). change (rcount (cm_refs m) b) with (ref_of m b). rewrite T3.
        unfold tx_count. f_equal. apply decide_ext. rewrite held_insert by done. tauto.
    + intros j k b Hj Hk. destruct (decide (j = i)) as [->|Hji], (decide (k = i)) as [->|Hki]; simplify_map_eq; try done.
      * destruct Hh. apply elem_of_held. by exists k.
      * destruct Hh. apply elem_of_held. by exists j.
      * by apply (T5 _ _ b).
Qed.

Lemma tx_data s bl v H D i n : tx s bl v H D -> H !! i = Some n ->
  wp (bc (bc_data i)) (fun d s' => d = v n /\ s' = s) s.
Proof.
  intros [L Ho (m & Hm & T)] Hi. rewrite bc_wp. eapply wp_mono; [apply (bc_data_law _ _ _ n Hm)|].
  - by rewrite (tm_held _ _ _ _ _ T).
  - cbn beta. intros d c [-> ->]. rewrite (tm_view _ _ _ _ _ T). by destruct s.
Qed.

Lemma tx_store s bl v H D i n d : tx s bl v H D -> H !! i = Some n ->
  wp (bc (bc_store i d)) (fun _ s' => lg s' = lg s /\ tx s' bl (set_block v n d) H (n :: D)) s.
Proof.
  intros [L Ho (m & Hm & T)] Hi. rewrite bc_wp. eapply wp_mono; [apply (bc_store_law _ _ _ n d Hm)|].
  - by rewrite (tm_held _ _ _ _ _ T).
  - cbn beta. intros [] c Hm'. split; [done|]. split; [done|done|]. exists (see n d m). split; [done|].
    destruct T as [T1 T2 T3 T4 T5]. split; cbn; try done; [by rewrite T1|].
    intros b Hb Hd. rewrite not_elem_of_cons in Hd. destruct Hd. rewrite set_block_ne by done. by apply T4.
Qed.

(** [log_write] records the change to a held buffer. *)
Lemma tx_log_write s bl v H D i n : tx s bl v H (n :: D) -> H !! i = Some n ->
  Z.of_nat (length bl) < LOGBLOCKS -> 0 <= n < 2 ^ 31 -> ~ in_log (start (lg s)) n ->
  wp (log_write i) (fun _ s' => lg_same (lg s) (lg s') /\ tx s' (txn_add n bl) v H D) s.
Proof.
  intros [L Ho (m & Hm & T)] Hi Hl Hn Hlg.
  eapply wp_mono; [apply (log_write_wp s m i n bl); try done|].
  - by rewrite (tm_held _ _ _ _ _ T).
  - rewrite (tm_refs _ _ _ _ _ T). unfold tx_count. repeat case_decide; lia.
  - cbn beta. intros _ s' (L' & H1 & H2 & H3 & Hm'). split; [done|]. split; [done|by rewrite H2|].
    eexists. split; [exact Hm'|]. destruct T as [T1 T2 T3 T4 T5]. unfold txn_add.
    destruct (decide (n ∈ bl)) as [Hin|Hin].
    + split; try done. intros b Hb Hd. apply T4; [done|]. rewrite not_elem_of_cons. split; [|done]. by intros ->.
    + split; cbn; try done.
      * intros b. unfold ref_of. cbn. destruct (decide (b = n)) as [->|Hb].
        -- rewrite rcount_radd. change (rcount (cm_refs m) n) with (ref_of m n). rewrite T3. unfold tx_count.
           rewrite (decide_False (P := n ∈ bl)) by done. rewrite (decide_True (P := n ∈ bl ++ [n])); [done|].
           apply elem_of_app. right. apply list_elem_of_here.
        -- rewrite (rcount_ne (cm_refs m)) by (by apply radd_ne). change (rcount (cm_refs m) b) with (ref_of m b). rewrite T3.
           unfold tx_count. f_equal. apply decide_ext. rewrite elem_of_app, list_elem_of_singleton. tauto.
      * intros b Hb Hd. rewrite elem_of_app, list_elem_of_singleton in Hb. apply T4; [tauto|]. rewrite not_elem_of_cons. tauto.
Qed.

Lemma tx_brelse s bl v H D i n : tx s bl v H D -> H !! i = Some n -> n ∈ bl \/ n ∉ D ->
  wp (bc (bc_brelse i)) (fun _ s' => lg s' = lg s /\ tx s' bl v (delete i H) D) s.
Proof.
  intros [L Ho (m & Hm & T)] Hi Hc. rewrite bc_wp. destruct T as [T1 T2 T3 T4 T5].
  assert (Hh : n ∈ held_blocks H) by (apply elem_of_held; by exists i).
  eapply wp_mono; [apply (bc_brelse_law _ _ _ n Hm)|].
  - by rewrite T2.
  - rewrite T3. unfold tx_count. rewrite (decide_True (P := n ∈ held_blocks H)) by done.
    case_decide; intros; [lia|]. destruct Hc; [done|by apply T4].
  - cbn beta. intros [] c Hm'. split; [done|]. split; [done|done|]. eexists. split; [exact Hm'|].
    assert (Hu : forall j, H !! j = Some n -> j = i) by (intros j Hj; by apply (T5 _ _ n)).
    split; cbn; try done.
    + by rewrite T2.
    + intros b. unfold ref_of. cbn. destruct (decide (b = n)) as [->|Hb].
      * rewrite rcount_rdrop. change (rcount (cm_refs m) n) with (ref_of m n). rewrite T3. unfold tx_count.
        rewrite (decide_True (P := n ∈ held_blocks H)) by done.
        rewrite (decide_False (P := n ∈ held_blocks (delete i H))); [lia|]. rewrite (held_delete _ _ n) by done. tauto.
      * rewrite (rcount_ne (cm_refs m)) by (by apply rdrop_ne). change (rcount (cm_refs m) b) with (ref_of m b). rewrite T3.
        unfold tx_count. f_equal. apply decide_ext. rewrite (held_delete _ _ n) by done. tauto.
    + intros j k b Hj Hk. apply lookup_delete_Some in Hj as [_ Hj]. apply lookup_delete_Some in Hk as [_ Hk]. by apply (T5 _ _ b).
Qed.

(** A transaction that has just begun, and one that is complete. *)
Lemma tx_begin l c d : log_is l [] -> 1 <= outstanding l -> bc_is c (fresh_cache d) -> tx (Lst l c) [] d ∅ [].
Proof.
  intros L Ho Hm. split; [done|done|]. exists (fresh_cache d). split; [done|]. split; cbn; try done.
Qed.

Lemma tx_ready c st bl v m : bc_is c m -> tx_model bl v ∅ [] m ->
  (forall b, b ∈ bl -> ~ in_log st b) -> (length bl < nbuf)%nat -> ready st bl m.
Proof.
  intros Hm T Hl Hn. pose proof (tx_size _ _ _ _ _ _ Hm T) as Hsz. rewrite map_size_empty in Hsz.
  assert (Hc : forall b, tx_count bl ∅ b = if decide (b ∈ bl) then 1%nat else 0%nat).
  { intros b. unfold tx_count. rewrite (decide_False (P := b ∈ held_blocks ∅)); [by rewrite Nat.add_0_r|].
    unfold held_blocks. rewrite map_to_list_empty. apply not_elem_of_nil. }
  assert (Hh : forall b, not_held m b) by (intros b i; rewrite (tm_held _ _ _ _ _ T), lookup_empty; done).
  split; [| |lia].
  - intros b Hb. pose proof (tm_refs _ _ _ _ _ T b) as Hr. rewrite Hc, decide_True in Hr by done. split_and!; [|done|rewrite Hr; lia].
    unfold ref_of, rcount in Hr. destruct (cm_refs m !! b); [by eexists|done].
  - intros a Ha. split; [|done]. pose proof (tm_refs _ _ _ _ _ T a) as Hr. rewrite Hc, decide_False in Hr by (intros ?; by apply (Hl a)).
    unfold ref_of, rcount in Hr. destruct (cm_refs m !! a) as [k|] eqn:E; [|done]. cbn in Hr. subst.
    by destruct (bc_refs_pos _ _ a Hm).
Qed.
End Txn.
