(* ===== verification/LogProps.v ===== *)
(** * The log: its guarantees

    Atomicity of commits across crashes, on the buffer cache of kernel/bio.c;
    the reservation of log space by [begin_op]; and what happens when a
    transaction uses all of the log. *)
From stdpp Require Import gmap.
From S2P Require Import Prelude Machine Bytes Bio Log LogCrash Txn.

Section Boot.
Context (me dev : Z).
#[local] Existing Instance bio_cache.
#[local] Instance the_cache : BufCache bst := bio_cache me dev.
#[local] Instance the_laws : BufCacheLaws bst := bio_laws me dev.

(** Booting over a disk: [binit], then [initlog] with the superblock's value. *)
Definition log_boot (st : Z) : M (lst (B := bst)) unit :=
  bc binit ;; initlog st.
Definition power_on (d : Z -> block) : lst := Lst bss_log (bio_boot d).

Lemma log_boot_wp st d Q :
  dev <> 0 -> (forall c, bc_rep me dev c (fresh_cache d) -> wp (initlog st) Q (Lst bss_log c)) ->
  wp (log_boot st) Q (power_on d).
Proof.
  intros Hd HQ. unfold log_boot. rewrite wp_bind, bc_wp. cbn [cache power_on lg].
  eapply wp_mono; [by apply (binit_ok me dev)|]. cbn beta. intros [] c Hc. by apply HQ.
Qed.

Lemma log_home l bl : log_is l bl -> home_blocks (start l) bl.
Proof. intros L. split; apply L. Qed.

Lemma ready_idle_len st bl m c d : bc_is c m -> ready st bl m -> hdr_is (cm_disk m st) d -> length (cm_view m st) = Z.to_nat BSIZE.
Proof.
  intros Hm Rd [Hl _]. rewrite (bc_unref_clean _ _ st Hm); [done|]. unfold ref_of, rcount.
  destruct (rd_log _ _ _ Rd st) as [-> _]; [unfold in_log, LOGBLOCKS, MAXOPBLOCKS; lia|done].
Qed.
End Boot.

(** C1: a commit is atomic with respect to crashes.  Cut the power after any number
    [k] of the block writes [commit] issues, boot, and run [initlog] on the disk as
    it was left: outside the log area the disk holds exactly the old contents if
    the header write had not happened ([k] at most the number of blocks), and
    exactly the new contents of all blocks of the transaction otherwise. *)
Theorem commit_is_crash_atomic me dev s m bl :
  dev <> 0 -> bc_rep me dev (cache s) m -> log_is (lg s) bl -> bl <> [] ->
  ready (start (lg s)) bl m -> hdr_is (disk (cache s) (start (lg s))) [] ->
  wp (commit (BC := bio_cache me dev)) (fun _ s' => exists ws,
    trace (cache s') = trace (cache s) ++ ws /\
    disk (cache s') = replay (disk (cache s)) ws /\
    forall k, wp (log_boot me dev (start (lg s))) (fun _ r => log_is (lg r) [] /\
      forall b, ~ in_log (start (lg s)) b ->
        disk (cache r) b = if (length bl <? k)%nat then after_txn (disk (cache s)) (cm_view m) bl b
                           else disk (cache s) b)
      (power_on (replay (disk (cache s)) (take k ws)))) s.
Proof.
  intros Hdev Hm L Hne Rd Hd. pose proof (bio_laws me dev) as BL.
  eapply wp_mono; [by apply (commit_writes (BC := bio_cache me dev) s m bl)|]. cbn beta.
  set (ws := commit_ws _ _ _ _). intros _ s' [Hl Hm']. exists ws.
  destruct (writes_fields ws m) as (_ & Hdk & Htr & _).
  assert (Ed : disk (cache s) = cm_disk m) by apply Hm. assert (Et : trace (cache s) = cm_trace m) by apply Hm.
  rewrite Ed, Et in *. split_and!.
  - rewrite (rep_trace _ _ _ _ Hm'). exact Htr.
  - rewrite (rep_disk _ _ _ _ Hm'). exact Hdk.
  - intros k. apply log_boot_wp; [done|]. intros c Hc.
    eapply wp_mono; [apply (initlog_after_crash (BC := bio_cache me dev) c _ (lh (lg s)) (cm_disk m) (cm_view m) bl k)|].
    + apply L.
    + apply L.
    + by apply log_home.
    + apply L.
    + apply L.
    + by eapply (ready_idle_len me dev).
    + done.
    + exact Hc.
    + cbn beta. intros _ r (Lr & _ & _ & _ & mr & Hmr & _ & Hr). split; [done|].
      intros b Hb. rewrite (rep_disk _ _ _ _ Hmr). by apply Hr.
Qed.

(** A transaction that overwrites block 100, on a disk of zeros with the log at
    block 2. *)
Section Demo.
#[local] Instance demo_cache : BufCache bst := bio_cache 7 1.
#[local] Instance demo_laws : BufCacheLaws bst := bio_laws 7 1.

Definition zero_disk (n : Z) : block := replicate (Z.to_nat BSIZE) 0.
Definition demo_log : log := Log 2 1 0 (Lh 0 (replicate (Z.to_nat LOGBLOCKS) 0)) 0.
Definition demo_update : M (lst (B := bst)) unit :=
  let! b := bc (bc_bread 100) in
  bc (bc_store b (replicate (Z.to_nat BSIZE) 7)) ;;
  log_write b ;;
  bc (bc_brelse b).

Lemma demo_log_is : log_is demo_log [].
Proof.
  split; cbn; try done; try (unfold LOGBLOCKS, MAXOPBLOCKS; lia); [apply NoDup_nil_2|by intros b ?%elem_of_nil].
Qed.

Lemma demo_update_wp c : bc_rep 7 1 c (fresh_cache zero_disk) ->
  wp demo_update (fun _ s => start (lg s) = 2 /\
    tx s [100] (set_block zero_disk 100 (replicate (Z.to_nat BSIZE) 7)) ∅ []) (Lst demo_log c).
Proof.
  intros Hc. unfold demo_update. rewrite wp_bind.
  eapply wp_mono; [apply (tx_bread _ [] zero_disk ∅ [])|].
  - apply tx_begin; [apply demo_log_is|done|done].
  - by unfold is_u32.
  - unfold held_blocks. rewrite map_to_list_empty. apply not_elem_of_nil.
  - vm_compute. lia.
  - cbn beta. intros i s1 (Hl1 & _ & T1). rewrite wp_bind. eapply wp_mono; [apply (tx_store _ _ _ _ _ _ 100 _ T1)|].
    { apply lookup_insert_eq. }
    cbn beta. intros [] s2 [Hl2 T2]. rewrite wp_bind. eapply wp_mono; [apply (tx_log_write _ _ _ _ _ _ 100 T2)|].
    + apply lookup_insert_eq.
    + done.
    + lia.
    + rewrite Hl2, Hl1. unfold in_log, LOGBLOCKS, MAXOPBLOCKS. cbn. lia.
    + cbn beta. intros [] s3 [(E3 & _) T3]. eapply wp_mono; [apply (tx_brelse _ _ _ _ _ _ 100 T3)|].
      * apply lookup_insert_eq.
      * left. apply list_elem_of_here.
      * cbn beta. intros [] s4 [Hl4 T4]. rewrite delete_insert_id in T4 by apply lookup_empty. split; [|exact T4].
        rewrite Hl4, E3, Hl2, Hl1. done.
Qed.
End Demo.

Lemma commit_is_crash_atomic_witness :
  exists s, wp (commit (BC := bio_cache 7 1)) (fun _ s' => exists ws,
    disk (cache s') = replay (disk (cache s)) ws /\
    wp (log_boot 7 1 2) (fun _ r => disk (cache r) 100 = disk (cache s) 100) (power_on (replay (disk (cache s)) (take 1 ws))) /\
    wp (log_boot 7 1 2) (fun _ r => disk (cache r) 100 = replicate (Z.to_nat BSIZE) 7)
       (power_on (replay (disk (cache s)) (take 3 ws)))) s.
Proof.
  destruct (proj1 (wp_ok _ _ _) (binit_ok 7 1 zero_disk ltac:(lia))) as ([] & c & _ & Hc).
  destruct (proj1 (wp_ok _ _ _) (demo_update_wp c Hc)) as ([] & s & _ & Hs & T). exists s.
  pose proof (bio_laws 7 1) as BL. destruct T as [L Ho (m & Hm & T)].
  pose proof (tm_clean _ _ _ _ _ T) as Hcl. pose proof (tm_view _ _ _ _ _ T) as Hv.
  eapply wp_mono; [apply (commit_is_crash_atomic 7 1 s m [100])|].
  - lia.
  - exact Hm.
  - exact L.
  - discriminate.
  - eapply (tx_ready (BC := bio_cache 7 1)); [exact Hm|exact T| |vm_compute; lia].
    intros b ->%list_elem_of_singleton. rewrite Hs. unfold in_log, LOGBLOCKS, MAXOPBLOCKS. cbn. lia.
  - rewrite Hs, (rep_disk _ _ _ _ Hm), <- Hcl, Hv; [|rewrite list_elem_of_singleton; lia|apply not_elem_of_nil].
    rewrite set_block_ne by lia. split_and!; [reflexivity|vm_compute; reflexivity|intros i b Hi; discriminate Hi].
  - cbn beta. rewrite Hs. intros [] s' (ws & _ & Hd & Hk). exists ws. split; [exact Hd|].
    assert (Hn : ~ in_log 2 100) by (unfold in_log, LOGBLOCKS, MAXOPBLOCKS; cbn; lia). split.
    + eapply wp_mono; [apply (Hk 1%nat)|]. cbn beta. intros [] r [_ H]. exact (H 100 Hn).
    + eapply wp_mono; [apply (Hk 3%nat)|]. cbn beta. intros [] r [_ H]. rewrite (H 100 Hn). cbn [length Nat.ltb Nat.leb].
      unfold after_txn. rewrite decide_True by apply list_elem_of_here. rewrite Hv. apply set_block_eq.
Defined.

(** ** Log space *)

Section Space.
Context {B : Type} `{BC : BufCache B}.
Implicit Types (s : lst (B := B)).

(** Calls that do not touch the in-memory log. *)
Definition keeps_log {A} (x : M (lst (B := B)) A) : Prop := forall s a s', x s = Ok (a, s') -> lg s' = lg s.

Lemma keeps_bc {A} (x : M B A) : keeps_log (bc x).
Proof. intros s a s' E. unfold bc, zoom in E. destruct (x (cache s)) as [[b c]| | |]; try done. by injection E as <- <-. Qed.
Lemma keeps_ret {A} (a : A) : keeps_log (ret a).
Proof. intros s b s' [= <- <-]. done. Qed.
Lemma keeps_gets {A} (f : lst (B := B) -> A) : keeps_log (gets f).
Proof. intros s b s' [= <- <-]. done. Qed.
Lemma keeps_bind {A C} (x : M (lst (B := B)) A) (k : A -> M (lst (B := B)) C) :
  keeps_log x -> (forall a, keeps_log (k a)) -> keeps_log (bind x k).
Proof. intros Hx Hk s a s' E. apply bind_ok in E as (b & s1 & E1 & E2). etrans; [by eapply Hk|by eapply Hx]. Qed.

Ltac keeps := repeat first [apply keeps_ret | apply keeps_bc | apply keeps_gets | apply keeps_bind; [|intros] | progress cbv zeta].

Lemma keeps_write_log : keeps_log write_log.
Proof.
  apply keeps_bind; [keeps|intros l]. generalize (S (Z.to_nat (ln (lh l)))) 0. intros f.
  induction f as [|f IH]; intros tail; cbn [write_log_loop]; [by intros ???|].
  keeps. destruct (_ <? _); keeps. apply IH.
Qed.
Lemma keeps_install rc : keeps_log (install_trans rc).
Proof.
  apply keeps_bind; [keeps|intros l]. generalize (S (Z.to_nat (ln (lh l)))) 0. intros f.
  induction f as [|f IH]; intros tail; cbn [install_loop]; [by intros ???|].
  keeps. destruct (_ <? _); keeps; [destruct (_ =? _); keeps|apply IH].
Qed.
Lemma keeps_write_head : keeps_log write_head.
Proof. unfold write_head. keeps. Qed.

(** Whatever the cache does, a commit that returns leaves an empty log. *)
Lemma commit_clears s s' : 0 <= ln (lh (lg s)) -> commit s = Ok (tt, s') ->
  ln (lh (lg s')) = 0 /\ outstanding (lg s') = outstanding (lg s) /\ committing (lg s') = committing (lg s) /\
  lwakes (lg s') = lwakes (lg s).
Proof.
  intros Hn E. unfold commit in E. apply bind_ok in E as (l & s0 & E0 & E). injection E0 as <- <-.
  destruct (Z.ltb_spec 0 (ln (lh (lg s)))) as [Hp|Hp].
  - apply bind_ok in E as ([] & s1 & E1 & E). apply keeps_write_log in E1.
    apply bind_ok in E as ([] & s2 & E2 & E). apply keeps_write_head in E2.
    apply bind_ok in E as ([] & s3 & E3 & E). apply keeps_install in E3.
    apply bind_ok in E as ([] & s4 & E4 & E). apply keeps_write_head in E.
    injection E4 as <-. cbn in E. rewrite E. cbn. split_and!; congruence.
  - injection E as <-. split_and!; lia || done.
Qed.

(** System calls in progress, each with the number of [log_write] calls it may
    still make. *)
Record osys : Type := Os { os_log : lst (B := B); os_ops : list nat }.

Inductive ostep : osys -> osys -> Prop :=
| os_begin s s' ops : begin_op s = Ok (tt, s') -> ostep (Os s ops) (Os s' (Z.to_nat MAXOPBLOCKS :: ops))
| os_write s s' b k ops ops' : log_write b s = Ok (tt, s') ->
    ostep (Os s (ops ++ S k :: ops')) (Os s' (ops ++ k :: ops'))
| os_end s s' k ops ops' : end_op s = Ok (tt, s') -> ostep (Os s (ops ++ k :: ops')) (Os s' (ops ++ ops')).

Fixpoint total (ops : list nat) : nat := match ops with [] => O | k :: ops' => (k + total ops')%nat end.

Record oinv (x : osys) : Prop := {
  oi_count : outstanding (lg (os_log x)) = Z.of_nat (length (os_ops x));
  oi_budget : Forall (fun k => Z.of_nat k <= MAXOPBLOCKS) (os_ops x);
  oi_n : 0 <= ln (lh (lg (os_log x)));
  oi_space : ln (lh (lg (os_log x))) + Z.of_nat (total (os_ops x)) <= LOGBLOCKS
}.

Lemma total_app l l' : total (l ++ l') = (total l + total l')%nat.
Proof. induction l as [|k l IH]; cbn [total app]; lia. Qed.
Lemma total_bound l : Forall (fun k => Z.of_nat k <= MAXOPBLOCKS) l -> Z.of_nat (total l) <= Z.of_nat (length l) * MAXOPBLOCKS.
Proof. induction 1 as [|k l Hk _ IH]; cbn [total length] in *; lia. Qed.

Lemma begin_op_ok s s' : begin_op s = Ok (tt, s') ->
  lg s' = set_outstanding (outstanding (lg s) + 1) (lg s) /\
  ln (lh (lg s)) + (outstanding (lg s) + 1) * MAXOPBLOCKS <= LOGBLOCKS.
Proof.
  unfold begin_op, bind, gets. destruct (c_true _); [done|]. destruct (Z.ltb_spec LOGBLOCKS (ln (lh (lg s)) + (outstanding (lg s) + 1) * MAXOPBLOCKS)); [done|].
  unfold set_log, modify. intros [= <-]. done.
Qed.

Lemma log_write_ok b s s' : log_write b s = Ok (tt, s') ->
  outstanding (lg s') = outstanding (lg s) /\ ln (lh (lg s)) <= ln (lh (lg s')) <= ln (lh (lg s)) + 1.
Proof.
  intros E. unfold log_write in E. apply bind_ok in E as (l & s0 & E0 & E). injection E0 as <- <-.
  destruct (_ <=? _); [done|]. destruct (_ <? _); [done|]. apply bind_ok in E as (n & s1 & E1 & E). apply keeps_bc in E1.
  destruct (_ =? _).
  - apply bind_ok in E as ([] & s2 & E2 & E). apply keeps_bc in E2. injection E as <-. cbn. rewrite E2, E1. split; [done|lia].
  - injection E as <-. cbn. rewrite E1. split; [done|lia].
Qed.

(** Every [end_op] that returns has woken the callers of [begin_op] that wait. *)
Lemma end_op_ok s s' : 0 <= ln (lh (lg s)) -> end_op s = Ok (tt, s') ->
  outstanding (lg s') = outstanding (lg s) - 1 /\
  (ln (lh (lg s')) = ln (lh (lg s)) \/ ln (lh (lg s')) = 0) /\
  lwakes (lg s') = S (lwakes (lg s)).
Proof.
  intros Hn E. unfold end_op in E. apply bind_ok in E as (d & s1 & E1 & E).
  unfold end_op_enter in E1. apply bind_ok in E1 as ([] & s0 & E0 & E1). injection E0 as <-.
  apply bind_ok in E1 as (l & s2 & E2 & E1). injection E2 as <- <-. cbn in E1.
  destruct (c_true _); [done|]. destruct (_ =? 0); cbn in E1; injection E1 as <- <-; cbn in E.
  - apply bind_ok in E as ([] & s3 & E3 & E). apply commit_clears in E3 as (H1 & H2 & _ & H3); [|done].
    injection E as <-. cbn in *. rewrite H1, H2, H3. split_and!; [done|by right|done].
  - injection E as <-. cbn. split_and!; [done|by left|done].
Qed.

Lemma oinv_step x y : oinv x -> ostep x y -> oinv y.
Proof.
  intros [H1 H2 H3 H4] St. destruct St as [s s' ops E|s s' b k ops ops' E|s s' k ops ops' E]; cbn in *.
  - apply begin_op_ok in E as [El Eb]. pose proof (total_bound _ H2).
    split; cbn [os_log os_ops]; rewrite ?El; cbn [outstanding set_outstanding lh ln length]; [lia| |done|].
    + constructor; [|done]. unfold MAXOPBLOCKS. lia.
    + change (total (Z.to_nat MAXOPBLOCKS :: ops)) with (Z.to_nat MAXOPBLOCKS + total ops)%nat.
      unfold MAXOPBLOCKS, LOGBLOCKS in *. lia.
  - apply log_write_ok in E as [Eo En]. rewrite length_app in H1. rewrite total_app in H4. cbn in H1, H4.
    split; cbn [os_log os_ops]; [rewrite Eo, length_app; cbn; lia| |lia|].
    + apply Forall_app in H2 as [H2 H2']. apply Forall_cons in H2' as [Hk H2']. apply Forall_app. split; [done|]. constructor; [lia|done].
    + rewrite total_app. change (total (k :: ops')) with (k + total ops')%nat. cbn in *. lia.
  - apply end_op_ok in E as (Eo & En & _); [|done]. rewrite length_app in H1. rewrite total_app in H4. cbn in H1, H4.
    split; cbn [os_log os_ops]; [rewrite Eo, length_app; lia| |lia|].
    + apply Forall_app in H2 as [H2 H2']. apply Forall_cons in H2' as [Hk H2']. by apply Forall_app.
    + rewrite total_app. change (total (k :: ops')) with (k + total ops')%nat in H4. cbn in *. lia.
Qed.

(** C17: [begin_op]'s reservation is sufficient.  However system calls overlap,
    as long as each makes at most [MAXOPBLOCKS] calls of [log_write], no such call
    finds the log full or finds itself outside a transaction: neither panic of
    [log_write] is reachable. *)
Theorem log_space_is_reserved s0 x k :
  ln (lh (lg s0)) = 0 -> outstanding (lg s0) = 0 -> rtc ostep (Os s0 []) x -> S k ∈ os_ops x ->
  ln (lh (lg (os_log x))) < LOGBLOCKS /\ 1 <= outstanding (lg (os_log x)).
Proof.
  intros Hn Ho Hr Hk. assert (I : oinv x).
  { eapply (rtc_inv _ oinv); [exact oinv_step| |exact Hr]. split; cbn; try lia; [constructor|].
    rewrite Hn. unfold LOGBLOCKS, MAXOPBLOCKS. lia. }
  destruct I as [H1 H2 H3 H4]. apply list_elem_of_split in Hk as (l1 & l2 & E).
  rewrite E in *. rewrite length_app in H1. rewrite total_app in H4. cbn in H1, H4. split; lia.
Qed.
End Space.

Lemma log_space_is_reserved_witness :
  exists x : osys (B := bst), rtc (ostep (BC := bio_cache 7 1)) (Os (power_on zero_disk) []) x /\
    ln (lh (lg (os_log x))) < LOGBLOCKS /\ 1 <= outstanding (lg (os_log x)).
Proof.
  exists (Os (Lst (set_outstanding 1 bss_log) (bio_boot zero_disk)) [10%nat]).
  assert (Hr : rtc (ostep (BC := bio_cache 7 1)) (Os (power_on zero_disk) [])
                 (Os (Lst (set_outstanding 1 bss_log) (bio_boot zero_disk)) [10%nat])).
  { apply rtc_once. exact (os_begin (BC := bio_cache 7 1) (power_on zero_disk) (Lst (set_outstanding 1 bss_log) (bio_boot zero_disk)) [] eq_refl). }
  split; [exact Hr|].
  apply (log_space_is_reserved (BC := bio_cache 7 1) (power_on zero_disk) _ 9); [reflexivity|reflexivity|exact Hr|apply list_elem_of_here].
Defined.

(** ** Transactions that fill the log *)

Section Full.
Context (me dev : Z).
#[local] Instance full_cache : BufCache bst := bio_cache me dev.
#[local] Instance full_laws : BufCacheLaws bst := bio_laws me dev.
Implicit Types (s : lst (B := bst)) (ws : list (Z * block)).

(** Read block [w.1], give it the content [w.2], record it, let go. *)
Definition touch (w : Z * block) : M (lst (B := bst)) unit :=
  let! b := bc (bc_bread w.1) in
  bc (bc_store b w.2) ;;
  log_write b ;;
  bc (bc_brelse b).
Fixpoint touch_all (ws : list (Z * block)) : M (lst (B := bst)) unit :=
  match ws with [] => ret tt | w :: ws' => touch w ;; touch_all ws' end.
(** Three system calls overlap, which is what [begin_op] admits; all but the last
    have ended. *)
Definition fill_log ws : M (lst (B := bst)) unit :=
  begin_op ;; begin_op ;; begin_op ;;
  touch_all ws ;;
  end_op ;; end_op.

Lemma held_none n : n ∉ held_blocks ∅.
Proof. unfold held_blocks. rewrite map_to_list_empty. apply not_elem_of_nil. Qed.
Lemma touch_wp s bl v w :
  tx s bl v ∅ [] -> Z.of_nat (length bl) < LOGBLOCKS -> 0 <= w.1 < 2 ^ 31 -> ~ in_log (start (lg s)) w.1 -> w.1 ∉ bl ->
  wp (touch w) (fun _ s' => lg_same (lg s) (lg s') /\ exists v', tx s' (bl ++ [w.1]) v' ∅ []) s.
Proof.
  intros T Hl Hn Hlog Hnb. unfold touch. rewrite wp_bind.
  eapply wp_mono; [apply (tx_bread _ _ _ _ _ w.1 T); [unfold is_u32; lia|apply held_none|]|].
  { rewrite map_size_empty. change nbuf with (Z.to_nat LOGBLOCKS). lia. }
  cbn beta. intros i s1 (E1 & _ & T1). assert (Hi : forall H : gmap nat Z, <[i := w.1]> H !! i = Some w.1) by (intros; apply lookup_insert_eq).
  rewrite wp_bind. eapply wp_mono; [apply (tx_store _ _ _ _ _ _ w.1 w.2 T1 (Hi _))|]. cbn beta. intros [] s2 [E2 T2].
  rewrite wp_bind. eapply wp_mono; [apply (tx_log_write _ _ _ _ _ _ w.1 T2 (Hi _)); [done|done|by rewrite E2, E1]|]. cbn beta.
  intros [] s3 [E3 T3]. unfold txn_add in T3. rewrite decide_False in T3 by done.
  eapply wp_mono; [apply (tx_brelse _ _ _ _ _ _ w.1 T3 (Hi _)); right; apply not_elem_of_nil|]. cbn beta. intros [] s4 [E4 T4].
  rewrite delete_insert_id in T4 by done. rewrite E4. rewrite E2, E1 in E3. split; [done|by eexists].
Qed.
Lemma touch_all_wp ws : forall s bl v,
  tx s bl v ∅ [] -> NoDup (bl ++ ws.*1) -> Z.of_nat (length (bl ++ ws.*1)) <= LOGBLOCKS ->
  (forall w, w ∈ ws -> 0 <= w.1 < 2 ^ 31 /\ ~ in_log (start (lg s)) w.1) ->
  wp (touch_all ws) (fun _ s' => lg_same (lg s) (lg s') /\ exists v', tx s' (bl ++ ws.*1) v' ∅ []) s.
Proof.
  induction ws as [|w ws IH]; intros s bl v T Hnd Hlen Hws; cbn [touch_all fmap list_fmap] in *.
  - apply wp_ret. rewrite app_nil_r. split; [done|by eexists].
  - destruct (Hws w) as [Hn Hlog]; [by left|]. rewrite length_app in Hlen. cbn [length] in Hlen.
    apply NoDup_app in Hnd as Hnd'. destruct Hnd' as (_ & Hd & _).
    rewrite wp_bind. eapply wp_mono; [apply (touch_wp _ _ _ _ T); [lia|done|done|]|].
    { intros Hin. apply (Hd _ Hin). by left. }
    cbn beta. intros [] s1 (S1 & v1 & T1). rewrite (app_assoc bl [w.1] ws.*1 : bl ++ w.1 :: ws.*1 = _) in *.
    eapply wp_mono; [apply (IH _ _ _ T1); [done| |]|].
    + rewrite !length_app. cbn [length]. lia.
    + intros w' Hw'. destruct S1 as [-> _]. apply Hws. by right.
    + cbn beta. intros _ s' [S2 T2]. split; [|done]. destruct S1 as (? & ? & ?), S2 as (? & ? & ?). split_and!; congruence.
Qed.

(** [end_op] of one of several calls. *)
Lemma end_op_not_last s bl v k :
  tx s bl v ∅ [] -> outstanding (lg s) = k + 1 -> 1 <= k -> committing (lg s) = 0 ->
  wp end_op (fun _ s' => tx s' bl v ∅ [] /\ outstanding (lg s') = k /\ committing (lg s') = 0 /\ start (lg s') = start (lg s)) s.
Proof.
  intros [L _ C] Ho Hk Hc. unfold end_op, end_op_enter, set_log, wakeup_log. wp_steps. cbn [lg committing set_outstanding].
  rewrite Hc. change (c_true 0) with false. cbv iota. cbn [outstanding set_outstanding]. rewrite Ho.
  destruct (Z.eqb_spec (k + 1 - 1) 0) as [?|_]; [lia|]. unfold set_log. wp_steps. cbn. split_and!; try done; [|lia].
  split; cbn; [|lia|done]. destruct L as [? ? ? ? ? ? ?]. by split.
Qed.
(** A log that holds [LOGBLOCKS] blocks pins every buffer. *)
Lemma full_log_refs s bl v : tx s bl v ∅ [] -> Z.of_nat (length bl) = LOGBLOCKS ->
  exists m, bc_rep me dev (cache s) m /\ (nbuf <= size (cm_refs m))%nat /\ cm_refs m !! (start (lg s) + 1) = None.
Proof.
  intros [L _ (m & Hm & T)] Hlen. exists m. split; [done|].
  assert (Hr : forall b, b ∈ bl <-> is_Some (cm_refs m !! b)).
  { intros b. pose proof (tm_refs _ _ _ _ _ T b) as E. unfold tx_count in E.
    rewrite (decide_False (P := b ∈ held_blocks ∅)) in E by apply held_none. unfold ref_of, rcount in E.
    pose proof (bc_refs_pos _ _ b Hm) as Hp. destruct (cm_refs m !! b) as [k|]; cbn in E.
    - split; [by eexists|]. intros _. destruct (decide (b ∈ bl)); [done|]. subst k. by destruct Hp.
    - split; [|by intros [? ?]]. intros Hb. rewrite decide_True in E by done. done. }
  split.
  - assert (Hsub : list_to_set (C := gset Z) bl ⊆ dom (cm_refs m)).
    { intros b Hb. rewrite elem_of_list_to_set in Hb. by apply elem_of_dom, Hr. }
    apply subseteq_size in Hsub. rewrite size_list_to_set, size_dom in Hsub by apply L. change nbuf with (Z.to_nat LOGBLOCKS). lia.
  - destruct (cm_refs m !! (start (lg s) + 1)) eqn:E; [|done]. exfalso.
    destruct (li_home _ _ L (start (lg s) + 1)) as [_ Hh]; [apply Hr; by eexists|].
    apply Hh. unfold in_log, LOGBLOCKS, MAXOPBLOCKS. lia.
Qed.
Lemma full_end_op_panics s bl v : tx s bl v ∅ [] -> Z.of_nat (length bl) = LOGBLOCKS ->
  outstanding (lg s) = 1 -> committing (lg s) = 0 -> end_op s = Panic "bget: no buffers".
Proof.
  intros T Hlen Ho Hc. destruct (full_log_refs s bl v T Hlen) as (m & R & Hsz & Hn). destruct T as [L _ _].
  unfold end_op. apply bind_panic. unfold end_op_enter, set_log. wp_steps. cbn [lg committing set_outstanding].
  rewrite Hc. change (c_true 0) with false. cbv iota. cbn [outstanding set_outstanding]. rewrite Ho. change (1 - 1 =? 0) with true. cbv iota. wp_steps.
  unfold commit, write_log. set (s1 := Lst _ _). unfold bind at 1. unfold bind at 1. cbn [gets].
  assert (El : ln (lh (lg s1)) = LOGBLOCKS) by (cbn; rewrite (li_n _ _ L); lia).
  rewrite El. change (0 <? LOGBLOCKS) with true. cbv iota. unfold bind at 1. unfold bind at 1. cbn [gets]. rewrite El.
  cbn [write_log_loop]. unfold bind at 1. cbn [gets]. rewrite El. change (0 <? LOGBLOCKS) with true. cbv iota.
  unfold bind at 1. unfold bc at 1, zoom. cbn [bc_bread full_cache bio_cache].
  rewrite u32_id by (destruct (li_start _ _ L); unfold is_u32, LOGBLOCKS, MAXOPBLOCKS in *; cbn; lia).
  cbn [cache s1 lg start set_committing set_outstanding]. rewrite Z.add_0_r. by rewrite (bread_full me dev _ m).
Qed.
Lemma begin_op_admits s : committing (lg s) = 0 -> ln (lh (lg s)) + (outstanding (lg s) + 1) * MAXOPBLOCKS <= LOGBLOCKS ->
  wp begin_op (fun _ s' => s' = Lst (set_outstanding (outstanding (lg s) + 1) (lg s)) (cache s)) s.
Proof.
  intros Hc Hn. unfold begin_op, set_log. wp_steps. rewrite Hc. change (c_true 0) with false. cbv iota.
  rewrite (proj2 (Z.ltb_ge _ _)) by done. by wp_steps.
Qed.

(** C37: the buffer cache has [NBUF] = [LOGBLOCKS] buffers.  Between transactions
    [begin_op] admits three system calls.  Whatever [LOGBLOCKS] different blocks
    outside the log area they change, each by reading it, storing any content,
    [log_write] and [brelse], every call of these succeeds, and so do the first two
    [end_op]s; but the log then pins every buffer, and the third [end_op] stops the
    kernel: [write_log]'s [bread] of the log block finds no buffer. *)
Theorem full_log_commit_panics s m v ws :
  log_is (lg s) [] -> outstanding (lg s) = 0 -> committing (lg s) = 0 -> bc_rep me dev (cache s) m -> tx_model [] v ∅ [] m ->
  NoDup ws.*1 -> Z.of_nat (length ws) = LOGBLOCKS ->
  (forall w, w ∈ ws -> 0 <= w.1 < 2 ^ 31 /\ ~ in_log (start (lg s)) w.1) ->
  wp (fill_log ws) (fun _ s' => ln (lh (lg s')) = LOGBLOCKS /\ outstanding (lg s') = 1 /\
    end_op s' = Panic "bget: no buffers") s.
Proof.
  intros L Ho Hc R T Hnd Hlen Hws. pose proof (li_n _ _ L) as Hn. cbn in Hn. unfold fill_log.
  do 3 (rewrite wp_bind; eapply wp_mono; [apply begin_op_admits; cbn; unfold LOGBLOCKS, MAXOPBLOCKS; (done || lia)|];
    cbn beta; intros _ ? ->; cbn [lg cache set_outstanding outstanding committing lh start lwakes]).
  rewrite Ho. rewrite wp_bind.
  eapply wp_mono; [apply (touch_all_wp ws _ [] v); cbn [app]; [|done|rewrite length_fmap; lia|exact Hws]|].
  { split; cbn; [|lia|by exists m]. destruct L. by split. }
  cbn beta. cbn [app]. intros [] s1 ((E1 & E2 & E3) & v1 & T1). cbn in E1, E2, E3.
  rewrite wp_bind. eapply wp_mono; [apply (end_op_not_last _ _ _ 2 T1); (lia || congruence)|]. cbn beta.
  intros [] s2 (T2 & O2 & C2 & _). eapply wp_mono; [apply (end_op_not_last _ _ _ 1 T2); (lia || done)|]. cbn beta.
  intros [] s3 (T3 & O3 & C3 & _). assert (Hl : Z.of_nat (length ws.*1) = LOGBLOCKS) by (by rewrite length_fmap).
  split_and!; [|done|by apply (full_end_op_panics s3 _ _ T3)]. destruct T3 as [L3 _ _]. by rewrite (li_n _ _ L3).
Qed.
End Full.

(** The booted kernel; the three calls write blocks 100 to 129. *)
Lemma full_log_commit_panics_witness :
  wp (bc binit ;; fill_log 7 1 ((fun k => (100 + Z.of_nat k, [])) <$> seq 0 (Z.to_nat LOGBLOCKS)))
     (fun _ s' => ln (lh (lg s')) = LOGBLOCKS /\ outstanding (lg s') = 1 /\
        end_op (BC := bio_cache 7 1) s' = Panic "bget: no buffers")
     (Lst (set_outstanding 0 demo_log) (bio_boot zero_disk)).
Proof.
  rewrite wp_bind, bc_wp. eapply wp_mono; [apply (binit_ok 7 1 zero_disk); discriminate|]. cbn beta. intros [] c Hc.
  apply (full_log_commit_panics 7 1 (Lst (set_outstanding 0 demo_log) c) (fresh_cache zero_disk) zero_disk).
  - destruct demo_log_is. split; assumption.
  - reflexivity.
  - reflexivity.
  - exact Hc.
  - by split.
  - apply (bool_decide_unpack _). vm_compute. exact I.
  - reflexivity.
  - intros w Hw. apply list_elem_of_fmap in Hw as (k & -> & Hk). apply elem_of_seq in Hk. unfold in_log, LOGBLOCKS, MAXOPBLOCKS in *. cbn in *. lia.
Defined.
