(* ===== verification/Fs.v ===== *)
(** * The file system: kernel/fs.c

    Blocks (bitmap allocator), inodes (table, disk copies, block map, contents),
    directories and path names, over the log ([Log]) and user memory ([UserMem]).
    Blocks are byte lists and their structures are read at the offsets the C
    layout gives them: a [struct dinode] has 64 bytes, a [struct dirent] 16.
    Inode pointers are indices into [itable].  A transfer to or from a kernel
    buffer (a local [struct dirent], an ELF header) returns or takes the bytes
    themselves.  Console messages are not part of the state. *)
From S2P Require Import Prelude Machine Spinlock Bytes Bio Log UserMem.
Import SleepLock.

(** ** kernel/fs.h, kernel/stat.h *)
Definition ROOTINO : Z := 1.
Definition FSMAGIC : Z := 270544960.
Definition NDIRECT : Z := 12.
Definition NINDIRECT : Z := BSIZE / 4.
Definition MAXFILE : Z := NDIRECT + NINDIRECT.
Definition DINODE : Z := 64. (* sizeof(struct dinode) *)
Definition IPB : Z := BSIZE / DINODE.
Definition BPB : Z := BSIZE * 8.
Definition DIRSIZ : Z := 14.
Definition DIRENT : Z := 16. (* sizeof(struct dirent) *)
Definition T_DIR : Z := 1.
Definition T_FILE : Z := 2.
Definition T_DEVICE : Z := 3.

Record superblock : Type := Sb {
  magic : Z; sb_size : Z; nblocks : Z; ninodes : Z; nlog : Z; logstart : Z; inodestart : Z; bmapstart : Z
}.
Definition IBLOCK (i : Z) (sb : superblock) : Z := u32 (i / IPB + inodestart sb).
Definition BBLOCK (b : Z) (sb : superblock) : Z := u32 (b / BPB + bmapstart sb).

(** [struct inode] of kernel/file.h. *)
Record inode : Type := Inode {
  idev : Z; inum : Z; iref : Z; ilk : sleeplock; ivalid : Z;
  itype : Z; imajor : Z; iminor : Z; nlink : Z; isize : Z; addrs : list Z
}.

Definition set_ref (r : Z) (x : inode) : inode :=
  Inode (idev x) (inum x) r (ilk x) (ivalid x) (itype x) (imajor x) (iminor x) (nlink x) (isize x) (addrs x).
Definition set_ilk (k : sleeplock) (x : inode) : inode :=
  Inode (idev x) (inum x) (iref x) k (ivalid x) (itype x) (imajor x) (iminor x) (nlink x) (isize x) (addrs x).
Definition set_ivalid (v : Z) (x : inode) : inode :=
  Inode (idev x) (inum x) (iref x) (ilk x) v (itype x) (imajor x) (iminor x) (nlink x) (isize x) (addrs x).
Definition set_itype (t : Z) (x : inode) : inode :=
  Inode (idev x) (inum x) (iref x) (ilk x) (ivalid x) t (imajor x) (iminor x) (nlink x) (isize x) (addrs x).
Definition set_devno (a b : Z) (x : inode) : inode :=
  Inode (idev x) (inum x) (iref x) (ilk x) (ivalid x) (itype x) a b (nlink x) (isize x) (addrs x).
Definition set_nlink (n : Z) (x : inode) : inode :=
  Inode (idev x) (inum x) (iref x) (ilk x) (ivalid x) (itype x) (imajor x) (iminor x) n (isize x) (addrs x).
Definition set_isize (n : Z) (x : inode) : inode :=
  Inode (idev x) (inum x) (iref x) (ilk x) (ivalid x) (itype x) (imajor x) (iminor x) (nlink x) n (addrs x).
Definition set_addr (i : Z) (a : Z) (x : inode) : inode :=
  Inode (idev x) (inum x) (iref x) (ilk x) (ivalid x) (itype x) (imajor x) (iminor x) (nlink x) (isize x)
        (<[Z.to_nat i := a]> (addrs x)).

(** [struct dinode] at byte [off] of a block. *)
Definition di_type (d : block) (off : nat) : Z := i16 (get_le 2 d off).
Definition di_nlink (d : block) (off : nat) : Z := i16 (get_le 2 d (off + 6)).
Definition di_addr (d : block) (off : nat) (i : nat) : Z := get_le 4 d (off + 12 + 4 * i).
Definition dinode_of (d : block) (off : nat) (x : inode) : inode :=
  Inode (idev x) (inum x) (iref x) (ilk x) (ivalid x) (di_type d off) (i16 (get_le 2 d (off + 2)))
        (i16 (get_le 2 d (off + 4))) (di_nlink d off) (get_le 4 d (off + 8)) (map (di_addr d off) (seq 0 13)).
Fixpoint put_words (d : block) (off : nat) (l : list Z) : block :=
  match l with [] => d | a :: l' => put_words (put_le 4 d off a) (off + 4) l' end.
Definition put_dinode (x : inode) (d : block) (off : nat) : block :=
  let d := put_le 2 d off (u16 (itype x)) in
  let d := put_le 2 d (off + 2) (u16 (imajor x)) in
  let d := put_le 2 d (off + 4) (u16 (iminor x)) in
  let d := put_le 2 d (off + 6) (u16 (nlink x)) in
  let d := put_le 4 d (off + 8) (isize x) in
  put_words d (off + 12) (addrs x).
Definition dip_off (i : Z) : nat := Z.to_nat (DINODE * (i mod IPB)).

Section Fs.
Context {B : Type} `{BC : BufCache B} {U : Type} `{UM : UserMem U}.
Context (me : Z).

Record fs : Type := Fs { fl : lst (B := B); fsb : superblock; itable : nat -> inode; fu : U }.

Definition ls {A} (m : M (lst (B := B)) A) : M fs A := zoom fl (fun l s => Fs l (fsb s) (itable s) (fu s)) m.
Definition usr {A} (m : M U A) : M fs A := zoom fu (fun u s => Fs (fl s) (fsb s) (itable s) u) m.
Definition iat (i : nat) : M fs inode := gets (fun s => itable s i).
Definition iupd (i : nat) (f : inode -> inode) : M fs unit :=
  modify (fun s => Fs (fl s) (fsb s) (fun j => if decide (j = i) then f (itable s j) else itable s j) (fu s)).

(** [bread], [brelse] and the buffer's data; one device. *)
Definition bread_ (n : Z) : M fs nat := ls (bc (bc_bread n)).
Definition brelse_ (b : nat) : M fs unit := ls (bc (bc_brelse b)).
Definition data_ (b : nat) : M fs block := ls (bc (bc_data b)).
Definition store_ (b : nat) (d : block) : M fs unit := ls (bc (bc_store b d)).
Definition log_write_ (b : nat) : M fs unit := ls (log_write b).

(** ** Superblock and blocks *)

Definition readsb : M fs unit :=
  let! bp := bread_ 1 in
  let! d := data_ bp in
  let w i := get_le 4 d (4 * i) in
  modify (fun s => Fs (fl s) (Sb (w 0%nat) (w 1%nat) (w 2%nat) (w 3%nat) (w 4%nat) (w 5%nat) (w 6%nat) (w 7%nat))
                      (itable s) (fu s)) ;;
  brelse_ bp.

Definition bzero (bno : Z) : M fs unit :=
  let! bp := bread_ bno in
  store_ bp (replicate (Z.to_nat BSIZE) 0) ;;
  log_write_ bp ;;
  brelse_ bp.

(** Bit [bi] of a bitmap block. *)
Definition bit_mask (bi : Z) : Z := Z.shiftl 1 (bi mod 8).
Definition bit_byte (d : block) (bi : Z) : Z := nth (Z.to_nat (bi / 8)) d 0.
Definition bit_free (d : block) (bi : Z) : bool := Z.land (bit_byte d bi) (bit_mask bi) =? 0.
Definition set_bit (d : block) (bi : Z) : block :=
  <[Z.to_nat (bi / 8) := u8 (Z.lor (bit_byte d bi) (bit_mask bi))]> d.
Definition clear_bit (d : block) (bi : Z) : block :=
  <[Z.to_nat (bi / 8) := u8 (Z.land (bit_byte d bi) (Z.lnot (bit_mask bi)))]> d.

(** The inner loop of [balloc]: the first free bit from [bi] on. *)
Fixpoint balloc_scan (fuel : nat) (d : block) (b bi size : Z) : option Z :=
  match fuel with
  | O => None
  | S f =>
      if (bi <? BPB) && (b + bi <? size) then
        if bit_free d bi then Some bi else balloc_scan f d b (bi + 1) size
      else None
  end.
Fixpoint balloc_loop (fuel : nat) (b : Z) : M fs Z :=
  match fuel with
  | O => out_of_fuel
  | S f =>
      let! sb := gets fsb in
      if b <? sb_size sb then
        let! bp := bread_ (BBLOCK b sb) in
        let! d := data_ bp in
        match balloc_scan (S (Z.to_nat BPB)) d b 0 (sb_size sb) with
        | Some bi =>
            store_ bp (set_bit d bi) ;;
            log_write_ bp ;;
            brelse_ bp ;;
            bzero (b + bi) ;;
            ret (b + bi)
        | None => brelse_ bp ;; balloc_loop f (b + BPB)
        end
      else ret 0
  end.
Definition balloc : M fs Z :=
  let! sb := gets fsb in
  balloc_loop (S (Z.to_nat (sb_size sb))) 0.

Definition bfree (b : Z) : M fs unit :=
  let! sb := gets fsb in
  let! bp := bread_ (BBLOCK b sb) in
  let bi := b mod BPB in
  let! d := data_ bp in
  if bit_free d bi then panic "freeing free block"
  else
    store_ bp (clear_bit d bi) ;;
    log_write_ bp ;;
    brelse_ bp.

(** ** Inodes *)

Definition inode_holding (i : nat) : M fs bool :=
  holdingsleep (fun s => ilk (itable s i)) me.
Definition set_lk (i : nat) (k : sleeplock) (s : fs) : fs :=
  Fs (fl s) (fsb s) (fun j => if decide (j = i) then set_ilk k (itable s j) else itable s j) (fu s).
Definition inode_acquire (i : nat) : M fs unit :=
  let! _ := acquiresleep (fun s => ilk (itable s i)) (set_lk i) (fun _ => sleep_on 0) me Test in
  ret tt.
Definition inode_release (i : nat) : M fs unit :=
  releasesleep (set_lk i) wake_all.

Fixpoint iinit_loop (i : nat) (n : nat) : M fs unit :=
  match n with O => ret tt | S n' => iupd i (set_ilk initsleeplock) ;; iinit_loop (S i) n' end.
Definition iinit : M fs unit := iinit_loop 0 (Z.to_nat NINODE).

(** The scan of the table: the entry found, or the first empty slot. *)
Fixpoint iget_scan (n : nat) (dev inm : Z) (i : nat) (empty : option nat) : M fs (option nat * option nat) :=
  match n with
  | O => ret (None, empty)
  | S n' =>
      let! x := iat i in
      if (0 <? iref x) && (idev x =? dev) && (inum x =? inm) then ret (Some i, empty)
      else iget_scan n' dev inm (S i)
             (match empty with None => if iref x =? 0 then Some i else None | _ => empty end)
  end.
Definition iget (dev inm : Z) : M fs nat :=
  let! r := iget_scan (Z.to_nat NINODE) dev inm 0 None in
  match r with
  | (Some i, _) => iupd i (fun x => set_ref (iref x + 1) x) ;; ret i
  | (None, None) => panic "iget: no inodes"
  | (None, Some i) =>
      iupd i (fun x => Inode dev inm 1 (ilk x) 0 (itype x) (imajor x) (iminor x) (nlink x) (isize x) (addrs x)) ;;
      ret i
  end.

Definition idup (i : nat) : M fs nat := iupd i (fun x => set_ref (iref x + 1) x) ;; ret i.

Fixpoint ialloc_loop (fuel : nat) (dev type inm : Z) : M fs (option nat) :=
  match fuel with
  | O => out_of_fuel
  | S f =>
      let! sb := gets fsb in
      if inm <? ninodes sb then
        let! bp := bread_ (IBLOCK inm sb) in
        let! d := data_ bp in
        if di_type d (dip_off inm) =? 0 then
          store_ bp (put_le 2 (splice (dip_off inm) (replicate (Z.to_nat DINODE) 0) d) (dip_off inm) (u16 type)) ;;
          log_write_ bp ;;
          brelse_ bp ;;
          let! i := iget dev inm in ret (Some i)
        else brelse_ bp ;; ialloc_loop f dev type (inm + 1)
      else ret None
  end.
Definition ialloc (dev type : Z) : M fs (option nat) :=
  let! sb := gets fsb in
  ialloc_loop (S (Z.to_nat (ninodes sb))) dev type 1.

Definition iupdate (i : nat) : M fs unit :=
  let! x := iat i in
  let! sb := gets fsb in
  let! bp := bread_ (IBLOCK (inum x) sb) in
  let! d := data_ bp in
  store_ bp (put_dinode x d (dip_off (inum x))) ;;
  log_write_ bp ;;
  brelse_ bp.

Definition ilock (ip : option nat) : M fs unit :=
  match ip with
  | None => panic "ilock"
  | Some i =>
      let! x := iat i in
      if iref x <? 1 then panic "ilock"
      else
        inode_acquire i ;;
        let! x := iat i in
        if ivalid x =? 0 then
          let! sb := gets fsb in
          let! bp := bread_ (IBLOCK (inum x) sb) in
          let! d := data_ bp in
          iupd i (dinode_of d (dip_off (inum x))) ;;
          brelse_ bp ;;
          iupd i (set_ivalid 1) ;;
          let! x := iat i in
          if itype x =? 0 then panic "ilock: no type" else ret tt
        else ret tt
  end.

Definition iunlock (ip : option nat) : M fs unit :=
  match ip with
  | None => panic "iunlock"
  | Some i =>
      let! h := inode_holding i in
      let! x := iat i in
      if negb h || (iref x <? 1) then panic "iunlock" else inode_release i
  end.

(** ** Contents *)

Definition addr_at (x : inode) (i : Z) : Z := nth (Z.to_nat i) (addrs x) 0.

Definition bmap (i : nat) (bn : Z) : M fs Z :=
  let! x := iat i in
  if bn <? NDIRECT then
    if addr_at x bn =? 0 then
      let! a := balloc in
      if a =? 0 then ret 0 else iupd i (set_addr bn a) ;; ret a
    else ret (addr_at x bn)
  else
    let bn := bn - NDIRECT in
    if bn <? NINDIRECT then
      let! a := (if addr_at x NDIRECT =? 0 then
                   let! a := balloc in
                   if a =? 0 then ret 0 else iupd i (set_addr NDIRECT a) ;; ret a
                 else ret (addr_at x NDIRECT)) in
      if a =? 0 then ret 0
      else
        let! bp := bread_ a in
        let! d := data_ bp in
        let w := get_le 4 d (Z.to_nat (4 * bn)) in
        let! r := (if w =? 0 then
                     let! a := balloc in
                     if a =? 0 then ret 0
                     else
                       let! d := data_ bp in
                       store_ bp (put_le 4 d (Z.to_nat (4 * bn)) a) ;;
                       log_write_ bp ;;
                       ret a
                   else ret w) in
        brelse_ bp ;;
        ret r
    else panic "bmap: out of range".

Fixpoint itrunc_direct (n : nat) (i : nat) (k : Z) : M fs unit :=
  match n with
  | O => ret tt
  | S n' =>
      let! x := iat i in
      (if addr_at x k =? 0 then ret tt else bfree (addr_at x k) ;; iupd i (set_addr k 0)) ;;
      itrunc_direct n' i (k + 1)
  end.
Fixpoint itrunc_indirect (n : nat) (bp : nat) (j : Z) : M fs unit :=
  match n with
  | O => ret tt
  | S n' =>
      let! d := data_ bp in
      let a := get_le 4 d (Z.to_nat (4 * j)) in
      (if a =? 0 then ret tt else bfree a) ;;
      itrunc_indirect n' bp (j + 1)
  end.
Definition itrunc (i : nat) : M fs unit :=
  itrunc_direct (Z.to_nat NDIRECT) i 0 ;;
  let! x := iat i in
  (if addr_at x NDIRECT =? 0 then ret tt
   else
     let! bp := bread_ (addr_at x NDIRECT) in
     itrunc_indirect (Z.to_nat NINDIRECT) bp 0 ;;
     brelse_ bp ;;
     bfree (addr_at x NDIRECT) ;;
     iupd i (set_addr NDIRECT 0)) ;;
  iupd i (set_isize 0) ;;
  iupdate i.

Definition iput (i : nat) : M fs unit :=
  let! x := iat i in
  (if (iref x =? 1) && c_true (ivalid x) && (nlink x =? 0) then
     inode_acquire i ;;
     itrunc i ;;
     iupd i (set_itype 0) ;;
     iupdate i ;;
     iupd i (set_ivalid 0) ;;
     inode_release i
   else ret tt) ;;
  iupd i (fun x => set_ref (iref x - 1) x).

Definition iunlockput (i : nat) : M fs unit := iunlock (Some i) ;; iput i.

(** [struct stat]: dev, ino, type, nlink, size. *)
Definition stati (i : nat) : M fs (Z * Z * Z * Z * Z) :=
  let! x := iat i in ret (idev x, inum x, itype x, nlink x, isize x).

Fixpoint ireclaim_loop (fuel : nat) (dev inm : Z) : M fs unit :=
  match fuel with
  | O => out_of_fuel
  | S f =>
      let! sb := gets fsb in
      if inm <? ninodes sb then
        let! bp := bread_ (IBLOCK inm sb) in
        let! d := data_ bp in
        let! ip := (if negb (di_type d (dip_off inm) =? 0) && (di_nlink d (dip_off inm) =? 0)
                    then let! i := iget dev inm in ret (Some i) else ret None) in
        brelse_ bp ;;
        match ip with
        | Some i =>
            ls begin_op ;;
            ilock (Some i) ;;
            iunlock (Some i) ;;
            iput i ;;
            ls end_op
        | None => ret tt
        end ;;
        ireclaim_loop f dev (inm + 1)
      else ret tt
  end.
Definition ireclaim (dev : Z) : M fs unit :=
  let! sb := gets fsb in
  ireclaim_loop (S (Z.to_nat (ninodes sb))) dev 1.

Definition fsinit (dev : Z) : M fs unit :=
  readsb ;;
  let! sb := gets fsb in
  if negb (magic sb =? FSMAGIC) then panic "invalid file system"
  else
    ls (initlog (logstart sb)) ;;
    ireclaim dev.

(** A transfer of [bs] to the destination: user memory, or the kernel buffer
    whose bytes the caller collects. *)
Definition f_copyout (user_dst dst : Z) (bs : list Z) : M fs Z :=
  if c_true user_dst then usr (um_copyout dst bs) else ret 0.
(** The [n] bytes at the source: user memory, or the kernel buffer [kb], [tot]
    bytes of which are already used. *)
Definition f_copyin (user_src src : Z) (kb : list Z) (tot n : Z) : M fs (Z * list Z) :=
  if c_true user_src then usr (um_copyin src n)
  else ret (0, slice (Z.to_nat tot) (Z.to_nat n) kb).

Definition min (a b : Z) : Z := if a <? b then a else b.

(** The result is [tot] and the bytes transferred. *)
Fixpoint readi_loop (fuel : nat) (i : nat) (user_dst dst off n tot : Z) (acc : list Z) : M fs (Z * list Z) :=
  match fuel with
  | O => out_of_fuel
  | S f =>
      if tot <? n then
        let! a := bmap i (off / BSIZE) in
        if a =? 0 then ret (tot, acc)
        else
          let! bp := bread_ a in
          let m := min (n - tot) (BSIZE - off mod BSIZE) in
          let! d := data_ bp in
          let bs := slice (Z.to_nat (off mod BSIZE)) (Z.to_nat m) d in
          let! r := f_copyout user_dst dst bs in
          if r =? -1 then brelse_ bp ;; ret (-1, acc)
          else
            brelse_ bp ;;
            readi_loop f i user_dst (u64 (dst + m)) (off + m) n (tot + m) (acc ++ bs)
      else ret (tot, acc)
  end.
Definition readi (i : nat) (user_dst dst off n : Z) : M fs (Z * list Z) :=
  let! x := iat i in
  if (isize x <? off) || (u32 (off + n) <? off) then ret (0, [])
  else
    let n := if isize x <? off + n then isize x - off else n in
    readi_loop (S (Z.to_nat n)) i user_dst dst off n 0 [].

(** The result is [tot] and the offset reached. *)
Fixpoint writei_loop (fuel : nat) (i : nat) (user_src src : Z) (kb : list Z) (off n tot : Z) : M fs (Z * Z) :=
  match fuel with
  | O => out_of_fuel
  | S f =>
      if tot <? n then
        let! a := bmap i (off / BSIZE) in
        if a =? 0 then ret (tot, off)
        else
          let! bp := bread_ a in
          let m := min (n - tot) (BSIZE - off mod BSIZE) in
          let! d := data_ bp in
          let! '(r, bs) := f_copyin user_src src kb tot m in
          (* on failure [bs] is what [copyin] had stored before it failed *)
          store_ bp (splice (Z.to_nat (off mod BSIZE)) bs d) ;;
          if r =? -1 then brelse_ bp ;; ret (tot, off)
          else
            log_write_ bp ;;
            brelse_ bp ;;
            writei_loop f i user_src (u64 (src + m)) kb (off + m) n (tot + m)
      else ret (tot, off)
  end.
Definition writei (i : nat) (user_src src : Z) (kb : list Z) (off n : Z) : M fs Z :=
  let! x := iat i in
  if (isize x <? off) || (u32 (off + n) <? off) then ret (-1)
  else if MAXFILE * BSIZE <? u32 (off + n) then ret (-1)
  else
    let! '(tot, off) := writei_loop (S (Z.to_nat n)) i user_src src kb off n 0 in
    let! x := iat i in
    (if isize x <? off then iupd i (set_isize off) else ret tt) ;;
    iupdate i ;;
    ret tot.

(** ** Directories *)

(** [strncmp] on byte arrays; the end of a list is a nul. *)
Fixpoint strncmp_l (n : nat) (p q : list Z) : Z :=
  match n with
  | O => 0
  | S n' =>
      let a := hd 0 p in let b := hd 0 q in
      if negb (a =? 0) && (a =? b) then strncmp_l n' (tl p) (tl q) else a - b
  end.
Definition namecmp (s t : list Z) : Z := strncmp_l (Z.to_nat DIRSIZ) s t.
(** [strncpy(de.name, name, DIRSIZ)]: the bytes up to the nul, padded with nuls. *)
Fixpoint strncpy_l (n : nat) (t : list Z) : list Z :=
  match n with
  | O => []
  | S n' => if hd 0 t =? 0 then replicate (S n') 0 else hd 0 t :: strncpy_l n' (tl t)
  end.

Definition de_inum (de : list Z) : Z := get_le 2 de 0.
Definition de_name (de : list Z) : list Z := slice 2 (Z.to_nat DIRSIZ) de.

(** The entry's inode and offset. *)
Fixpoint dirlookup_loop (fuel : nat) (dp : nat) (name : list Z) (off : Z) : M fs (option (nat * Z)) :=
  match fuel with
  | O => out_of_fuel
  | S f =>
      let! x := iat dp in
      if off <? isize x then
        let! '(r, de) := readi dp 0 0 off DIRENT in
        if negb (r =? DIRENT) then panic "dirlookup read"
        else if de_inum de =? 0 then dirlookup_loop f dp name (u32 (off + DIRENT))
        else if namecmp name (de_name de) =? 0 then
          let! i := iget (idev x) (de_inum de) in
          ret (Some (i, off))
        else dirlookup_loop f dp name (u32 (off + DIRENT))
      else ret None
  end.
Definition dirlookup (dp : nat) (name : list Z) : M fs (option (nat * Z)) :=
  let! x := iat dp in
  if negb (itype x =? T_DIR) then panic "dirlookup not DIR"
  else dirlookup_loop (S (Z.to_nat (isize x))) dp name 0.

(** The offset of the first empty entry. *)
Fixpoint dirlink_scan (fuel : nat) (dp : nat) (off : Z) : M fs Z :=
  match fuel with
  | O => out_of_fuel
  | S f =>
      let! x := iat dp in
      if off <? isize x then
        let! '(r, de) := readi dp 0 0 off DIRENT in
        if negb (r =? DIRENT) then panic "dirlink read"
        else if de_inum de =? 0 then ret off
        else dirlink_scan f dp (off + DIRENT)
      else ret off
  end.
Definition dirlink (dp : nat) (name : list Z) (inm : Z) : M fs Z :=
  let! r := dirlookup dp name in
  match r with
  | Some (i, _) => iput i ;; ret (-1)
  | None =>
      let! x := iat dp in
      let! off := dirlink_scan (S (Z.to_nat (isize x))) dp 0 in
      let de := le 2 (u16 inm) ++ strncpy_l (Z.to_nat DIRSIZ) name in
      let! w := writei dp 0 0 de off DIRENT in
      if negb (w =? DIRENT) then ret (-1) else ret 0
  end.

(** ** Paths

    A path is the list of its characters; the end of the list is the nul. *)
Definition SLASH : Z := 47.
Fixpoint skip_slashes (p : list Z) : list Z :=
  match p with c :: p' => if c =? SLASH then skip_slashes p' else p | [] => [] end.
(** The characters up to the next slash, and the rest. *)
Fixpoint path_elem (p : list Z) : list Z * list Z :=
  match p with
  | c :: p' => if c =? SLASH then ([], p) else let '(e, r) := path_elem p' in (c :: e, r)
  | [] => ([], [])
  end.
(** The element, cut to [DIRSIZ] characters, and what follows it. *)
Definition skipelem (p : list Z) : option (list Z * list Z) :=
  match skip_slashes p with
  | [] => None
  | q =>
      let '(s, r) := path_elem q in
      Some (if DIRSIZ <=? Z.of_nat (length s) then take (Z.to_nat DIRSIZ) s else s, skip_slashes r)
  end.

(** The loop of [namex] at inode [ip]; the second result is [name]. *)
Fixpoint namex_loop (fuel : nat) (ip : nat) (path : list Z) (nameiparent : bool) (name : list Z)
    : M fs (option nat * list Z) :=
  match fuel with
  | O => out_of_fuel
  | S f =>
      match skipelem path with
      | Some (name, path) =>
          ilock (Some ip) ;;
          let! x := iat ip in
          if negb (itype x =? T_DIR) then iunlockput ip ;; ret (None, name)
          else if nameiparent && match path with [] => true | _ => false end then
            iunlock (Some ip) ;; ret (Some ip, name)
          else
            let! r := dirlookup ip name in
            match r with
            | None => iunlockput ip ;; ret (None, name)
            | Some (next, _) => iunlockput ip ;; namex_loop f next path nameiparent name
            end
      | None => if nameiparent then iput ip ;; ret (None, name) else ret (Some ip, name)
      end
  end.
Definition namex (cwd : nat) (path : list Z) (nameiparent : bool) : M fs (option nat * list Z) :=
  let! ip := (if hd 0 path =? SLASH then iget ROOTDEV ROOTINO else idup cwd) in
  namex_loop (S (length path)) ip path nameiparent [].
Definition namei (cwd : nat) (path : list Z) : M fs (option nat) :=
  let! '(ip, _) := namex cwd path false in ret ip.
Definition nameiparent (cwd : nat) (path : list Z) : M fs (option nat * list Z) := namex cwd path true.
End Fs.
