(* ===== verification/FsPath.v ===== *)
(** * Path names

    [skipelem], applied until it returns 0, yields the non-empty pieces of the path
    between slashes, each cut to [DIRSIZ] characters; this is the sequence of
    names [namex] looks up. *)
From S2P Require Import Prelude Machine Bytes Bio Log UserMem Fs.

(** The pieces between slashes, empty ones included. *)
Fixpoint split_on (c : Z) (l : list Z) : list (list Z) :=
  match l with
  | [] => [[]]
  | x :: l' =>
      if x =? c then [] :: split_on c l'
      else match split_on c l' with [] => [[x]] | w :: ws => (x :: w) :: ws end
  end.

(** The names [skipelem] yields, one call after the other. *)
Fixpoint path_elems (fuel : nat) (p : list Z) : list (list Z) :=
  match fuel with
  | O => []
  | S f => match skipelem p with None => [] | Some (e, r) => e :: path_elems f r end
  end.

Definition nonempty (w : list Z) : bool := match w with [] => false | _ => true end.
Definition pieces (p : list Z) : list (list Z) := List.filter nonempty (split_on SLASH p).

Lemma pieces_slash p : pieces (SLASH :: p) = pieces p.
Proof. unfold pieces. cbn [split_on]. by rewrite Z.eqb_refl. Qed.

Lemma pieces_skip p : pieces (skip_slashes p) = pieces p.
Proof.
  induction p as [|c p IH]; [done|]. cbn [skip_slashes]. destruct (Z.eqb_spec c SLASH) as [->|]; [|done].
  by rewrite pieces_slash.
Qed.

Lemma skip_length p : (length (skip_slashes p) <= length p)%nat.
Proof. induction p as [|c p IH]; cbn; [lia|]. destruct (c =? SLASH); cbn; lia. Qed.

Lemma skip_head p : match skip_slashes p with c :: _ => c <> SLASH | [] => True end.
Proof. induction p as [|c p IH]; cbn; [done|]. destruct (Z.eqb_spec c SLASH); done. Qed.

Lemma path_elem_spec p s r : path_elem p = (s, r) ->
  p = s ++ r /\ (SLASH ∉ s) /\ (r = [] \/ exists r', r = SLASH :: r').
Proof.
  revert s r. induction p as [|c p IH]; intros s r; cbn [path_elem].
  - intros [= <- <-]. split_and!; [done|apply not_elem_of_nil|by left].
  - destruct (Z.eqb_spec c SLASH) as [->|Hc].
    + intros [= <- <-]. split_and!; [done|apply not_elem_of_nil|right; by eexists].
    + destruct (path_elem p) as [e q] eqn:E. intros [= <- <-]. destruct (IH e q eq_refl) as (-> & Hn & Hr).
      split_and!; [done| |done]. rewrite not_elem_of_cons. done.
Qed.

Lemma split_app s r : SLASH ∉ s ->
  split_on SLASH (s ++ SLASH :: r) = s :: split_on SLASH r /\ split_on SLASH s = [s].
Proof.
  induction s as [|c s IH]; intros Hs; cbn; [done|]. rewrite not_elem_of_cons in Hs. destruct Hs as [Hc Hs].
  destruct (Z.eqb_spec c SLASH); [congruence|]. destruct (IH Hs) as [E1 E2].
  change (split_on 47) with (split_on SLASH). by rewrite E1, E2.
Qed.

(** One element: the first piece; the rest is what remains. *)
Lemma skipelem_spec p :
  match skipelem p with
  | None => pieces p = []
  | Some (e, r) => exists w, e = take (Z.to_nat DIRSIZ) w /\ pieces p = w :: pieces r /\ (length r < length p)%nat /\
      hd 0 r <> SLASH
  end.
Proof.
  unfold skipelem. pose proof (skip_head p) as Hh. pose proof (skip_length p) as Hl.
  rewrite <- (pieces_skip p). destruct (skip_slashes p) as [|c q] eqn:Eq; [done|].
  destruct (path_elem (c :: q)) as [s r] eqn:Ee. destruct (path_elem_spec _ _ _ Ee) as (Ep & Hs & Hr).
  destruct s as [|c' s].
  { destruct Hr as [->|[r' ->]]; [done|]. cbn in Ep. injection Ep as -> _. done. }
  exists (c' :: s). split_and!.
  - destruct (Z.leb_spec DIRSIZ (Z.of_nat (length (c' :: s)))); [done|]. rewrite take_ge; [done|]. unfold DIRSIZ in *. lia.
  - rewrite Ep. destruct Hr as [->|[r' ->]].
    + rewrite app_nil_r. unfold pieces at 1. destruct (split_app _ [] Hs) as [_ ->]. done.
    + unfold pieces at 1. destruct (split_app _ r' Hs) as [-> _]. cbn [List.filter nonempty].
      rewrite pieces_skip, pieces_slash. done.
  - pose proof (skip_length r). assert (length (c :: q) = length (c' :: s) + length r)%nat as E by (by rewrite Ep, length_app).
    cbn in E, Hl. lia.
  - pose proof (skip_head r) as Hk. destruct (skip_slashes r); [by vm_compute|done].
Qed.

(** The calls of [skipelem] on a path yield exactly its non-empty pieces
    between slashes, in order, each cut to the [DIRSIZ] characters a directory
    entry holds; leading, trailing and repeated slashes do not matter. *)
Theorem skipelem_yields_path_components p :
  path_elems (S (length p)) p = take (Z.to_nat DIRSIZ) <$> List.filter nonempty (split_on SLASH p).
Proof.
  fold (pieces p). remember (S (length p)) as n eqn:Hn. assert (Hlt : (length p < n)%nat) by lia. clear Hn.
  revert p Hlt. induction n as [|n IH]; intros p Hlt; [lia|]. cbn [path_elems].
  pose proof (skipelem_spec p) as H. destruct (skipelem p) as [[e r]|]; [|by rewrite H].
  destruct H as (w & -> & -> & Hl & _). rewrite fmap_cons. f_equal. apply IH. lia.
Qed.
