(* ===== verification/FsAlloc.v ===== *)
(** * The block allocator of kernel/fs.c

    [balloc] and [bfree] against the abstract state of the bitmap: which blocks
    are free.  The proofs run inside a transaction ([Txn.tx]); [bitmap_ok] is what
    mkfs establishes: the bitmap lies outside the log, and the boot block, the log
    and the bitmap itself are never marked free. *)
From stdpp Require Import gmap.
From S2P Require Import Prelude Machine Spinlock Bytes Bio Log Txn UserMem Fs.

(** ** Bits *)

Lemma land_pow2 x k : 0 <= k -> (Z.land x (Z.shiftl 1 k) =? 0) = negb (Z.testbit x k).
Proof.
  intros Hk. rewrite Z.shiftl_1_l. destruct (Z.testbit x k) eqn:E; cbn.
  - apply Z.eqb_neq. intros H. assert (Z.testbit (Z.land x (2 ^ k)) k = false) as Hf by (by rewrite H, Z.bits_0).
    rewrite Z.land_spec, E, Z.pow2_bits_true in Hf by done. done.
  - apply Z.eqb_eq. apply Z.bits_inj'. intros n Hn. rewrite Z.land_spec, Z.bits_0, Z.pow2_bits_eqb by done.
    destruct (Z.eqb_spec k n) as [->|]; [by rewrite E|by rewrite andb_false_r].
Qed.

Lemma u8_testbit x k : 0 <= k < 8 -> Z.testbit (u8 x) k = Z.testbit x k.
Proof. intros. unfold u8. by rewrite Z.mod_pow2_bits_low by lia. Qed.

Lemma bit_free_testbit d bi : bit_free d bi = negb (Z.testbit (bit_byte d bi) (bi mod 8)).
Proof. unfold bit_free, bit_mask. apply land_pow2. by apply Z.mod_pos_bound. Qed.

Lemma nth_insert_eq (d : list Z) k x : (k < length d)%nat -> nth k (<[k := x]> d) 0 = x.
Proof. intros. apply nth_lookup_Some. by apply list_lookup_insert_eq. Qed.
Lemma nth_insert_ne (d : list Z) k j x : k <> j -> nth j (<[k := x]> d) 0 = nth j d 0.
Proof. intros. rewrite !nth_lookup. by rewrite list_lookup_insert_ne. Qed.

(** What is stored to byte [bi / 8] decides the bits of that byte only. *)
Lemma bit_free_store d bi x bj :
  0 <= bi < 8 * Z.of_nat (length d) -> 0 <= bj ->
  bit_free (<[Z.to_nat (bi / 8) := u8 x]> d) bj =
    if bj / 8 =? bi / 8 then negb (Z.testbit x (bj mod 8)) else bit_free d bj.
Proof.
  intros Hi Hj. rewrite !bit_free_testbit. unfold bit_byte.
  assert (Hb : (Z.to_nat (bi / 8) < length d)%nat) by (assert (bi / 8 < Z.of_nat (length d)) by (apply Z.div_lt_upper_bound; lia); pose proof (Z.div_pos bi 8); lia).
  pose proof (Z.mod_pos_bound bj 8 eq_refl).
  destruct (Z.eqb_spec (bj / 8) (bi / 8)) as [->|Hn].
  - rewrite nth_insert_eq by done. by rewrite u8_testbit.
  - rewrite nth_insert_ne; [done|]. pose proof (Z.div_pos bi 8). pose proof (Z.div_pos bj 8). lia.
Qed.

Lemma bit_free_set d bi bj : 0 <= bi < 8 * Z.of_nat (length d) -> 0 <= bj ->
  bit_free (set_bit d bi) bj = if bj =? bi then false else bit_free d bj.
Proof.
  intros Hi Hj. unfold set_bit. rewrite bit_free_store by done. pose proof (Z.mod_pos_bound bj 8 eq_refl).
  pose proof (Z.mod_pos_bound bi 8 eq_refl).
  unfold bit_mask. rewrite Z.lor_spec, Z.shiftl_1_l, Z.pow2_bits_eqb by lia.
  destruct (Z.eqb_spec bj bi) as [->|Hn]; [by rewrite !Z.eqb_refl, orb_true_r|].
  destruct (Z.eqb_spec (bj / 8) (bi / 8)) as [Hd|]; [|done].
  destruct (Z.eqb_spec (bi mod 8) (bj mod 8)) as [Hm|].
  { pose proof (Z.div_mod bj 8). pose proof (Z.div_mod bi 8). lia. }
  rewrite orb_false_r, bit_free_testbit. unfold bit_byte. by rewrite Hd.
Qed.

Lemma bit_free_clear d bi bj : 0 <= bi < 8 * Z.of_nat (length d) -> 0 <= bj ->
  bit_free (clear_bit d bi) bj = if bj =? bi then true else bit_free d bj.
Proof.
  intros Hi Hj. unfold clear_bit. rewrite bit_free_store by done. pose proof (Z.mod_pos_bound bj 8 eq_refl).
  pose proof (Z.mod_pos_bound bi 8 eq_refl).
  unfold bit_mask. rewrite Z.land_spec, Z.lnot_spec, Z.shiftl_1_l, Z.pow2_bits_eqb by lia.
  destruct (Z.eqb_spec bj bi) as [->|Hn]; [by rewrite !Z.eqb_refl, andb_false_r|].
  destruct (Z.eqb_spec (bj / 8) (bi / 8)) as [Hd|]; [|done].
  destruct (Z.eqb_spec (bi mod 8) (bj mod 8)) as [Hm|].
  { pose proof (Z.div_mod bj 8). pose proof (Z.div_mod bi 8). lia. }
  rewrite andb_true_r, bit_free_testbit. unfold bit_byte. by rewrite Hd.
Qed.

(** The scan returns the first free bit of the block's part of the bitmap. *)
Lemma balloc_scan_spec fuel d b bi size :
  BPB - bi < Z.of_nat fuel ->
  match balloc_scan fuel d b bi size with
  | Some r => bi <= r < BPB /\ b + r < size /\ bit_free d r = true /\ forall k, bi <= k < r -> bit_free d k = false
  | None => forall k, bi <= k < BPB -> b + k < size -> bit_free d k = false
  end.
Proof.
  revert bi. induction fuel as [|f IH]; intros bi Hf; cbn [balloc_scan]; [intros; lia|].
  destruct (_ && _) eqn:E.
  - breflect. destruct (bit_free d bi) eqn:Eb; [split_and!; try lia; done|].
    specialize (IH (bi + 1) ltac:(lia)). destruct (balloc_scan f d b (bi + 1) size).
    + destruct IH as (? & ? & ? & Hk). split_and!; try lia; try done. intros k ?. destruct (decide (k = bi)) as [->|]; [done|apply Hk; lia].
    + intros k ? ?. destruct (decide (k = bi)) as [->|]; [done|apply IH; lia].
  - intros k Hk Hs. apply andb_false_iff in E as [E|E]; breflect; lia.
Qed.

(** ** Transactions seen from the file system *)

Section FsTx.
Context {B : Type} `{BC : BufCache B} `{BL : !BufCacheLaws B} {U : Type} `{UM : UserMem U}.
Implicit Types (s : fs (B := B) (U := U)) (H : gmap nat Z) (bl D : list Z) (v : Z -> block).

(** Only the log and the cache changed. *)
Definition keeps (s s' : fs (B := B) (U := U)) : Prop :=
  fsb s' = fsb s /\ itable s' = itable s /\ fu s' = fu s /\ lg_same (lg (fl s)) (lg (fl s')).

#[global] Instance keeps_preorder : PreOrder keeps.
Proof.
  split; [by intros s|]. intros s1 s2 s3 (?&?&?&?&?&?) (?&?&?&?&?&?). unfold keeps, lg_same. split_and!; congruence.
Qed.

Lemma wp_ls {A} (x : M (lst (B := B)) A) Q s :
  wp (ls x) Q s <-> wp x (fun a l => Q a (Fs l (fsb s) (itable s) (fu s))) (fl s).
Proof. apply wp_zoom. Qed.

Lemma f_bread {A} s bl v H D n (k : nat -> M fs A) Q :
  tx (fl s) bl v H D -> is_u32 n -> n ∉ held_blocks H -> (length bl + size H < nbuf)%nat ->
  (forall i s', keeps s s' -> H !! i = None -> tx (fl s') bl v (<[i := n]> H) D -> wp (k i) Q s') ->
  wp (let! i := bread_ n in k i) Q s.
Proof.
  intros T Hn Hh Hs HQ. rewrite wp_bind. unfold bread_. rewrite wp_ls.
  eapply wp_mono; [by apply (tx_bread _ bl v H D)|]. cbn beta. intros i l (Hl & Hi & T'). apply HQ; [|done|done].
  unfold keeps, lg_same. cbn. by rewrite Hl.
Qed.

Lemma f_data {A} s bl v H D i n (k : block -> M fs A) Q :
  tx (fl s) bl v H D -> H !! i = Some n -> wp (k (v n)) Q s -> wp (let! d := data_ i in k d) Q s.
Proof.
  intros T Hi HQ. rewrite wp_bind. unfold data_. rewrite wp_ls.
  eapply wp_mono; [by apply (tx_data _ bl v H D)|]. cbn beta. intros d l (-> & ->). by destruct s.
Qed.

Lemma f_store {A} s bl v H D i n d (k : M fs A) Q :
  tx (fl s) bl v H D -> H !! i = Some n ->
  (forall s', keeps s s' -> tx (fl s') bl (set_block v n d) H (n :: D) -> wp k Q s') ->
  wp (store_ i d ;; k) Q s.
Proof.
  intros T Hi HQ. rewrite wp_bind. unfold store_. rewrite wp_ls.
  eapply wp_mono; [by apply (tx_store _ bl v H D i n d)|]. cbn beta. intros [] l (Hl & T'). apply HQ; [|done].
  unfold keeps, lg_same. cbn. by rewrite Hl.
Qed.

Lemma f_log_write {A} s bl v H D i n (k : M fs A) Q :
  tx (fl s) bl v H (n :: D) -> H !! i = Some n ->
  Z.of_nat (length bl) < LOGBLOCKS -> 0 <= n < 2 ^ 31 -> ~ in_log (start (lg (fl s))) n ->
  (forall s', keeps s s' -> tx (fl s') (txn_add n bl) v H D -> wp k Q s') ->
  wp (log_write_ i ;; k) Q s.
Proof.
  intros T Hi H1 H2 H3 HQ. rewrite wp_bind. unfold log_write_. rewrite wp_ls.
  eapply wp_mono; [by apply (tx_log_write _ bl v H D i n)|]. cbn beta. intros [] l (Hl & T'). apply HQ; [|done].
  unfold keeps. cbn. done.
Qed.

Lemma f_brelse_last s bl v H D i n Q :
  tx (fl s) bl v H D -> H !! i = Some n -> n ∈ bl \/ n ∉ D ->
  (forall s', keeps s s' -> tx (fl s') bl v (delete i H) D -> Q tt s') ->
  wp (brelse_ i) Q s.
Proof.
  intros T Hi Hd HQ. unfold brelse_. rewrite wp_ls.
  eapply wp_mono; [by apply (tx_brelse _ bl v H D i n)|]. cbn beta. intros [] l (Hl & T'). apply HQ; [|done].
  unfold keeps, lg_same. cbn. by rewrite Hl.
Qed.
Lemma f_brelse {A} s bl v H D i n (k : M fs A) Q :
  tx (fl s) bl v H D -> H !! i = Some n -> n ∈ bl \/ n ∉ D ->
  (forall s', keeps s s' -> tx (fl s') bl v (delete i H) D -> wp k Q s') ->
  wp (brelse_ i ;; k) Q s.
Proof. intros T Hi Hd HQ. rewrite wp_bind. by eapply f_brelse_last. Qed.

(** Read, change, record, release: one block of a transaction. *)
Lemma txn_add_in n bl : n ∈ txn_add n bl.
Proof. unfold txn_add. destruct (decide (n ∈ bl)); [done|]. apply elem_of_app. right. apply list_elem_of_here. Qed.
Lemma txn_add_length n bl : (length (txn_add n bl) <= S (length bl))%nat.
Proof. unfold txn_add. destruct (decide (n ∈ bl)); [lia|]. rewrite length_app. cbn. lia. Qed.

Lemma f_update {A} s bl v H D n i d (k : M fs A) Q :
  tx (fl s) bl v (<[i := n]> H) D -> H !! i = None ->
  Z.of_nat (length bl) < LOGBLOCKS -> 0 <= n < 2 ^ 31 -> ~ in_log (start (lg (fl s))) n ->
  (forall s', keeps s s' -> tx (fl s') (txn_add n bl) (set_block v n d) H D -> wp k Q s') ->
  wp (store_ i d ;; log_write_ i ;; brelse_ i ;; k) Q s.
Proof.
  intros T Hi H1 H2 H3 HQ. assert (Hin : <[i := n]> H !! i = Some n) by apply lookup_insert_eq.
  eapply f_store; [exact T|exact Hin|]. intros s1 K1 T1.
  eapply f_log_write; [exact T1|exact Hin|done|done| |].
  { destruct K1 as (_ & _ & _ & E & _). by rewrite E. }
  intros s2 K2 T2. eapply f_brelse; [exact T2|exact Hin|left; apply txn_add_in|].
  intros s3 K3 T3. apply HQ; [by rewrite K1, K2|]. by rewrite delete_insert_id in T3.
Qed.

Lemma f_update_last s bl v H D n i d Q :
  tx (fl s) bl v (<[i := n]> H) D -> H !! i = None ->
  Z.of_nat (length bl) < LOGBLOCKS -> 0 <= n < 2 ^ 31 -> ~ in_log (start (lg (fl s))) n ->
  (forall s', keeps s s' -> tx (fl s') (txn_add n bl) (set_block v n d) H D -> Q tt s') ->
  wp (store_ i d ;; log_write_ i ;; brelse_ i) Q s.
Proof.
  intros T Hi H1 H2 H3 HQ.
  assert (W : wp (store_ i d ;; log_write_ i ;; brelse_ i ;; ret tt) Q s) by (by eapply f_update).
  rewrite !wp_bind in W. rewrite wp_bind. eapply wp_mono; [exact W|]. cbn beta. intros [] s1 W1.
  rewrite !wp_bind in W1. rewrite wp_bind. eapply wp_mono; [exact W1|]. cbn beta. intros [] s2 W2.
  rewrite !wp_bind in W2. eapply wp_mono; [exact W2|]. intros [] s3 W3. exact W3.
Qed.

(** ** The bitmap *)

Definition blk_free (sb : superblock) (v : Z -> block) (b : Z) : bool := bit_free (v (BBLOCK b sb)) (b mod BPB).

Record bitmap_ok (sb : superblock) (st : Z) (v : Z -> block) (H : gmap nat Z) : Prop := {
  bo_size : 0 <= sb_size sb < 2 ^ 31;
  bo_bmap b : 0 <= b < sb_size sb ->
    0 <= b / BPB + bmapstart sb < 2 ^ 31 /\ ~ in_log st (BBLOCK b sb) /\ (BBLOCK b sb ∉ held_blocks H) /\
    length (v (BBLOCK b sb)) = Z.to_nat BSIZE;
  bo_data b : 0 <= b < sb_size sb -> blk_free sb v b = true ->
    b <> 0 /\ ~ in_log st b /\ (b ∉ held_blocks H) /\ forall b', 0 <= b' < sb_size sb -> b <> BBLOCK b' sb
}.

Lemma BBLOCK_val sb b : 0 <= b / BPB + bmapstart sb < 2 ^ 31 -> BBLOCK b sb = b / BPB + bmapstart sb.
Proof. intros. unfold BBLOCK. apply u32_id. unfold is_u32. lia. Qed.

(** What an allocation has done. *)
Definition allocated (sb : superblock) (v v' : Z -> block) (r : Z) : Prop :=
  0 < r < sb_size sb /\ blk_free sb v r = true /\ v' r = replicate (Z.to_nat BSIZE) 0 /\
  (forall b, 0 <= b < sb_size sb -> blk_free sb v' b = if b =? r then false else blk_free sb v b) /\
  (forall n, n <> r -> n <> BBLOCK r sb -> v' n = v n).

Lemma same_bmap b bi : BPB * (b / BPB) = b -> 0 <= bi < BPB -> (b + bi) / BPB = b / BPB /\ (b + bi) mod BPB = bi.
Proof.
  intros Hb Hi. assert (E : b + bi = bi + b / BPB * BPB) by lia. rewrite E.
  rewrite Z.div_add, Z.mod_add by (unfold BPB, BSIZE; lia). rewrite Z.div_small, Z.mod_small by done. done.
Qed.

(** Setting one bit of the bitmap changes the state of one block. *)
Lemma blk_free_set sb st v H (f : block -> Z -> block) (x : bool) r :
  (forall d bi bj, 0 <= bi < 8 * Z.of_nat (length d) -> 0 <= bj ->
     bit_free (f d bi) bj = if bj =? bi then x else bit_free d bj) ->
  bitmap_ok sb st v H -> 0 <= r < sb_size sb ->
  forall b, 0 <= b < sb_size sb ->
    blk_free sb (set_block v (BBLOCK r sb) (f (v (BBLOCK r sb)) (r mod BPB))) b = if b =? r then x else blk_free sb v b.
Proof.
  intros Hf Hb Hr b Hbr. destruct (bo_bmap _ _ _ _ Hb r Hr) as (Hr1 & _ & _ & Hl).
  destruct (bo_bmap _ _ _ _ Hb b Hbr) as (Hb1 & _). unfold blk_free.
  assert (HP : 0 < BPB) by (unfold BPB, BSIZE; lia).
  pose proof (Z.mod_pos_bound r BPB HP). pose proof (Z.mod_pos_bound b BPB HP).
  destruct (decide (BBLOCK b sb = BBLOCK r sb)) as [E|E].
  - rewrite E, set_block_eq, Hf; [| |lia].
    2:{ rewrite Hl. unfold BPB, BSIZE in *. lia. }
    rewrite !BBLOCK_val in E by done. assert (b / BPB = r / BPB) as Ed by lia.
    destruct (Z.eqb_spec b r) as [->|Hn]; [by rewrite Z.eqb_refl|].
    destruct (Z.eqb_spec (b mod BPB) (r mod BPB)) as [Em|]; [|done].
    pose proof (Z.div_mod b BPB). pose proof (Z.div_mod r BPB). lia.
  - rewrite set_block_ne by done. destruct (Z.eqb_spec b r) as [->|]; done.
Qed.

Section Bitmap.
Context (s : fs (B := B) (U := U)) (bl : list Z) (v : Z -> block) (H : gmap nat Z) (D : list Z).
Hypothesis (T : tx (fl s) bl v H D).
Hypothesis (Hb : bitmap_ok (fsb s) (start (lg (fl s))) v H).

Lemma bmap_block b : 0 <= b < sb_size (fsb s) ->
  is_u32 (BBLOCK b (fsb s)) /\ 0 <= BBLOCK b (fsb s) < 2 ^ 31.
Proof. intros Hr. destruct (bo_bmap _ _ _ _ Hb b Hr) as (H1 & _). rewrite BBLOCK_val by done. unfold is_u32. lia. Qed.

Lemma bfree_ok b : 0 <= b < sb_size (fsb s) -> blk_free (fsb s) v b = false ->
  Z.of_nat (length bl) < LOGBLOCKS -> (length bl + size H < nbuf)%nat ->
  wp (bfree b) (fun _ s' => keeps s s' /\ exists v',
    tx (fl s') (txn_add (BBLOCK b (fsb s)) bl) v' H D /\
    (forall b', 0 <= b' < sb_size (fsb s) -> blk_free (fsb s) v' b' = if b' =? b then true else blk_free (fsb s) v b') /\
    (forall n, n <> BBLOCK b (fsb s) -> v' n = v n)) s.
Proof.
  intros Hr Hf Hl Hn. destruct (bmap_block b Hr) as [Hu Hp]. destruct (bo_bmap _ _ _ _ Hb b Hr) as (_ & Hlg & Hh & _).
  unfold bfree. rewrite wp_bind, wp_gets. eapply f_bread; [exact T|done|done|done|]. intros i s1 K1 Hi T1.
  eapply f_data; [exact T1|apply lookup_insert_eq|]. fold (blk_free (fsb s) v b). rewrite Hf. cbv zeta.
  eapply f_update_last; [exact T1|done|done|done| |].
  { destruct K1 as (_ & _ & _ & E & _). by rewrite E. }
  intros s2 K2 T2. split; [by rewrite K1|]. eexists. split; [exact T2|]. split.
  - apply (blk_free_set _ _ v H clear_bit true b bit_free_clear Hb Hr).
  - intros n Hne. by apply set_block_ne.
Qed.

(** Freeing a free block stops the kernel. *)
Lemma bfree_panics b : 0 <= b < sb_size (fsb s) -> blk_free (fsb s) v b = true ->
  (length bl + size H < nbuf)%nat -> bfree b s = Panic "freeing free block".
Proof.
  intros Hr Hf Hn. destruct (bmap_block b Hr) as [Hu Hp]. destruct (bo_bmap _ _ _ _ Hb b Hr) as (_ & Hlg & Hh & _).
  unfold bfree. apply bind_panic. rewrite wp_gets. apply bind_panic.
  assert (W : wp (let! i := bread_ (BBLOCK b (fsb s)) in ret i) (fun i s1 => exists H', tx (fl s1) bl v H' D /\ H' !! i = Some (BBLOCK b (fsb s))) s).
  { eapply f_bread; [exact T|done|done|done|]. intros i s1 K1 Hi T1. rewrite wp_ret. eexists. split; [exact T1|apply lookup_insert_eq]. }
  rewrite wp_bind in W. eapply wp_mono; [exact W|]. cbn beta. intros i s1 (H' & T1 & Hi). apply bind_panic.
  assert (W1 : wp (let! d := data_ i in ret d) (fun d s2 => d = v (BBLOCK b (fsb s))) s1) by (by eapply f_data).
  rewrite wp_bind in W1. eapply wp_mono; [exact W1|]. cbn beta. intros d s2 ->. fold (blk_free (fsb s) v b). by rewrite Hf.
Qed.

Lemma bzero_ok n Q : is_u32 n -> 0 <= n < 2 ^ 31 -> n ∉ held_blocks H -> ~ in_log (start (lg (fl s))) n ->
  Z.of_nat (length bl) < LOGBLOCKS -> (length bl + size H < nbuf)%nat ->
  (forall s', keeps s s' -> tx (fl s') (txn_add n bl) (set_block v n (replicate (Z.to_nat BSIZE) 0)) H D -> Q tt s') ->
  wp (bzero n) Q s.
Proof.
  intros Hu Hp Hh Hlg Hl Hn HQ. unfold bzero. eapply f_bread; [exact T|done|done|done|]. intros i s1 K1 Hi T1.
  eapply f_update_last; [exact T1|done|done|done| |].
  { destruct K1 as (_ & _ & _ & E & _). by rewrite E. }
  intros s2 K2 T2. apply HQ; [by rewrite K1|done].
Qed.
End Bitmap.

Lemma keeps_sb s s' : keeps s s' -> fsb s' = fsb s.
Proof. by intros (E & _). Qed.
Lemma keeps_start s s' : keeps s s' -> start (lg (fl s')) = start (lg (fl s)).
Proof. by intros (_ & _ & _ & E & _). Qed.

Lemma bitmap_unheld sb st v H : bitmap_ok sb st v H -> forall r, 0 <= r < sb_size sb -> blk_free sb v r = true ->
  r <> BBLOCK r sb.
Proof. intros Hb r Hr Hf. destruct (bo_data _ _ _ _ Hb r Hr Hf) as (_ & _ & _ & Hne). by apply Hne. Qed.

(** The bit found: mark it, zero the block. *)
Lemma balloc_take_ok s bl v H D r i :
  tx (fl s) bl v (<[i := BBLOCK r (fsb s)]> H) D -> H !! i = None ->
  bitmap_ok (fsb s) (start (lg (fl s))) v H -> 0 <= r < sb_size (fsb s) -> blk_free (fsb s) v r = true ->
  Z.of_nat (length bl) + 1 < LOGBLOCKS -> (length bl + 1 + size H < nbuf)%nat ->
  wp (store_ i (set_bit (v (BBLOCK r (fsb s))) (r mod BPB)) ;; log_write_ i ;; brelse_ i ;; bzero r ;; ret r)
     (fun r' s' => r' = r /\ keeps s s' /\ exists v', allocated (fsb s) v v' r /\
       tx (fl s') (txn_add r (txn_add (BBLOCK r (fsb s)) bl)) v' H D) s.
Proof.
  intros T Hi Hb Hr Hf Hl Hn. destruct (bmap_block s v H Hb r Hr) as [Hu Hp].
  destruct (bo_bmap _ _ _ _ Hb r Hr) as (_ & Hlg & Hh & _).
  destruct (bo_data _ _ _ _ Hb r Hr Hf) as (Hr0 & Hrl & Hrh & Hrb). pose proof (bo_size _ _ _ _ Hb) as Hsz.
  pose proof (txn_add_length (BBLOCK r (fsb s)) bl) as Hta.
  eapply f_update; [exact T|done|lia|done|done|]. intros s1 K1 T1. rewrite wp_bind.
  eapply (bzero_ok s1 _ _ _ _ T1); [unfold is_u32; lia|lia|done|by rewrite (keeps_start _ _ K1)|lia|lia|].
  intros s2 K2 T2. rewrite wp_ret. split_and!; [done|by rewrite K1|].
  eexists. split; [|exact T2]. specialize (Hrb r Hr). unfold allocated. split_and!; try lia; try done.
  - apply set_block_eq.
  - intros b Hbr. unfold blk_free at 1. rewrite set_block_ne.
    + apply (blk_free_set _ _ v H set_bit false r bit_free_set Hb Hr b Hbr).
    + destruct (bo_data _ _ _ _ Hb r Hr Hf) as (_ & _ & _ & Hne). specialize (Hne b Hbr). congruence.
  - intros n Hn1 Hn2. by rewrite !set_block_ne.
Qed.

Lemma balloc_loop_ok fuel s bl v H b :
  tx (fl s) bl v H [] -> bitmap_ok (fsb s) (start (lg (fl s))) v H ->
  Z.of_nat (length bl) + 1 < LOGBLOCKS -> (length bl + 1 + size H < nbuf)%nat ->
  0 <= b -> BPB * (b / BPB) = b -> sb_size (fsb s) - b < Z.of_nat fuel -> (0 < fuel)%nat ->
  (forall k, 0 <= k < sb_size (fsb s) -> k < b -> blk_free (fsb s) v k = false) ->
  wp (balloc_loop fuel b) (fun r s' => keeps s s' /\
    ((r = 0 /\ tx (fl s') bl v H [] /\ forall k, 0 <= k < sb_size (fsb s) -> blk_free (fsb s) v k = false) \/
     exists v', allocated (fsb s) v v' r /\ tx (fl s') (txn_add r (txn_add (BBLOCK r (fsb s)) bl)) v' H [])) s.
Proof.
  revert s b. induction fuel as [|f IH]; intros s b T Hb Hl Hn Hb0 Hal Hf Hpos Hused; [lia|].
  pose proof (bo_size _ _ _ _ Hb) as Hsz. assert (HP : BPB = 8192) by done. cbn [balloc_loop]. rewrite wp_bind, wp_gets.
  destruct (Z.ltb_spec b (sb_size (fsb s))) as [Hbs|Hbs].
  2:{ rewrite wp_ret. split; [done|]. left. split_and!; [done|done|]. intros k Hk. apply Hused; lia. }
  destruct (bmap_block s v H Hb b ltac:(lia)) as [Hu Hp]. destruct (bo_bmap _ _ _ _ Hb b ltac:(lia)) as (_ & Hlg & Hh & _).
  eapply f_bread; [exact T|done|done|lia|]. intros i s1 K1 Hi T1.
  eapply f_data; [exact T1|apply lookup_insert_eq|].
  assert (Hsame : forall bi, 0 <= bi < BPB -> BBLOCK (b + bi) (fsb s) = BBLOCK b (fsb s) /\ (b + bi) mod BPB = bi).
  { intros bi Hbi. destruct (same_bmap b bi Hal Hbi) as [E1 E2]. unfold BBLOCK. by rewrite E1. }
  pose proof (balloc_scan_spec (S (Z.to_nat BPB)) (v (BBLOCK b (fsb s))) b 0 (sb_size (fsb s)) ltac:(lia)) as Hsc.
  destruct (balloc_scan _ _ _ _ _) as [bi|].
  - destruct Hsc as (Hbi & Hbs' & Hfree & _). destruct (Hsame bi Hbi) as [E1 E2].
    assert (Hfr : blk_free (fsb s) v (b + bi) = true) by (unfold blk_free; by rewrite E1, E2).
    pose proof (balloc_take_ok s1 bl v H [] (b + bi) i) as W. rewrite (keeps_sb _ _ K1), (keeps_start _ _ K1), E1, E2 in W.
    eapply wp_mono; [apply W; try done; lia|]. cbn beta. intros r s2 (-> & K2 & v' & Ha & T2). split; [by rewrite K1|].
    right. exists v'. by rewrite E1.
  - eapply f_brelse; [exact T1|apply lookup_insert_eq| |].
    { right. apply not_elem_of_nil. }
    intros s2 K2 T2. rewrite delete_insert_id in T2 by done.
    assert (K : keeps s s2) by (by rewrite K1).
    eapply wp_mono; [apply (IH s2 (b + BPB) T2); rewrite ?(keeps_sb _ _ K), ?(keeps_start _ _ K); try done; try lia|].
    + rewrite HP in *. rewrite <- Hal at 2. replace (b + 8192) with (b + 1 * 8192) by lia. rewrite Z.div_add by lia. lia.
    + intros k Hk Hkb. destruct (decide (k < b)) as [|Hkb']; [by apply Hused|].
      destruct (Hsame (k - b) ltac:(lia)) as [E1 E2]. replace (b + (k - b)) with k in * by lia.
      unfold blk_free. rewrite E1, E2. apply Hsc; lia.
    + cbn beta. intros r s3 [K3 Hpost]. rewrite (keeps_sb _ _ K) in Hpost. split; [by rewrite K|done].
Qed.

Lemma balloc_ok s bl v H :
  tx (fl s) bl v H [] -> bitmap_ok (fsb s) (start (lg (fl s))) v H ->
  Z.of_nat (length bl) + 1 < LOGBLOCKS -> (length bl + 1 + size H < nbuf)%nat ->
  wp balloc (fun r s' => keeps s s' /\
    ((r = 0 /\ tx (fl s') bl v H [] /\ forall k, 0 <= k < sb_size (fsb s) -> blk_free (fsb s) v k = false) \/
     exists v', allocated (fsb s) v v' r /\ tx (fl s') (txn_add r (txn_add (BBLOCK r (fsb s)) bl)) v' H [])) s.
Proof.
  intros T Hb Hl Hn. unfold balloc. rewrite wp_bind, wp_gets. pose proof (bo_size _ _ _ _ Hb).
  apply balloc_loop_ok; try done; lia.
Qed.
End FsTx.

(** ** Properties *)

(** C30: [balloc] returns a block that was free, zeroed and now marked in use, and
    changes the state of no other block and the content of nothing but that block
    and its bitmap block, both recorded in the transaction; it returns 0 only when
    no block is free, and then changes nothing. *)
Theorem balloc_allocates_zeroed_block {B : Type} `{BC : BufCache B} `{BL : !BufCacheLaws B} {U : Type}
    (s : fs (B := B) (U := U)) bl v H :
  tx (fl s) bl v H [] -> bitmap_ok (fsb s) (start (lg (fl s))) v H ->
  Z.of_nat (length bl) + 1 < LOGBLOCKS -> (length bl + 1 + size H < nbuf)%nat ->
  wp balloc (fun r s' => keeps s s' /\
    ((r = 0 /\ tx (fl s') bl v H [] /\ forall k, 0 <= k < sb_size (fsb s) -> blk_free (fsb s) v k = false) \/
     exists v', allocated (fsb s) v v' r /\ tx (fl s') (txn_add r (txn_add (BBLOCK r (fsb s)) bl)) v' H [])) s.
Proof. apply balloc_ok. Qed.

(** [bfree] marks a block in use as free and changes nothing else but records
    the bitmap block in the transaction; freeing a free block panics. *)
Theorem bfree_releases_block {B : Type} `{BC : BufCache B} `{BL : !BufCacheLaws B} {U : Type}
    (s : fs (B := B) (U := U)) bl v H D b :
  tx (fl s) bl v H D -> bitmap_ok (fsb s) (start (lg (fl s))) v H -> 0 <= b < sb_size (fsb s) ->
  Z.of_nat (length bl) < LOGBLOCKS -> (length bl + size H < nbuf)%nat ->
  if blk_free (fsb s) v b then bfree b s = Panic "freeing free block"
  else wp (bfree b) (fun _ s' => keeps s s' /\ exists v',
    tx (fl s') (txn_add (BBLOCK b (fsb s)) bl) v' H D /\
    (forall b', 0 <= b' < sb_size (fsb s) -> blk_free (fsb s) v' b' = if b' =? b then true else blk_free (fsb s) v b') /\
    (forall n, n <> BBLOCK b (fsb s) -> v' n = v n)) s.
Proof.
  intros T Hb Hr Hl Hn. destruct (blk_free (fsb s) v b) eqn:E; [by eapply bfree_panics|by eapply bfree_ok].
Qed.

(** A file system of 200 blocks: log at 2, bitmap at 45, blocks 0 to 47 in use. *)
Definition demo_bitmap : block := replicate 6 255 ++ replicate 1018 0.
Definition demo_disk (n : Z) : block := if n =? 45 then demo_bitmap else replicate (Z.to_nat BSIZE) 0.
Definition demo_sb : superblock := Sb FSMAGIC 200 152 100 31 2 33 45.
Definition demo_fs (c : bst) : fs (B := bst) (U := unit) :=
  Fs (Lst (Log 2 1 0 (Lh 0 (replicate (Z.to_nat LOGBLOCKS) 0)) 0) c) demo_sb
     (fun _ => Inode 0 0 0 SleepLock.initsleeplock 0 0 0 0 0 0 []) tt.

Lemma demo_bits : forall b, 0 <= b < 48 -> bit_free demo_bitmap b = false.
Proof.
  intros b Hb. assert (Hf : forallb (fun k => negb (bit_free demo_bitmap (Z.of_nat k))) (seq 0 48) = true) by (vm_compute; reflexivity).
  rewrite forallb_forall in Hf. specialize (Hf (Z.to_nat b)). rewrite Z2Nat.id in Hf by lia.
  apply negb_true_iff, Hf. apply List.in_seq. lia.
Qed.

Lemma demo_tx c : bc_rep 7 1 c (fresh_cache demo_disk) -> tx (BC := bio_cache 7 1) (fl (demo_fs c)) [] demo_disk ∅ [].
Proof.
  intros Hc. apply (tx_begin (BC := bio_cache 7 1)); [|done|done].
  split; cbn; try done; [apply NoDup_nil_2|by intros b ?%elem_of_nil].
Qed.

Lemma demo_bitmap_ok : bitmap_ok demo_sb 2 demo_disk ∅.
Proof.
  assert (HB : forall b, 0 <= b < 200 -> BBLOCK b demo_sb = 45).
  { intros b Hb. unfold BBLOCK. rewrite Z.div_small by (change BPB with 8192; lia). reflexivity. }
  assert (Hnil : forall n : Z, n ∉ held_blocks ∅) by (intros n; unfold held_blocks; rewrite map_to_list_empty; apply not_elem_of_nil).
  split; cbn [sb_size demo_sb]; [lia| |].
  - intros b Hb. rewrite HB by done. rewrite Z.div_small by (change BPB with 8192; lia). split_and!; try done.
    unfold in_log, LOGBLOCKS, MAXOPBLOCKS. lia.
  - intros b Hb Hf. unfold blk_free in Hf. rewrite HB in Hf by done. rewrite Z.mod_small in Hf by (change BPB with 8192; lia).
    change (demo_disk 45) with demo_bitmap in Hf.
    assert (48 <= b) by (destruct (decide (b < 48)); [by rewrite demo_bits in Hf by lia|lia]).
    split_and!; [lia|unfold in_log, LOGBLOCKS, MAXOPBLOCKS; lia|done|]. intros b' Hb'. rewrite HB by done. lia.
Qed.

Lemma balloc_allocates_zeroed_block_witness :
  exists c, bc_rep 7 1 c (fresh_cache demo_disk) /\
    wp (balloc (BC := bio_cache 7 1)) (fun r s' => r = 0 \/ 0 < r < 200) (demo_fs c).
Proof.
  destruct (proj1 (wp_ok _ _ _) (binit_ok 7 1 demo_disk ltac:(lia))) as ([] & c & _ & Hc). exists c. split; [exact Hc|].
  pose proof (bio_laws 7 1) as BL.
  eapply wp_mono; [apply (balloc_allocates_zeroed_block (BC := bio_cache 7 1) (demo_fs c) [] demo_disk ∅)|].
  - apply demo_tx, Hc.
  - apply demo_bitmap_ok.
  - reflexivity.
  - vm_compute. lia.
  - cbn beta. intros r s' [_ [[E _]|(v' & A & _)]]; [left; exact E|right; exact (proj1 A)].
Defined.

Lemma bfree_releases_block_witness :
  exists c, bc_rep 7 1 c (fresh_cache demo_disk) /\
    bfree (BC := bio_cache 7 1) 100 (demo_fs c) = Panic "freeing free block" /\
    wp (bfree (BC := bio_cache 7 1) 40) (fun _ s' => fsb s' = demo_sb) (demo_fs c).
Proof.
  destruct (proj1 (wp_ok _ _ _) (binit_ok 7 1 demo_disk ltac:(lia))) as ([] & c & _ & Hc). exists c. split; [exact Hc|].
  pose proof (bio_laws 7 1) as BL. pose proof (demo_tx c Hc) as T.
  assert (Hn : (length (@nil Z) + size (∅ : gmap nat Z) < nbuf)%nat) by (vm_compute; lia).
  split.
  - exact (bfree_releases_block (BC := bio_cache 7 1) (demo_fs c) [] demo_disk ∅ [] 100 T demo_bitmap_ok
             ltac:(cbn; lia) eq_refl Hn).
  - eapply wp_mono; [exact (bfree_releases_block (BC := bio_cache 7 1) (demo_fs c) [] demo_disk ∅ [] 40 T demo_bitmap_ok
             ltac:(cbn; lia) eq_refl Hn)|].
    cbn beta. intros [] s' [[E _] _]. exact E.
Defined.
