(* ===== verification/FsData.v ===== *)
(** * File contents: [bmap], [readi] and [writei] of kernel/fs.c

    A file whose blocks are allocated is an array of bytes, [fbyte]: byte [k] is
    byte [k mod BSIZE] of the block [bmap] finds for block [k / BSIZE], direct or
    indirect.  [readi] returns a stretch of this array and [writei] overwrites one. *)
From stdpp Require Import gmap.
From S2P Require Import Prelude Machine Spinlock Bytes Bio Log Txn UserMem Fs FsAlloc.

Section FsData.
Context {B : Type} `{BC : BufCache B} `{BL : !BufCacheLaws B} {U : Type} `{UM : UserMem U}.
Implicit Types (s : fs (B := B) (U := U)) (bl : list Z) (v : Z -> block) (x : inode).

(** The block that holds block [bn] of the file. *)
Definition blk x v (bn : Z) : Z :=
  if bn <? NDIRECT then addr_at x bn
  else get_le 4 (v (addr_at x NDIRECT)) (Z.to_nat (4 * (bn - NDIRECT))).
Definition fbyte x v (k : Z) : Z := nth (Z.to_nat (k mod BSIZE)) (v (blk x v (k / BSIZE))) 0.

Definition block_ok (st : Z) v (n : Z) : Prop := 0 < n < 2 ^ 31 /\ ~ in_log st n /\ length (v n) = Z.to_nat BSIZE.

(** The first [nb] blocks of the file are allocated, to different blocks. *)
Record file_ok (st : Z) v x (nb : Z) : Prop := {
  fo_nb : 0 <= nb <= MAXFILE;
  fo_blk bn : 0 <= bn < nb -> block_ok st v (blk x v bn);
  fo_inj bn bn' : 0 <= bn < nb -> 0 <= bn' < nb -> blk x v bn = blk x v bn' -> bn = bn';
  fo_ind : NDIRECT < nb -> block_ok st v (addr_at x NDIRECT) /\
    forall bn, 0 <= bn < nb -> blk x v bn <> addr_at x NDIRECT
}.

Lemma held_empty n : n ∉ held_blocks ∅.
Proof. unfold held_blocks. rewrite map_to_list_empty. apply not_elem_of_nil. Qed.

Lemma bmap_ok s bl v i nb bn Q : tx (fl s) bl v ∅ [] -> (length bl < nbuf)%nat ->
  file_ok (start (lg (fl s))) v (itable s i) nb -> 0 <= bn < nb ->
  (forall s', keeps s s' -> tx (fl s') bl v ∅ [] -> Q (blk (itable s i) v bn) s') ->
  wp (bmap i bn) Q s.
Proof.
  intros T Hn F Hb HQ. destruct (fo_blk _ _ _ _ F bn Hb) as (Hpos & _). pose proof (fo_nb _ _ _ _ F) as Hnb.
  unfold bmap, iat. rewrite wp_bind, wp_gets. unfold blk in *. destruct (Z.ltb_spec bn NDIRECT) as [Hd|Hd].
  - rewrite (proj2 (Z.eqb_neq _ _)) by lia. rewrite wp_ret. by apply HQ.
  - rewrite (proj2 (Z.ltb_lt _ _)) by (unfold MAXFILE in Hnb; lia).
    destruct (fo_ind _ _ _ _ F ltac:(lia)) as [(Hi & Hl & _) _].
    rewrite wp_bind, (proj2 (Z.eqb_neq (addr_at (itable s i) NDIRECT) 0)) by lia. rewrite wp_ret.
    rewrite (proj2 (Z.eqb_neq _ _)) by lia.
    eapply f_bread; [exact T|unfold is_u32; lia|apply held_empty|rewrite map_size_empty; lia|]. intros b s1 K1 Hb1 T1.
    eapply f_data; [exact T1|apply lookup_insert_eq|]. cbv zeta.
    rewrite wp_bind, (proj2 (Z.eqb_neq _ _)) by lia. rewrite wp_ret.
    eapply f_brelse; [exact T1|apply lookup_insert_eq|right; apply not_elem_of_nil|]. intros s2 K2 T2.
    rewrite wp_ret. rewrite delete_insert_id in T2 by done. apply HQ; [by rewrite K1|done].
Qed.

(** ** Reading *)

Definition fbytes x v (off n : Z) : list Z := fbyte x v <$> seqZ off n.

Lemma fbytes_app x v off n n' : 0 <= n -> 0 <= n' -> fbytes x v off (n + n') = fbytes x v off n ++ fbytes x v (off + n) n'.
Proof. intros. unfold fbytes. by rewrite seqZ_app, fmap_app. Qed.
Lemma fbytes_length x v off n : length (fbytes x v off n) = Z.to_nat n.
Proof. unfold fbytes. by rewrite length_fmap, length_seqZ. Qed.
Lemma fbytes_lookup x v off n j : (j < Z.to_nat n)%nat -> fbytes x v off n !! j = Some (fbyte x v (off + Z.of_nat j)).
Proof. intros. unfold fbytes. rewrite list_lookup_fmap, lookup_seqZ_lt by lia. done. Qed.

(** Offsets inside one block. *)
Lemma off_in_block off j : 0 <= off -> 0 <= j -> off mod BSIZE + j < BSIZE ->
  (off + j) / BSIZE = off / BSIZE /\ (off + j) mod BSIZE = off mod BSIZE + j.
Proof.
  intros Ho Hj Hlt. pose proof (Z.mod_pos_bound off BSIZE eq_refl). pose proof (Z.div_mod off BSIZE ltac:(done)).
  split; symmetry; [apply (Z.div_unique_pos _ _ _ (off mod BSIZE + j))|apply (Z.mod_unique_pos _ _ (off / BSIZE))]; lia.
Qed.

Lemma slice_fbytes x v off m : 0 <= off -> 0 <= m -> off mod BSIZE + m <= BSIZE ->
  length (v (blk x v (off / BSIZE))) = Z.to_nat BSIZE ->
  slice (Z.to_nat (off mod BSIZE)) (Z.to_nat m) (v (blk x v (off / BSIZE))) = fbytes x v off m.
Proof.
  intros Ho Hm Hle Hl. pose proof (Z.mod_pos_bound off BSIZE eq_refl). apply list_eq. intros j.
  destruct (decide (j < Z.to_nat m)%nat) as [Hj|Hj].
  - rewrite slice_lookup, fbytes_lookup by done. unfold fbyte.
    destruct (off_in_block off (Z.of_nat j)) as [-> ->]; [lia|lia|lia|].
    destruct (lookup_lt_is_Some_2 (v (blk x v (off / BSIZE))) (Z.to_nat (off mod BSIZE) + j)) as [y Hy]; [lia|].
    rewrite Hy. f_equal. symmetry. apply nth_lookup_Some. rewrite <- Hy. f_equal. lia.
  - rewrite (lookup_ge_None_2 (fbytes x v off m)) by (rewrite fbytes_length; lia).
    apply lookup_ge_None_2. unfold slice. rewrite length_take. lia.
Qed.

Lemma slice_all (n : nat) (l : list Z) : (length l <= n)%nat -> slice 0 n l = l.
Proof. intros. unfold slice. rewrite drop_0. by apply take_ge. Qed.

(** One round transfers [m] bytes of one block. *)
Lemma chunk off n tot : 0 <= off -> tot < n ->
  let m := min (n - tot) (BSIZE - off mod BSIZE) in
  0 < m <= n - tot /\ off mod BSIZE + m <= BSIZE /\ (m < n - tot -> (off + m) mod BSIZE = 0 /\ (off + m) / BSIZE = off / BSIZE + 1).
Proof.
  intros Ho Ht m. pose proof (Z.mod_pos_bound off BSIZE eq_refl). pose proof (Z.div_mod off BSIZE ltac:(done)).
  unfold m, min. destruct (Z.ltb_spec (n - tot) (BSIZE - off mod BSIZE)); split_and!; try lia. intros _.
  replace (off + (BSIZE - off mod BSIZE)) with ((off / BSIZE + 1) * BSIZE) by lia.
  rewrite Z.mod_mul, Z.div_mul by done. done.
Qed.

Lemma readi_loop_ok fuel s bl v i nb dst off n tot acc : tx (fl s) bl v ∅ [] -> (length bl < nbuf)%nat ->
  file_ok (start (lg (fl s))) v (itable s i) nb -> 0 <= off -> tot <= n -> off + (n - tot) <= nb * BSIZE ->
  n - tot < Z.of_nat fuel ->
  wp (readi_loop fuel i 0 dst off n tot acc) (fun r s' => keeps s s' /\ tx (fl s') bl v ∅ [] /\
    r = (n, acc ++ fbytes (itable s i) v off (n - tot))) s.
Proof.
  revert s dst off tot acc. induction fuel as [|f IH]; intros s dst off tot acc T Hn F Ho Ht Hle Hf; [lia|].
  cbn [readi_loop]. destruct (Z.ltb_spec tot n) as [Hlt|Hge].
  2:{ rewrite wp_ret. replace (n - tot) with 0 by lia. split_and!; [done|done|]. rewrite app_nil_r. do 2 f_equal. lia. }
  destruct (chunk off n tot Ho Hlt) as (Hm & Hmb & _). set (m := min (n - tot) (BSIZE - off mod BSIZE)) in *.
  assert (Hbn : 0 <= off / BSIZE < nb).
  { split; [by apply Z.div_pos|]. apply Z.div_lt_upper_bound; [done|]. unfold BSIZE in *. lia. }
  destruct (fo_blk _ _ _ _ F _ Hbn) as (Hpos & _ & Hlen).
  rewrite wp_bind. eapply (bmap_ok s bl v i nb); try done. intros s1 K1 T1. rewrite (proj2 (Z.eqb_neq _ _)) by lia.
  eapply f_bread; [exact T1|unfold is_u32; lia|apply held_empty|rewrite map_size_empty; lia|]. intros b s2 K2 Hb2 T2. cbv zeta.
  eapply f_data; [exact T2|apply lookup_insert_eq|]. unfold f_copyout. change (c_true 0) with false. cbv iota.
  rewrite wp_bind, wp_ret. change (0 =? -1) with false. cbv iota.
  eapply f_brelse; [exact T2|apply lookup_insert_eq|right; apply not_elem_of_nil|]. intros s3 K3 T3.
  rewrite delete_insert_id in T3 by done. assert (K : keeps s s3) by (by rewrite K1, K2).
  assert (Ei : itable s3 = itable s) by (by destruct K as (_ & E & _)).
  fold m. rewrite slice_fbytes by (done || lia).
  eapply wp_mono; [apply (IH s3); try done; rewrite ?(keeps_start _ _ K), ?Ei; try done; lia|].
  cbn beta. intros r s4 (K4 & T4 & ->). split_and!; [by rewrite K|done|]. rewrite Ei, <- app_assoc.
  rewrite <- fbytes_app by lia. do 2 f_equal. f_equal. lia.
Qed.

(** A read whose bytes lie in allocated blocks. *)
Lemma readi_within s bl v i nb dst off n : tx (fl s) bl v ∅ [] -> (length bl < nbuf)%nat ->
  file_ok (start (lg (fl s))) v (itable s i) nb ->
  0 <= off <= isize (itable s i) -> 0 <= n -> off + n < 2 ^ 32 ->
  let k := if isize (itable s i) <? off + n then isize (itable s i) - off else n in
  off + k <= nb * BSIZE ->
  wp (readi i 0 dst off n) (fun r s' => keeps s s' /\ tx (fl s') bl v ∅ [] /\ r = (k, fbytes (itable s i) v off k)) s.
Proof.
  intros T Hn F Ho Hn0 Hov k Hk'. unfold readi, iat. rewrite wp_bind, wp_gets.
  rewrite (proj2 (Z.ltb_ge _ _)) by lia. rewrite u32_id by (unfold is_u32; lia). rewrite (proj2 (Z.ltb_ge _ _)) by lia.
  cbn [orb]. fold k. assert (0 <= k) as Hk by (unfold k; destruct (Z.ltb_spec (isize (itable s i)) (off + n)); lia).
  pose proof (readi_loop_ok (S (Z.to_nat k)) s bl v i nb dst off k 0 [] T Hn F) as W.
  rewrite Z.sub_0_r in W. apply W; lia.
Qed.

Lemma readi_ok s bl v i nb dst off n : tx (fl s) bl v ∅ [] -> (length bl < nbuf)%nat ->
  file_ok (start (lg (fl s))) v (itable s i) nb -> isize (itable s i) <= nb * BSIZE ->
  0 <= off <= isize (itable s i) -> 0 <= n -> off + n < 2 ^ 32 ->
  let k := if isize (itable s i) <? off + n then isize (itable s i) - off else n in
  wp (readi i 0 dst off n) (fun r s' => keeps s s' /\ tx (fl s') bl v ∅ [] /\ r = (k, fbytes (itable s i) v off k)) s.
Proof.
  intros T Hn F Hsz Ho Hn0 Hov k. eapply readi_within; try done.
  destruct (Z.ltb_spec (isize (itable s i)) (off + n)); lia.
Qed.

(** ** Writing *)

(** [v'] is [v] with the file's bytes from [off] on replaced by [bs]. *)
Record file_written (st : Z) x (nb : Z) v v' (off : Z) (bs : list Z) : Prop := {
  fw_file : file_ok st v' x nb;
  fw_blk bn : 0 <= bn < nb -> blk x v' bn = blk x v bn;
  fw_byte k : 0 <= k < nb * BSIZE ->
    fbyte x v' k = if (off <=? k) && (k <? off + Z.of_nat (length bs)) then nth (Z.to_nat (k - off)) bs 0 else fbyte x v k;
  fw_other n : (forall bn, 0 <= bn < nb -> n <> blk x v bn) -> v' n = v n
}.

Lemma file_written_nil st x nb v off : file_ok st v x nb -> file_written st x nb v v off [].
Proof.
  intros F. split; try done. intros k Hk. cbn [length Z.of_nat].
  destruct (_ && _) eqn:E; [breflect; lia|done].
Qed.

Lemma file_written_trans st x nb v v1 v2 off bs bs' :
  file_written st x nb v v1 off bs -> file_written st x nb v1 v2 (off + Z.of_nat (length bs)) bs' ->
  file_written st x nb v v2 off (bs ++ bs').
Proof.
  intros [F1 B1 Y1 O1] [F2 B2 Y2 O2]. split; [done| | |].
  - intros bn Hb. by rewrite B2, B1.
  - intros k Hk. rewrite Y2, Y1 by done. rewrite length_app, Nat2Z.inj_add, Z.add_assoc.
    destruct (Z.leb_spec off k), (Z.ltb_spec k (off + Z.of_nat (length bs)));
      destruct (Z.leb_spec (off + Z.of_nat (length bs)) k), (Z.ltb_spec k (off + Z.of_nat (length bs) + Z.of_nat (length bs')));
      cbn; try lia; try done.
    + rewrite app_nth1 by lia. done.
    + rewrite app_nth2 by lia. f_equal. lia.
  - intros n Hn. rewrite O2, O1; [done|done|]. intros bn Hb. rewrite B1 by done. by apply Hn.
Qed.

(** Storing [bs] into the block of offset [off]. *)
Lemma file_written_splice st x nb v off bs :
  file_ok st v x nb -> 0 <= off -> off / BSIZE < nb -> off mod BSIZE + Z.of_nat (length bs) <= BSIZE ->
  let a := blk x v (off / BSIZE) in
  file_written st x nb v (set_block v a (splice (Z.to_nat (off mod BSIZE)) bs (v a))) off bs.
Proof.
  intros F Ho Hbn Hfit a. pose proof (Z.mod_pos_bound off BSIZE eq_refl) as Hm.
  assert (Hbn' : 0 <= off / BSIZE < nb) by (split; [by apply Z.div_pos|done]).
  destruct (fo_blk _ _ _ _ F _ Hbn') as (Hpos & Hlog & Hlen). fold a in Hpos, Hlog, Hlen.
  set (v' := set_block _ _ _).
  assert (Hind : NDIRECT < nb -> v' (addr_at x NDIRECT) = v (addr_at x NDIRECT)).
  { intros Hn. destruct (fo_ind _ _ _ _ F Hn) as [_ Hne]. apply set_block_ne. apply not_eq_sym. by apply Hne. }
  assert (Hblk : forall bn, 0 <= bn < nb -> blk x v' bn = blk x v bn).
  { intros bn Hb. unfold blk. destruct (Z.ltb_spec bn NDIRECT); [done|]. rewrite Hind by lia. done. }
  assert (Hsl : (Z.to_nat (off mod BSIZE) + length bs <= length (v a))%nat) by (rewrite Hlen; lia).
  assert (Hlen' : forall n, length (v n) = Z.to_nat BSIZE -> length (v' n) = Z.to_nat BSIZE).
  { intros n Hn. unfold v', set_block. case_decide; [|done]. by rewrite splice_length. }
  split; [split| | |].
  - apply F.
  - intros bn Hb. destruct (fo_blk _ _ _ _ F bn Hb) as (H1 & H2 & H3). rewrite Hblk by done.
    split; [done|split; [done|by apply Hlen']].
  - intros bn bn' H1 H2. rewrite !Hblk by done. by apply F.
  - intros Hn. destruct (fo_ind _ _ _ _ F Hn) as [(H1 & H2 & H3) H4]. split.
    + split; [done|split; [done|by apply Hlen']].
    + intros bn Hb. rewrite Hblk by done. by apply H4.
  - done.
  - intros k Hk. unfold fbyte. assert (Hkb : 0 <= k / BSIZE < nb).
    { split; [apply Z.div_pos; [lia|done]|]. apply Z.div_lt_upper_bound; [done|]. lia. }
    rewrite Hblk by done. pose proof (Z.mod_pos_bound k BSIZE eq_refl).
    pose proof (Z.div_mod k BSIZE ltac:(done)). pose proof (Z.div_mod off BSIZE ltac:(done)).
    destruct (decide (k / BSIZE = off / BSIZE)) as [E|E].
    + rewrite E. fold a. unfold v' at 1. rewrite set_block_eq. rewrite !nth_lookup.
      destruct ((off <=? k) && (k <? off + Z.of_nat (length bs))) eqn:Ein.
      * breflect. rewrite splice_lookup_in by lia. f_equal. f_equal. lia.
      * rewrite splice_lookup_out; [done|done|]. apply andb_false_iff in Ein as [Ein|Ein]; breflect; lia.
    + unfold v' at 1. rewrite set_block_ne.
      2:{ intros Ea. apply E. by apply (fo_inj _ _ _ _ F). }
      destruct ((off <=? k) && (k <? off + Z.of_nat (length bs))) eqn:Ein; [|done]. breflect.
      exfalso. apply E. destruct (off_in_block off (k - off)) as [E' _]; [done|lia|lia|].
      by replace (off + (k - off)) with k in E' by lia.
  - intros n Hn. apply set_block_ne. by apply Hn.
Qed.

(** The number of blocks [r] bytes from [off] on touch. *)
Definition touched (off r : Z) : Z := if r <=? 0 then 0 else (off + r - 1) / BSIZE - off / BSIZE + 1.

Lemma touched_step off r m : 0 <= off -> 0 < m <= r ->
  (m < r -> (off + m) mod BSIZE = 0 /\ (off + m) / BSIZE = off / BSIZE + 1) ->
  1 + touched (off + m) (r - m) <= touched off r.
Proof.
  intros Ho Hm Hd. unfold touched. destruct (Z.leb_spec r 0); [lia|]. destruct (Z.leb_spec (r - m) 0).
  - assert (off / BSIZE <= (off + r - 1) / BSIZE) by (apply Z.div_le_mono; [done|lia]). lia.
  - destruct (Hd ltac:(lia)) as [_ ->]. replace (off + m + (r - m) - 1) with (off + r - 1) by lia. lia.
Qed.

Lemma writei_loop_ok fuel s bl v i nb src kb off n tot : tx (fl s) bl v ∅ [] ->
  file_ok (start (lg (fl s))) v (itable s i) nb -> 0 <= off -> 0 <= tot <= n -> off + (n - tot) <= nb * BSIZE ->
  n <= Z.of_nat (length kb) -> Z.of_nat (length bl) + touched off (n - tot) <= LOGBLOCKS -> n - tot < Z.of_nat fuel ->
  wp (writei_loop fuel i 0 src kb off n tot) (fun r s' => keeps s s' /\ r = (n, off + (n - tot)) /\ exists v' bl',
    tx (fl s') bl' v' ∅ [] /\ Z.of_nat (length bl') <= Z.of_nat (length bl) + touched off (n - tot) /\
    file_written (start (lg (fl s))) (itable s i) nb v v' off (slice (Z.to_nat tot) (Z.to_nat (n - tot)) kb)) s.
Proof.
  revert s bl v src off tot. induction fuel as [|f IH]; intros s bl v src off tot T F Ho Ht Hle Hkb Hbl Hf; [lia|].
  cbn [writei_loop]. destruct (Z.ltb_spec tot n) as [Hlt|Hge].
  2:{ rewrite wp_ret. replace (n - tot) with 0 by lia. split_and!; [done|f_equal; lia|]. exists v, bl.
      split_and!; [done|unfold touched; cbn; lia|]. by apply file_written_nil. }
  destruct (chunk off n tot Ho Hlt) as (Hm & Hmb & Hmd). set (m := min (n - tot) (BSIZE - off mod BSIZE)) in *.
  pose proof (touched_step off (n - tot) m Ho Hm Hmd) as Hts.
  assert (H0t : 0 <= touched (off + m) (n - tot - m)).
  { unfold touched. destruct (Z.leb_spec (n - tot - m) 0); [lia|].
    assert ((off + m) / BSIZE <= (off + m + (n - tot - m) - 1) / BSIZE) by (apply Z.div_le_mono; [done|lia]). lia. }
  assert (Hbn : 0 <= off / BSIZE < nb).
  { split; [by apply Z.div_pos|]. apply Z.div_lt_upper_bound; [done|]. unfold BSIZE in *. lia. }
  destruct (fo_blk _ _ _ _ F _ Hbn) as (Hpos & Hlog & Hlen).
  assert (Hnb : (length bl < nbuf)%nat) by (unfold LOGBLOCKS, MAXOPBLOCKS in *; change nbuf with 30%nat; lia).
  rewrite wp_bind. eapply (bmap_ok s bl v i nb); try done. intros s1 K1 T1. rewrite (proj2 (Z.eqb_neq _ _)) by lia.
  eapply f_bread; [exact T1|unfold is_u32; lia|apply held_empty|rewrite map_size_empty; lia|]. intros b s2 K2 Hb2 T2. cbv zeta.
  eapply f_data; [exact T2|apply lookup_insert_eq|]. unfold f_copyin. change (c_true 0) with false. cbv iota.
  rewrite wp_bind, wp_ret. change (0 =? -1) with false. cbv iota. fold m.
  set (bs := slice (Z.to_nat tot) (Z.to_nat m) kb).
  assert (Hbs : length bs = Z.to_nat m) by (apply slice_length; lia).
  assert (K12 : keeps s s2) by (by rewrite K1).
  eapply f_update; [exact T2|done|lia|lia|by rewrite (keeps_start _ _ K12)|]. intros s3 K3 T3.
  assert (K : keeps s s3) by (by rewrite K12). assert (Ei : itable s3 = itable s) by (by destruct K as (_ & E & _)).
  pose proof (file_written_splice _ _ _ _ off bs F Ho (proj2 Hbn) ltac:(lia)) as W. cbv zeta in W.
  set (v1 := set_block v _ _) in *. pose proof (txn_add_length (blk (itable s i) v (off / BSIZE)) bl) as Hal.
  eapply wp_mono; [apply (IH s3 (txn_add (blk (itable s i) v (off / BSIZE)) bl) v1); try done; rewrite ?(keeps_start _ _ K), ?Ei; try lia|].
  - apply (fw_file _ _ _ _ _ _ _ W).
  - replace (n - (tot + m)) with (n - tot - m) by lia. lia.
  - cbn beta. replace (n - (tot + m)) with (n - tot - m) by lia. intros r s4 (K4 & -> & v' & bl' & T4 & Hl4 & W4).
    split_and!; [by rewrite K|f_equal; lia|]. exists v', bl'. split_and!; [done|lia|].
    rewrite (keeps_start _ _ K), Ei in W4.
    replace (slice (Z.to_nat tot) (Z.to_nat (n - tot)) kb) with (bs ++ slice (Z.to_nat (tot + m)) (Z.to_nat (n - tot - m)) kb).
    + eapply file_written_trans; [exact W|]. by replace (off + Z.of_nat (length bs)) with (off + m) by lia.
    + unfold bs, slice. replace (Z.to_nat (tot + m)) with (Z.to_nat tot + Z.to_nat m)%nat by lia.
      rewrite <- drop_drop. replace (Z.to_nat (n - tot)) with (Z.to_nat m + Z.to_nat (n - tot - m))%nat by lia.
      apply take_take_drop.
Qed.

(** The inode's own disk block, apart from the file's blocks. *)
Definition inode_block_ok (st : Z) (sb : superblock) v x (nb : Z) : Prop :=
  block_ok st v (IBLOCK (inum x) sb) /\ (forall bn, 0 <= bn < nb -> IBLOCK (inum x) sb <> blk x v bn) /\
  (NDIRECT < nb -> IBLOCK (inum x) sb <> addr_at x NDIRECT).

Lemma iupdate_ok s bl v i : tx (fl s) bl v ∅ [] -> Z.of_nat (length bl) < LOGBLOCKS ->
  block_ok (start (lg (fl s))) v (IBLOCK (inum (itable s i)) (fsb s)) ->
  wp (iupdate i) (fun _ s' => keeps s s' /\
    let ib := IBLOCK (inum (itable s i)) (fsb s) in
    tx (fl s') (txn_add ib bl) (set_block v ib (put_dinode (itable s i) (v ib) (dip_off (inum (itable s i))))) ∅ []) s.
Proof.
  intros T Hl (Hp & Hlog & _). unfold iupdate, iat. rewrite wp_bind, wp_gets, wp_bind, wp_gets.
  eapply f_bread; [exact T|unfold is_u32; lia|apply held_empty| |].
  { rewrite map_size_empty. unfold LOGBLOCKS, MAXOPBLOCKS in *. change nbuf with 30%nat. lia. }
  intros b s1 K1 Hb T1. eapply f_data; [exact T1|apply lookup_insert_eq|].
  eapply f_update_last; [exact T1|done|done|lia|by rewrite (keeps_start _ _ K1)|].
  intros s2 K2 T2. split; [by rewrite K1|done].
Qed.

Lemma file_ok_isize st v x nb n : file_ok st v x nb -> file_ok st v (set_isize n x) nb.
Proof. intros [H1 H2 H3 H4]. split; [exact H1|exact H2|exact H3|exact H4]. Qed.

(** A write to a block that is none of the file's leaves the file as it is. *)
Lemma file_ok_other st v x nb n d : file_ok st v x nb ->
  (forall bn, 0 <= bn < nb -> n <> blk x v bn) -> (NDIRECT < nb -> n <> addr_at x NDIRECT) ->
  file_ok st (set_block v n d) x nb /\ (forall bn, 0 <= bn < nb -> blk x (set_block v n d) bn = blk x v bn) /\
  (forall k, 0 <= k < nb * BSIZE -> fbyte x (set_block v n d) k = fbyte x v k).
Proof.
  intros F Hn Hi. set (v' := set_block v n d).
  assert (Hblk : forall bn, 0 <= bn < nb -> blk x v' bn = blk x v bn).
  { intros bn Hb. unfold blk. destruct (Z.ltb_spec bn NDIRECT); [done|]. unfold v'. rewrite set_block_ne; [done|]. apply not_eq_sym, Hi. lia. }
  assert (Hv : forall bn, 0 <= bn < nb -> v' (blk x v bn) = v (blk x v bn)).
  { intros bn Hb. apply set_block_ne, not_eq_sym. by apply Hn. }
  split_and!; [split| |].
  - apply F.
  - intros bn Hb. rewrite Hblk by done. destruct (fo_blk _ _ _ _ F bn Hb) as (H1 & H2 & H3). split; [done|split; [done|]]. by rewrite Hv.
  - intros bn bn' H1 H2. rewrite !Hblk by done. by apply F.
  - intros Hnb. destruct (fo_ind _ _ _ _ F Hnb) as [(H1 & H2 & H3) H4]. split; [split; [done|split; [done|]]|].
    + unfold v'. rewrite set_block_ne; [done|]. by apply not_eq_sym, Hi.
    + intros bn Hb. rewrite Hblk by done. by apply H4.
  - done.
  - intros k Hk. unfold fbyte. assert (0 <= k / BSIZE < nb).
    { split; [apply Z.div_pos; [lia|done]|]. apply Z.div_lt_upper_bound; [done|]. lia. }
    by rewrite Hblk, Hv.
Qed.

(** The file's bytes with [bs] laid over them at [off]. *)
Definition overlay (f : Z -> Z) (off : Z) (bs : list Z) (k : Z) : Z :=
  if (off <=? k) && (k <? off + Z.of_nat (length bs)) then nth (Z.to_nat (k - off)) bs 0 else f k.

Lemma writei_ok s bl v i nb src kb off n : tx (fl s) bl v ∅ [] ->
  file_ok (start (lg (fl s))) v (itable s i) nb -> inode_block_ok (start (lg (fl s))) (fsb s) v (itable s i) nb ->
  0 <= off <= isize (itable s i) -> off + n <= nb * BSIZE -> n = Z.of_nat (length kb) ->
  Z.of_nat (length bl) + touched off n < LOGBLOCKS ->
  wp (writei i 0 src kb off n) (fun r s' => r = n /\ fsb s' = fsb s /\
    start (lg (fl s')) = start (lg (fl s)) /\
    itable s' i = set_isize (if isize (itable s i) <? off + n then off + n else isize (itable s i)) (itable s i) /\
    exists v' bl', tx (fl s') bl' v' ∅ [] /\ Z.of_nat (length bl') <= Z.of_nat (length bl) + touched off n + 1 /\
      file_ok (start (lg (fl s))) v' (itable s' i) nb /\
      forall k, 0 <= k < nb * BSIZE -> fbyte (itable s' i) v' k = overlay (fbyte (itable s i) v) off kb k) s.
Proof.
  intros T F (Hib & Hib1 & Hib2) Ho Hle Hkb Hbl. pose proof (fo_nb _ _ _ _ F) as Hnb.
  assert (HM : MAXFILE = 268) by done. assert (HBS : BSIZE = 1024) by done.
  unfold writei, iat. rewrite wp_bind, wp_gets.
  rewrite (proj2 (Z.ltb_ge _ _)) by lia. rewrite u32_id by (unfold is_u32; lia). rewrite (proj2 (Z.ltb_ge _ _)) by lia.
  cbn [orb]. rewrite (proj2 (Z.ltb_ge _ _)) by lia. rewrite wp_bind.
  eapply wp_mono; [apply (writei_loop_ok (S (Z.to_nat n)) s bl v i nb src kb off n 0); rewrite ?Z.sub_0_r; try done; lia|].
  cbn beta. rewrite Z.sub_0_r. intros r s1 (K1 & -> & v1 & bl1 & T1 & Hl1 & W1).
  rewrite slice_all in W1 by lia. destruct K1 as (Eb & Ei & Eu & El & _).
  rewrite wp_bind, wp_gets, Ei, wp_bind.
  set (x' := set_isize (if isize (itable s i) <? off + n then off + n else isize (itable s i)) (itable s i)).
  eapply (wp_mono _ (fun _ s2 => fsb s2 = fsb s /\ fl s2 = fl s1 /\ itable s2 i = x')).
  { unfold x'. destruct (_ <? _); [unfold iupd; rewrite wp_modify|rewrite wp_ret]; cbn; rewrite ?Eb, ?Ei.
    - by rewrite decide_True.
    - by destruct (itable s i). }
  intros [] s2 (Eb2 & El2 & Ei2). rewrite wp_bind.
  assert (Hx : blk x' v1 = blk (itable s i) v1 /\ fbyte x' v1 = fbyte (itable s i) v1) by done.
  set (ib := IBLOCK (inum (itable s i)) (fsb s)) in *.
  eapply wp_mono; [apply (iupdate_ok s2 bl1 v1 i)|].
  - by rewrite El2.
  - lia.
  - rewrite Ei2, El2, El, Eb2. change (inum x') with (inum (itable s i)). fold ib. destruct Hib as (H1 & H2 & H3).
    split; [done|split; [done|]]. by rewrite (fw_other _ _ _ _ _ _ _ W1 ib Hib1).
  - rewrite Ei2, Eb2. change (inum x') with (inum (itable s i)). fold ib. cbv zeta. cbn beta.
    intros [] s3 ((Eb3 & Ei3 & _ & El3 & _) & T3). rewrite wp_ret. rewrite Eb3, El3, Ei3, Ei2, El2.
    split_and!; [done|done|done|done|]. eexists _, _. split; [exact T3|].
    destruct (file_ok_other _ v1 x' nb ib (put_dinode x' (v1 ib) (dip_off (inum (itable s i)))) (file_ok_isize _ _ _ _ _ (fw_file _ _ _ _ _ _ _ W1))) as (F3 & _ & Y3).
    { intros bn Hb. change (blk x' v1 bn) with (blk (itable s i) v1 bn). rewrite (fw_blk _ _ _ _ _ _ _ W1) by done. by apply Hib1. }
    { exact Hib2. }
    split_and!; [|exact F3|].
    + pose proof (txn_add_length ib bl1). lia.
    + intros k Hk. rewrite Y3 by done. change (fbyte x' v1 k) with (fbyte (itable s i) v1 k).
      rewrite (fw_byte _ _ _ _ _ _ _ W1) by done. done.
Qed.
End FsData.

(** C7: what [writei] writes, [readi] reads back.  For a file whose blocks are
    allocated, writing the bytes [kb] at [off] returns their number, and any later
    [readi] within the file's new size returns the old bytes with [kb] laid over
    them: across block boundaries, through the indirect block, and with the size
    extended when the write ends past it. *)
Theorem writei_readi_roundtrip {B : Type} `{BC : BufCache B} `{BL : !BufCacheLaws B} {U : Type} `{UM : UserMem U}
    (s : fs (B := B) (U := U)) bl v i nb src kb off n :
  tx (fl s) bl v ∅ [] -> file_ok (start (lg (fl s))) v (itable s i) nb ->
  inode_block_ok (start (lg (fl s))) (fsb s) v (itable s i) nb ->
  0 <= off <= isize (itable s i) -> isize (itable s i) <= nb * BSIZE -> off + n <= nb * BSIZE ->
  n = Z.of_nat (length kb) -> Z.of_nat (length bl) + touched off n + 1 < LOGBLOCKS ->
  wp (writei i 0 src kb off n) (fun r s' => r = n /\
    isize (itable s' i) = (if isize (itable s i) <? off + n then off + n else isize (itable s i)) /\
    forall dst o k, 0 <= o -> 0 <= k -> o + k <= isize (itable s' i) ->
      wp (readi i 0 dst o k) (fun rd _ => rd = (k, overlay (fbyte (itable s i) v) off kb <$> seqZ o k)) s') s.
Proof.
  intros T F Hib Ho Hsz Hle Hn Hbl. pose proof (fo_nb _ _ _ _ F) as Hnb.
  assert (HM : MAXFILE = 268) by done. assert (HBS : BSIZE = 1024) by done.
  eapply wp_mono; [apply (writei_ok s bl v i nb src kb off n); try done; lia|]. cbn beta.
  intros r s' (-> & Eb & El & Ei & v' & bl' & T' & Hl' & F' & Y'). rewrite Ei. cbn [isize set_isize]. split_and!; [done|done|].
  intros dst o k H0 Hk Hok. assert (Hsz' : isize (itable s' i) <= nb * BSIZE).
  { rewrite Ei. cbn [isize set_isize]. destruct (Z.ltb_spec (isize (itable s i)) (off + n)); lia. }
  pose proof (readi_ok s' bl' v' i nb dst o k T') as W. rewrite El in W.
  eapply wp_mono; [apply W|].
  - unfold LOGBLOCKS, MAXOPBLOCKS in *. change nbuf with 30%nat. lia.
  - exact F'.
  - exact Hsz'.
  - rewrite Ei. cbn [isize set_isize]. lia.
  - done.
  - rewrite Ei in Hsz'. cbn in Hsz'. lia.
  - cbn beta. rewrite Ei. cbn [isize set_isize]. rewrite (proj2 (Z.ltb_ge _ _)) by lia. intros rd s2 (_ & _ & ->). f_equal.
    unfold fbytes. apply list_fmap_ext. intros j y Hy. apply lookup_seqZ in Hy as [-> Hj].
    rewrite <- Y' by (rewrite Ei in Hsz'; cbn in Hsz'; lia). by rewrite Ei.
Qed.

(** A file of 1500 bytes in blocks 100 and 101; ten bytes written across the
    boundary between them. *)
Definition demo_inode : inode :=
  Inode 1 5 1 (SleepLock.Sl 1 7) 1 T_FILE 0 0 1 1500 (100 :: 101 :: replicate 11 0).
Definition demo_file_fs (c : bst) : fs (B := bst) (U := Memory.memory) :=
  Fs (fl (demo_fs c)) demo_sb (fun _ => demo_inode) (fun _ => 0).

Lemma demo_block n : 100 <= n < 200 -> block_ok 2 demo_disk n.
Proof.
  intros Hn. split; [lia|]. split; [unfold in_log, LOGBLOCKS, MAXOPBLOCKS; lia|].
  unfold demo_disk. rewrite (proj2 (Z.eqb_neq _ _)) by lia. reflexivity.
Qed.

Lemma demo_blk bn : 0 <= bn < 2 -> blk demo_inode demo_disk bn = 100 + bn.
Proof. intros. assert (bn = 0 \/ bn = 1) as [->| ->] by lia; reflexivity. Qed.

Lemma demo_file_ok : file_ok 2 demo_disk demo_inode 2.
Proof.
  split.
  - split; vm_compute; congruence.
  - intros bn Hb. rewrite demo_blk by done. apply demo_block. lia.
  - intros bn bn' H1 H2. rewrite !demo_blk by done. lia.
  - unfold NDIRECT. lia.
Qed.

Lemma demo_inode_block_ok : inode_block_ok 2 demo_sb demo_disk demo_inode 2.
Proof.
  assert (E : IBLOCK (inum demo_inode) demo_sb = 33) by reflexivity. unfold inode_block_ok. rewrite E. split_and!.
  - split; [lia|]. split; [unfold in_log, LOGBLOCKS, MAXOPBLOCKS; lia|reflexivity].
  - intros bn Hb. rewrite demo_blk by done. lia.
  - unfold NDIRECT. lia.
Qed.

Lemma writei_readi_roundtrip_witness :
  exists c, bc_rep 7 1 c (fresh_cache demo_disk) /\
    wp (writei (BC := bio_cache 7 1) (UM := flat_user_mem 0) 0 0 0 [1; 2; 3; 4; 5; 6; 7; 8; 9; 10] 1020 10)
      (fun r s' => r = 10 /\
        wp (readi (BC := bio_cache 7 1) (UM := flat_user_mem 0) 0 0 0 1022 4)
          (fun rd _ => rd = (4, [3; 4; 5; 6])) s') (demo_file_fs c).
Proof.
  destruct (proj1 (wp_ok _ _ _) (binit_ok 7 1 demo_disk ltac:(lia))) as ([] & c & _ & Hc). exists c. split; [exact Hc|].
  pose proof (bio_laws 7 1) as BL.
  eapply wp_mono; [apply (writei_readi_roundtrip (BC := bio_cache 7 1) (UM := flat_user_mem 0)
    (demo_file_fs c) [] demo_disk 0 2 0 [1; 2; 3; 4; 5; 6; 7; 8; 9; 10] 1020 10)|].
  - exact (demo_tx c Hc).
  - exact demo_file_ok.
  - exact demo_inode_block_ok.
  - cbn. lia.
  - vm_compute. congruence.
  - vm_compute. congruence.
  - reflexivity.
  - vm_compute. reflexivity.
  - cbn beta. intros r s' (-> & E & H). split; [reflexivity|].
    eapply wp_mono; [apply (H 0 1022 4); [lia|lia|rewrite E; vm_compute; congruence]|]. cbn beta. intros rd _ ->. reflexivity.
Defined.
