(* ===== verification/FsName.v ===== *)
(** * From a path to an open inode: [iget], [ilock], [dirlookup], [namex]

    What the kernel does with a path of one element below the root, starting from
    an empty inode table: which slots of the table it takes, which inode it
    returns, and that nothing on the disk changes. *)
From stdpp Require Import gmap.
From S2P Require Import Prelude Machine Spinlock Bytes Bio Log Txn UserMem Fs FsPath FsAlloc FsData.

Import SleepLock.

Section FsName.
Context {B : Type} `{BC : BufCache B} `{BL : !BufCacheLaws B} {U : Type} `{UM : UserMem U} (me : Z).
Implicit Types (s : fs (B := B) (U := U)) (v : Z -> block) (x y : inode).

(** The contents of a file depend on its addresses only. *)
Lemma blk_addrs x y v : addrs x = addrs y -> blk x v = blk y v.
Proof. intros E. unfold blk, addr_at. by rewrite E. Qed.
Lemma fbytes_addrs x y v off n : addrs x = addrs y -> fbytes x v off n = fbytes y v off n.
Proof. intros E. unfold fbytes, fbyte. by rewrite (blk_addrs x y v E). Qed.
Lemma file_ok_addrs st v x y nb : addrs x = addrs y -> file_ok st v x nb -> file_ok st v y nb.
Proof.
  intros E [H1 H2 H3 H4]. unfold addr_at in *. rewrite (blk_addrs x y v E) in *. split; try done. unfold addr_at. by rewrite <- E.
Qed.

(** The state with entry [i] of the table changed. *)
Definition upd_inode (i : nat) (f : inode -> inode) s : fs (B := B) (U := U) :=
  Fs (fl s) (fsb s) (fun j => if decide (j = i) then f (itable s j) else itable s j) (fu s).
Lemma upd_eq i f s : itable (upd_inode i f s) i = f (itable s i).
Proof. cbn. by rewrite decide_True. Qed.
Lemma upd_ne i j f s : j <> i -> itable (upd_inode i f s) j = itable s j.
Proof. intros. cbn. by rewrite decide_False. Qed.

(** ** The inode table *)

Definition in_use (x : inode) (dev inm : Z) : Prop := 0 < iref x /\ idev x = dev /\ inum x = inm.

Lemma iget_scan_ok n s dev inm i empty Q :
  (forall j, (i <= j < i + n)%nat -> ~ in_use (itable s j) dev inm) ->
  (match empty with
   | Some e => Q (None, Some e) s
   | None => exists e, (i <= e < i + n)%nat /\ iref (itable s e) = 0 /\
       (forall j, (i <= j < e)%nat -> iref (itable s j) <> 0) /\ Q (None, Some e) s
   end) ->
  wp (iget_scan n dev inm i empty) Q s.
Proof.
  revert i empty. induction n as [|n IH]; intros i empty Hu HQ; cbn [iget_scan].
  - destruct empty; [done|]. destruct HQ as (e & He & _). lia.
  - unfold iat. wp_steps.
    assert (E : (0 <? iref (itable s i)) && (idev (itable s i) =? dev) && (inum (itable s i) =? inm) = false).
    { apply not_true_is_false. intros H. breflect. apply (Hu i); [lia|done]. }
    rewrite E. apply IH; [intros j Hj; apply Hu; lia|]. destruct empty as [e|]; [done|].
    destruct HQ as (e & He & H0 & Hj & HQ). destruct (Z.eqb_spec (iref (itable s i)) 0) as [Hz|Hz].
    + assert (e = i) as -> by (destruct (decide (e = i)); [done|]; exfalso; apply (Hj i); [lia|done]). done.
    + exists e. split_and!; try done; [|lia|intros j Hj'; apply Hj; lia].
      destruct (decide (e = i)) as [->|]; [congruence|lia].
Qed.

(** An inode that is not in the table takes the first free slot. *)
Lemma iget_miss s dev inm e Q :
  (forall j, (j < Z.to_nat NINODE)%nat -> ~ in_use (itable s j) dev inm) ->
  (e < Z.to_nat NINODE)%nat -> iref (itable s e) = 0 -> (forall j, (j < e)%nat -> iref (itable s j) <> 0) ->
  Q e (upd_inode e (fun x => Inode dev inm 1 (ilk x) 0 (itype x) (imajor x) (iminor x) (nlink x) (isize x) (addrs x)) s) ->
  wp (iget dev inm) Q s.
Proof.
  intros Hu He H0 Hj HQ. unfold iget. wp_step. apply iget_scan_ok; [intros j ?; apply Hu; lia|].
  exists e. split_and!; [lia|lia|done|intros j ?; apply Hj; lia|]. unfold iupd. by wp_steps.
Qed.

(** The inode read from its block into a table entry, locked and valid. *)
Definition loaded v (sb : superblock) x : inode :=
  set_ivalid 1 (dinode_of (v (IBLOCK (inum x) sb)) (dip_off (inum x)) (set_ilk (Sl 1 me) x)).

Lemma ilock_load s v i Q : tx (fl s) [] v ∅ [] -> 1 <= iref (itable s i) -> locked (ilk (itable s i)) = 0 ->
  ivalid (itable s i) = 0 -> itype (loaded v (fsb s) (itable s i)) <> 0 ->
  (forall s', fsb s' = fsb s -> start (lg (fl s')) = start (lg (fl s)) -> tx (fl s') [] v ∅ [] ->
     (forall j, itable s' j = if decide (j = i) then loaded v (fsb s) (itable s j) else itable s j) -> Q tt s') ->
  wp (ilock me (Some i)) Q s.
Proof.
  intros T Hr Hl Hv Hty HQ. unfold ilock, iat. wp_step. rewrite wp_gets, (proj2 (Z.ltb_ge _ _)) by lia.
  unfold inode_acquire. wp_steps. unfold acquiresleep. wp_steps. rewrite Hl. change (negb (0 =? 0)) with false. cbv iota.
  wp_steps. set (s1 := set_lk i (Sl 1 me) s). assert (T1 : tx (fl s1) [] v ∅ []) by exact T.
  assert (E1 : itable s1 i = set_ilk (Sl 1 me) (itable s i)) by apply upd_eq.
  rewrite E1. cbn [ivalid set_ilk inum]. rewrite Hv. change (0 =? 0) with true. cbv iota. rewrite wp_bind, wp_gets.
  eapply f_bread; [exact T1|apply u32_range|apply held_empty|rewrite map_size_empty; change nbuf with 30%nat; cbn; lia|].
  intros b s2 K2 Hb T2. eapply f_data; [exact T2|apply lookup_insert_eq|]. unfold iupd. rewrite wp_bind, wp_modify.
  fold (upd_inode i (dinode_of (v (IBLOCK (inum (itable s i)) (fsb s1))) (dip_off (inum (itable s i)))) s2).
  set (s3 := upd_inode i _ s2). eapply (f_brelse s3); [exact T2|apply lookup_insert_eq|right; apply not_elem_of_nil|].
  intros s4 K4 T4. rewrite delete_insert_id in T4 by done. wp_steps.
  fold (upd_inode i (set_ivalid 1) s4). rewrite upd_eq. pose proof K4 as (F4 & I4 & _). pose proof K2 as (F2 & I2 & _).
  assert (E4 : set_ivalid 1 (itable s4 i) = loaded v (fsb s) (itable s i)).
  { rewrite I4. unfold s3. rewrite upd_eq, I2, E1. done. }
  rewrite E4, (proj2 (Z.eqb_neq _ _)) by done. wp_steps. apply HQ.
  - cbn. rewrite F4. cbn. by rewrite F2.
  - cbn. rewrite (keeps_start _ _ K4). cbn. by rewrite (keeps_start _ _ K2).
  - exact T4.
  - intros j. case_decide as E; [subst j; by rewrite upd_eq|]. rewrite upd_ne, I4 by done. unfold s3. rewrite upd_ne, I2 by done.
    by apply upd_ne.
Qed.

(** Unlocking and dropping one of several uses, or the last use of a linked inode. *)
Lemma iunlockput_ok s i Q : ilk (itable s i) = Sl 1 me -> 1 <= iref (itable s i) -> nlink (itable s i) <> 0 ->
  Q tt (upd_inode i (fun x => set_ref (iref x - 1) x) (set_lk i (Sl 0 0) s)) -> wp (iunlockput me i) Q s.
Proof.
  intros Hk Hr Hn HQ. unfold iunlockput, iunlock, inode_holding, iat. wp_steps. unfold holdingsleep. wp_steps.
  rewrite Hk. cbn [locked pid]. rewrite Z.eqb_refl, (proj2 (Z.ltb_ge _ _)) by lia. cbn [negb andb orb Z.eqb].
  unfold inode_release, releasesleep, wake_all. wp_steps. unfold iput, iat. wp_steps.
  assert (E : itable (set_lk i (Sl 0 0) s) i = set_ilk (Sl 0 0) (itable s i)) by apply upd_eq. rewrite E.
  cbn [nlink set_ilk]. rewrite (proj2 (Z.eqb_neq (nlink (itable s i)) 0)) by done. rewrite andb_false_r. unfold iupd. by wp_steps.
Qed.

(** ** Directories *)

(** Entry [e] of a directory. *)
Definition entry x v (e : nat) : list Z := fbytes x v (DIRENT * Z.of_nat e) DIRENT.
Definition hit (name de : list Z) : bool := negb (de_inum de =? 0) && (namecmp name (de_name de) =? 0).

(** The scan from entry [e0] reaches the first entry that matches. *)
Lemma dirlookup_loop_hit fuel s v dp nb name e0 e Q : tx (fl s) [] v ∅ [] ->
  file_ok (start (lg (fl s))) v (itable s dp) nb ->
  DIRENT * (Z.of_nat e + 1) <= isize (itable s dp) -> DIRENT * (Z.of_nat e + 1) <= nb * BSIZE ->
  (e0 <= e)%nat -> (e - e0 < fuel)%nat -> (forall j, (e0 <= j < e)%nat -> hit name (entry (itable s dp) v j) = false) ->
  hit name (entry (itable s dp) v e) = true ->
  (forall s', keeps s s' -> tx (fl s') [] v ∅ [] ->
     wp (iget (idev (itable s dp)) (de_inum (entry (itable s dp) v e))) (fun i => Q (Some (i, DIRENT * Z.of_nat e))) s') ->
  wp (dirlookup_loop fuel dp name (DIRENT * Z.of_nat e0)) Q s.
Proof.
  revert s e0. induction fuel as [|f IH]; intros s e0 T F Hs Hb He Hf Hmiss Hhit HQ; [lia|].
  cbn [dirlookup_loop]. unfold iat. wp_steps. set (x := itable s dp) in *. pose proof (fo_nb _ _ _ _ F) as Hnb.
  change DIRENT with 16 in *. change MAXFILE with 268 in Hnb. assert (EB : BSIZE = 1024) by done.
  rewrite (proj2 (Z.ltb_lt _ _)) by lia. wp_step. eapply wp_mono.
  { apply (readi_within s [] v dp nb); try done; fold x; try lia; [change nbuf with 30%nat; cbn; lia|].
    rewrite (proj2 (Z.ltb_ge _ _)) by lia. lia. }
  fold x. rewrite (proj2 (Z.ltb_ge (isize x) _)) by lia. cbn beta. intros r s1 (K & T1 & ->). cbv iota beta.
  change (negb (16 =? 16)) with false. cbv iota. change (fbytes x v (16 * Z.of_nat e0) 16) with (entry x v e0).
  assert (E1 : itable s1 dp = x) by (destruct K as (_ & -> & _); done).
  destruct (decide (e0 = e)) as [->|Hne].
  - unfold hit in Hhit. apply andb_prop in Hhit as [H1 H2]. apply negb_true_iff in H1. rewrite H1, H2. wp_step.
    eapply wp_mono; [by apply HQ|]. intros i s2 H. by wp_steps.
  - pose proof (Hmiss e0 ltac:(lia)) as Hm. rewrite u32_id by (unfold is_u32; lia).
    replace (16 * Z.of_nat e0 + 16) with (16 * Z.of_nat (S e0)) by lia.
    assert (W : wp (dirlookup_loop f dp name (16 * Z.of_nat (S e0))) Q s1).
    { apply (IH s1 (S e0)); rewrite ?E1, ?(keeps_start _ _ K); try done; try lia.
      - intros j Hj. apply Hmiss. lia.
      - intros s2 K2 T2. apply HQ; [by rewrite K|done]. }
    unfold hit in Hm. destruct (de_inum (entry x v e0) =? 0); [exact W|]. cbn [negb andb] in Hm. rewrite Hm. exact W.
Qed.

(** ** A path of one element *)

Lemma path_elem_all name : SLASH ∉ name -> path_elem name = (name, []).
Proof.
  induction name as [|c p IH]; [done|]. rewrite not_elem_of_cons. intros [Hc Hp]. cbn [path_elem].
  destruct (Z.eqb_spec c SLASH); [congruence|]. by rewrite IH.
Qed.
Lemma skipelem_one name : SLASH ∉ name -> name <> [] -> Z.of_nat (length name) <= DIRSIZ -> skipelem (SLASH :: name) = Some (name, []).
Proof.
  intros Hs Hn Hl. unfold skipelem. destruct name as [|c p]; [done|]. cbn [skip_slashes]. rewrite Z.eqb_refl.
  destruct (Z.eqb_spec c SLASH) as [->|]; [set_solver|]. rewrite path_elem_all by done. cbn [skip_slashes].
  destruct (Z.leb_spec DIRSIZ (Z.of_nat (length (c :: p)))); [|done]. rewrite take_ge; [done|]. unfold DIRSIZ in *. lia.
Qed.

(** No entry of the table is in use or locked. *)
Definition table_free s : Prop := forall i, iref (itable s i) = 0 /\ locked (ilk (itable s i)) = 0.
(** The root directory as it is on the disk. *)
Definition on_disk v (sb : superblock) (inm : Z) : inode :=
  dinode_of (v (IBLOCK inm sb)) (dip_off inm) (Inode ROOTDEV inm 0 initsleeplock 0 0 0 0 0 0 []).

Record root_entry s v (nb : Z) (name : list Z) (e : nat) (inm : Z) : Prop := {
  re_dir : itype (on_disk v (fsb s) ROOTINO) = T_DIR;
  re_link : nlink (on_disk v (fsb s) ROOTINO) <> 0;
  re_file : file_ok (start (lg (fl s))) v (on_disk v (fsb s) ROOTINO) nb;
  re_size : DIRENT * (Z.of_nat e + 1) <= isize (on_disk v (fsb s) ROOTINO);
  re_blocks : DIRENT * (Z.of_nat e + 1) <= nb * BSIZE;
  re_first j : (j < e)%nat -> hit name (entry (on_disk v (fsb s) ROOTINO) v j) = false;
  re_hit : hit name (entry (on_disk v (fsb s) ROOTINO) v e) = true;
  re_inum : de_inum (entry (on_disk v (fsb s) ROOTINO) v e) = inm
}.

Lemma loaded_disk v sb x : let y := on_disk v sb (inum x) in
  itype (loaded v sb x) = itype y /\ nlink (loaded v sb x) = nlink y /\ isize (loaded v sb x) = isize y /\ addrs (loaded v sb x) = addrs y.
Proof. done. Qed.

(** The root takes slot 0 of the table while it is searched, the file slot 1. *)
Lemma namei_one s v cwd nb name e inm Q : tx (fl s) [] v ∅ [] -> table_free s -> root_entry s v nb name e inm ->
  inm <> ROOTINO -> SLASH ∉ name -> name <> [] -> Z.of_nat (length name) <= DIRSIZ ->
  (forall s', fsb s' = fsb s -> start (lg (fl s')) = start (lg (fl s)) -> tx (fl s') [] v ∅ [] ->
     inum (itable s' 1%nat) = inm -> iref (itable s' 1%nat) = 1 -> locked (ilk (itable s' 1%nat)) = 0 -> ivalid (itable s' 1%nat) = 0 ->
     Q (Some 1%nat) s') ->
  wp (namei me cwd (SLASH :: name)) Q s.
Proof.
  intros T Tf [Hdir Hlink F Hsz Hbl Hfirst Hhit Hinum] Hne Hs Hn Hl HQ.
  assert (HN : (1 < Z.to_nat NINODE)%nat) by (change (Z.to_nat NINODE) with 50%nat; lia).
  unfold namei, namex. wp_steps. cbn [hd]. rewrite Z.eqb_refl.
  apply (iget_miss s ROOTDEV ROOTINO 0); [|lia|apply Tf|intros; lia|].
  { intros j _ [Hu _]. pose proof (Tf j). lia. }
  set (s1 := upd_inode _ _ s). assert (T1 : tx (fl s1) [] v ∅ []) by exact T.
  cbn [length namex_loop]. rewrite skipelem_one by done. wp_step.
  assert (E1 : itable s1 0%nat = (fun x => Inode ROOTDEV ROOTINO 1 (ilk x) 0 (itype x) (imajor x) (iminor x) (nlink x) (isize x) (addrs x)) (itable s 0%nat)) by apply upd_eq.
  pose proof (loaded_disk v (fsb s) (itable s1 0%nat)) as (Ety & Enl & Esz & Ead). rewrite E1 in Ety, Enl, Esz, Ead. cbn [inum] in Ety, Enl, Esz, Ead.
  apply (ilock_load s1 v 0); [done|by rewrite E1|rewrite E1; apply Tf|by rewrite E1|rewrite E1; change (fsb s1) with (fsb s); rewrite Ety, Hdir; done|].
  intros s2 B2 L2 T2 I2. change (fsb s1) with (fsb s) in *. change (start (lg (fl s1))) with (start (lg (fl s))) in L2.
  pose proof (I2 0%nat) as I20. rewrite decide_True, E1 in I20 by done. set (rt := loaded v (fsb s) _) in I20, Ety, Enl, Esz, Ead.
  assert (Een : forall j, entry rt v j = entry (on_disk v (fsb s) ROOTINO) v j) by (intros j; by apply fbytes_addrs).
  unfold iat at 1. wp_steps. rewrite I20, Ety, Hdir, Z.eqb_refl. cbn [negb andb]. wp_step.
  unfold dirlookup, iat at 1. wp_steps. rewrite I20, Ety, Hdir, Z.eqb_refl. cbn [negb]. change 0 with (DIRENT * Z.of_nat 0) at 2.
  apply (dirlookup_loop_hit _ s2 v 0 nb name 0 e); rewrite ?I20, ?L2, ?Een, ?Esz; try done.
  - by apply (file_ok_addrs _ _ (on_disk v (fsb s) ROOTINO)).
  - lia.
  - unfold DIRENT in Hsz. lia.
  - intros j Hj. rewrite Een. apply Hfirst. lia.
  - intros s3 K3 T3. pose proof K3 as (B3 & I3 & _). rewrite Hinum.
    assert (I30 : itable s3 0%nat = rt) by (by rewrite I3). assert (I3j : forall j, j <> 0%nat -> itable s3 j = itable s j).
    { intros j Hj. rewrite I3, I2, decide_False by done. by apply upd_ne. }
    apply (iget_miss s3 _ inm 1); [|done|rewrite I3j by done; apply Tf| |].
    + intros j _ (Hu & _ & Hi). destruct (decide (j = 0%nat)) as [->|Hj]; [rewrite I30 in Hi; cbn in Hi; congruence|].
      rewrite I3j in Hu by done. pose proof (Tf j). lia.
    + intros j Hj. replace j with 0%nat by lia. by rewrite I30.
    + set (s4 := upd_inode 1 _ s3). assert (E40 : itable s4 0%nat = rt) by (unfold s4; by rewrite upd_ne).
      wp_step. apply iunlockput_ok; rewrite ?E40; try done. cbn [skipelem skip_slashes]. wp_steps. set (s5 := upd_inode _ _ _).
      assert (E5 : itable s5 1%nat = itable s4 1%nat) by (unfold s5; by rewrite !upd_ne).
      assert (E4 : itable s4 1%nat = (fun x => Inode (idev rt) inm 1 (ilk x) 0 (itype x) (imajor x) (iminor x) (nlink x) (isize x) (addrs x)) (itable s3 1%nat)) by apply upd_eq.
      apply HQ; rewrite ?E5, ?E4; try done.
      * cbn. by rewrite B3.
      * cbn. by rewrite (keeps_start _ _ K3).
      * cbn [ilk]. rewrite I3j by done. apply Tf.
Qed.
End FsName.
