(* ===== verification/Mkfs.v ===== *)
(** * mkfs/mkfs.c: the file system image

    The host program that lays out the disk image the kernel mounts.  The image
    is a function from block numbers to blocks, an on-disk inode the 64 bytes the
    program handles ([xint] and [xshort] store integers as little-endian bytes,
    here [put_le] and [get_le]), a failed assertion or [die] a panic.  The host's
    files are given by their contents; [read] returns them in full buffers. *)
From S2P Require Import Prelude Machine Bytes Bio Fs.

Definition NINODES : Z := 200.
Definition nbitmap : Z := FSSIZE / BPB + 1.
Definition ninodeblocks : Z := NINODES / IPB + 1.
(** [nlog]: the header and the log blocks. *)
Definition nlogblocks : Z := LOGBLOCKS + 1.
Definition nmeta : Z := 2 + nlogblocks + ninodeblocks + nbitmap.

(** The image, of [isz] blocks, and the globals [sb], [freeinode] and [freeblock]. *)
Record mst : Type := Mst { img : Z -> block; isz : Z; msb : superblock; freeinode : Z; freeblock : Z }.

(** The block at byte [sec * BSIZE], an unsigned product. *)
Definition at_sector (sec : Z) : Z := u32 (sec * BSIZE) / BSIZE.
Definition wsect (sec : Z) (buf : block) : M mst unit :=
  modify (fun s => Mst (set_block (img s) (at_sector sec) buf) (Z.max (isz s) (at_sector sec + 1)) (msb s)
                       (freeinode s) (freeblock s)).
(** Reading past the end of the image is a short read. *)
Definition rsect (sec : Z) : M mst block :=
  let! n := gets isz in
  if at_sector sec <? n then gets (fun s => img s (at_sector sec)) else panic "read".

Definition winode (inum : Z) (ip : list Z) : M mst unit :=
  let! sb := gets msb in
  let! buf := rsect (IBLOCK inum sb) in
  wsect (IBLOCK inum sb) (splice (dip_off inum) ip buf).
Definition rinode (inum : Z) : M mst (list Z) :=
  let! sb := gets msb in
  let! buf := rsect (IBLOCK inum sb) in
  ret (slice (dip_off inum) (Z.to_nat DINODE) buf).

Definition ialloc (type : Z) : M mst Z :=
  let! inum := gets freeinode in
  modify (fun s => Mst (img s) (isz s) (msb s) (u32 (inum + 1)) (freeblock s)) ;;
  let din := replicate (Z.to_nat DINODE) 0 in
  let din := put_le 2 din 0 type in
  let din := put_le 2 din 6 1 in
  let din := put_le 4 din 8 0 in
  winode inum din ;;
  ret inum.

Fixpoint mark_used (n : nat) (buf : block) : block :=
  match n with O => buf | S n' => set_bit (mark_used n' buf) (Z.of_nat n') end.
Definition balloc (used : Z) : M mst unit :=
  if negb (used <? BPB) then panic "assert"
  else
    let! sb := gets msb in
    wsect (bmapstart sb) (mark_used (Z.to_nat used) (replicate (Z.to_nat BSIZE) 0)).

(** [freeblock++]. *)
Definition next_block : M mst Z :=
  let! b := gets freeblock in
  modify (fun s => Mst (img s) (isz s) (msb s) (freeinode s) (u32 (b + 1))) ;;
  ret b.
(** The block of the inode [din] for block [fbn] of the file, allocated when
    there is none, and the inode. *)
Definition iappend_map (din : list Z) (fbn : Z) : M mst (Z * list Z) :=
  if fbn <? NDIRECT then
    let! din := (if di_addr din 0 (Z.to_nat fbn) =? 0 then
                   let! b := next_block in ret (put_le 4 din (12 + 4 * Z.to_nat fbn) b)
                 else ret din) in
    ret (di_addr din 0 (Z.to_nat fbn), din)
  else
    let! din := (if di_addr din 0 (Z.to_nat NDIRECT) =? 0 then
                   let! b := next_block in ret (put_le 4 din (12 + 4 * Z.to_nat NDIRECT) b)
                 else ret din) in
    let ind := di_addr din 0 (Z.to_nat NDIRECT) in
    let off := Z.to_nat (4 * (fbn - NDIRECT)) in
    let! indirect := rsect ind in
    let! indirect := (if get_le 4 indirect off =? 0 then
                        let! b := next_block in
                        let indirect := put_le 4 indirect off b in
                        wsect ind indirect ;;
                        ret indirect
                      else ret indirect) in
    ret (get_le 4 indirect off, din).

(** The loop of [iappend]; [p] is what is still to be written. *)
Fixpoint iappend_loop (fuel : nat) (din : list Z) (off : Z) (p : list Z) : M mst (list Z * Z) :=
  match fuel with
  | O => out_of_fuel
  | S f =>
      match p with
      | [] => ret (din, off)
      | _ =>
          let fbn := off / BSIZE in
          if negb (fbn <? MAXFILE) then panic "assert"
          else
            let! '(x, din) := iappend_map din fbn in
            let n1 := min (Z.of_nat (length p)) ((fbn + 1) * BSIZE - off) in
            let! buf := rsect x in
            wsect x (splice (Z.to_nat (off - fbn * BSIZE)) (take (Z.to_nat n1) p) buf) ;;
            iappend_loop f din (u32 (off + n1)) (drop (Z.to_nat n1) p)
      end
  end.
Definition iappend (inum : Z) (p : list Z) : M mst unit :=
  let! din := rinode inum in
  let! '(din, off) := iappend_loop (S (length p)) din (get_le 4 din 8) p in
  winode inum (put_le 4 din 8 off).

(** ** main *)

(** A directory entry: the inode number, and the name padded with nuls. *)
Definition dirent (inum : Z) (name : list Z) : list Z :=
  le 2 inum ++ name ++ replicate (Z.to_nat DIRSIZ - length name) 0.

(** The name in the image: without a leading user/ and underscore. *)
Definition after_user (arg : list Z) : list Z :=
  if bool_decide (take 5 arg = [117; 115; 101; 114; 47]) then drop 5 arg else arg.
Definition shortname (arg : list Z) : list Z :=
  let n := after_user arg in
  if hd 0 n =? 95 then tl n else n.

(** while((cc = read(fd, buf, sizeof(buf))) > 0) iappend(inum, buf, cc) *)
Fixpoint copy_in (fuel : nat) (inum : Z) (rest : list Z) : M mst unit :=
  match fuel with
  | O => out_of_fuel
  | S f =>
      match rest with
      | [] => ret tt
      | _ => iappend inum (take (Z.to_nat BSIZE) rest) ;; copy_in f inum (drop (Z.to_nat BSIZE) rest)
      end
  end.

(** An argument, and what the file holds if it can be opened. *)
Abbreviation hostfile := (list Z * option (list Z))%type.
Definition add_file (rootino : Z) (f : hostfile) : M mst unit :=
  if bool_decide (SLASH ∈ after_user f.1) then panic "assert"
  else
    match f.2 with
    | None => panic "open"
    | Some content =>
        if negb (Z.of_nat (length (shortname f.1)) <=? DIRSIZ) then panic "assert"
        else
          let! inum := ialloc T_FILE in
          iappend rootino (dirent inum (shortname f.1)) ;;
          copy_in (S (length content)) inum content
    end.
Fixpoint add_files (rootino : Z) (fs : list hostfile) : M mst unit :=
  match fs with [] => ret tt | f :: fs' => add_file rootino f ;; add_files rootino fs' end.

Definition mk_sb : superblock :=
  Sb FSMAGIC FSSIZE (FSSIZE - nmeta) NINODES nlogblocks 2 (2 + nlogblocks) (2 + nlogblocks + ninodeblocks).
(** The superblock as [wsect(1, buf)] writes it. *)
Definition sb_block (sb : superblock) : block :=
  put_words (replicate (Z.to_nat BSIZE) 0) 0
    [magic sb; sb_size sb; nblocks sb; ninodes sb; nlog sb; logstart sb; inodestart sb; bmapstart sb].
Fixpoint zero_image (n : nat) (i : Z) : M mst unit :=
  match n with O => ret tt | S n' => wsect i (replicate (Z.to_nat BSIZE) 0) ;; zero_image n' (i + 1) end.

(** The globals at the start, and the image truncated by [open]; the gap a write
    past the end leaves reads as zeroes. *)
Definition mkfs_start : mst :=
  Mst (fun _ => replicate (Z.to_nat BSIZE) 0) 0 (Sb 0 0 0 0 0 0 0 0) 1 0.

(** The first part of [main]: the superblock, and the rest zero. *)
Definition mkfs_format : M mst unit :=
  modify (fun s => Mst (img s) (isz s) mk_sb (freeinode s) nmeta) ;;
  zero_image (Z.to_nat FSSIZE) 0 ;;
  wsect 1 (sb_block mk_sb).

Definition mkfs_main (files : list hostfile) : M mst unit :=
  mkfs_format ;;
  let! rootino := ialloc T_DIR in
  if negb (rootino =? ROOTINO) then panic "assert"
  else
    iappend rootino (dirent rootino [46]) ;;
    iappend rootino (dirent rootino [46; 46]) ;;
    add_files rootino files ;;
    let! din := rinode rootino in
    let off := get_le 4 din 8 in
    winode rootino (put_le 4 din 8 ((off / BSIZE + 1) * BSIZE)) ;;
    let! b := gets freeblock in
    balloc b.
