(* ===== verification/MkfsImage.v ===== *)
(** * What mkfs writes

    The image as a list of files: each has a type, contents, and the blocks that
    hold them.  [dinv] relates the data blocks to the files, [minv] the inode
    table as well; every data block below [freeblock] belongs to one file, once,
    and every block from [freeblock] on is zero.  Each routine of mkfs/mkfs.c is
    an operation on the list of files. *)
From stdpp Require Import list.
From S2P Require Import Prelude Machine Bytes Bio Fs Mkfs.

(** Arithmetic on the constants. *)
Ltac mkconst :=
  change BSIZE with 1024 in *; change NDIRECT with 12 in *; change MAXFILE with 268 in *;
  change FSSIZE with 2000 in *; change nmeta with 47 in *; change NINODES with 200 in *;
  change IPB with 16 in *; change DINODE with 64 in *; change (Z.to_nat 1024) with 1024%nat in *;
  change (Z.to_nat 64) with 64%nat in *; change (Z.to_nat 12) with 12%nat in *.

Record gfile : Type := Gf { gty : Z; gdata : list Z; gblk : list Z; gind : Z }.
(** The blocks of a file: its data and its indirect block. *)
Definition gown (g : gfile) : list Z := gblk g ++ (if gind g =? 0 then [] else [gind g]).

(** The 64 bytes of an inode, with the size [sz]. *)
Record din_is (din : list Z) (sz : Z) (g : gfile) : Prop := {
  dn_len : length din = 64%nat;
  dn_ty : get_le 2 din 0 = gty g;
  dn_nlink : get_le 2 din 6 = 1;
  dn_size : get_le 4 din 8 = sz;
  dn_addr k : (k < 12)%nat -> di_addr din 0 k = nth k (gblk g) 0;
  dn_ind : di_addr din 0 12 = gind g
}.

(** The data blocks hold the contents, padded with zeroes; the indirect block
    holds the numbers of the blocks from the twelfth on. *)
Record file_at (v : Z -> block) (g : gfile) : Prop := {
  fa_cap : (length (gdata g) <= 1024 * length (gblk g))%nat;
  fa_max : (length (gblk g) <= 268)%nat;
  fa_need : (12 < length (gblk g))%nat -> gind g <> 0;
  fa_dat k b i : gblk g !! k = Some b -> (i < 1024)%nat -> nth i (v b) 0 = nth (1024 * k + i) (gdata g) 0;
  fa_ind k : gind g <> 0 -> (k < 256)%nat -> get_le 4 (v (gind g)) (4 * k) = nth (12 + k) (gblk g) 0
}.

(** No block more than the contents need. *)
Definition tight (g : gfile) : Prop :=
  (1024 * length (gblk g) < length (gdata g) + 1024)%nat /\ (gind g <> 0 -> (12 < length (gblk g))%nat).

Record dinv (s : mst) (G : list gfile) : Prop := {
  dv_sb : msb s = mk_sb;
  dv_isz : isz s = FSSIZE;
  dv_range : nmeta <= freeblock s <= FSSIZE;
  dv_own : concat (gown <$> G) ≡ₚ seqZ nmeta (freeblock s - nmeta);
  dv_fresh n : freeblock s <= n -> img s n = replicate (Z.to_nat BSIZE) 0;
  dv_len n : length (img s n) = 1024%nat;
  dv_file k g : G !! k = Some g -> file_at (img s) g
}.

(** The slot of inode [k + 1] in the table. *)
Definition islot (v : Z -> block) (k : nat) : list Z :=
  slice (dip_off (Z.of_nat k + 1)) 64 (v (IBLOCK (Z.of_nat k + 1) mk_sb)).
Record minv (s : mst) (G : list gfile) : Prop := {
  mv_dat : dinv s G;
  mv_head n : n < 33 -> img s n = if n =? 1 then sb_block mk_sb else replicate (Z.to_nat BSIZE) 0;
  mv_free : freeinode s = Z.of_nat (length G) + 1;
  mv_max : Z.of_nat (length G) < NINODES;
  mv_din k g : G !! k = Some g -> din_is (islot (img s) k) (Z.of_nat (length (gdata g))) g;
  mv_tight k g : G !! k = Some g -> tight g
}.

(** ** Sectors *)

Lemma at_sector_id n : 0 <= n < FSSIZE -> at_sector n = n.
Proof. intros. unfold at_sector. mkconst. rewrite u32_id by (unfold is_u32; lia). apply Z.div_mul. lia. Qed.

Lemma rsect_ok s n Q : isz s = FSSIZE -> 0 <= n < FSSIZE -> Q (img s n) s -> wp (rsect n) Q s.
Proof.
  intros E Hn HQ. unfold rsect. wp_steps. rewrite E, at_sector_id by done.
  rewrite (proj2 (Z.ltb_lt _ _)) by lia. by wp_steps.
Qed.

Lemma wsect_ok s n d Q : isz s = FSSIZE -> 0 <= n < FSSIZE ->
  Q tt (Mst (set_block (img s) n d) FSSIZE (msb s) (freeinode s) (freeblock s)) -> wp (wsect n d) Q s.
Proof.
  intros E Hn HQ. unfold wsect. wp_steps. rewrite E, at_sector_id by done.
  replace (Z.max FSSIZE (n + 1)) with FSSIZE by lia. done.
Qed.

(** ** Owned blocks *)

Lemma concat_insert_own G k g g' l : G !! k = Some g -> gown g' ≡ₚ gown g ++ l ->
  concat (gown <$> <[k := g']> G) ≡ₚ concat (gown <$> G) ++ l.
Proof.
  intros Hk Ho. rewrite <- (take_drop_middle G k g Hk) at 2. rewrite insert_take_drop by (by eapply lookup_lt_Some).
  rewrite !fmap_app, !fmap_cons, !concat_app. cbn [concat]. rewrite Ho. solve_Permutation.
Qed.

Lemma own_in G k g n : G !! k = Some g -> n ∈ gown g -> n ∈ concat (gown <$> G).
Proof.
  intros Hk Hn. rewrite <- (take_drop_middle G k g Hk), fmap_app, fmap_cons, concat_app. cbn [concat].
  rewrite !elem_of_app. auto.
Qed.

Section Owned.
Context (s : mst) (G : list gfile) (D : dinv s G).

Lemma own_nodup : NoDup (concat (gown <$> G)).
Proof. rewrite (dv_own _ _ D). apply NoDup_seqZ. Qed.

Lemma own_range k g n : G !! k = Some g -> n ∈ gown g -> nmeta <= n < freeblock s.
Proof.
  intros Hk Hn. pose proof (own_in _ _ _ _ Hk Hn) as H. rewrite (dv_own _ _ D), elem_of_seqZ in H.
  pose proof (dv_range _ _ D). lia.
Qed.

Lemma own_disjoint j k g h n : G !! k = Some g -> G !! j = Some h -> j <> k -> n ∈ gown g -> n ∉ gown h.
Proof.
  intros Hk Hj Hne Hg Hh. pose proof own_nodup as N.
  rewrite <- (take_drop_middle G k g Hk), fmap_app, fmap_cons, concat_app in N. cbn [concat] in N.
  rewrite !NoDup_app in N. destruct N as (_ & N1 & _ & N2 & _).
  destruct (decide (j < k)%nat) as [Hlt|Hge].
  - apply (N1 n); [|rewrite elem_of_app; auto].
    apply (own_in _ j h); [by rewrite lookup_take_lt|done].
  - apply (N2 n); [done|]. apply (own_in _ (j - S k) h); [|done]. rewrite lookup_drop. rewrite <- Hj. f_equal. lia.
Qed.

Lemma own_nodup1 k g : G !! k = Some g -> NoDup (gown g).
Proof.
  intros Hk. pose proof own_nodup as N.
  rewrite <- (take_drop_middle G k g Hk), fmap_app, fmap_cons, concat_app in N. cbn [concat] in N.
  rewrite !NoDup_app in N. tauto.
Qed.
End Owned.

Lemma gblk_own g k b : gblk g !! k = Some b -> b ∈ gown g.
Proof. intros H%list_elem_of_lookup_2. unfold gown. rewrite elem_of_app. auto. Qed.
Lemma gind_own g : gind g <> 0 -> gind g ∈ gown g.
Proof. intros. unfold gown. rewrite (proj2 (Z.eqb_neq _ _)) by done. rewrite elem_of_app, list_elem_of_singleton. auto. Qed.

Lemma file_at_frame v v' g : (forall n, n ∈ gown g -> v' n = v n) -> file_at v g -> file_at v' g.
Proof.
  intros E [? ? ? Hd Hi]. split; try done.
  - intros k b i Hk Hl. rewrite E by (by eapply gblk_own). by apply Hd.
  - intros k Hn Hl. rewrite E by (by apply gind_own). by apply Hi.
Qed.

(** A change to one file that may take the next free blocks. *)
Lemma dinv_step s G k g g' v' l : dinv s G -> G !! k = Some g ->
  gown g' ≡ₚ gown g ++ l -> l = seqZ (freeblock s) (Z.of_nat (length l)) -> freeblock s + Z.of_nat (length l) <= FSSIZE ->
  (forall n, n ∉ gown g' -> v' n = img s n) -> (forall n, length (v' n) = 1024%nat) -> file_at v' g' ->
  dinv (Mst v' FSSIZE mk_sb (freeinode s) (freeblock s + Z.of_nat (length l))) (<[k := g']> G).
Proof.
  intros D Hk Ho Hl Hs Hv Hlen Hf. pose proof (dv_range _ _ D) as Hr. assert (El : forall n, n ∈ l -> freeblock s <= n < freeblock s + Z.of_nat (length l)).
  { intros n Hn. rewrite Hl, elem_of_seqZ in Hn. lia. }
  assert (Hg' : forall n, n ∈ gown g' -> n ∈ gown g \/ n ∈ l) by (intros n; by rewrite Ho, elem_of_app).
  split; cbn [msb isz freeblock img]; try done.
  - lia.
  - rewrite (concat_insert_own _ _ _ _ _ Hk Ho), (dv_own _ _ D), Hl at 1.
    replace (freeblock s + Z.of_nat (length l) - nmeta) with (freeblock s - nmeta + Z.of_nat (length l)) by lia.
    rewrite seqZ_app by lia. replace (nmeta + (freeblock s - nmeta)) with (freeblock s) by lia. done.
  - intros n Hn. rewrite Hv; [apply (dv_fresh _ _ D); lia|]. intros [H%(own_range _ _ D _ _ _ Hk)|H%El]%Hg'; lia.
  - intros j h Hj. destruct (decide (j = k)) as [->|Hne].
    { rewrite list_lookup_insert_eq in Hj by (by eapply lookup_lt_Some). by injection Hj as <-. }
    rewrite list_lookup_insert_ne in Hj by done. apply (file_at_frame (img s)); [|by apply (dv_file _ _ D j)].
    intros n Hn. apply Hv. intros [H|H%El]%Hg'.
    + by eapply (own_disjoint _ _ D j k g h).
    + pose proof (own_range _ _ D _ _ _ Hj Hn). lia.
Qed.

(** ** Appending to a file *)

(** The blocks that [n] bytes take: the data and, past twelve, an indirect block. *)
Definition nblks (n : Z) : Z := (n + 1023) / 1024.
Definition need (n : Z) : Z := nblks n + if 12 <? nblks n then 1 else 0.

Lemma nblks_bounds n : 1024 * nblks n - 1024 < n <= 1024 * nblks n.
Proof. unfold nblks. pose proof (Z.div_mod (n + 1023) 1024 ltac:(lia)). pose proof (Z.mod_pos_bound (n + 1023) 1024 ltac:(lia)). lia. Qed.
Lemma nblks_unique n b : 1024 * b - 1024 < n <= 1024 * b -> nblks n = b.
Proof. intros. pose proof (nblks_bounds n). lia. Qed.

Lemma need_mono n m : n <= m -> need n <= need m.
Proof.
  intros. pose proof (nblks_bounds n). pose proof (nblks_bounds m). unfold need.
  destruct (Z.ltb_spec 12 (nblks n)), (Z.ltb_spec 12 (nblks m)); lia.
Qed.

Lemma tight_nblks v g : file_at v g -> tight g -> nblks (Z.of_nat (length (gdata g))) = Z.of_nat (length (gblk g)).
Proof. intros [Hc _ _ _ _] [Ht _]. apply nblks_unique. lia. Qed.

Definition setg (g : gfile) (data bs : list Z) (ind : Z) : gfile := Gf (gty g) data bs ind.

Lemma next_block_ok s Q : 0 <= freeblock s < FSSIZE ->
  Q (freeblock s) (Mst (img s) (isz s) (msb s) (freeinode s) (freeblock s + 1)) -> wp next_block Q s.
Proof. intros Hb HQ. unfold next_block. wp_steps. rewrite u32_id by (unfold is_u32; mkconst; lia). done. Qed.

Lemma nth_snoc (l : list Z) (b : Z) j : nth j (l ++ [b]) 0 = if decide (j = length l) then b else nth j l 0.
Proof.
  case_decide as E.
  - subst. rewrite app_nth2, Nat.sub_diag by lia. done.
  - destruct (decide (j < length l)%nat); [by rewrite app_nth1|].
    rewrite !nth_overflow; [done|lia|rewrite length_app; cbn; lia].
Qed.

(** The address of a new block stored into the inode. *)
Lemma din_put_direct din sz g b : din_is din sz g -> (length (gblk g) < 12)%nat -> is_u32 b ->
  din_is (put_le 4 din (12 + 4 * length (gblk g)) b) sz (setg g (gdata g) (gblk g ++ [b]) (gind g)).
Proof.
  intros [Hl Ht Hn Hs Ha Hi] Hk Hb. assert (Hw : (12 + 4 * length (gblk g) + 4 <= length din)%nat) by lia.
  split; cbn [gty gblk gind setg].
  1: by rewrite put_le_length.
  1-3: by rewrite get_put_le_ne by lia.
  - intros j Hj. rewrite nth_snoc. unfold di_addr in *. case_decide as E.
    + subst j. cbn [Nat.add]. rewrite get_put_le_eq; [done|done|]. exact Hb.
    + rewrite get_put_le_ne by lia. by apply Ha.
  - unfold di_addr in *. rewrite get_put_le_ne by lia. done.
Qed.
Lemma din_put_ind din sz g b : din_is din sz g -> is_u32 b ->
  din_is (put_le 4 din (12 + 4 * 12) b) sz (setg g (gdata g) (gblk g) b).
Proof.
  intros [Hl Ht Hn Hs Ha Hi] Hb. assert (Hw : (12 + 4 * 12 + 4 <= length din)%nat) by lia.
  split; cbn [gty gblk gind setg].
  1: by rewrite put_le_length.
  1-3: by rewrite get_put_le_ne by lia.
  - intros j Hj. unfold di_addr in *. rewrite get_put_le_ne by lia. by apply Ha.
  - unfold di_addr in *. by rewrite get_put_le_eq.
Qed.

(** What an append to file [k] leaves alone. *)
Definition same_meta (s s' : mst) : Prop :=
  freeinode s' = freeinode s /\ forall n, n < nmeta -> img s' n = img s n.
#[export] Instance same_meta_preorder : PreOrder same_meta.
Proof.
  split; [by intros s|]. intros s1 s2 s3 [E1 H1] [E2 H2]. split; [congruence|]. intros n Hn. rewrite H2 by done. by apply H1.
Qed.

Section Grow.
Context (s : mst) (G : list gfile) (k : nat) (g : gfile) (D : dinv s G) (Hk : G !! k = Some g).
Local Abbreviation F := (dv_file s G D k g Hk).
Local Abbreviation b := (freeblock s).
Local Abbreviation s1 v := (Mst v FSSIZE mk_sb (freeinode s) (freeblock s + 1)).

Lemma fresh_data (i j : nat) : (length (gblk g) <= i)%nat -> nth (1024 * i + j) (gdata g) 0 = 0.
Proof. intros. apply nth_overflow. pose proof (fa_cap _ _ F). lia. Qed.

Lemma nth_zeroes n i : nth i (replicate n 0) 0 = 0.
Proof. revert i. induction n as [|n IH]; intros [|i]; cbn; auto. Qed.

(** A direct block. *)
Lemma grow_direct : (length (gblk g) < 12)%nat -> b < FSSIZE ->
  dinv (s1 (img s)) (<[k := setg g (gdata g) (gblk g ++ [b]) (gind g)]> G).
Proof.
  intros Hl Hb. apply (dinv_step s G k g _ (img s) [b]); try done.
  - unfold gown. cbn [gblk gind setg]. solve_Permutation.
  - cbn [length]. lia.
  - apply (dv_len _ _ D).
  - destruct F as [Hc Hm Hn Hd Hi]. split; cbn [gdata gblk gind setg]; rewrite ?length_app; cbn [length].
    + lia.
    + lia.
    + lia.
    + intros j x i Hj Hi'. apply lookup_snoc_Some in Hj as [[Hj H]|[-> <-]]; [by apply Hd|].
      rewrite (dv_fresh _ _ D) by lia. rewrite nth_zeroes, fresh_data by lia. done.
    + intros j Hn' Hj. rewrite Hi by done. rewrite nth_snoc, decide_False by lia. done.
Qed.

(** The indirect block. *)
Lemma grow_ind : length (gblk g) = 12%nat -> gind g = 0 -> b < FSSIZE ->
  dinv (s1 (img s)) (<[k := setg g (gdata g) (gblk g) b]> G).
Proof.
  intros Hl E Hb. pose proof (dv_range _ _ D) as Hr. apply (dinv_step s G k g _ (img s) [b]); try done.
  - unfold gown. cbn [gblk gind setg]. rewrite E, (proj2 (Z.eqb_neq b 0)) by (mkconst; lia). cbn. solve_Permutation.
  - cbn [length]. lia.
  - apply (dv_len _ _ D).
  - destruct F as [Hc Hm Hn Hd Hi]. split; cbn [gdata gblk gind setg]; try done.
    + mkconst. lia.
    + intros j _ Hj. rewrite (dv_fresh _ _ D) by lia. rewrite nth_overflow by lia.
      unfold get_le, slice. rewrite drop_replicate, take_replicate. generalize (4 `min` (Z.to_nat BSIZE - 4 * j))%nat.
      intros n. induction n as [|n IH]; [done|]. cbn [replicate of_le]. rewrite IH. done.
Qed.

(** A block entered in the indirect block. *)
Lemma grow_indirect : (12 <= length (gblk g) < 268)%nat -> gind g <> 0 -> b < FSSIZE ->
  dinv (s1 (set_block (img s) (gind g) (put_le 4 (img s (gind g)) (4 * (length (gblk g) - 12)) b)))
       (<[k := setg g (gdata g) (gblk g ++ [b]) (gind g)]> G).
Proof.
  intros Hl Hi0 Hb. pose proof (dv_range _ _ D) as Hr. pose proof (dv_len _ _ D) as Hlen.
  pose proof (own_range _ _ D _ _ _ Hk (gind_own _ Hi0)) as Hir.
  pose proof (own_nodup1 _ _ D _ _ Hk) as N. unfold gown in N. rewrite (proj2 (Z.eqb_neq _ _) Hi0) in N.
  apply NoDup_app in N as (_ & N & _).
  apply (dinv_step s G k g _ _ [b]); try done.
  - unfold gown. cbn [gblk gind setg]. solve_Permutation.
  - cbn [length]. lia.
  - intros n Hn. rewrite set_block_ne; [done|]. intros ->. apply Hn, (gind_own (setg g _ _ _)). done.
  - intros n. destruct (decide (n = gind g)) as [->|]; [|by rewrite set_block_ne]. rewrite set_block_eq, put_le_length; [done|]. rewrite Hlen. lia.
  - destruct F as [Hc Hm Hn Hd Hi]. split; cbn [gdata gblk gind setg]; rewrite ?length_app; cbn [length]; try lia; try done.
    + intros j x i Hj Hi'. apply lookup_snoc_Some in Hj as [[Hj H]|[-> <-]].
      * rewrite set_block_ne; [by apply Hd|]. intros ->. apply (N (gind g)); [by eapply list_elem_of_lookup_2|by apply list_elem_of_singleton].
      * rewrite set_block_ne by lia. rewrite (dv_fresh _ _ D) by lia. rewrite nth_zeroes, fresh_data by lia. done.
    + intros j _ Hj. rewrite set_block_eq, nth_snoc. case_decide as E.
      * replace (4 * j)%nat with (4 * (length (gblk g) - 12))%nat by lia. apply get_put_le_eq; [rewrite Hlen; lia|].
        mkconst. change (256 ^ Z.of_nat 4) with (2 ^ 32). lia.
      * rewrite get_put_le_ne by (rewrite ?Hlen; lia). by apply Hi.
Qed.
End Grow.

(** What [iappend_map] does to file [k]: block [length (gdata g) / BSIZE] exists. *)
Definition mapped (s : mst) (G : list gfile) (k : nat) (g : gfile) (sz : Z) (r : Z * list Z) (s' : mst) : Prop :=
  let n := Z.of_nat (length (gdata g)) in
  exists g', gty g' = gty g /\ gdata g' = gdata g /\ Z.of_nat (length (gblk g')) = n / BSIZE + 1 /\
    (gind g' <> 0 -> (12 < length (gblk g'))%nat) /\ gblk g' !! Z.to_nat (n / BSIZE) = Some r.1 /\ din_is r.2 sz g' /\
    dinv s' (<[k := g']> G) /\ same_meta s s' /\ freeblock s' = freeblock s + (need (n + 1) - need n).

Section Map.
Context (s : mst) (G : list gfile) (k : nat) (g : gfile) (din : list Z) (sz : Z).
Context (D : dinv s G) (Hk : G !! k = Some g) (Hdin : din_is din sz g) (Ht : tight g).
Local Abbreviation n := (Z.of_nat (length (gdata g))).
Lemma fbn_bounds : 0 <= n / BSIZE /\ BSIZE * (n / BSIZE) <= n < BSIZE * (n / BSIZE) + BSIZE.
Proof.
  pose proof (Z.div_mod n BSIZE ltac:(done)). pose proof (Z.mod_pos_bound n BSIZE ltac:(done)).
  split; [apply Z.div_pos; [lia|done]|lia].
Qed.
Context (Hn : n < MAXFILE * BSIZE) (Hroom : freeblock s + (need (n + 1) - need n) <= FSSIZE).

(** The block is there, and partly filled. *)
Lemma map_present : Z.of_nat (length (gblk g)) = n / BSIZE + 1 -> wp (iappend_map din (n / BSIZE)) (mapped s G k g sz) s.
Proof.
  intros Hl. pose proof (dv_file _ _ D _ _ Hk) as F. pose proof (dv_range _ _ D) as Hr. pose proof fbn_bounds.
  assert (E : need (n + 1) = need n).
  { unfold need. rewrite (tight_nblks _ _ F Ht), (nblks_unique (n + 1) (Z.of_nat (length (gblk g)))); [done|].
    pose proof (fa_cap _ _ F). mkconst. lia. }
  destruct (lookup_lt_is_Some_2 (gblk g) (Z.to_nat (n / BSIZE))) as [x Hx]; [lia|].
  assert (Ex : nth (Z.to_nat (n / BSIZE)) (gblk g) 0 = x) by (by apply nth_lookup_Some).
  pose proof (own_range _ _ D _ _ _ Hk (gblk_own _ _ _ Hx)) as Hxr.
  assert (M : mapped s G k g sz (x, din) s).
  { exists g. rewrite list_insert_id by done. split_and!; try done; [apply Ht|lia]. }
  unfold iappend_map. destruct (Z.ltb_spec (n / BSIZE) NDIRECT) as [Hd|Hd].
  - assert (Ea : di_addr din 0 (Z.to_nat (n / BSIZE)) = x) by (rewrite (dn_addr _ _ _ Hdin); [done|mkconst; lia]).
    wp_step. rewrite Ea, (proj2 (Z.eqb_neq _ _)) by (mkconst; lia). wp_steps. by rewrite Ea.
  - assert (Hi : gind g <> 0) by (apply (fa_need _ _ F); mkconst; lia).
    pose proof (own_range _ _ D _ _ _ Hk (gind_own _ Hi)) as Hir.
    wp_step. mkconst. rewrite (dn_ind _ _ _ Hdin), (proj2 (Z.eqb_neq (gind g) 0)) by lia. wp_steps.
    rewrite (dn_ind _ _ _ Hdin). apply rsect_ok; [apply (dv_isz _ _ D)|mkconst; lia|].
    assert (Ei : get_le 4 (img s (gind g)) (Z.to_nat (4 * (n / 1024 - 12))) = x).
    { replace (Z.to_nat (4 * (n / 1024 - 12))) with (4 * (Z.to_nat (n / 1024) - 12))%nat by lia.
      rewrite (fa_ind _ _ F) by (try done; pose proof (fa_max _ _ F); lia). rewrite <- Ex. f_equal. lia. }
    wp_steps. rewrite Ei, (proj2 (Z.eqb_neq _ _)) by lia. wp_steps. by rewrite Ei.
Qed.

Lemma need_absent : Z.of_nat (length (gblk g)) = n / BSIZE ->
  need n = n / BSIZE + (if 12 <? n / BSIZE then 1 else 0) /\ need (n + 1) = n / BSIZE + 1 + (if 12 <? n / BSIZE + 1 then 1 else 0).
Proof.
  intros Hl. pose proof (dv_file _ _ D _ _ Hk) as F. pose proof fbn_bounds. unfold need. split.
  - by rewrite (tight_nblks _ _ F Ht), Hl.
  - rewrite (nblks_unique (n + 1) (n / BSIZE + 1)); [done|]. pose proof (fa_cap _ _ F). destruct Ht. mkconst. lia.
Qed.

(** The indirect block, allocated when there is none. *)
Lemma ensure_ind : (12 <= length (gblk g))%nat -> Z.of_nat (length (gblk g)) = n / BSIZE ->
  exists s1 din1 g1, gty g1 = gty g /\ gdata g1 = gdata g /\ gblk g1 = gblk g /\ gind g1 <> 0 /\ din_is din1 sz g1 /\
    dinv s1 (<[k := g1]> G) /\ same_meta s s1 /\ freeblock s1 + 1 = freeblock s + (need (n + 1) - need n) /\
    forall Q, Q din1 s1 -> wp (if di_addr din 0 (Z.to_nat NDIRECT) =? 0
      then let! b := next_block in ret (put_le 4 din (12 + 4 * Z.to_nat NDIRECT) b) else ret din) Q s.
Proof.
  intros H12 Hl. pose proof (dv_file _ _ D _ _ Hk) as F. pose proof (dv_range _ _ D) as Hr.
  destruct need_absent as [En En1]; [done|]. rewrite En, En1 in Hroom. rewrite En, En1.
  destruct (decide (gind g = 0)) as [E0|E0].
  - assert (E12 : length (gblk g) = 12%nat) by (destruct (decide (12 < length (gblk g))%nat) as [H%(fa_need _ _ F)|]; [done|lia]).
    rewrite <- Hl, E12 in *. change (12 <? Z.of_nat 12 + 1) with true in *. change (12 <? Z.of_nat 12) with false in *. mkconst.
    exists (Mst (img s) FSSIZE mk_sb (freeinode s) (freeblock s + 1)), (put_le 4 din (12 + 4 * 12) (freeblock s)), (setg g (gdata g) (gblk g) (freeblock s)). cbn [gty gdata gblk gind setg]. split_and!; try done.
    + lia.
    + apply (din_put_ind _ _ _ _ Hdin). unfold is_u32. lia.
    + apply (grow_ind s G k g); try done. mkconst. lia.
    + cbn [freeblock]. lia.
    + intros Q HQ. rewrite (dn_ind _ _ _ Hdin), E0. change (0 =? 0) with true. cbv iota. wp_step. apply next_block_ok; [mkconst; lia|]. wp_steps.
      by rewrite (dv_sb _ _ D), (dv_isz _ _ D).
  - assert (Hi := E0). apply Ht in Hi. exists s, din, g. rewrite list_insert_id by done. split_and!; try done.
    + rewrite !(proj2 (Z.ltb_lt 12 _)) by lia. lia.
    + intros Q HQ. mkconst. by rewrite (dn_ind _ _ _ Hdin), (proj2 (Z.eqb_neq _ _)).
Qed.

(** The block is new. *)
Lemma map_absent : Z.of_nat (length (gblk g)) = n / BSIZE -> wp (iappend_map din (n / BSIZE)) (mapped s G k g sz) s.
Proof.
  intros Hl. pose proof ensure_ind as EI. pose proof (dv_file _ _ D _ _ Hk) as F. pose proof (dv_range _ _ D) as Hr. pose proof fbn_bounds.
  assert (Hnb : n / BSIZE < 268) by (apply Z.div_lt_upper_bound; mkconst; lia).
  destruct need_absent as [En En1]; [done|]. rewrite En, En1 in Hroom. assert (El : length (gblk g) = Z.to_nat (n / BSIZE)) by lia.
  unfold iappend_map. destruct (Z.ltb_spec (n / BSIZE) NDIRECT) as [Hd|Hd].
  - assert (Ea : di_addr din 0 (Z.to_nat (n / BSIZE)) = 0).
    { rewrite (dn_addr _ _ _ Hdin) by (mkconst; lia). apply nth_overflow. lia. }
    mkconst. rewrite !(proj2 (Z.ltb_ge 12 _)) in * by lia. wp_step. rewrite Ea. change (0 =? 0) with true. cbv iota.
    wp_step. apply next_block_ok; [mkconst; lia|]. wp_steps. rewrite <- El.
    pose proof (din_put_direct din sz g (freeblock s) Hdin ltac:(lia) ltac:(unfold is_u32; lia)) as P.
    exists (setg g (gdata g) (gblk g ++ [freeblock s]) (gind g)). cbn [gty gdata gblk gind setg]. split_and!; try done.
    + rewrite length_app. cbn. mkconst. lia.
    + intros Hi. apply Ht in Hi. rewrite length_app. lia.
    + cbn [fst]. mkconst. rewrite <- El, list_lookup_middle by done. f_equal. rewrite (dn_addr _ _ _ P) by lia.
      cbn [gblk setg]. by rewrite nth_snoc, decide_True.
    + rewrite (dv_sb _ _ D), (dv_isz _ _ D). apply grow_direct; [done|done|lia|mkconst; lia].
    + cbn [freeblock]. lia.
  - (* through the indirect block, new or not *)
    destruct EI as (s1 & din1 & g1 & E1 & E2 & E3 & Hi1 & Hd1 & D1 & K1 & B1 & W); [mkconst; lia|done|].
    wp_step. apply W. clear W. pose proof (dv_range _ _ D1) as Hr1.
    assert (Hk1 : <[k := g1]> G !! k = Some g1) by (apply list_lookup_insert_eq; by eapply lookup_lt_Some).
    pose proof (dv_file _ _ D1 _ _ Hk1) as F1. pose proof (own_range _ _ D1 _ _ _ Hk1 (gind_own _ Hi1)) as Hir.
    assert (Hroom1 : freeblock s1 < FSSIZE) by (rewrite En, En1 in B1; mkconst; lia).
    mkconst. rewrite (dn_ind _ _ _ Hd1). wp_step. apply rsect_ok; [apply (dv_isz _ _ D1)|mkconst; lia|].
    replace (Z.to_nat (4 * (n / 1024 - 12))) with (4 * (length (gblk g1) - 12))%nat by (rewrite E3; lia).
    wp_step. rewrite (fa_ind _ _ F1) by (try done; rewrite E3; lia). rewrite nth_overflow by (rewrite E3; lia).
    change (0 =? 0) with true. cbv iota. wp_step. apply next_block_ok; [mkconst; lia|]. wp_step.
    apply wsect_ok; [apply (dv_isz _ _ D1)|mkconst; lia|]. wp_steps.
    rewrite get_put_le_eq; [|rewrite (dv_len _ _ D1), E3; lia|change (256 ^ Z.of_nat 4) with (2 ^ 32); lia].
    exists (setg g1 (gdata g1) (gblk g1 ++ [freeblock s1]) (gind g1)). cbn [gty gdata gblk gind setg fst snd img freeblock].
    split_and!; try done.
    + rewrite length_app, E3. cbn. mkconst. lia.
    + rewrite length_app, E3. cbn. lia.
    + rewrite E3. apply list_lookup_middle. mkconst. lia.
    + destruct Hd1 as [? ? ? ? Ha ?]. split; cbn [gty gblk gind setg]; try done. intros j Hj.
      rewrite nth_snoc, decide_False by (rewrite E3; lia). by apply Ha.
    + cbn [msb freeinode]. rewrite (dv_sb _ _ D1), <- (list_insert_insert_eq G k _ g1).
      apply (grow_indirect s1 _ k g1 D1 Hk1); [rewrite E3; lia|done|done].
    + etrans; [exact K1|]. split; [done|]. cbn [img]. intros m Hm. apply set_block_ne. mkconst. lia.
Qed.
End Map.

Lemma iappend_map_ok s G k g din sz : dinv s G -> G !! k = Some g -> din_is din sz g -> tight g ->
  let n := Z.of_nat (length (gdata g)) in
  n < MAXFILE * BSIZE -> freeblock s + (need (n + 1) - need n) <= FSSIZE ->
  wp (iappend_map din (n / BSIZE)) (mapped s G k g sz) s.
Proof.
  intros D Hk Hd Ht n Hn Hroom. pose proof (fbn_bounds g) as Hq. fold n in Hq.
  pose proof (fa_cap _ _ (dv_file _ _ D _ _ Hk)) as Hc. pose proof (proj1 Ht) as Ht1.
  assert (Z.of_nat (length (gblk g)) = n / BSIZE + 1 \/ Z.of_nat (length (gblk g)) = n / BSIZE) as [E|E] by (mkconst; lia).
  - by apply map_present.
  - by apply map_absent.
Qed.

Lemma nth_splice o c d i : (o + length c <= length d)%nat ->
  nth i (splice o c d) 0 = if decide (o <= i < o + length c)%nat then nth (i - o) c 0 else nth i d 0.
Proof.
  intros Hl. rewrite !nth_lookup. case_decide; [by rewrite splice_lookup_in|by rewrite splice_lookup_out by lia].
Qed.

(** Bytes written after the last ones, within their block. *)
Lemma write_chunk s G k g x q o c : dinv s G -> G !! k = Some g -> gblk g !! q = Some x ->
  (length (gdata g) = 1024 * q + o)%nat -> (o + length c <= 1024)%nat ->
  dinv (Mst (set_block (img s) x (splice o c (img s x))) FSSIZE mk_sb (freeinode s) (freeblock s))
       (<[k := setg g (gdata g ++ c) (gblk g) (gind g)]> G).
Proof.
  intros D Hk Hx En Ho. pose proof (dv_len _ _ D) as Hlen. pose proof (dv_range _ _ D) as Hr.
  pose proof (own_nodup1 _ _ D _ _ Hk) as N. unfold gown in N. apply NoDup_app in N as (N & N' & _).
  rewrite <- (Z.add_0_r (freeblock s)). change 0 with (Z.of_nat (length (@nil Z))).
  apply (dinv_step s G k g _ _ []); try done.
  - unfold gown. cbn [gblk gind setg]. by rewrite app_nil_r.
  - cbn [length]. lia.
  - intros n Hn. apply set_block_ne. intros ->. apply Hn. by apply (gblk_own (setg _ _ _ _) q).
  - intros n. destruct (decide (n = x)) as [->|]; [|by rewrite set_block_ne]. rewrite set_block_eq, splice_length; [done|]. rewrite Hlen. lia.
  - pose proof (lookup_lt_Some _ _ _ Hx) as Hlq. destruct (dv_file _ _ D _ _ Hk) as [Hc Hm Hn Hd Hi].
    split; cbn [gdata gblk gind setg]; try done.
    + rewrite length_app. lia.
    + intros j b i Hj Hl. destruct (decide (j = q)) as [->|Hne].
      * assert (b = x) as -> by congruence. rewrite set_block_eq, nth_splice by (rewrite Hlen; lia). case_decide.
        -- rewrite app_nth2 by lia. f_equal. lia.
        -- rewrite (Hd q x i Hx Hl). destruct (decide (i < o)%nat); [by rewrite app_nth1 by lia|].
           rewrite !nth_overflow; [done|rewrite length_app; lia|lia].
      * rewrite set_block_ne by (intros ->; by eapply Hne, NoDup_lookup). rewrite (Hd j b i Hj Hl).
        destruct (decide (1024 * j + i < length (gdata g))%nat); [by rewrite app_nth1|].
        rewrite !nth_overflow; [done|rewrite length_app; lia|lia].
    + intros j Hi0 Hj. rewrite set_block_ne; [by apply Hi|]. intros <-.
      apply (N' (gind g)); [by eapply list_elem_of_lookup_2|]. rewrite (proj2 (Z.eqb_neq _ _)) by done. by apply list_elem_of_singleton.
Qed.

(** What appending [p] to file [k] does. *)
Definition appended (s : mst) (G : list gfile) (k : nat) (g : gfile) (p : list Z) (g' : gfile) (s' : mst) : Prop :=
  let n := Z.of_nat (length (gdata g)) in
  gty g' = gty g /\ gdata g' = gdata g ++ p /\ tight g' /\ dinv s' (<[k := g']> G) /\ same_meta s s' /\
  freeblock s' = freeblock s + (need (n + Z.of_nat (length p)) - need n).

Lemma need_block n m : 0 <= n -> 0 < m -> n mod 1024 + m <= 1024 -> need (n + m) = need (n + 1).
Proof.
  intros. pose proof (Z.div_mod n 1024 ltac:(lia)). pose proof (Z.mod_pos_bound n 1024 ltac:(lia)).
  unfold need. rewrite !(nblks_unique _ (n / 1024 + 1)) by lia. done.
Qed.

Lemma iappend_loop_ok fuel s G k g din sz p : dinv s G -> G !! k = Some g -> din_is din sz g -> tight g ->
  let n := Z.of_nat (length (gdata g)) in
  n + Z.of_nat (length p) <= MAXFILE * BSIZE ->
  freeblock s + (need (n + Z.of_nat (length p)) - need n) <= FSSIZE -> (length p < fuel)%nat ->
  wp (iappend_loop fuel din n p) (fun r s' => exists g', r.2 = n + Z.of_nat (length p) /\ din_is r.1 sz g' /\
    appended s G k g p g' s') s.
Proof.
  revert s G g din p. induction fuel as [|f IH]; intros s G g din p D Hk Hd Ht n Hn Hroom Hf; [lia|].
  cbn [iappend_loop]. destruct p as [|y p]; [|set (yp := y :: p) in *].
  { wp_steps. exists g. unfold appended. fold n. rewrite list_insert_id, app_nil_r by done. cbn in *.
    rewrite Z.add_0_r in *. split_and!; try done. lia. }
  assert (Hp : (0 < length yp)%nat) by (cbn; lia). pose proof (fbn_bounds g) as Hq. fold n in Hq.
  rewrite (proj2 (Z.ltb_lt _ _)) by (apply Z.div_lt_upper_bound; mkconst; lia). cbn [negb].
  wp_step. eapply wp_mono.
  { apply (iappend_map_ok s G k g din sz D Hk Hd Ht); fold n; [lia|].
    pose proof (need_mono (n + 1) (n + Z.of_nat (length yp)) ltac:(lia)). lia. }
  fold n. intros [x din1] s1 (g1 & E1 & E2 & El & Hi1 & Hx & Hd1 & D1 & K1 & B1). cbn [fst snd] in *. fold n in El, Hx, B1.
  assert (Hk1 : <[k := g1]> G !! k = Some g1) by (apply list_lookup_insert_eq; by eapply lookup_lt_Some).
  pose proof (own_range _ _ D1 _ _ _ Hk1 (gblk_own _ _ _ Hx)) as Hxr. pose proof (dv_range _ _ D1) as Hr1.
  set (n1 := min (Z.of_nat (length yp)) ((n / BSIZE + 1) * BSIZE - n)).
  assert (Hn1 : 0 < n1 <= Z.of_nat (length yp) /\ n - n / BSIZE * BSIZE + n1 <= BSIZE).
  { unfold n1, min. destruct (Z.ltb_spec (Z.of_nat (length yp)) ((n / BSIZE + 1) * BSIZE - n)); lia. }
  wp_step. apply rsect_ok; [apply (dv_isz _ _ D1)|mkconst; lia|].
  wp_step. apply wsect_ok; [apply (dv_isz _ _ D1)|mkconst; lia|]. wp_steps.
  rewrite (dv_sb _ _ D1). set (c := take (Z.to_nat n1) yp).
  assert (Ec : Z.of_nat (length c) = n1) by (unfold c; rewrite length_take; lia).
  pose proof (write_chunk s1 _ k g1 x (Z.to_nat (n / BSIZE)) (Z.to_nat (n - n / BSIZE * BSIZE)) c D1 Hk1 Hx) as D2.
  rewrite list_insert_insert_eq in D2. set (g2 := setg g1 _ _ _) in D2.
  assert (En2 : Z.of_nat (length (gdata g2)) = n + n1) by (cbn [gdata g2 setg]; rewrite length_app, E2; lia).
  assert (Hk2 : <[k := g2]> G !! k = Some g2) by (apply list_lookup_insert_eq; by eapply lookup_lt_Some).
  assert (Ene : need (n + n1) = need (n + 1)).
  { apply need_block; [lia|lia|]. pose proof (Z.div_mod n BSIZE ltac:(done)). mkconst. lia. }
  assert (Hlp : Z.of_nat (length (drop (Z.to_nat n1) yp)) = Z.of_nat (length yp) - n1) by (rewrite length_drop; lia).
  rewrite u32_id by (unfold is_u32; mkconst; lia). rewrite <- En2.
  eapply wp_mono.
  { apply (IH _ (<[k := g2]> G) g2 din1).
    - apply D2; rewrite ?E2; mkconst; lia.
    - exact Hk2.
    - destruct Hd1 as [? ? ? ? ? ?]. by split.
    - split; [|exact Hi1]. cbn [gdata gblk g2 setg]. rewrite length_app, E2. mkconst. lia.
    - lia.
    - cbn [freeblock]. rewrite En2, Hlp, Ene, B1. replace (n + n1 + (Z.of_nat (length yp) - n1)) with (n + Z.of_nat (length yp)) by lia. lia.
    - lia. }
  intros [din2 off] s2 (g' & Eo & Hd' & Ety & Eg & Htg & D3 & K3 & B3). cbn [fst snd] in *.
  exists g'. rewrite list_insert_insert_eq in D3. split_and!; try done.
  - lia.
  - unfold appended. fold n. split_and!; try done.
    + by rewrite Ety.
    + rewrite Eg. cbn [gdata g2 setg]. rewrite E2, <- app_assoc. f_equal. apply take_drop.
    + etrans; [exact K1|]. etrans; [|exact K3]. split; [done|]. cbn [img]. intros m Hm. apply set_block_ne. mkconst. lia.
    + rewrite B3, En2, Hlp, Ene. cbn [freeblock]. rewrite B1.
      replace (n + n1 + (Z.of_nat (length yp) - n1)) with (n + Z.of_nat (length yp)) by lia. lia.
Qed.

(** ** The inode table *)

Lemma islot_pos k : Z.of_nat k + 1 < NINODES ->
  IBLOCK (Z.of_nat k + 1) mk_sb = (Z.of_nat k + 1) / 16 + 33 /\ 33 <= IBLOCK (Z.of_nat k + 1) mk_sb < 46 /\
  dip_off (Z.of_nat k + 1) = (64 * Z.to_nat ((Z.of_nat k + 1) mod 16))%nat /\ (dip_off (Z.of_nat k + 1) + 64 <= 1024)%nat.
Proof.
  intros Hk. mkconst. assert (E : IBLOCK (Z.of_nat k + 1) mk_sb = (Z.of_nat k + 1) / 16 + 33).
  { unfold IBLOCK. change (inodestart mk_sb) with 33. mkconst. apply u32_id. unfold is_u32.
    pose proof (Z.div_lt_upper_bound (Z.of_nat k + 1) 16 13). pose proof (Z.div_pos (Z.of_nat k + 1) 16). lia. }
  rewrite E. pose proof (Z.div_lt_upper_bound (Z.of_nat k + 1) 16 13). pose proof (Z.div_pos (Z.of_nat k + 1) 16).
  pose proof (Z.mod_pos_bound (Z.of_nat k + 1) 16 ltac:(lia)). unfold dip_off. mkconst. split_and!; lia.
Qed.

(** The image with the slot of inode [k + 1] replaced. *)
Definition put_slot (v : Z -> block) (k : nat) (d : list Z) : Z -> block :=
  let b := IBLOCK (Z.of_nat k + 1) mk_sb in set_block v b (splice (dip_off (Z.of_nat k + 1)) d (v b)).

Lemma put_slot_data v k d n : Z.of_nat k + 1 < NINODES -> nmeta <= n -> put_slot v k d n = v n.
Proof. intros Hk Hn. pose proof (islot_pos k Hk) as (_ & Hb & _). unfold put_slot. rewrite set_block_ne; [done|]. mkconst. lia. Qed.

Lemma put_slot_head v k d n : Z.of_nat k + 1 < NINODES -> n < 33 -> put_slot v k d n = v n.
Proof. intros Hk Hn. pose proof (islot_pos k Hk) as (_ & Hb & _). unfold put_slot. rewrite set_block_ne; [done|]. lia. Qed.

Lemma put_slot_len v k d n : Z.of_nat k + 1 < NINODES -> length d = 64%nat -> (forall m, length (v m) = 1024%nat) ->
  length (put_slot v k d n) = 1024%nat.
Proof.
  intros Hk Hd Hv. pose proof (islot_pos k Hk) as (_ & _ & _ & Ho). unfold put_slot.
  destruct (decide (n = IBLOCK (Z.of_nat k + 1) mk_sb)) as [->|]; [|by rewrite set_block_ne].
  rewrite set_block_eq, splice_length; [done|]. rewrite Hv. lia.
Qed.

Lemma islot_put v k j d : Z.of_nat k + 1 < NINODES -> Z.of_nat j + 1 < NINODES -> length d = 64%nat ->
  (forall m, length (v m) = 1024%nat) -> islot (put_slot v k d) j = if decide (j = k) then d else islot v j.
Proof.
  intros Hk Hj Hd Hv. pose proof (islot_pos k Hk) as (Ek & _ & Ok & Hok). pose proof (islot_pos j Hj) as (Ej & _ & Oj & _).
  unfold islot, put_slot. case_decide as E.
  - subst j. rewrite set_block_eq, <- Hd. apply slice_splice_eq. rewrite Hv. lia.
  - destruct (decide (IBLOCK (Z.of_nat j + 1) mk_sb = IBLOCK (Z.of_nat k + 1) mk_sb)) as [Eb|]; [|by rewrite set_block_ne].
    rewrite Eb, set_block_eq. apply slice_splice_ne; [rewrite Hv; lia|]. rewrite Hd, Oj, Ok.
    pose proof (Z.div_mod (Z.of_nat k + 1) 16 ltac:(lia)). pose proof (Z.div_mod (Z.of_nat j + 1) 16 ltac:(lia)).
    pose proof (Z.mod_pos_bound (Z.of_nat k + 1) 16 ltac:(lia)). pose proof (Z.mod_pos_bound (Z.of_nat j + 1) 16 ltac:(lia)). lia.
Qed.

Lemma islot_same v v' k : Z.of_nat k + 1 < NINODES -> (forall n, n < nmeta -> v' n = v n) -> islot v' k = islot v k.
Proof. intros Hk H. pose proof (islot_pos k Hk) as (_ & Hb & _). unfold islot. rewrite H; [done|]. mkconst. lia. Qed.

Lemma winode_ok s k d Q : msb s = mk_sb -> isz s = FSSIZE -> Z.of_nat k + 1 < NINODES ->
  Q tt (Mst (put_slot (img s) k d) FSSIZE mk_sb (freeinode s) (freeblock s)) -> wp (winode (Z.of_nat k + 1) d) Q s.
Proof.
  intros Es Ei Hk HQ. pose proof (islot_pos k Hk) as (_ & Hb & _). unfold winode. wp_steps. rewrite Es.
  apply rsect_ok; [done|mkconst; lia|]. apply wsect_ok; [done|mkconst; lia|]. by rewrite Es.
Qed.
Lemma rinode_ok s k Q : msb s = mk_sb -> isz s = FSSIZE -> Z.of_nat k + 1 < NINODES ->
  Q (islot (img s) k) s -> wp (rinode (Z.of_nat k + 1)) Q s.
Proof.
  intros Es Ei Hk HQ. pose proof (islot_pos k Hk) as (_ & Hb & _). unfold rinode. wp_steps. rewrite Es.
  apply rsect_ok; [done|mkconst; lia|]. by wp_steps.
Qed.

(** Only the data blocks matter for [dinv]. *)
Lemma dinv_meta s G v' fi : dinv s G -> (forall n, nmeta <= n -> v' n = img s n) -> (forall n, length (v' n) = 1024%nat) ->
  dinv (Mst v' FSSIZE mk_sb fi (freeblock s)) G.
Proof.
  intros D Hv Hl. pose proof D as [? ? Hr ? Hfr ? Hf]. split; cbn [msb isz freeblock img]; try done.
  - intros n Hn. rewrite Hv by lia. by apply Hfr.
  - intros k g Hk. apply (file_at_frame (img s)); [|by apply (Hf k)]. intros n Hn. apply Hv.
    pose proof (own_range _ _ D _ _ _ Hk Hn). lia.
Qed.

Lemma din_put_size din sz g n : din_is din sz g -> is_u32 n -> din_is (put_le 4 din 8 n) n g.
Proof.
  intros [Hl Ht Hn Hs Ha Hi] Hb. split; rewrite ?put_le_length by lia; unfold di_addr in *.
  - done.
  - by rewrite get_put_le_ne by lia.
  - by rewrite get_put_le_ne by lia.
  - by rewrite get_put_le_eq by (done || lia).
  - intros k Hk. rewrite get_put_le_ne by lia. by apply Ha.
  - by rewrite get_put_le_ne by lia.
Qed.

Lemma slot_valid s G k g : minv s G -> G !! k = Some g -> Z.of_nat k + 1 < NINODES.
Proof. intros M Hk%lookup_lt_Some. pose proof (mv_max _ _ M). lia. Qed.

Lemma iappend_ok s G k g p : minv s G -> G !! k = Some g ->
  let n := Z.of_nat (length (gdata g)) in
  n + Z.of_nat (length p) <= MAXFILE * BSIZE -> freeblock s + (need (n + Z.of_nat (length p)) - need n) <= FSSIZE ->
  wp (iappend (Z.of_nat k + 1) p) (fun _ s' => exists g', gty g' = gty g /\ gdata g' = gdata g ++ p /\ minv s' (<[k := g']> G)) s.
Proof.
  intros M Hk n Hn Hroom. pose proof (slot_valid _ _ _ _ M Hk) as Hv. pose proof (mv_dat _ _ M) as D.
  unfold iappend. wp_step. apply rinode_ok; [apply D|apply D|done|]. pose proof (mv_din _ _ M _ _ Hk) as Hd.
  rewrite (dn_size _ _ _ Hd). wp_step. eapply wp_mono.
  { by apply (iappend_loop_ok _ s G k g _ n p D Hk Hd (mv_tight _ _ M _ _ Hk)); [..|lia]. }
  fold n. intros [din off] s1 (g1 & Eo & Hd1 & E1 & E2 & Ht1 & D1 & (Kf & Km) & _). cbn [fst snd] in *.
  apply (winode_ok s1 k); [apply D1|apply D1|done|]. exists g1. split_and!; try done.
  pose proof (dv_len _ _ D1) as Hlen. apply (din_put_size _ _ _ off) in Hd1; [|unfold is_u32; mkconst; lia].
  pose proof (dn_len _ _ _ Hd1) as Hl64. split; cbn [freeinode img].
  - apply dinv_meta; [done| |]; intros m; [by apply put_slot_data|by apply put_slot_len].
  - intros m Hm. rewrite put_slot_head, Km by (done || mkconst; lia). by apply M.
  - rewrite Kf, length_insert. apply M.
  - rewrite length_insert. apply M.
  - intros j h Hj. assert (Hvj : Z.of_nat j + 1 < NINODES).
    { apply lookup_lt_Some in Hj. rewrite length_insert in Hj. pose proof (mv_max _ _ M). lia. }
    rewrite islot_put by done. case_decide as E.
    + subst j. rewrite list_lookup_insert_eq in Hj by (by eapply lookup_lt_Some). injection Hj as <-.
      rewrite E2, length_app, Nat2Z.inj_add. fold n. by rewrite <- Eo.
    + rewrite list_lookup_insert_ne in Hj by done. rewrite (islot_same (img s)) by done. by apply M.
  - intros j h Hj. destruct (decide (j = k)) as [->|E].
    + rewrite list_lookup_insert_eq in Hj by (by eapply lookup_lt_Some). by injection Hj as <-.
    + rewrite list_lookup_insert_ne in Hj by done. by apply (mv_tight _ _ M j).
Qed.

(** A new inode with a type and no data. *)
Lemma new_din t : 0 <= t < 65536 -> din_is (put_le 4 (put_le 2 (put_le 2 (replicate 64 0) 0 t) 6 1) 8 0) 0 (Gf t [] [] 0).
Proof.
  intros Ht. set (d1 := put_le 2 (replicate 64 0) 0 t). set (d2 := put_le 2 d1 6 1).
  assert (L1 : length d1 = 64%nat) by (apply put_le_length; cbn; lia).
  assert (L2 : length d2 = 64%nat) by (unfold d2; rewrite put_le_length; lia).
  assert (E2 : forall k off, (k <= 4)%nat -> (8 <= off)%nat -> get_le k d2 off = get_le k (replicate 64 0) off).
  { intros k off Hk Ho. unfold d2. rewrite get_put_le_ne by lia. unfold d1. rewrite get_put_le_ne by (cbn; lia). done. }
  split; unfold di_addr; cbn [gty gblk gind].
  - by rewrite put_le_length by lia.
  - rewrite get_put_le_ne by lia. unfold d2. rewrite get_put_le_ne by lia. apply get_put_le_eq; [cbn; lia|exact Ht].
  - rewrite get_put_le_ne by lia. apply get_put_le_eq; [lia|done].
  - apply get_put_le_eq; [lia|done].
  - intros k Hk. rewrite get_put_le_ne, E2 by lia. do 12 (destruct k as [|k]; [done|]). lia.
  - by rewrite get_put_le_ne, E2 by lia.
Qed.

Lemma ialloc_ok s G t : minv s G -> Z.of_nat (length G) + 1 < NINODES -> 0 <= t < 65536 ->
  wp (ialloc t) (fun r s' => r = Z.of_nat (length G) + 1 /\ minv s' (G ++ [Gf t [] [] 0])) s.
Proof.
  intros M Hn Ht. pose proof (mv_dat _ _ M) as D. unfold ialloc. wp_steps. rewrite (mv_free _ _ M).
  apply winode_ok; [apply D|apply D|done|]. split; [done|]. cbn [freeinode freeblock img]. mkconst.
  pose proof (new_din t Ht) as Hd. pose proof (dn_len _ _ _ Hd) as Hl. pose proof (dv_len _ _ D) as Hlen.
  rewrite u32_id by (unfold is_u32; mkconst; lia). split; cbn [freeinode img].
  - assert (D' : dinv s (G ++ [Gf t [] [] 0])).
    { destruct D as [? ? ? Ho ? ? Hf]. split; try done.
      - rewrite fmap_app, concat_app. cbn. by rewrite app_nil_r.
      - intros k g Hk. apply lookup_snoc_Some in Hk as [[_ Hk]|[_ <-]]; [by apply (Hf k)|]. split; cbn; try lia; done. }
    apply (dinv_meta s); [done| |]; intros m; [by apply put_slot_data|by apply put_slot_len].
  - intros m Hm. rewrite put_slot_head by done. by apply M.
  - rewrite length_app. cbn. lia.
  - rewrite length_app. cbn. mkconst. lia.
  - intros j h Hj. rewrite islot_put; try done.
    2:{ apply lookup_lt_Some in Hj. rewrite length_app in Hj. cbn in Hj. mkconst. lia. }
    apply lookup_snoc_Some in Hj as [[Hj H]|[-> <-]].
    + rewrite decide_False by lia. by apply M.
    + by rewrite decide_True.
  - intros j h Hj. apply lookup_snoc_Some in Hj as [[_ H]|[_ <-]]; [by apply (mv_tight _ _ M j)|]. split; cbn; [lia|done].
Qed.
