(* ===== verification/MkfsProps.v ===== *)
(** * The image mkfs makes is the file system the kernel reads

    [holds s L]: the image holds the files [L], a list of types and contents whose
    position is the inode number less one.  mkfs on a list of host files computes
    [image_files]; the kernel finds each of them under its name ([namei]), with its
    type and size ([ilock]) and its contents ([readi]); the block bitmap marks
    exactly the blocks in use, which is the state the allocator starts from. *)
From stdpp Require Import gmap.
From S2P Require Import Prelude Machine Spinlock Bytes Bio Log Txn UserMem Fs FsAlloc FsData FsName Mkfs MkfsImage.

(** ** Files as a list *)

Abbreviation file := (Z * list Z)%type.
Definition shape (G : list gfile) : list file := (fun g => (gty g, gdata g)) <$> G.
Definition holds (s : mst) (L : list file) : Prop := exists G, minv s G /\ shape G = L.

(** The blocks an image of these files takes. *)
Definition fneed (f : file) : Z := need (Z.of_nat (length f.2)).
Definition blocks (L : list file) : Z := foldr (fun f n => fneed f + n) nmeta L.

Lemma blocks_app L L' : blocks (L ++ L') = blocks L + blocks L' - nmeta.
Proof. unfold blocks. induction L as [|f L IH]; cbn [app fold_right]; [lia|]. rewrite IH. lia. Qed.
Lemma blocks_snoc L f : blocks (L ++ [f]) = blocks L + fneed f.
Proof. rewrite blocks_app. unfold blocks at 2. cbn [fold_right]. lia. Qed.
Lemma blocks_insert L k f g : L !! k = Some f -> blocks (<[k := g]> L) = blocks L - fneed f + fneed g.
Proof.
  intros Hk. rewrite <- (take_drop_middle L k f Hk) at 2. rewrite insert_take_drop by (by eapply lookup_lt_Some).
  rewrite !blocks_app. unfold blocks. cbn [fold_right]. lia.
Qed.
Lemma fneed_pos f : 0 <= fneed f.
Proof. unfold fneed. rewrite <- (need_mono 0) by lia. done. Qed.

Lemma gown_need v g : file_at v g -> tight g -> Z.of_nat (length (gown g)) = need (Z.of_nat (length (gdata g))).
Proof.
  intros F Ht. unfold need. rewrite (tight_nblks _ _ F Ht). unfold gown. rewrite length_app.
  destruct (Z.eqb_spec (gind g) 0) as [E|E]; destruct (Z.ltb_spec 12 (Z.of_nat (length (gblk g)))) as [H|H]; cbn [length]; try lia.
  - destruct (fa_need _ _ F); [lia|done].
  - apply Ht in E. lia.
Qed.

Lemma minv_count s G : minv s G -> freeblock s = blocks (shape G).
Proof.
  intros M. pose proof (dv_range _ _ (mv_dat _ _ M)) as Hr. pose proof (dv_own _ _ (mv_dat _ _ M)) as Ho.
  assert (E : Z.of_nat (length (concat (gown <$> G))) + nmeta = blocks (shape G)).
  { assert (H : forall k g, G !! k = Some g -> Z.of_nat (length (gown g)) = need (Z.of_nat (length (gdata g)))).
    { intros k g Hk. apply (gown_need (img s)); [by apply (dv_file _ _ (mv_dat _ _ M) k)|by apply (mv_tight _ _ M k)]. }
    clear - H. induction G as [|g G IH]; [done|]. unfold shape, blocks. rewrite !fmap_cons. cbn [concat fold_right]. rewrite length_app, Nat2Z.inj_add.
    rewrite (H 0%nat g eq_refl). unfold shape, blocks in IH. unfold fneed at 1. cbn [snd].
    rewrite <- IH by (intros k h Hk; by apply (H (S k))). lia. }
  rewrite Ho, length_seqZ in E. lia.
Qed.

(** ** The operations on the list *)

Lemma shape_lookup G k f : shape G !! k = Some f -> exists g, G !! k = Some g /\ f = (gty g, gdata g).
Proof. unfold shape. rewrite list_lookup_fmap. destruct (G !! k) as [g|]; cbn; [|done]. intros [= <-]. by exists g. Qed.

Lemma iappend_holds s L k t d p : holds s L -> L !! k = Some (t, d) -> Z.of_nat (length (d ++ p)) <= MAXFILE * BSIZE ->
  blocks (<[k := (t, d ++ p)]> L) <= FSSIZE ->
  wp (iappend (Z.of_nat k + 1) p) (fun _ s' => holds s' (<[k := (t, d ++ p)]> L)) s.
Proof.
  intros (G & M & <-) Hk Hl Hb. destruct (shape_lookup _ _ _ Hk) as (g & Hg & [= -> ->]).
  rewrite (blocks_insert _ _ _ _ Hk), <- (minv_count _ _ M) in Hb. unfold fneed in Hb. cbn [snd] in Hb.
  rewrite length_app, Nat2Z.inj_add in *.
  eapply wp_mono; [apply (iappend_ok s G k g p M Hg Hl); lia|]. cbn beta. intros _ s' (g' & Et & Ed & M').
  exists (<[k := g']> G). split; [done|]. unfold shape. rewrite list_fmap_insert. by rewrite Et, Ed.
Qed.

Lemma ialloc_holds s L t : holds s L -> Z.of_nat (length L) + 1 < NINODES -> 0 <= t < 65536 ->
  wp (ialloc t) (fun r s' => r = Z.of_nat (length L) + 1 /\ holds s' (L ++ [(t, [])])) s.
Proof.
  intros (G & M & <-) Hn Ht. unfold shape in Hn. rewrite length_fmap in Hn.
  eapply wp_mono; [by apply (ialloc_ok s G t M)|]. cbn beta. intros r s' (-> & M'). unfold shape. rewrite length_fmap. split; [done|].
  exists (G ++ [Gf t [] [] 0]). split; [done|]. unfold shape. by rewrite fmap_app.
Qed.

Lemma copy_in_holds fuel s L k t d c : holds s L -> L !! k = Some (t, d) -> Z.of_nat (length (d ++ c)) <= MAXFILE * BSIZE ->
  blocks (<[k := (t, d ++ c)]> L) <= FSSIZE -> (length c < fuel)%nat ->
  wp (copy_in fuel (Z.of_nat k + 1) c) (fun _ s' => holds s' (<[k := (t, d ++ c)]> L)) s.
Proof.
  revert s L d c. induction fuel as [|f IH]; intros s L d c H Hk Hl Hb Hf; [lia|]. cbn [copy_in].
  destruct c as [|y c]; [wp_steps; by rewrite app_nil_r, list_insert_id|]. set (yc := y :: c) in *.
  set (c1 := take (Z.to_nat BSIZE) yc). set (c2 := drop (Z.to_nat BSIZE) yc).
  assert (E : yc = c1 ++ c2) by (symmetry; apply take_drop).
  assert (Hc : (length c2 < length yc)%nat).
  { unfold c2. rewrite length_drop. assert (0 < length yc)%nat by (cbn; lia). mkconst. lia. }
  rewrite E, app_assoc in *. rewrite (length_app (d ++ c1)) in Hl. assert (Hl2 : (length (c1 ++ c2) < S f)%nat) by lia.
  wp_step. eapply wp_mono.
  { apply (iappend_holds s L k t d c1 H Hk); [lia|]. rewrite (blocks_insert _ _ _ _ Hk). rewrite (blocks_insert _ _ _ _ Hk) in Hb.
    unfold fneed in *. cbn [snd] in *.
    pose proof (need_mono (Z.of_nat (length (d ++ c1))) (Z.of_nat (length ((d ++ c1) ++ c2)))
      ltac:(rewrite (length_app (d ++ c1)); lia)) as Hm.
    lia. }
  cbn beta. intros _ s1 H1. eapply wp_mono; [apply (IH s1 _ (d ++ c1) c2 H1)|].
  - apply list_lookup_insert_eq. by eapply lookup_lt_Some.
  - rewrite length_app. lia.
  - by rewrite list_insert_insert_eq.
  - lia.
  - cbn beta. intros _ s2 H2. by rewrite list_insert_insert_eq in H2.
Qed.

(** ** The files of the image *)

Definition content (f : hostfile) : list Z := default [] f.2.
(** The entries of the root directory after [.] and [..]; inode numbers from 2 on. *)
Definition dir_entries (fs : list hostfile) : list (list Z) :=
  imap (fun k f => dirent (Z.of_nat k + 2) (shortname f.1)) fs.
Definition root_dir (fs : list hostfile) : list Z := dirent 1 [46] ++ dirent 1 [46; 46] ++ concat (dir_entries fs).
Definition image_files (fs : list hostfile) : list file :=
  (T_DIR, root_dir fs) :: ((fun f => (T_FILE, content f)) <$> fs).

(** A file mkfs accepts: readable, with a name and a size that fit. *)
Record host_ok (f : hostfile) : Prop := {
  ho_open : is_Some f.2;
  ho_nul : 0 ∉ f.1;
  ho_slash : SLASH ∉ after_user f.1;
  ho_name : Z.of_nat (length (shortname f.1)) <= DIRSIZ;
  ho_size : Z.of_nat (length (content f)) <= MAXFILE * BSIZE
}.

Lemma dirent_length i name : Z.of_nat (length name) <= DIRSIZ -> length (dirent i name) = 16%nat.
Proof. intros H. unfold dirent. rewrite !length_app, le_length, length_replicate. change (Z.to_nat DIRSIZ) with 14%nat. unfold DIRSIZ in H. lia. Qed.

Lemma root_dir_snoc fs f : root_dir (fs ++ [f]) = root_dir fs ++ dirent (Z.of_nat (length fs) + 2) (shortname f.1).
Proof.
  unfold root_dir, dir_entries. rewrite imap_app, concat_app. cbn [imap concat]. rewrite app_nil_r, !app_assoc.
  cbn. by rewrite Nat.add_0_r.
Qed.
Lemma root_dir_length fs : Forall host_ok fs -> length (root_dir fs) = (16 * (2 + length fs))%nat.
Proof.
  induction fs as [|f fs IH] using rev_ind; [done|]. intros [H1 H2]%Forall_app.
  rewrite root_dir_snoc, length_app, IH, dirent_length, length_app by (done || by apply Forall_singleton, ho_name in H2). cbn. lia.
Qed.
Lemma image_files_snoc fs f : image_files (fs ++ [f]) =
  <[0%nat := (T_DIR, root_dir (fs ++ [f]))]> (image_files fs) ++ [(T_FILE, content f)].
Proof. unfold image_files. rewrite fmap_app. done. Qed.
Lemma image_files_len fs : length (image_files fs) = S (length fs).
Proof. unfold image_files. cbn. by rewrite length_fmap. Qed.

Lemma blocks_prefix fs fs' : blocks (image_files fs) <= blocks (image_files (fs ++ fs')).
Proof.
  induction fs' as [|f fs' IH] using rev_ind; [by rewrite app_nil_r|]. rewrite app_assoc, image_files_snoc, blocks_snoc.
  rewrite (blocks_insert _ _ (T_DIR, root_dir (fs ++ fs'))) by done.
  pose proof (fneed_pos (T_FILE, content f)). assert (fneed (T_DIR, root_dir (fs ++ fs')) <= fneed (T_DIR, root_dir ((fs ++ fs') ++ [f]))); [|lia].
  unfold fneed. cbn [snd]. apply need_mono. rewrite root_dir_snoc, length_app. lia.
Qed.

Lemma add_file_holds s fs f : holds s (image_files fs) -> Forall host_ok (fs ++ [f]) -> Z.of_nat (length fs) + 2 < NINODES ->
  blocks (image_files (fs ++ [f])) <= FSSIZE ->
  wp (add_file ROOTINO f) (fun _ s' => holds s' (image_files (fs ++ [f]))) s.
Proof.
  intros H Hok Hn Hb. pose proof (proj2 (proj1 (Forall_app _ _ _) Hok)) as Hf. apply Forall_singleton in Hf as [Ho _ Hs Hnm Hsz].
  assert (Ed : root_dir (fs ++ [f]) = root_dir fs ++ dirent (Z.of_nat (S (length fs)) + 1) (shortname f.1)).
  { rewrite root_dir_snoc. do 2 f_equal. lia. }
  pose proof (root_dir_length _ Hok) as Hrl. rewrite length_app in Hrl. cbn [length] in Hrl.
  unfold add_file. rewrite bool_decide_false by done. destruct Ho as [c Ec]. unfold content in Hsz, Hb. rewrite Ec in *. cbn [default] in Hsz.
  rewrite (proj2 (Z.leb_le _ _)) by done. cbn [negb]. wp_step. eapply wp_mono.
  { apply (ialloc_holds s _ T_FILE H); [rewrite image_files_len; lia|done]. }
  cbn beta. rewrite image_files_len. intros r s1 [-> H1]. wp_step. eapply wp_mono.
  { change ROOTINO with (Z.of_nat 0 + 1). apply (iappend_holds s1 (image_files fs ++ [(T_FILE, [])]) 0 T_DIR (root_dir fs)); [done|done|rewrite <- Ed; mkconst; lia|].
    rewrite <- Ed. etrans; [|exact Hb]. rewrite image_files_snoc, insert_app_l by (rewrite image_files_len; lia).
    rewrite !blocks_snoc. pose proof (fneed_pos (T_FILE, content f)).
    change (fneed (T_FILE, [])) with 0.
    by apply Z.add_le_mono. }
  cbn beta. rewrite <- Ed, insert_app_l by (rewrite image_files_len; lia). intros _ s2 H2.
  set (L := <[0%nat := (T_DIR, root_dir (fs ++ [f]))]> (image_files fs)) in *. assert (EL : length L = S (length fs)) by (unfold L; by rewrite length_insert, image_files_len).
  rewrite <- EL. eapply wp_mono; [apply (copy_in_holds _ s2 _ (length L) T_FILE [] c H2); cbn [app]|].
  - by apply list_lookup_middle.
  - done.
  - rewrite insert_app_r_alt, Nat.sub_diag by done. etrans; [|exact Hb]. rewrite image_files_snoc. unfold content. by rewrite Ec.
  - lia.
  - cbn beta. intros _ s3 H3. rewrite insert_app_r_alt, Nat.sub_diag in H3 by done. rewrite image_files_snoc. unfold content. by rewrite Ec.
Qed.

Lemma add_files_holds s pre fs : holds s (image_files pre) -> Forall host_ok (pre ++ fs) ->
  Z.of_nat (length (pre ++ fs)) + 1 < NINODES -> blocks (image_files (pre ++ fs)) <= FSSIZE ->
  wp (add_files ROOTINO fs) (fun _ s' => holds s' (image_files (pre ++ fs))) s.
Proof.
  revert s pre. induction fs as [|f fs IH]; intros s pre H Hok Hn Hb; cbn [add_files].
  - wp_steps. by rewrite app_nil_r.
  - rewrite cons_middle, app_assoc in *. wp_step. rewrite length_app in Hn. eapply wp_mono.
    + apply add_file_holds; [done|by apply Forall_app in Hok as [? _]|rewrite length_app in Hn; cbn in Hn; lia|].
      etrans; [apply blocks_prefix|exact Hb].
    + cbn beta. intros _ s1 H1. apply IH; [done|done|rewrite length_app; lia|done].
Qed.

(** ** The whole run *)

(** The size [main] stores for the root directory. *)
Definition root_size (fs : list hostfile) : Z := (Z.of_nat (length (root_dir fs)) / BSIZE + 1) * BSIZE.
Definition disk_size (fs : list hostfile) (k : nat) (g : gfile) : Z :=
  if decide (k = 0%nat) then root_size fs else Z.of_nat (length (gdata g)).

(** The finished image. *)
Record made (v : Z -> block) (fs : list hostfile) (G : list gfile) (fb : Z) : Prop := {
  md_shape : shape G = image_files fs;
  md_count : Z.of_nat (length G) < NINODES;
  md_used : fb = blocks (image_files fs);
  md_data : dinv (Mst v FSSIZE mk_sb 0 fb) G;
  md_din k g : G !! k = Some g -> din_is (islot v k) (disk_size fs k g) g;
  md_tight k g : G !! k = Some g -> tight g;
  md_sb : v 1 = sb_block mk_sb;
  md_log n : 2 <= n < 33 -> v n = replicate (Z.to_nat BSIZE) 0;
  md_bitmap : v 46 = mark_used (Z.to_nat fb) (replicate (Z.to_nat BSIZE) 0)
}.

Lemma mark_used_length n d : length (mark_used n d) = length d.
Proof. induction n as [|n IH]; [done|]. cbn [mark_used]. unfold set_bit. etrans; [apply length_insert|done]. Qed.

Lemma zero_image_ok n i s : 0 <= i -> i + Z.of_nat n <= FSSIZE -> isz s = i -> (forall m, img s m = replicate (Z.to_nat BSIZE) 0) ->
  wp (zero_image n i) (fun _ s' => isz s' = i + Z.of_nat n /\ (forall m, img s' m = replicate (Z.to_nat BSIZE) 0) /\
    msb s' = msb s /\ freeinode s' = freeinode s /\ freeblock s' = freeblock s) s.
Proof.
  revert i s. induction n as [|n IH]; intros i s Hi Hn Es Hz; cbn [zero_image].
  - wp_steps. split_and!; try done. lia.
  - unfold wsect at 1. wp_steps. rewrite at_sector_id by lia. eapply wp_mono; [apply IH; cbn [isz img]; try lia|].
    + intros m. destruct (decide (m = i)) as [->|]; [by rewrite set_block_eq|by rewrite set_block_ne].
    + cbn beta. intros _ s' (E & Hz' & E1 & E2 & E3). split_and!; try done. lia.
Qed.

Lemma sb_block_length : length (sb_block mk_sb) = 1024%nat.
Proof. by vm_compute. Qed.

(** The empty file system, with its superblock. *)
Lemma format_ok Q : (forall s, minv s [] -> Q tt s) -> wp mkfs_format Q mkfs_start.
Proof.
  intros HQ. unfold mkfs_format. wp_steps. eapply wp_mono; [apply zero_image_ok; try done|].
  cbn beta. cbn [msb freeinode freeblock mkfs_start]. intros _ s (Ei & Hz & Es & Ef & Eb). change (0 + Z.of_nat (Z.to_nat FSSIZE)) with FSSIZE in Ei.
  apply wsect_ok; [done|done|]. apply HQ. split; cbn [freeinode img].
  - split; cbn [msb isz freeblock img].
    + done.
    + done.
    + rewrite Eb. mkconst. lia.
    + by rewrite Eb.
    + intros n Hn. rewrite set_block_ne; [apply Hz|]. rewrite Eb in Hn. mkconst. lia.
    + intros n. destruct (decide (n = 1)) as [->|]; [by rewrite set_block_eq, sb_block_length|]. by rewrite set_block_ne, Hz.
    + done.
  - intros n _. destruct (Z.eqb_spec n 1) as [->|]; [by rewrite set_block_eq|by rewrite set_block_ne, Hz].
  - by rewrite Ef.
  - done.
  - done.
  - done.
Qed.

(** The size of the root, rounded up, and the bitmap. *)
Lemma finish_ok s fs : holds s (image_files fs) ->
  wp (let! din := rinode ROOTINO in
      let off := get_le 4 din 8 in
      winode ROOTINO (put_le 4 din 8 ((off / BSIZE + 1) * BSIZE)) ;;
      let! b := gets freeblock in
      balloc b) (fun _ m => exists G, made (img m) fs G (freeblock m)) s.
Proof.
  intros (G & M & EG). pose proof (mv_dat _ _ M) as D. pose proof (dv_range _ _ D) as Hr. pose proof (dv_len _ _ D) as Hlen.
  assert (exists g0, G !! 0%nat = Some g0 /\ gdata g0 = root_dir fs) as (g0 & H0 & Eg).
  { destruct (shape_lookup G 0 (T_DIR, root_dir fs)) as (g & ? & [= _ ->]); [by rewrite EG|]. by exists g. }
  pose proof (mv_din _ _ M _ _ H0) as Hd. pose proof (fa_cap _ _ (dv_file _ _ D _ _ H0)) as Hc. pose proof (fa_max _ _ (dv_file _ _ D _ _ H0)) as Hx.
  wp_step. change ROOTINO with (Z.of_nat 0 + 1). apply rinode_ok; [apply D|apply D|done|]. cbv zeta. rewrite (dn_size _ _ _ Hd), Eg. fold (root_size fs).
  assert (Hrs : is_u32 (root_size fs)).
  { unfold root_size, is_u32. rewrite <- Eg. pose proof (Z.div_pos (Z.of_nat (length (gdata g0))) BSIZE ltac:(lia) ltac:(done)).
    pose proof (Z.div_le_upper_bound (Z.of_nat (length (gdata g0))) BSIZE 268 ltac:(done)). mkconst. lia. }
  apply (din_put_size _ _ _ _ Hd) in Hrs as Hd'. pose proof (dn_len _ _ _ Hd') as Hl64.
  cbv zeta. wp_step. apply winode_ok; [apply D|apply D|done|]. wp_steps. cbn [freeblock]. unfold balloc.
  rewrite (proj2 (Z.ltb_lt _ _)) by (change BPB with 8192; mkconst; lia). cbn [negb]. wp_steps. cbn [msb]. change (bmapstart mk_sb) with 46.
  apply wsect_ok; [done|done|]. cbn [img freeblock freeinode msb]. exists G.
  set (v1 := put_slot (img s) 0 _). set (v2 := set_block v1 46 _).
  assert (Hv1 : forall n, length (v1 n) = 1024%nat) by (intros n; by apply put_slot_len).
  assert (Hi2 : forall k, Z.of_nat k + 1 < NINODES -> islot v2 k = islot v1 k).
  { intros k Hk. pose proof (islot_pos k Hk) as (_ & Hb & _). unfold islot, v2. by rewrite set_block_ne by lia. }
  split; try done.
  - apply M.
  - rewrite <- EG. by apply minv_count.
  - apply (dinv_meta s); [done| |]; intros n.
    + intros Hn. unfold v2. rewrite set_block_ne by (mkconst; lia). by apply put_slot_data.
    + unfold v2. destruct (decide (n = 46)) as [->|]; [by rewrite set_block_eq, mark_used_length, length_replicate|by rewrite set_block_ne].
  - intros k g Hk. pose proof (slot_valid _ _ _ _ M Hk) as Hs. rewrite Hi2 by done. unfold v1. rewrite islot_put by done. unfold disk_size.
    case_decide; [subst k; by replace g with g0 by congruence|]. by apply M.
  - by apply M.
  - unfold v2, v1. rewrite set_block_ne by lia. rewrite put_slot_head by done. by rewrite (mv_head _ _ M).
  - intros n Hn. unfold v2, v1. rewrite set_block_ne by lia. rewrite put_slot_head by (done || lia).
    rewrite (mv_head _ _ M) by lia. by rewrite (proj2 (Z.eqb_neq _ _)) by lia.
Qed.

Lemma mkfs_main_ok fs : Forall host_ok fs -> Z.of_nat (length fs) + 1 < NINODES -> blocks (image_files fs) <= FSSIZE ->
  wp (mkfs_main fs) (fun _ m => exists G, made (img m) fs G (freeblock m)) mkfs_start.
Proof.
  intros Hok Hn Hb. unfold mkfs_main.
  wp_step. apply format_ok. intros s0 M0.
  wp_step. eapply wp_mono; [apply (ialloc_holds s0 [] T_DIR); [by exists []|done|done]|].
  cbn beta. intros r s1 [-> H1]. change (negb (Z.of_nat (length []) + 1 =? ROOTINO)) with false. cbv iota.
  wp_step. eapply wp_mono; [apply (iappend_holds s1 _ 0 T_DIR [] _ H1); [reflexivity|by vm_compute|by vm_compute]|]. cbn beta. intros _ s2 H2.
  wp_step. eapply wp_mono; [apply (iappend_holds s2 _ 0 T_DIR (dirent 1 [46]) _ H2); [reflexivity|by vm_compute|by vm_compute]|]. cbn beta. intros _ s3 H3.
  wp_step. eapply wp_mono; [apply (add_files_holds s3 [] fs); [|done|done|done]|].
  - exact H3.
  - cbn beta. intros _ s4 H4. by apply finish_ok.
Qed.

(** ** The image as the kernel sees it *)

Lemma get_le_slice k off d o : (o + k <= 64)%nat -> get_le k (slice off 64 d) o = get_le k d (off + o).
Proof.
  intros H. unfold get_le, slice. f_equal. rewrite skipn_firstn_comm, take_take, drop_drop. f_equal. lia.
Qed.

Lemma nth_map_seq (f : nat -> Z) n j : (j < n)%nat -> nth j (map f (seq 0 n)) 0 = f j.
Proof. intros Hj. rewrite (nth_indep _ 0 (f 0%nat)) by (rewrite length_map, length_seq; lia). by rewrite map_nth, seq_nth. Qed.

Section Disk.
Context (v : Z -> block) (fs : list hostfile) (G : list gfile) (fb : Z) (D : made v fs G fb) (k : nat) (g : gfile) (Hk : G !! k = Some g).
Local Abbreviation inm := (Z.of_nat k + 1).
Local Abbreviation x := (on_disk v mk_sb inm).
Local Abbreviation V := (md_data v fs G fb D).
Local Abbreviation F := (dv_file _ G V k g Hk).

Lemma disk_inode : itype x = i16 (gty g) /\ nlink x = 1 /\ isize x = disk_size fs k g /\
  (forall j, (j < 12)%nat -> addr_at x (Z.of_nat j) = nth j (gblk g) 0) /\ addr_at x NDIRECT = gind g.
Proof.
  pose proof (md_din _ _ _ _ D _ _ Hk) as [Hl Ht Hn Hs Ha Hi]. unfold islot in *. unfold di_addr in *.
  unfold on_disk, dinode_of, di_type, di_nlink, addr_at. cbn [itype nlink isize addrs].
  rewrite get_le_slice in Ht by lia. rewrite get_le_slice in Hn by lia. rewrite get_le_slice in Hs by lia. rewrite get_le_slice in Hi by lia.
  rewrite Nat.add_0_r in Ht. rewrite Ht, Hn, Hs. split_and!; try done.
  - intros j Hj. rewrite Nat2Z.id. rewrite <- Ha by done. rewrite get_le_slice by lia.
    rewrite nth_map_seq by lia. unfold di_addr. f_equal. lia.
  - rewrite <- Hi. change (Z.to_nat NDIRECT) with 12%nat. rewrite nth_map_seq by lia. unfold di_addr. f_equal. lia.
Qed.

Lemma disk_blk (bn : nat) : (bn < length (gblk g))%nat -> gblk g !! bn = Some (blk x v (Z.of_nat bn)).
Proof.
  intros Hb. pose proof disk_inode as (_ & _ & _ & Ha & Hi). pose proof (fa_max _ _ F) as Hm.
  destruct (lookup_lt_is_Some_2 _ _ Hb) as [b Eb]. rewrite Eb. f_equal. apply nth_lookup_Some with (d := 0) in Eb.
  unfold blk. destruct (Z.ltb_spec (Z.of_nat bn) NDIRECT) as [Hd|Hd]; mkconst.
  - rewrite Ha by lia. done.
  - rewrite Hi. replace (Z.to_nat (4 * (Z.of_nat bn - 12))) with (4 * (bn - 12))%nat by lia.
    pose proof (fa_ind _ _ F (bn - 12)%nat) as E. cbn [img] in E. rewrite E; [|apply (fa_need _ _ F); lia|lia].
    rewrite <- Eb. f_equal. lia.
Qed.

Lemma disk_file_ok : file_ok 2 v x (Z.of_nat (length (gblk g))).
Proof.
  pose proof disk_inode as (_ & _ & _ & Ha & Hi). pose proof (fa_max _ _ F) as Hm. pose proof (dv_range _ _ V) as Hr. cbn [freeblock] in Hr.
  assert (Hown : forall n, n ∈ gown g -> block_ok 2 v n).
  { intros n Hn. pose proof (own_range _ _ V _ _ _ Hk Hn) as H. cbn [freeblock] in H. unfold block_ok, in_log, LOGBLOCKS, MAXOPBLOCKS. mkconst.
    split_and!; [lia|lia|lia|apply (dv_len _ _ V)]. }
  assert (Hblk : forall bn, 0 <= bn < Z.of_nat (length (gblk g)) -> gblk g !! Z.to_nat bn = Some (blk x v bn)).
  { intros bn Hb. rewrite disk_blk by lia. by rewrite Z2Nat.id by lia. }
  pose proof (own_nodup1 _ _ V _ _ Hk) as N. unfold gown in N. apply NoDup_app in N as (N & N' & _).
  split.
  - mkconst. lia.
  - intros bn Hb. eapply Hown, gblk_own, Hblk, Hb.
  - intros bn bn' Hb Hb' E. pose proof (Hblk bn Hb) as H1. pose proof (Hblk bn' Hb') as H2. rewrite E in H1.
    pose proof (NoDup_lookup _ _ _ _ N H1 H2). lia.
  - intros Hn. assert (Hi0 : gind g <> 0) by (apply (fa_need _ _ F); mkconst; lia). rewrite Hi. split; [by apply Hown, gind_own|].
    intros bn Hb E. pose proof (Hblk bn Hb) as H1%list_elem_of_lookup_2. rewrite E in H1. apply (N' _ H1).
    rewrite (proj2 (Z.eqb_neq _ _)) by done. by apply list_elem_of_singleton.
Qed.

Lemma disk_fbytes (off n : nat) : (off + n <= length (gdata g))%nat -> fbytes x v (Z.of_nat off) (Z.of_nat n) = slice off n (gdata g).
Proof.
  intros Hn. pose proof (fa_cap _ _ F) as Hc. apply list_eq. intros i. destruct (decide (i < n)%nat) as [Hi|Hi].
  - rewrite fbytes_lookup, slice_lookup by lia. unfold fbyte.
    destruct (lookup_lt_is_Some_2 (gdata g) (off + i)) as [y Ey]; [lia|]. rewrite Ey. apply nth_lookup_Some with (d := 0) in Ey as <-. f_equal. set (j := (off + i)%nat). replace (Z.of_nat off + Z.of_nat i) with (Z.of_nat j) by lia.
    pose proof (Nat.div_mod j 1024 ltac:(lia)) as Ej. pose proof (Nat.mod_upper_bound j 1024 ltac:(lia)) as Hm.
    mkconst. change 1024 with (Z.of_nat 1024). rewrite <- (Nat2Z.inj_mod j 1024), <- (Nat2Z.inj_div j 1024), Nat2Z.id.
    pose proof (disk_blk (j / 1024)) as Hb. rewrite Ej at 3. apply (fa_dat _ _ F (j / 1024) _ (j mod 1024)); [apply Hb|done].
    apply Nat.Div0.div_lt_upper_bound. unfold j. lia.
  - rewrite !lookup_ge_None_2; [done| |rewrite fbytes_length; lia]. unfold slice. rewrite length_take, length_drop. lia.
Qed.
End Disk.

(** ** The root directory *)

Lemma slice_concat (n : nat) (l : list (list Z)) e d : Forall (fun y => length y = n) l -> l !! e = Some d ->
  slice (n * e) n (concat l) = d.
Proof.
  revert e. induction l as [|y l IH]; intros e Hl He; [done|]. apply Forall_cons in Hl as [Hy Hl]. cbn [concat]. unfold slice in *.
  destruct e as [|e]; cbn in He.
  - injection He as ->. rewrite Nat.mul_0_r, drop_0, take_app_length' by done. done.
  - replace (n * S e)%nat with (length y + n * e)%nat by lia. rewrite drop_app_add. by apply IH.
Qed.

Definition names (fs : list hostfile) : list (list Z) := [46] :: [46; 46] :: ((fun f => shortname f.1) <$> fs).
Definition inums (fs : list hostfile) (e : nat) : Z := if decide (e < 2)%nat then 1 else Z.of_nat e.

Lemma root_entries fs (v : Z -> block) G fb e name : made v fs G fb -> Forall host_ok fs -> names fs !! e = Some name ->
  entry (on_disk v mk_sb ROOTINO) v e = dirent (inums fs e) name.
Proof.
  intros D Hok He. set (es := dirent 1 [46] :: dirent 1 [46; 46] :: dir_entries fs).
  assert (Hlen : Forall (fun y => length y = 16%nat) es).
  { repeat apply Forall_cons_2; [done|done|]. unfold dir_entries. apply Forall_lookup_2. intros i y.
    rewrite list_lookup_imap. destruct (fs !! i) as [f|] eqn:Ef; cbn; [|done]. intros [= <-].
    apply dirent_length. eapply Forall_lookup_1 in Hok; [|exact Ef]. apply Hok. }
  assert (Ees : es !! e = Some (dirent (inums fs e) name)).
  { unfold inums. destruct e as [|[|e]]; [cbn in He; by injection He as <-|cbn in He; by injection He as <-|].
    rewrite decide_False by lia. change (dir_entries fs !! e = Some (dirent (Z.of_nat (S (S e))) name)).
    replace (Z.of_nat (S (S e))) with (Z.of_nat e + 2) by lia.
    change (((fun f : hostfile => shortname f.1) <$> fs) !! e = Some name) in He.
    unfold dir_entries. rewrite list_lookup_imap. rewrite list_lookup_fmap in He.
    destruct (fs !! e) as [f|]; cbn in He |- *; [|done]. by injection He as <-. }
  assert (exists g, G !! 0%nat = Some g /\ gdata g = concat es) as (g & Hg & Eg).
  { destruct (shape_lookup G 0 (T_DIR, root_dir fs)) as (g & ? & [= _ E]); [by rewrite (md_shape _ _ _ _ D)|]. exists g. split; [done|]. by rewrite <- E. }
  assert (Hle : (16 * e + 16 <= length (gdata g))%nat).
  { rewrite Eg. apply lookup_lt_Some in Ees. clear - Hlen Ees. revert e Ees. induction es as [|y es IH]; intros e He; cbn in He; [lia|].
    apply Forall_cons in Hlen as [Hy Hl]. cbn [concat]. rewrite length_app, Hy. destruct e as [|e]; [lia|]. pose proof (IH Hl e ltac:(lia)). lia. }
  unfold entry. change ROOTINO with (Z.of_nat 0 + 1). change DIRENT with (Z.of_nat 16). rewrite <- Nat2Z.inj_mul.
  rewrite (disk_fbytes v fs G fb D 0 g Hg) by done. rewrite Eg. by apply slice_concat.
Qed.

(** Names compare equal exactly when they are. *)
Lemma strncmp_names n p q m : 0 ∉ p -> 0 ∉ q -> (length p <= n)%nat -> (length q <= n)%nat ->
  (strncmp_l n p (q ++ replicate m 0) =? 0) = bool_decide (p = q).
Proof.
  revert p q. induction n as [|n IH]; intros p q Hp Hq Lp Lq.
  { destruct p; [|cbn in Lp; lia]. destruct q; [|cbn in Lq; lia]. done. }
  assert (Hr : hd 0 (replicate m 0) = 0 /\ tl (replicate m 0) = replicate (pred m) 0) by (by destruct m). destruct Hr as [Hr1 Hr2].
  cbn [strncmp_l]. destruct p as [|a p], q as [|b q]; cbn [hd tl app length] in *; rewrite ?not_elem_of_cons in *; destruct_and?.
  - rewrite Hr1. done.
  - change (negb (0 =? 0)) with false. cbn [andb]. rewrite bool_decide_false by done. apply Z.eqb_neq. lia.
  - rewrite Hr1, bool_decide_false by done. destruct (Z.eqb_spec a 0); [lia|]. cbn [negb andb]. apply Z.eqb_neq. lia.
  - destruct (Z.eqb_spec a 0); [lia|]. cbn [negb andb]. destruct (Z.eqb_spec a b) as [->|Hab].
    + rewrite IH by (try tauto; lia). apply bool_decide_ext. split; congruence.
    + rewrite bool_decide_false by congruence. apply Z.eqb_neq. lia.
Qed.

Lemma hit_dirent name i nm : 0 < i < 65536 -> 0 ∉ name -> 0 ∉ nm -> Z.of_nat (length name) <= DIRSIZ -> Z.of_nat (length nm) <= DIRSIZ ->
  hit name (dirent i nm) = bool_decide (name = nm) /\ de_inum (dirent i nm) = i.
Proof.
  intros Hi Hn Hm Ln Lm. change DIRSIZ with 14 in *.
  assert (E : de_inum (dirent i nm) = i).
  { unfold de_inum, get_le, slice, dirent. rewrite drop_0, take_app_length' by (by rewrite le_length). rewrite of_le_le. apply Z.mod_small.
    change (256 ^ Z.of_nat 2) with 65536. lia. }
  split; [|done]. unfold hit. rewrite E, (proj2 (Z.eqb_neq _ _)) by lia. cbn [negb andb].
  unfold namecmp, de_name, dirent, slice. rewrite drop_app_length' by (by rewrite le_length). rewrite take_ge.
  - apply strncmp_names; try done; change (Z.to_nat DIRSIZ) with 14%nat; lia.
  - rewrite length_app, length_replicate. change (Z.to_nat DIRSIZ) with 14%nat. lia.
Qed.

(** ** Mounting the image *)

Lemma mark_used_free n d b : Z.of_nat n <= 8 * Z.of_nat (length d) -> (forall b, 0 <= b -> bit_free d b = true) -> 0 <= b ->
  bit_free (mark_used n d) b = (Z.of_nat n <=? b).
Proof.
  intros Hn Hd Hb. induction n as [|n IH]; cbn [mark_used].
  - rewrite Hd by done. symmetry. apply Z.leb_le. lia.
  - rewrite bit_free_set by (rewrite ?mark_used_length; lia). rewrite IH by lia.
    destruct (Z.eqb_spec b (Z.of_nat n)), (Z.leb_spec (Z.of_nat n) b), (Z.leb_spec (Z.of_nat (S n)) b); lia || done.
Qed.

Lemma zero_free b n : bit_free (replicate n 0) b = true.
Proof. unfold bit_free, bit_byte. by rewrite nth_zeroes. Qed.

Lemma made_free v fs G fb b : made v fs G fb -> 0 <= b < FSSIZE -> blk_free mk_sb v b = (fb <=? b).
Proof.
  intros D Hb. pose proof (dv_range _ _ (md_data _ _ _ _ D)) as Hr. cbn [freeblock] in Hr. unfold blk_free, BBLOCK.
  change (bmapstart mk_sb) with 46. change BPB with 8192. mkconst. rewrite Z.div_small, Z.mod_small by lia. change (u32 (0 + 46)) with 46.
  rewrite (md_bitmap _ _ _ _ D), mark_used_free; [by rewrite Z2Nat.id by lia| |intros; apply zero_free|lia]. rewrite length_replicate. mkconst. lia.
Qed.

Lemma made_bitmap_ok v fs G fb : made v fs G fb -> bitmap_ok mk_sb 2 v ∅.
Proof.
  intros D. pose proof (dv_range _ _ (md_data _ _ _ _ D)) as Hr. cbn [freeblock] in Hr.
  assert (HB : forall b, 0 <= b < FSSIZE -> BBLOCK b mk_sb = 46).
  { intros b Hb. unfold BBLOCK. change (bmapstart mk_sb) with 46. change BPB with 8192. mkconst. by rewrite Z.div_small by lia. }
  split; change (sb_size mk_sb) with FSSIZE.
  - mkconst. lia.
  - intros b Hb. rewrite HB by done. change (bmapstart mk_sb) with 46. change BPB with 8192. mkconst. rewrite Z.div_small by lia.
    split_and!; [lia|lia|unfold in_log, LOGBLOCKS, MAXOPBLOCKS; lia|apply held_empty|apply (dv_len _ _ (md_data _ _ _ _ D))].
  - intros b Hb Hf. rewrite (made_free _ _ _ _ _ D Hb) in Hf. breflect. mkconst.
    split_and!; [lia|unfold in_log, LOGBLOCKS, MAXOPBLOCKS; lia|apply held_empty|]. intros b' Hb'. rewrite HB by (mkconst; lia). lia.
Qed.

(** Block [b] is the indirect block of inode [inm] or one of its first [nb] blocks. *)
Definition file_block (v : Z -> block) (inm nb b : Z) : Prop :=
  (addr_at (on_disk v mk_sb inm) NDIRECT = b /\ NDIRECT < nb) \/ exists bn, 0 <= bn < nb /\ blk (on_disk v mk_sb inm) v bn = b.

Lemma file_block_own v fs G fb k g b : made v fs G fb -> G !! k = Some g ->
  file_block v (Z.of_nat k + 1) (nblks (Z.of_nat (length (gdata g)))) b <-> b ∈ gown g.
Proof.
  intros D Hk. pose proof (dv_file _ _ (md_data _ _ _ _ D) _ _ Hk) as F. pose proof (md_tight _ _ _ _ D _ _ Hk) as Ht.
  pose proof (disk_inode _ _ _ _ D _ _ Hk) as (_ & _ & _ & _ & Hi). pose proof (disk_blk _ _ _ _ D _ _ Hk) as Hb.
  unfold file_block. rewrite (tight_nblks _ _ F Ht), Hi. split.
  - intros [[<- Hn]|(bn & Hbn & <-)].
    + apply gind_own, (fa_need _ _ F). mkconst. lia.
    + pose proof (Hb (Z.to_nat bn) ltac:(lia)) as E. rewrite Z2Nat.id in E by lia. by eapply gblk_own.
  - unfold gown. rewrite elem_of_app. intros [[i Ei]%list_elem_of_lookup|H].
    + pose proof (lookup_lt_Some _ _ _ Ei). right. exists (Z.of_nat i). split; [lia|]. rewrite Hb in Ei by done. by injection Ei.
    + destruct (Z.eqb_spec (gind g) 0) as [_|Hz]; [by apply elem_of_nil in H|]. apply list_elem_of_singleton in H as ->. left.
      split; [done|]. apply Ht in Hz. mkconst. lia.
Qed.

(** Whose block a data block is. *)
Lemma made_owner v fs G fb b : made v fs G fb -> nmeta <= b < fb <-> exists k g, G !! k = Some g /\ b ∈ gown g.
Proof.
  intros D. pose proof (dv_own _ _ (md_data _ _ _ _ D)) as Ho. cbn [freeblock] in Ho.
  assert (E : b ∈ concat (gown <$> G) <-> nmeta <= b < fb) by (rewrite Ho, elem_of_seqZ; lia). rewrite <- E.
  split; [|intros (k & g & Hk & Hg); by eapply own_in].
  clear. induction G as [|g G IH]; cbn [fmap list_fmap concat]; [by intros ?%elem_of_nil|]. rewrite elem_of_app. intros [H|H].
  - by exists 0%nat, g.
  - destruct (IH H) as (k & h & Hk & Hh). by exists (S k), h.
Qed.

(** The arguments mkfs can make an image of. *)
Definition mkfs_accepts (fs : list hostfile) : Prop :=
  Forall host_ok fs /\ Z.of_nat (length fs) + 1 < NINODES /\ blocks (image_files fs) <= FSSIZE.

Section Kernel.
Context {B : Type} `{BC : BufCache B} `{BL : !BufCacheLaws B} {U : Type} `{UM : UserMem U} (me : Z).
Implicit Types (s : fs (B := B) (U := U)).

(** What [exec] or [open] and [read] do with a path: find, lock and read all of it. *)
Definition read_path (cwd : nat) (path : list Z) : M (fs (B := B) (U := U)) (option (Z * Z * list Z)) :=
  let! ip := namei me cwd path in
  match ip with
  | None => ret None
  | Some i =>
      ilock me (Some i) ;;
      let! x := iat i in
      let! '(n, bs) := readi i 0 0 0 (isize x) in
      ret (Some (itype x, n, bs))
  end.

Lemma readsb_made s v fs G fb : made v fs G fb -> tx (fl s) [] v ∅ [] -> wp readsb (fun _ s' => fsb s' = mk_sb) s.
Proof.
  intros D T. unfold readsb.
  eapply f_bread; [exact T|done|apply held_empty|rewrite map_size_empty; change nbuf with 30%nat; cbn; lia|].
  intros b s1 K1 Hb T1. eapply f_data; [exact T1|apply lookup_insert_eq|]. rewrite (md_sb _ _ _ _ D). rewrite wp_bind, wp_modify.
  set (s2 := Fs _ _ _ _). assert (E : fsb s2 = mk_sb) by (vm_compute; reflexivity).
  eapply (f_brelse_last s2); [exact T1|apply lookup_insert_eq|right; apply not_elem_of_nil|]. intros s3 (E3 & _) _. congruence.
Qed.

Lemma name_ok h : host_ok h -> (0 ∉ shortname h.1) /\ (SLASH ∉ shortname h.1).
Proof.
  intros [_ H0 Hs _ _]. assert (E : forall c, c ∈ shortname h.1 -> c ∈ after_user h.1).
  { intros c. unfold shortname. destruct (hd 0 (after_user h.1) =? 95); [|done]. destruct (after_user h.1); [done|]. cbn. set_solver. }
  split; intros Hc%E; [|done]. apply H0. unfold after_user in Hc. case_bool_decide; [|done].
  rewrite <- (take_drop 5 h.1). rewrite elem_of_app. auto.
Qed.

Section Read.
Context (fs : list hostfile) (v : Z -> block) (G : list gfile) (fb : Z) (D : made v fs G fb) (Hok : Forall host_ok fs).
Context (k : nat) (f : hostfile) (Hf : fs !! k = Some f).
Context (Hdot : shortname f.1 ∉ [[]; [46]; [46; 46]]) (Hnew : shortname f.1 ∉ (fun h => shortname h.1) <$> take k fs).
Context (s : Fs.fs (B := B) (U := U)) (Hsb : fsb s = mk_sb) (Hst : start (lg (fl s)) = logstart mk_sb).

Lemma files_few : Z.of_nat (length fs) + 1 < NINODES.
Proof.
  pose proof (md_count _ _ _ _ D) as H. pose proof (f_equal length (md_shape _ _ _ _ D)) as E.
  unfold shape in E. rewrite length_fmap, image_files_len in E. lia.
Qed.

Lemma names_ok e nm : names fs !! e = Some nm -> (0 ∉ nm) /\ Z.of_nat (length nm) <= DIRSIZ /\ 0 < inums fs e < 65536.
Proof.
  intros He. pose proof files_few as Hn. assert (Hi : 0 < inums fs e < 65536).
  { apply lookup_lt_Some in He. unfold names, inums in *. cbn [length] in He. rewrite length_fmap in He. mkconst. case_decide; lia. }
  split_and!; [| |lia|lia].
  all: destruct e as [|[|e]]; [cbn in He; injection He as <-; (set_solver by lia) || done..|].
  all: change (((fun h : hostfile => shortname h.1) <$> fs) !! e = Some nm) in He; rewrite list_lookup_fmap in He.
  all: destruct (fs !! e) as [h|] eqn:Eh; [|done]; injection He as <-; pose proof (Forall_lookup_1 _ _ _ _ Hok Eh) as Hh.
  - by apply name_ok.
  - apply Hh.
Qed.

Lemma name_at : names fs !! (k + 2)%nat = Some (shortname f.1).
Proof.
  rewrite Nat.add_comm. change (((fun h : hostfile => shortname h.1) <$> fs) !! k = Some (shortname f.1)). by rewrite list_lookup_fmap, Hf.
Qed.

Lemma name_first j nm : (j < k + 2)%nat -> names fs !! j = Some nm -> shortname f.1 <> nm.
Proof.
  intros Hj He <-. destruct j as [|[|j]]; [cbn in He; injection He as He; rewrite <- He in Hdot; set_solver..|].
  change (((fun h : hostfile => shortname h.1) <$> fs) !! j = Some (shortname f.1)) in He.
  apply Hnew. rewrite fmap_take. apply list_elem_of_lookup. exists j. rewrite lookup_take_lt by lia. done.
Qed.

Lemma root_made : exists g, G !! 0%nat = Some g /\ gty g = T_DIR /\ gdata g = root_dir fs.
Proof.
  destruct (shape_lookup G 0 (T_DIR, root_dir fs)) as (g & ? & [= E1 E2]); [by rewrite (md_shape _ _ _ _ D)|]. by exists g.
Qed.
Lemma file_made : exists g, G !! S k = Some g /\ gty g = T_FILE /\ gdata g = content f.
Proof.
  destruct (shape_lookup G (S k) (T_FILE, content f)) as (g & ? & [= E1 E2]); [|by exists g].
  rewrite (md_shape _ _ _ _ D). unfold image_files. cbn [lookup list_lookup]. change ((((fun f => (T_FILE, content f)) <$> fs) : list file) !! k = Some (T_FILE, content f)).
  by rewrite list_lookup_fmap, Hf.
Qed.

Lemma root_entry_made : exists nb, root_entry s v nb (shortname f.1) (k + 2) (Z.of_nat k + 2).
Proof.
  destruct root_made as (g & Hg & Et & Ed). pose proof files_few as Hn. pose proof (lookup_lt_Some _ _ _ Hf) as Hkl.
  pose proof (disk_inode _ _ _ _ D _ _ Hg) as (E1 & E2 & E3 & _). pose proof (disk_file_ok _ _ _ _ D _ _ Hg) as F.
  change (Z.of_nat 0 + 1) with ROOTINO in *. pose proof (root_dir_length _ Hok) as Hl.
  pose proof (fa_cap _ _ (dv_file _ _ (md_data _ _ _ _ D) _ _ Hg)) as Hc. rewrite Ed in Hc.
  destruct (names_ok _ _ name_at) as (Hz & Hd & _).
  assert (Hent : forall j nm, names fs !! j = Some nm -> hit (shortname f.1) (entry (on_disk v mk_sb ROOTINO) v j) = bool_decide (shortname f.1 = nm) /\
    de_inum (entry (on_disk v mk_sb ROOTINO) v j) = inums fs j).
  { intros j nm Hj. rewrite (root_entries fs v G fb j nm D Hok Hj). destruct (names_ok _ _ Hj) as (? & ? & ?). by apply hit_dirent. }
  exists (Z.of_nat (length (gblk g))). split; rewrite ?Hsb, ?Hst.
  - rewrite E1, Et. done.
  - by rewrite E2.
  - exact F.
  - rewrite E3. unfold disk_size. rewrite decide_True by done. unfold root_size. rewrite Hl. change DIRENT with 16.
    pose proof (Z.div_mod (Z.of_nat (16 * (2 + length fs))) BSIZE ltac:(done)). pose proof (Z.mod_pos_bound (Z.of_nat (16 * (2 + length fs))) BSIZE ltac:(done)).
    mkconst. lia.
  - change DIRENT with 16. mkconst. lia.
  - intros j Hj. destruct (lookup_lt_is_Some_2 (names fs) j) as [nm Hnm]; [unfold names; cbn [length]; rewrite length_fmap; lia|].
    rewrite (proj1 (Hent j nm Hnm)). apply bool_decide_false. by apply (name_first j).
  - rewrite (proj1 (Hent _ _ name_at)). by apply bool_decide_true.
  - rewrite (proj2 (Hent _ _ name_at)). unfold inums. rewrite decide_False by lia. lia.
Qed.

Lemma read_path_made cwd : tx (fl s) [] v ∅ [] -> table_free s ->
  wp (read_path cwd (SLASH :: shortname f.1))
    (fun r _ => r = Some (T_FILE, Z.of_nat (length (content f)), content f)) s.
Proof.
  intros T Tf. destruct root_entry_made as [nb R]. destruct file_made as (g & Hg & Et & Ed).
  pose proof (disk_inode _ _ _ _ D _ _ Hg) as (E1 & _ & E3 & _). pose proof (disk_file_ok _ _ _ _ D _ _ Hg) as F.
  replace (Z.of_nat (S k) + 1) with (Z.of_nat k + 2) in * by lia. unfold disk_size in E3. rewrite decide_False, Ed in E3 by done.
  rewrite Et in E1. change (i16 T_FILE) with T_FILE in E1. pose proof (dv_file _ _ (md_data _ _ _ _ D) _ _ Hg) as Hfa.
  pose proof (fa_cap _ _ Hfa) as Hc. pose proof (fa_max _ _ Hfa) as Hm. rewrite Ed in Hc. destruct (names_ok _ _ name_at) as (_ & Hl & _).
  pose proof (Forall_lookup_1 _ _ _ _ Hok Hf) as Hh. unfold read_path. wp_step.
  eapply namei_one; try done; [unfold ROOTINO; lia|by apply name_ok|set_solver|].
  intros s1 B1 L1 T1 I1 R1 K1 V1. wp_step.
  pose proof (loaded_disk me v (fsb s1) (itable s1 1%nat)) as (Y1 & _ & Y3 & Y4). rewrite B1, Hsb, I1 in Y1, Y3, Y4.
  apply (ilock_load me s1 v 1 _ T1); try done; [lia|rewrite B1, Hsb, Y1, E1; done|].
  intros s2 B2 L2 T2 I2. pose proof (I2 1%nat) as I21. rewrite decide_True, B1, Hsb in I21 by done.
  unfold iat. wp_steps. rewrite I21, Y3, E3.
  assert (W : wp (readi 1 0 0 0 (Z.of_nat (length (content f)))) (fun r _ => r = (Z.of_nat (length (content f)), content f)) s2).
  { eapply wp_mono; [apply (readi_ok s2 [] v 1 (Z.of_nat (length (gblk g))) 0 0); rewrite ?I21, ?L2, ?L1, ?Hst, ?Y3, ?E3; try done; mkconst; try lia|].
    - change nbuf with 30%nat. cbn. lia.
    - by apply (file_ok_addrs _ _ (on_disk v mk_sb (Z.of_nat k + 2))).
    - cbn beta. rewrite I21, Y3, E3, (proj2 (Z.ltb_ge _ _)) by lia. intros r s3 (_ & _ & ->). f_equal.
      rewrite (fbytes_addrs _ (on_disk v mk_sb (Z.of_nat k + 2))) by done. rewrite <- Ed.
      replace (Z.of_nat k + 2) with (Z.of_nat (S k) + 1) by lia. change 0 with (Z.of_nat 0).
      rewrite (disk_fbytes _ _ _ _ D _ _ Hg) by lia. by apply slice_all. }
  eapply wp_mono; [exact W|]. cbn beta. intros r s3 ->. wp_steps. by rewrite Y1, E1.
Qed.
End Read.
End Kernel.

(** C4: the kernel finds in the image what mkfs put there.  For arguments that fit
    (readable files, names of at most [DIRSIZ] characters, fewer than [NINODES]
    inodes, at most [FSSIZE] blocks) mkfs succeeds, and in the resulting image the
    path made of a slash and a file's short name, unless this is empty, one or two
    dots, or the short name of an earlier argument, leads [namei] to an inode that [ilock] loads as a file, from which
    [readi] reads exactly the bytes of the host's file. *)
Theorem kernel_reads_what_mkfs_wrote {B : Type} `{BC : BufCache B} `{BL : !BufCacheLaws B} {U : Type} `{UM : UserMem U}
    (me : Z) (cwd : nat) (files : list hostfile) k arg c :
  mkfs_accepts files -> files !! k = Some (arg, Some c) ->
  shortname arg ∉ [[]; [46]; [46; 46]] -> shortname arg ∉ (fun h => shortname h.1) <$> take k files ->
  exists m, mkfs_main files mkfs_start = Ok (tt, m) /\
    forall s : fs (B := B) (U := U), tx (fl s) [] (img m) ∅ [] -> fsb s = mk_sb -> start (lg (fl s)) = logstart mk_sb -> table_free s ->
      wp (read_path me cwd (SLASH :: shortname arg)) (fun r _ => r = Some (T_FILE, Z.of_nat (length c), c)) s.
Proof.
  intros (Hok & Hn & Hb) Hf Hdot Hnew. destruct (proj1 (wp_ok _ _ _) (mkfs_main_ok files Hok Hn Hb)) as ([] & m & E & G & D).
  exists m. split; [exact E|clear E]. intros s T Hsb Hst Tf. by apply (read_path_made me files (img m) G _ D Hok k (arg, Some c) Hf Hdot Hnew).
Qed.

(** C11: the image is one the kernel's file system starts from.  [readsb] loads the
    superblock mkfs computed, the bitmap satisfies what [balloc] and [bfree] rely
    on, and a data block is marked used exactly when it is a data or indirect block
    of a file, of one file only. *)
Theorem kernel_mounts_what_mkfs_wrote {B : Type} `{BC : BufCache B} `{BL : !BufCacheLaws B} {U : Type} `{UM : UserMem U}
    (files : list hostfile) : mkfs_accepts files ->
  exists m, mkfs_main files mkfs_start = Ok (tt, m) /\
    (forall s : fs (B := B) (U := U), tx (fl s) [] (img m) ∅ [] -> wp readsb (fun _ s' => fsb s' = mk_sb) s) /\
    bitmap_ok mk_sb (logstart mk_sb) (img m) ∅ /\
    (forall b, nmeta <= b < FSSIZE -> blk_free mk_sb (img m) b = false <->
       exists k f, image_files files !! k = Some f /\ file_block (img m) (Z.of_nat k + 1) (nblks (Z.of_nat (length f.2))) b) /\
    (forall b j k f h, image_files files !! j = Some f -> image_files files !! k = Some h ->
       file_block (img m) (Z.of_nat j + 1) (nblks (Z.of_nat (length f.2))) b ->
       file_block (img m) (Z.of_nat k + 1) (nblks (Z.of_nat (length h.2))) b -> j = k).
Proof.
  intros (Hok & Hn & Hb). destruct (proj1 (wp_ok _ _ _) (mkfs_main_ok files Hok Hn Hb)) as ([] & m & E & G & D).
  exists m. split; [exact E|clear E]. assert (Hown : forall b k f, image_files files !! k = Some f -> file_block (img m) (Z.of_nat k + 1) (nblks (Z.of_nat (length f.2))) b ->
    exists g, G !! k = Some g /\ b ∈ gown g).
  { intros b k f Hk H. rewrite <- (md_shape _ _ _ _ D) in Hk. apply shape_lookup in Hk as (g & Hg & ->). exists g. split; [done|].
    by apply (file_block_own _ _ _ _ _ _ _ D Hg). }
  split_and!; [intros s T; by eapply readsb_made|by eapply made_bitmap_ok| |].
  - intros b Hb'. pose proof (made_free _ _ _ _ b D ltac:(mkconst; lia)) as Ef. pose proof (made_owner _ _ _ _ b D) as Ho. rewrite Ef, Z.leb_gt. split.
    + intros Hlt. destruct (proj1 Ho) as (k & g & Hg & Hin); [lia|]. exists k, (gty g, gdata g). rewrite <- (md_shape _ _ _ _ D). unfold shape.
      rewrite list_lookup_fmap, Hg. split; [done|]. by apply (file_block_own _ _ _ _ _ _ _ D Hg).
    + intros (k & f & Hk & H). destruct (Hown _ _ _ Hk H) as (g & Hg & Hin).
      assert (nmeta <= b < freeblock m) as [_ Hlt]; [|exact Hlt]. apply (proj2 Ho). exists k, g. done.
  - intros b j k f h Hj Hk Hfj Hfk. destruct (Hown _ _ _ Hj Hfj) as (g & Hg & Hbg). destruct (Hown _ _ _ Hk Hfk) as (g' & Hg' & Hbg').
    destruct (decide (j = k)); [done|]. exfalso. by eapply (own_disjoint _ _ (md_data _ _ _ _ D) k j).
Qed.

(** Two files: [user/_cat], of three bytes, and [README], of 13 blocks. *)
Definition demo_files : list hostfile :=
  [([117; 115; 101; 114; 47; 95; 99; 97; 116], Some [1; 2; 3]);
   ([82; 69; 65; 68; 77; 69], Some (replicate (Z.to_nat 12300) 7))].
(** A kernel in a transaction on the image, its inode table empty. *)
Definition demo_kernel (c : bst) : fs (B := bst) (U := Memory.memory) :=
  Fs (Lst (Log 2 1 0 (Lh 0 (replicate (Z.to_nat LOGBLOCKS) 0)) 0) c) mk_sb
     (fun _ => Inode 0 0 0 SleepLock.initsleeplock 0 0 0 0 0 0 []) (fun _ => 0).

Lemma demo_accepts : mkfs_accepts demo_files.
Proof.
  split; [|split; by vm_compute]. repeat constructor; cbn [fst snd]; try (by vm_compute).
  all: first [by eexists | rewrite ?not_elem_of_cons; split_and?; try done; apply not_elem_of_nil | vm_compute; set_solver].
Qed.

Lemma demo_kernel_tx c d : bc_rep 7 1 c (fresh_cache d) -> tx (BC := bio_cache 7 1) (fl (demo_kernel c)) [] d ∅ [].
Proof.
  intros Hc. apply (tx_begin (BC := bio_cache 7 1)); [|done|done].
  split; cbn; try done; [apply NoDup_nil_2|by intros b ?%elem_of_nil].
Qed.

Lemma kernel_reads_what_mkfs_wrote_witness :
  exists m c, mkfs_main demo_files mkfs_start = Ok (tt, m) /\ bc_rep 7 1 c (fresh_cache (img m)) /\
    wp (read_path (BC := bio_cache 7 1) (UM := flat_user_mem 0) 7 0 [47; 82; 69; 65; 68; 77; 69])
      (fun r _ => r = Some (T_FILE, 12300, replicate (Z.to_nat 12300) 7)) (demo_kernel c).
Proof.
  pose proof (bio_laws 7 1) as BL.
  destruct (kernel_reads_what_mkfs_wrote (BC := bio_cache 7 1) (UM := flat_user_mem 0) 7 0 demo_files 1
    [82; 69; 65; 68; 77; 69] (replicate (Z.to_nat 12300) 7)) as (m & E & H).
  - exact demo_accepts.
  - reflexivity.
  - apply (bool_decide_unpack _). vm_compute. exact I.
  - apply (bool_decide_unpack _). vm_compute. exact I.
  - destruct (proj1 (wp_ok _ _ _) (binit_ok 7 1 (img m) ltac:(lia))) as ([] & c & _ & Hc).
    exists m, c. split; [exact E|]. split; [exact Hc|]. rewrite length_replicate in H. apply H.
    + exact (demo_kernel_tx c _ Hc).
    + reflexivity.
    + reflexivity.
    + intros i. split; reflexivity.
Defined.

Lemma kernel_mounts_what_mkfs_wrote_witness :
  exists m c, mkfs_main demo_files mkfs_start = Ok (tt, m) /\ bc_rep 7 1 c (fresh_cache (img m)) /\
    wp (readsb (BC := bio_cache 7 1)) (fun _ s' => fsb s' = mk_sb) (demo_kernel c) /\ bitmap_ok mk_sb 2 (img m) ∅.
Proof.
  pose proof (bio_laws 7 1) as BL.
  destruct (kernel_mounts_what_mkfs_wrote (BC := bio_cache 7 1) (UM := flat_user_mem 0) demo_files demo_accepts) as (m & E & H & Hb & _).
  destruct (proj1 (wp_ok _ _ _) (binit_ok 7 1 (img m) ltac:(lia))) as ([] & c & _ & Hc).
  exists m, c. split; [exact E|]. split; [exact Hc|]. split; [|exact Hb]. apply H. exact (demo_kernel_tx c _ Hc).
Defined.

(** ** Where the layout goes wrong *)

(** Sixty-two files fill the root's only block; its size is rounded up to a second
    block, which the inode does not have. *)
Lemma root_size_past_last_block v fs G fb : made v fs G fb -> Forall host_ok fs -> length fs = 62%nat ->
  isize (on_disk v mk_sb ROOTINO) = 2048 /\ blk (on_disk v mk_sb ROOTINO) v 1 = 0.
Proof.
  intros D Hok Hl. destruct (root_made fs v G fb D) as (g & Hg & _ & Ed). pose proof (root_dir_length _ Hok) as Hr. rewrite Hl in Hr.
  pose proof (disk_inode _ _ _ _ D _ _ Hg) as (_ & _ & Es & Ha & _). change (Z.of_nat 0 + 1) with ROOTINO in *. split.
  - rewrite Es. unfold disk_size. rewrite decide_True by done. unfold root_size. by rewrite Hr.
  - unfold blk. change (1 <? NDIRECT) with true. cbv iota. etrans; [apply (Ha 1%nat); lia|]. apply nth_overflow.
    destruct (md_tight _ _ _ _ D _ _ Hg) as [Ht _]. rewrite Ed, Hr in Ht. lia.
Qed.

(** [ialloc] does not stop at [NINODES]: the inode after the table's last block
    lies in the bitmap, which [balloc] writes over it. *)
Definition crowded : list hostfile := replicate 207 ([97], Some []).
Lemma inode_in_bitmap :
  exists m, mkfs_main crowded mkfs_start = Ok (tt, m) /\ freeinode m = 209 /\ IBLOCK 208 mk_sb = bmapstart mk_sb /\
    itype (on_disk (img m) mk_sb 208) = -1.
Proof.
  exists (run_or (mkfs_main crowded) mkfs_start tt).2. split; [apply run_or_tt; vm_compute; reflexivity|]. vm_compute. done.
Qed.
