(* ===== verification/Proc.v ===== *)
(** * Processes: kernel/proc.c

    The process table, the processors and the locks of proc.c as one state.  A
    routine runs on a processor [c], whose current process is [cproc s c]; it
    takes and gives back the locks as the code does.  A routine that gives the
    processor up ([sleep], [yield], the end of [kexit]) runs until the scheduler
    has released the process's lock; what the kernel thread does when it is
    scheduled again is its saved [context], which [swtch_to] resumes.

    The memory routines are those of [Vm]; files and inodes are reached through
    the interface [FileOps]. *)
From S2P Require Import Prelude Machine Memory Kalloc Vm Bytes Printf Spinlock.

(** ** kernel/proc.h *)

Inductive procstate : Type := UNUSED | USED | SLEEPING | RUNNABLE | RUNNING | ZOMBIE.
#[export] Instance procstate_eq : EqDecision procstate.
Proof. solve_decision. Defined.

(** What a process can sleep on: the address of a process, or any other. *)
Inductive channel : Type := CProc (i : nat) | CAddr (a : Z).
#[export] Instance channel_eq : EqDecision channel.
Proof. solve_decision. Defined.

(** The spinlocks: p->lock, [wait_lock], [pid_lock], and other components'. *)
Inductive lockid : Type := LProc (i : nat) | LWait | LPid | LOther (n : nat).
#[export] Instance lockid_eq : EqDecision lockid.
Proof. solve_decision. Defined.

Record vregion : Type := Vregion { rstart : Z; rsize : Z }.

(** Where a kernel thread continues after [swtch]: nowhere yet, at the start of
    [forkret], or after the [sched] call of [yield], [sleep] or [kexit], with
    that call's local variable [intena]. *)
Inductive context : Type :=
| Zeroed
| Forkret (sp : Z)
| InYield (intena : bool)
| InSleep (intena : bool) (lk : lockid)
| InExit (intena : bool).

Record proc : Type := Proc {
  state : procstate; chan : option channel; pkilled : Z; xstate : Z; pid : Z;
  trace_mask : Z; page_faults : Z; has_region : Z; region : vregion;
  parent : option nat;
  kstack : Z; sz : Z; pagetable : Z; trapframe : Z; pcontext : context;
  ofile : nat -> option nat; cwd : option nat; pname : list Z
}.

Definition set_state v p := match p with Proc _ b c d e f g h i j k l m n o q r t => Proc v b c d e f g h i j k l m n o q r t end.
Definition set_chan v p := match p with Proc a _ c d e f g h i j k l m n o q r t => Proc a v c d e f g h i j k l m n o q r t end.
Definition set_pkilled v p := match p with Proc a b _ d e f g h i j k l m n o q r t => Proc a b v d e f g h i j k l m n o q r t end.
Definition set_xstate v p := match p with Proc a b c _ e f g h i j k l m n o q r t => Proc a b c v e f g h i j k l m n o q r t end.
Definition set_pid v p := match p with Proc a b c d _ f g h i j k l m n o q r t => Proc a b c d v f g h i j k l m n o q r t end.
(** The fields this system adds to xv6: trace mask, fault counter, region. *)
Definition set_extra tm pf hr rg p := match p with Proc a b c d e _ _ _ _ j k l m n o q r t => Proc a b c d e tm pf hr rg j k l m n o q r t end.
Definition set_parent v p := match p with Proc a b c d e f g h i _ k l m n o q r t => Proc a b c d e f g h i v k l m n o q r t end.
Definition set_kstack v p := match p with Proc a b c d e f g h i j _ l m n o q r t => Proc a b c d e f g h i j v l m n o q r t end.
Definition set_sz v p := match p with Proc a b c d e f g h i j k _ m n o q r t => Proc a b c d e f g h i j k v m n o q r t end.
Definition set_pagetable v p := match p with Proc a b c d e f g h i j k l _ n o q r t => Proc a b c d e f g h i j k l v n o q r t end.
Definition set_trapframe v p := match p with Proc a b c d e f g h i j k l m _ o q r t => Proc a b c d e f g h i j k l m v o q r t end.
Definition set_context v p := match p with Proc a b c d e f g h i j k l m n _ q r t => Proc a b c d e f g h i j k l m n v q r t end.
Definition set_ofile (fd : nat) v p := match p with Proc a b c d e f g h i j k l m n o q r t => Proc a b c d e f g h i j k l m n o (fun k' => if decide (k' = fd) then v else q k') r t end.
Definition set_cwd v p := match p with Proc a b c d e f g h i j k l m n o q _ t => Proc a b c d e f g h i j k l m n o q v t end.
Definition set_pname v p := match p with Proc a b c d e f g h i j k l m n o q r _ => Proc a b c d e f g h i j k l m n o q r v end.

(** [safestrcpy] on arrays: at most [n - 1] bytes before the first nul, then a
    nul, the rest of the destination as it was. *)
Fixpoint str_upto (n : nat) (t : list Z) : list Z :=
  match n, t with
  | S n', x :: t' => if x =? 0 then [] else x :: str_upto n' t'
  | _, _ => []
  end.
Definition safestrcpy_l (dst src : list Z) (n : nat) : list Z :=
  let w := str_upto (n - 1) src in w ++ 0 :: drop (S (length w)) dst.

#[global] Arguments safestrcpy_l : simpl never.

Definition nproc : nat := Z.to_nat NPROC.
Definition nofile : nat := Z.to_nat NOFILE.
(** Offset of a0 in [struct trapframe], and the size of the structure. *)
Definition TF_A0 : Z := 112.
Definition TF_SIZE : Z := 288.

Section State.
Context {F : Type}.

(** The state: memory, file layer, the table and proc.c's variables, the
    current process of each processor ([c->proc]), its interrupt state, and
    which processor holds each lock. *)
Record kst : Type := Kst {
  km : kmem; kf : F;
  procs : nat -> proc; nextpid : Z; initproc : option nat;
  cproc : nat -> option nat; harts : nat -> Cpu.cpu; locks : lockid -> option nat
}.

Definition on_km {A} (m : M kmem A) : M kst A :=
  zoom km (fun k s => Kst k (kf s) (procs s) (nextpid s) (initproc s) (cproc s) (harts s) (locks s)) m.
Definition on_kf {A} (m : M F A) : M kst A :=
  zoom kf (fun f s => Kst (km s) f (procs s) (nextpid s) (initproc s) (cproc s) (harts s) (locks s)) m.
Definition set_hart (c : nat) (h : Cpu.cpu) (s : kst) : kst :=
  Kst (km s) (kf s) (procs s) (nextpid s) (initproc s) (cproc s) (fun k => if decide (k = c) then h else harts s k) (locks s).
Definition on_cpu {A} (c : nat) (m : M Cpu.cpu A) : M kst A := zoom (fun s => harts s c) (set_hart c) m.
Definition set_procs f s := Kst (km s) (kf s) f (nextpid s) (initproc s) (cproc s) (harts s) (locks s).
Definition set_nextpid n s := Kst (km s) (kf s) (procs s) n (initproc s) (cproc s) (harts s) (locks s).
Definition set_initproc i s := Kst (km s) (kf s) (procs s) (nextpid s) i (cproc s) (harts s) (locks s).
Definition set_cproc c p s :=
  Kst (km s) (kf s) (procs s) (nextpid s) (initproc s) (fun k => if decide (k = c) then p else cproc s k) (harts s) (locks s).
Definition set_locks lk h s :=
  Kst (km s) (kf s) (procs s) (nextpid s) (initproc s) (cproc s) (harts s) (fun k => if decide (k = lk) then h else locks s k).

Definition pt (i : nat) : M kst proc := gets (fun s => procs s i).
Definition at_proc (f : nat -> proc) (i : nat) (g : proc -> proc) : nat -> proc :=
  fun k => if decide (k = i) then g (f i) else f k.
Definition pupd (i : nat) (g : proc -> proc) : M kst unit := modify (fun s => set_procs (at_proc (procs s) i g) s).

End State.
Arguments kst F : clear implicits.

(** ** The file system as proc.c calls it

    The first argument is the processor that runs the routine. *)
Class FileOps (F : Type) : Type := {
  fo_filedup : nat -> nat -> M (kst F) nat;
  fo_fileclose : nat -> nat -> M (kst F) unit;
  fo_begin_op : nat -> M (kst F) unit;
  fo_end_op : nat -> M (kst F) unit;
  fo_idup : nat -> nat -> M (kst F) nat;
  fo_iput : nat -> nat -> M (kst F) unit;
  fo_namei : nat -> list Z -> M (kst F) (option nat)
}.

Section Proc.
Context `{KI : KernelImage} {F : Type} `{FO : FileOps F}.

(** ** Locks, and the process that runs on a processor *)

(** Another processor holding the lock means that this one spins. *)
Definition acquire (c : nat) (lk : lockid) : M (kst F) unit :=
  on_cpu c Cpu.push_off ;;
  let! h := gets (fun s => locks s lk) in
  match h with
  | Some c' => if decide (c' = c) then panic "acquire" else out_of_fuel
  | None => modify (set_locks lk (Some c))
  end.
Definition release (c : nat) (lk : lockid) : M (kst F) unit :=
  let! h := gets (fun s => locks s lk) in
  if decide (h = Some c) then
    modify (set_locks lk None) ;;
    on_cpu c Cpu.pop_off
  else panic "release".

Definition myproc (c : nat) : M (kst F) (option nat) :=
  on_cpu c Cpu.push_off ;;
  let! p := gets (fun s => cproc s c) in
  on_cpu c Cpu.pop_off ;;
  ret p.
(** [struct proc *p = myproc()] where [p] is then dereferenced: without a
    process the kernel faults. *)
Definition curproc (c : nat) : M (kst F) nat :=
  let! p := myproc c in
  match p with Some i => ret i | None => panic "kerneltrap" end.

(** ** Allocating and freeing a process *)

Fixpoint procinit_loop (n i : nat) : M (kst F) unit :=
  match n with
  | O => ret tt
  | S n' =>
      modify (set_locks (LProc i) None) ;;
      pupd i (fun p => set_kstack (KSTACK (Z.of_nat i)) (set_state UNUSED p)) ;;
      procinit_loop n' (S i)
  end.
Definition procinit : M (kst F) unit :=
  modify (set_locks LPid None) ;;
  modify (set_locks LWait None) ;;
  procinit_loop nproc 0.

Definition allocpid (c : nat) : M (kst F) Z :=
  acquire c LPid ;;
  let! p := gets nextpid in
  modify (set_nextpid (i32 (p + 1))) ;;
  release c LPid ;;
  ret p.

Definition proc_pagetable (i : nat) : M (kst F) Z :=
  let! p := pt i in
  on_km (
    let! pagetable := uvmcreate in
    if pagetable =? 0 then ret 0
    else
      let! r := mappages pagetable TRAMPOLINE PGSIZE trampoline (Z.lor PTE_R PTE_X) in
      if r <? 0 then uvmfree pagetable 0 ;; ret 0
      else
        let! r := mappages pagetable TRAPFRAME PGSIZE (trapframe p) (Z.lor PTE_R PTE_W) in
        if r <? 0 then
          uvmunmap pagetable TRAMPOLINE 1 false ;;
          uvmfree pagetable 0 ;;
          ret 0
        else ret pagetable).

(** [shmemva] and [rova] of [proc_freepagetable]. *)
Definition SHMEMVA : Z := 1610612736.
Definition ROVA : Z := 1342177280.
Definition unmap_if_mapped (pagetable va : Z) : M kmem unit :=
  let! pte := walk pagetable va false in
  if pte =? 0 then ret tt
  else let! v := rd64 pte in if pte_has v PTE_V then uvmunmap pagetable va 1 false else ret tt.
Definition proc_freepagetable (pagetable sz : Z) : M kmem unit :=
  unmap_if_mapped pagetable SHMEMVA ;;
  unmap_if_mapped pagetable ROVA ;;
  uvmunmap pagetable TRAMPOLINE 1 false ;;
  uvmunmap pagetable TRAPFRAME 1 false ;;
  uvmfree pagetable sz.

Definition freeproc (i : nat) : M (kst F) unit :=
  let! p := pt i in
  (if c_true (trapframe p) then on_km (kfree (trapframe p)) else ret tt) ;;
  pupd i (set_trapframe 0) ;;
  (if c_true (pagetable p) then
     (if c_true (has_region p) then
        on_km (uvmunmap (pagetable p) (rstart (region p)) (u64 (Z.quot (rsize (region p)) PGSIZE)) true)
      else ret tt) ;;
     on_km (proc_freepagetable (pagetable p) (sz p))
   else ret tt) ;;
  pupd i (fun q =>
    set_extra 0 0 0 (Vregion 0 0) (set_state UNUSED (set_xstate 0 (set_pkilled 0 (set_chan None
      (set_pname (0 :: drop 1 (pname q)) (set_parent None (set_pid 0 (set_sz 0 (set_pagetable 0 q)))))))))).

(** The scan for an unused slot, which is left with its lock held. *)
Fixpoint allocproc_scan (c : nat) (n i : nat) : M (kst F) (option nat) :=
  match n with
  | O => ret None
  | S n' =>
      acquire c (LProc i) ;;
      let! p := pt i in
      if decide (state p = UNUSED) then ret (Some i)
      else release c (LProc i) ;; allocproc_scan c n' (S i)
  end.
Definition allocproc (c : nat) : M (kst F) (option nat) :=
  let! found := allocproc_scan c nproc 0 in
  match found with
  | None => ret None
  | Some i =>
      let! n := allocpid c in
      pupd i (fun p => set_extra 0 0 0 (Vregion 0 0) (set_state USED (set_pid n p))) ;;
      let! tf := on_km kalloc in
      pupd i (set_trapframe tf) ;;
      if tf =? 0 then freeproc i ;; release c (LProc i) ;; ret None
      else
        let! pg := proc_pagetable i in
        pupd i (set_pagetable pg) ;;
        if pg =? 0 then freeproc i ;; release c (LProc i) ;; ret None
        else
          let! p := pt i in
          pupd i (set_context (Forkret (u64 (kstack p + PGSIZE)))) ;;
          ret (Some i)
  end.

Definition userinit (c : nat) : M (kst F) unit :=
  let! np := allocproc c in
  modify (set_initproc np) ;;
  match np with
  | None => panic "kerneltrap"
  | Some i =>
      let! ip := fo_namei c [47] in
      pupd i (set_cwd ip) ;;
      pupd i (set_state RUNNABLE) ;;
      release c (LProc i)
  end.

Definition growproc (c : nat) (n : Z) : M (kst F) Z :=
  let! i := curproc c in
  let! p := pt i in
  if 0 <? n then
    if TRAPFRAME <? u64 (sz p + n) then ret (-1)
    else
      let! s := on_km (uvmalloc (pagetable p) (sz p) (u64 (sz p + n)) PTE_W) in
      if s =? 0 then ret (-1) else pupd i (set_sz s) ;; ret 0
  else if n <? 0 then
    let! s := on_km (uvmdealloc (pagetable p) (sz p) (u64 (sz p + n))) in
    pupd i (set_sz s) ;; ret 0
  else pupd i (set_sz (sz p)) ;; ret 0.

(** ** fork *)

Fixpoint dup_files (c : nat) (n fd : nat) (p : proc) (np : nat) : M (kst F) unit :=
  match n with
  | O => ret tt
  | S n' =>
      match ofile p fd with
      | Some f => let! g := fo_filedup c f in pupd np (set_ofile fd (Some g))
      | None => ret tt
      end ;;
      dup_files c n' (S fd) p np
  end.

(** [kfork] up to the first release of the child's lock; the result is the
    child and its pid. *)
Definition kfork_copy (c i : nat) : M (kst F) (option (nat * Z)) :=
  let! r := allocproc c in
  match r with
  | None => ret None
  | Some np =>
      let! p := pt i in
      let! q := pt np in
      let! e := on_km (uvmcopy (pagetable p) (pagetable q) (sz p)) in
      if e <? 0 then freeproc np ;; release c (LProc np) ;; ret None
      else
        pupd np (set_sz (sz p)) ;;
        on_km (modify (fun k => set_phys (copy_range (phys k) (trapframe q) (trapframe p) TF_SIZE) k)) ;;
        pupd np (set_extra (trace_mask p) (page_faults p) (has_region p) (region p)) ;;
        on_km (wr64 (trapframe q + TF_A0) 0) ;;
        dup_files c nofile 0 p np ;;
        match cwd p with
        | Some ip => let! d := fo_idup c ip in pupd np (set_cwd (Some d))
        | None => panic "kerneltrap"
        end ;;
        pupd np (fun q => set_pname (safestrcpy_l (pname q) (pname p) 16) q) ;;
        let! q := pt np in
        release c (LProc np) ;;
        ret (Some (np, pid q))
  end.
(** The two critical sections after it. *)
Definition kfork_link (c i np : nat) : M (kst F) unit :=
  acquire c LWait ;;
  pupd np (set_parent (Some i)) ;;
  release c LWait.
Definition kfork_start (c np : nat) : M (kst F) unit :=
  acquire c (LProc np) ;;
  pupd np (set_state RUNNABLE) ;;
  release c (LProc np).
Definition kfork (c : nat) : M (kst F) Z :=
  let! i := curproc c in
  let! r := kfork_copy c i in
  match r with
  | None => ret (-1)
  | Some (np, pid) => kfork_link c i np ;; kfork_start c np ;; ret pid
  end.

(** ** Scheduling *)

Fixpoint wakeup_loop (c : nat) (ch : option channel) (n i : nat) : M (kst F) unit :=
  match n with
  | O => ret tt
  | S n' =>
      let! me := myproc c in
      (if decide (Some i = me) then ret tt
       else
         acquire c (LProc i) ;;
         let! p := pt i in
         (if decide (state p = SLEEPING /\ chan p = ch) then pupd i (set_state RUNNABLE) else ret tt) ;;
         release c (LProc i)) ;;
      wakeup_loop c ch n' (S i)
  end.
Definition wakeup (c : nat) (ch : option channel) : M (kst F) unit := wakeup_loop c ch nproc 0.

(** The scheduler's side of a process's [swtch]: it resumes after its own call. *)
Definition scheduler_resume (c p : nat) : M (kst F) unit :=
  modify (set_cproc c None) ;;
  release c (LProc p).

(** [ctx] is where the caller of [sched] continues, given the saved [intena]. *)
Definition sched (c : nat) (ctx : bool -> context) : M (kst F) unit :=
  let! i := curproc c in
  let! h := gets (fun s => locks s (LProc i)) in
  if decide (h <> Some c) then panic "sched p->lock"
  else
    let! n := on_cpu c (gets Cpu.noff) in
    if negb (n =? 1) then panic "sched locks"
    else
      let! p := pt i in
      if decide (state p = RUNNING) then panic "sched RUNNING"
      else
        let! on := on_cpu c Cpu.intr_get in
        if (on : bool) then panic "sched interruptible"
        else
          let! intena := on_cpu c (gets Cpu.intena) in
          pupd i (set_context (ctx intena)) ;;
          scheduler_resume c i.

Definition set_intena (c : nat) (b : bool) : M (kst F) unit :=
  on_cpu c (modify (fun h => Cpu.Mk (Cpu.noff h) b (Cpu.sie h))).

(** Continuing a process that the scheduler switched to, until it has released
    its own lock.  A process that was in [sleep] then takes its condition lock,
    which is the first thing its next critical section does. *)
Definition swtch_to (c i : nat) : M (kst F) unit :=
  let! p := pt i in
  match pcontext p with
  | Zeroed => panic "kerneltrap"
  | Forkret _ => release c (LProc i)
  | InYield intena => set_intena c intena ;; release c (LProc i)
  | InSleep intena _ => set_intena c intena ;; pupd i (set_chan None) ;; release c (LProc i)
  | InExit intena => set_intena c intena ;; panic "zombie exit"
  end.

(** One iteration of the scheduler's inner loop. *)
Definition scheduler_try (c i : nat) : M (kst F) bool :=
  acquire c (LProc i) ;;
  let! p := pt i in
  if decide (state p = RUNNABLE) then
    pupd i (set_state RUNNING) ;;
    modify (set_cproc c (Some i)) ;;
    swtch_to c i ;;
    ret true
  else release c (LProc i) ;; ret false.
(** The head of its outer loop. *)
Definition scheduler_top (c : nat) : M (kst F) unit := on_cpu c (Cpu.intr_on ;; Cpu.intr_off).

Definition yield (c : nat) : M (kst F) unit :=
  let! i := curproc c in
  acquire c (LProc i) ;;
  pupd i (set_state RUNNABLE) ;;
  sched c InYield.

Definition sleep (c : nat) (ch : option channel) (lk : lockid) : M (kst F) unit :=
  let! i := curproc c in
  acquire c (LProc i) ;;
  release c lk ;;
  pupd i (fun p => set_state SLEEPING (set_chan ch p)) ;;
  sched c (fun intena => InSleep intena lk).

(** ** exit and wait *)

Fixpoint reparent_loop (c p : nat) (n pp : nat) : M (kst F) unit :=
  match n with
  | O => ret tt
  | S n' =>
      let! q := pt pp in
      (if decide (parent q = Some p) then
         let! ip := gets initproc in
         pupd pp (set_parent ip) ;;
         wakeup c (CProc <$> ip)
       else ret tt) ;;
      reparent_loop c p n' (S pp)
  end.
Definition reparent (c p : nat) : M (kst F) unit := reparent_loop c p nproc 0.

Fixpoint close_files (c : nat) (n fd : nat) (i : nat) : M (kst F) unit :=
  match n with
  | O => ret tt
  | S n' =>
      let! p := pt i in
      match ofile p fd with
      | Some f => fo_fileclose c f ;; pupd i (set_ofile fd None)
      | None => ret tt
      end ;;
      close_files c n' (S fd) i
  end.

Definition kexit (c : nat) (status : Z) : M (kst F) unit :=
  let! i := curproc c in
  let! ip := gets initproc in
  if decide (Some i = ip) then panic "init exiting"
  else
    close_files c nofile 0 i ;;
    let! p := pt i in
    fo_begin_op c ;;
    match cwd p with Some d => fo_iput c d | None => panic "kerneltrap" end ;;
    fo_end_op c ;;
    pupd i (set_cwd None) ;;
    acquire c LWait ;;
    reparent c i ;;
    let! p := pt i in
    wakeup c (CProc <$> parent p) ;;
    acquire c (LProc i) ;;
    pupd i (fun p => set_state ZOMBIE (set_xstate status p)) ;;
    release c LWait ;;
    sched c InExit.

Definition killed (c p : nat) : M (kst F) Z :=
  acquire c (LProc p) ;;
  let! q := pt p in
  release c (LProc p) ;;
  ret (pkilled q).
Definition setkilled (c p : nat) : M (kst F) unit :=
  acquire c (LProc p) ;;
  pupd p (set_pkilled 1) ;;
  release c (LProc p).

(** The scan of [kwait]: [inl r] is a return, with [wait_lock] released;
    [inr havekids] the end of the table. *)
Fixpoint kwait_scan (c p : nat) (addr : Z) (n pp : nat) (havekids : bool) : M (kst F) (Z + bool) :=
  match n with
  | O => ret (inr havekids)
  | S n' =>
      let! q := pt pp in
      if decide (parent q = Some p) then
        acquire c (LProc pp) ;;
        let! q := pt pp in
        if decide (state q = ZOMBIE) then
          let! me := pt p in
          let! e :=
            if addr =? 0 then ret 0
            else on_km (copyout (Uvm (sz me) (pagetable me)) (pagetable me) addr (le 4 (u32 (xstate q)))) in
          if e <? 0 then
            release c (LProc pp) ;; release c LWait ;; ret (inl (-1))
          else
            freeproc pp ;;
            release c (LProc pp) ;; release c LWait ;; ret (inl (pid q))
        else
          release c (LProc pp) ;;
          kwait_scan c p addr n' (S pp) true
      else kwait_scan c p addr n' (S pp) havekids
  end.
(** [kwait] until it returns or sleeps ([None]).  A process that slept in it
    runs the same code again from the acquisition of [wait_lock], which [sleep]
    takes back. *)
Definition kwait (c : nat) (addr : Z) : M (kst F) (option Z) :=
  let! p := curproc c in
  acquire c LWait ;;
  let! r := kwait_scan c p addr nproc 0 false in
  match r with
  | inl v => ret (Some v)
  | inr havekids =>
      if negb havekids then release c LWait ;; ret (Some (-1))
      else
        let! k := killed c p in
        if c_true k then release c LWait ;; ret (Some (-1))
        else sleep c (Some (CProc p)) LWait ;; ret None
  end.

(** ** kill, lookup and the listing *)

Fixpoint kkill_loop (c : nat) (pd : Z) (n i : nat) : M (kst F) Z :=
  match n with
  | O => ret (-1)
  | S n' =>
      acquire c (LProc i) ;;
      let! p := pt i in
      if pid p =? pd then
        pupd i (set_pkilled 1) ;;
        (if decide (state p = SLEEPING) then pupd i (set_state RUNNABLE) else ret tt) ;;
        release c (LProc i) ;;
        ret 0
      else
        release c (LProc i) ;;
        kkill_loop c pd n' (S i)
  end.
Definition kkill (c : nat) (pd : Z) : M (kst F) Z := kkill_loop c pd nproc 0.

Fixpoint findproc_loop (c : nat) (pd : Z) (n i : nat) : M (kst F) (option nat) :=
  match n with
  | O => ret None
  | S n' =>
      acquire c (LProc i) ;;
      let! p := pt i in
      if bool_decide (state p <> UNUSED) && (pid p =? pd) then
        release c (LProc i) ;; ret (Some i)
      else
        release c (LProc i) ;; findproc_loop c pd n' (S i)
  end.
Definition findproc (c : nat) (pd : Z) : M (kst F) (option nat) := findproc_loop c pd nproc 0.

Definition state_name (st : procstate) : string :=
  match st with
  | UNUSED => "unused" | USED => "used" | SLEEPING => "sleep "
  | RUNNABLE => "runble" | RUNNING => "run   " | ZOMBIE => "zombie"
  end.
(** The text [procdump] prints. *)
Fixpoint procdump_loop (f : nat -> proc) (n i : nat) : option (list Z) :=
  match n with
  | O => Some []
  | S n' =>
      let p := f i in
      if decide (state p = UNUSED) then procdump_loop f n' (S i)
      else
        match kernel_printf (bytes_of "%d %s %s")
                [VInt (pid p); VStr (Some (bytes_of (state_name (state p)))); VStr (Some (str_upto 16 (pname p)))],
              procdump_loop f n' (S i) with
        | Some l, Some r => Some (l ++ 10 :: r)
        | _, _ => None
        end
  end.
Definition procdump (s : kst F) : option (list Z) :=
  match procdump_loop (procs s) nproc 0 with Some l => Some (10 :: l) | None => None end.

End Proc.
