(* ===== verification/ProcInv.v ===== *)
(** * The process table under any interleaving: invariants of kernel/proc.c

    The processors execute the routines of [Proc] in any order ([pstep]); a
    [kfork] is three steps, its critical sections.  [twp] describes a routine by
    what it does to the part of the state the invariant is about. *)
From S2P Require Import Prelude Machine Kalloc Vm Spinlock Proc.

(** ** The table and the current processes *)

Record ptab : Type := Tab { tprocs : nat -> proc; tnext : Z; tinit : option nat; tcur : nat -> option nat }.

Section Tab.
Context {F : Type}.
Implicit Types (t : ptab) (s : kst F).

Definition tab (s : kst F) : ptab := Tab (procs s) (nextpid s) (initproc s) (cproc s).

(** If the routine returns, its value and the table satisfy [Q]. *)
Definition twp {A} (m : M (kst F) A) (Q : A -> ptab -> Prop) (t : ptab) : Prop :=
  forall s a s', tab s = t -> m s = Ok (a, s') -> Q a (tab s').

Lemma twp_ret {A} (a : A) Q t : Q a t -> twp (ret a) Q t.
Proof. intros H s b s' <- [= <- <-]. done. Qed.
Lemma twp_bind {A B} (m : M (kst F) A) (k : A -> M (kst F) B) Q t :
  twp m (fun a t' => twp (k a) Q t') t -> twp (bind m k) Q t.
Proof. intros H s b s'' Ht (a & s' & E1 & E2)%bind_ok. exact (H s a s' Ht E1 s' b s'' eq_refl E2). Qed.
Lemma twp_mono {A} (m : M (kst F) A) (P Q : A -> ptab -> Prop) t :
  twp m P t -> (forall a t', P a t' -> Q a t') -> twp m Q t.
Proof. intros H HPQ s a s' Ht E. apply HPQ. exact (H s a s' Ht E). Qed.
Lemma twp_panic {A} msg (Q : A -> ptab -> Prop) t : twp (panic msg) Q t.
Proof. by intros s a s' _ [=]. Qed.
Lemma twp_spin {A} (Q : A -> ptab -> Prop) t : twp out_of_fuel Q t.
Proof. by intros s a s' _ [=]. Qed.

(** Memory, files and interrupt state are not in the table. *)
Lemma twp_on_km {A} (m : M kmem A) Q t : (forall a, Q a t) -> twp (on_km m) Q t.
Proof. intros H s a s' <- E. unfold on_km, zoom in E. destruct (m (km s)) as [[b k]| | |]; simplify_eq/=. apply H. Qed.
Lemma twp_on_kf {A} (m : M F A) Q t : (forall a, Q a t) -> twp (on_kf m) Q t.
Proof. intros H s a s' <- E. unfold on_kf, zoom in E. destruct (m (kf s)) as [[b k]| | |]; simplify_eq/=. apply H. Qed.
Lemma twp_on_cpu {A} c (m : M Cpu.cpu A) Q t : (forall a, Q a t) -> twp (on_cpu c m) Q t.
Proof. intros H s a s' <- E. unfold on_cpu, zoom in E. destruct (m (harts s c)) as [[b k]| | |]; simplify_eq/=. apply H. Qed.

Lemma twp_pt i Q t : Q (tprocs t i) t -> twp (pt i) Q t.
Proof. intros H s a s' <- [= <- <-]. done. Qed.
Lemma twp_nextpid Q t : Q (tnext t) t -> twp (gets nextpid) Q t.
Proof. intros H s a s' <- [= <- <-]. done. Qed.
Lemma twp_initproc Q t : Q (tinit t) t -> twp (gets initproc) Q t.
Proof. intros H s a s' <- [= <- <-]. done. Qed.
Lemma twp_lock lk Q t : (forall h, Q h t) -> twp (gets (fun s => locks s lk)) Q t.
Proof. intros H s a s' <- [= <- <-]. apply H. Qed.
Lemma twp_pupd i g Q t :
  Q tt (Tab (at_proc (tprocs t) i g) (tnext t) (tinit t) (tcur t)) -> twp (pupd i g) Q t.
Proof. intros H s a s' <- [= <- <-]. done. Qed.
Lemma twp_set_locks lk h Q t : Q tt t -> twp (modify (set_locks lk h)) Q t.
Proof. intros H s a s' <- [= <- <-]. done. Qed.
Lemma twp_set_nextpid n Q t : Q tt (Tab (tprocs t) n (tinit t) (tcur t)) -> twp (modify (set_nextpid n)) Q t.
Proof. intros H s a s' <- [= <- <-]. done. Qed.
Lemma twp_set_initproc i Q t : Q tt (Tab (tprocs t) (tnext t) i (tcur t)) -> twp (modify (set_initproc i)) Q t.
Proof. intros H s a s' <- [= <- <-]. done. Qed.
Lemma twp_set_cproc c p Q t :
  Q tt (Tab (tprocs t) (tnext t) (tinit t) (fun k => if decide (k = c) then p else tcur t k)) ->
  twp (modify (set_cproc c p)) Q t.
Proof. intros H s a s' <- [= <- <-]. done. Qed.

Lemma twp_acquire c lk Q t : Q tt t -> twp (acquire c lk) Q t.
Proof.
  intros H. apply twp_bind, twp_on_cpu. intros _. apply twp_bind, twp_lock. intros [c'|].
  - destruct (decide (c' = c)); [apply twp_panic|apply twp_spin].
  - by apply twp_set_locks.
Qed.
Lemma twp_release c lk Q t : Q tt t -> twp (release c lk) Q t.
Proof.
  intros H. apply twp_bind, twp_lock. intros h. destruct (decide _); [|apply twp_panic].
  apply twp_bind, twp_set_locks, twp_on_cpu. by intros [].
Qed.
Lemma twp_myproc c Q t : Q (tcur t c) t -> twp (myproc c) Q t.
Proof.
  intros H. apply twp_bind, twp_on_cpu. intros _. apply twp_bind.
  intros s a s' <- [= <- <-]. cbn. by apply twp_bind, twp_on_cpu; intros _; apply twp_ret.
Qed.
Lemma twp_curproc c Q t : (forall i, tcur t c = Some i -> Q i t) -> twp (curproc c) Q t.
Proof.
  intros H. apply twp_bind, twp_myproc. destruct (tcur t c) as [i|]; [apply twp_ret; eauto|apply twp_panic].
Qed.
Lemma twp_set_intena c b Q t : Q tt t -> twp (set_intena c b) Q t.
Proof. intros H. apply twp_on_cpu. by intros []. Qed.
End Tab.

(** [tstep] moves over one operation of a routine. *)
Ltac tstep :=
  lazymatch goal with
  | |- twp (bind _ _) _ _ => apply twp_bind
  | |- twp (acquire _ _) _ _ => apply twp_acquire
  | |- twp (release _ _) _ _ => apply twp_release
  | |- twp (pt _) _ _ => apply twp_pt
  | |- twp (pupd _ _) _ _ => apply twp_pupd
  | |- twp (modify (set_locks _ _)) _ _ => apply twp_set_locks
  | |- twp (modify (set_nextpid _)) _ _ => apply twp_set_nextpid
  | |- twp (modify (set_initproc _)) _ _ => apply twp_set_initproc
  | |- twp (modify (set_cproc _ _)) _ _ => apply twp_set_cproc
  | |- twp (gets nextpid) _ _ => apply twp_nextpid
  | |- twp (gets initproc) _ _ => apply twp_initproc
  | |- twp (gets _) _ _ => apply twp_lock; intros ?
  | |- twp (set_intena _ _) _ _ => apply twp_set_intena
  | |- twp (myproc _) _ _ => apply twp_myproc
  | |- twp (curproc _) _ _ => apply twp_curproc; intros ? ?
  | |- twp (on_km _) _ _ => apply twp_on_km; intros ?
  | |- twp (on_kf _) _ _ => apply twp_on_kf; intros ?
  | |- twp (on_cpu _ _) _ _ => apply twp_on_cpu; intros ?
  | |- twp (panic _) _ _ => apply twp_panic
  | |- twp out_of_fuel _ _ => apply twp_spin
  | |- twp (ret _) _ _ => apply twp_ret
  end; cbn beta iota delta [tprocs tnext tinit tcur].
Ltac tsteps := repeat tstep.

(** ** What each routine does to the table *)

(** Only slot [i] differs. *)
Record slot_only (i : nat) (t t' : ptab) : Prop := {
  so_procs : forall k, k <> i -> tprocs t' k = tprocs t k;
  so_next : tnext t' = tnext t;
  so_init : tinit t' = tinit t;
  so_cur : tcur t' = tcur t
}.

Lemma slot_only_refl i t : slot_only i t t.
Proof. by split. Qed.
Lemma slot_only_trans i t1 t2 t3 : slot_only i t1 t2 -> slot_only i t2 t3 -> slot_only i t1 t3.
Proof. intros [A1 B1 C1 D1] [A2 B2 C2 D2]. split; [|congruence..]. intros k Hk. by rewrite A2, A1. Qed.
Lemma at_proc_eq f i g : at_proc f i g i = g (f i).
Proof. unfold at_proc. by rewrite decide_True. Qed.
Lemma at_proc_ne f i g k : k <> i -> at_proc f i g k = f k.
Proof. intros. unfold at_proc. by rewrite decide_False. Qed.
Lemma slot_only_at i g t : slot_only i t (Tab (at_proc (tprocs t) i g) (tnext t) (tinit t) (tcur t)).
Proof. split; cbn; [|done..]. intros. by apply at_proc_ne. Qed.
#[export] Hint Resolve slot_only_refl slot_only_at : xv6.

(** A free slot. *)
Definition dead (p : proc) : Prop := state p = UNUSED /\ pid p = 0 /\ parent p = None.
(** A row may change in every other way while its identity, place in the tree
    and channel stay, and its state changes by a wakeup at most. *)
Definition row_le (p p' : proc) : Prop :=
  pid p' = pid p /\ parent p' = parent p /\ chan p' = chan p /\
  (state p' = state p \/ state p = SLEEPING /\ state p' = RUNNABLE).
Record woken (t t' : ptab) : Prop := {
  wk_rows : forall i, row_le (tprocs t i) (tprocs t' i);
  wk_next : tnext t' = tnext t;
  wk_init : tinit t' = tinit t;
  wk_cur : tcur t' = tcur t
}.

#[export] Instance row_le_preorder : PreOrder row_le.
Proof.
  split; [intros p; unfold row_le; naive_solver|].
  intros p q r (?&?&?&[?|[??]]) (?&?&?&[?|[??]]); unfold row_le; repeat split; try congruence;
    (left; congruence) || (right; split; congruence).
Qed.
#[export] Instance woken_preorder : PreOrder woken.
Proof.
  split; [by split|]. intros t1 t2 t3 [A1 B1 C1 D1] [A2 B2 C2 D2]. split; [|congruence..].
  intros i. etrans; eauto.
Qed.
Lemma woken_at t i g :
  row_le (tprocs t i) (g (tprocs t i)) -> woken t (Tab (at_proc (tprocs t) i g) (tnext t) (tinit t) (tcur t)).
Proof.
  intros H. split; cbn; [|done..]. intros k. unfold at_proc. destruct (decide (k = i)) as [->|]; [done|reflexivity].
Qed.
(** Setting a field that is not part of the row. *)
Ltac row_same := unfold row_le; match goal with |- context [tprocs ?t ?i] => destruct (tprocs t i); cbn; tauto end.

(** Changes of one slot that leave its row alone. *)
Definition same_row (p p' : proc) : Prop :=
  state p' = state p /\ pid p' = pid p /\ parent p' = parent p /\ chan p' = chan p /\ pkilled p' = pkilled p.
Definition priv (i : nat) (t t' : ptab) : Prop := slot_only i t t' /\ same_row (tprocs t i) (tprocs t' i).
Lemma priv_refl i t : priv i t t.
Proof. by split; [apply slot_only_refl|]. Qed.
Lemma priv_trans i t1 t2 t3 : priv i t1 t2 -> priv i t2 t3 -> priv i t1 t3.
Proof.
  intros [A (B1 & B2 & B3 & B4 & B5)] [C (D1 & D2 & D3 & D4 & D5)]. split; [by eapply slot_only_trans|].
  unfold same_row. split_and!; congruence.
Qed.
(** One or more such changes in a row. *)
Ltac same_row :=
  split; [split; cbn; intros; rewrite ?at_proc_ne by done; done
         |cbn; rewrite ?at_proc_eq; match goal with |- same_row ?p _ => by destruct p end].

(** What the process code relies on: taking a reference and looking a name up
    leave the table alone, and the other file operations at most wake processes. *)
Class FileOpsLaws (F : Type) `{FileOps F} : Prop := {
  fo_filedup_t c f Q t : (forall g, Q g t) -> twp (fo_filedup c f) Q t;
  fo_idup_t c i Q t : (forall d, Q d t) -> twp (fo_idup c i) Q t;
  fo_namei_t c p Q t : (forall r, Q r t) -> twp (fo_namei c p) Q t;
  fo_fileclose_t c f t : twp (fo_fileclose c f) (fun _ t' => woken t t') t;
  fo_begin_op_t c t : twp (fo_begin_op c) (fun _ t' => woken t t') t;
  fo_end_op_t c t : twp (fo_end_op c) (fun _ t' => woken t t') t;
  fo_iput_t c i t : twp (fo_iput c i) (fun _ t' => woken t t') t
}.

Section Routines.
Context `{KI : KernelImage} {F : Type} `{FO : FileOps F} `{FOL : !FileOpsLaws F}.
Implicit Types (t : ptab) (c i : nat).

Lemma freeproc_t i t : twp (freeproc (F := F) i) (fun _ t' => slot_only i t t' /\ dead (tprocs t' i)) t.
Proof.
  unfold freeproc. tstep. tstep.
  set (p := tprocs t i).
  assert (Hif : forall (b : bool) (m : M kmem unit) Q u, Q tt u -> twp (F := F) (if b then on_km m else ret tt) Q u).
  { intros [] m Q u H; [apply twp_on_km; by intros []|by apply twp_ret]. }
  apply twp_bind, Hif, twp_bind, twp_pupd, twp_bind.
  assert (Hfin : forall u, slot_only i t u -> twp (F := F) (pupd i (fun q =>
    set_extra 0 0 0 (Vregion 0 0) (set_state UNUSED (set_xstate 0 (set_pkilled 0 (set_chan None
      (set_pname (0 :: drop 1 (pname q)) (set_parent None (set_pid 0 (set_sz 0 (set_pagetable 0 q)))))))))))
    (fun _ t' => slot_only i t t' /\ dead (tprocs t' i)) u).
  { intros u Hu. apply twp_pupd. split; [eapply slot_only_trans; eauto with xv6|].
    cbn. rewrite at_proc_eq. by destruct (tprocs u i). }
  destruct (c_true (pagetable p)).
  - apply twp_bind, Hif, twp_on_km. intros []. apply Hfin; eauto with xv6.
  - apply twp_ret, Hfin; eauto with xv6.
Qed.

Lemma allocproc_scan_t c n i t :
  twp (allocproc_scan (F := F) c n i) (fun r t' => t' = t /\
    match r with
    | Some k => (i <= k < i + n)%nat /\ state (tprocs t k) = UNUSED /\
                forall j, (i <= j < k)%nat -> state (tprocs t j) <> UNUSED
    | None => True
    end) t.
Proof.
  revert i. induction n as [|n IH]; intros i; cbn [allocproc_scan]; [by apply twp_ret|].
  tstep. tstep. tstep. tstep. destruct (decide _) as [E|E].
  - apply twp_ret. split; [done|]. split_and!; [lia..|done|lia].
  - tstep. tstep. eapply twp_mono; [apply IH|]. intros [k|] t' [-> H]; [|done]. destruct H as (H1 & H2 & H3).
    split; [done|]. split_and!; [lia..|done|]. intros j Hj. destruct (decide (j = i)) as [->|]; [done|apply H3; lia].
Qed.

(** What [allocproc] may do: nothing; use up a pid; or set a free slot up. *)
Definition alloc_post (t : ptab) (r : option nat) (t' : ptab) : Prop :=
  t' = t /\ r = None \/
  exists k, (k < nproc)%nat /\ state (tprocs t k) = UNUSED /\
    (forall j, (j < k)%nat -> state (tprocs t j) <> UNUSED) /\
    (forall j, j <> k -> tprocs t' j = tprocs t j) /\
    tnext t' = i32 (tnext t + 1) /\ tinit t' = tinit t /\ tcur t' = tcur t /\
    (r = None /\ dead (tprocs t' k) \/
     r = Some k /\ state (tprocs t' k) = USED /\ pid (tprocs t' k) = tnext t /\
     parent (tprocs t' k) = parent (tprocs t k) /\ pkilled (tprocs t' k) = pkilled (tprocs t k)).

Lemma alloc_fail_t c i (t u : ptab) :
  (i < nproc)%nat -> state (tprocs t i) = UNUSED -> (forall j, (j < i)%nat -> state (tprocs t j) <> UNUSED) ->
  slot_only i (Tab (tprocs t) (i32 (tnext t + 1)) (tinit t) (tcur t)) u ->
  twp (F := F) (freeproc i ;; release c (LProc i) ;; ret None) (alloc_post t) u.
Proof.
  intros Hi Hs Hmin Hu. tstep. eapply twp_mono; [apply freeproc_t|]. intros [] u' [Hu' Hd].
  tstep. tstep. apply twp_ret. right. exists i.
  destruct (slot_only_trans _ _ _ _ Hu Hu') as [A B C D]. cbn in *.
  split_and!; try done. left. done.
Qed.

Lemma proc_pagetable_t i Q t : (forall a, Q a t) -> twp (proc_pagetable (F := F) i) Q t.
Proof. intros H. unfold proc_pagetable. tsteps. done. Qed.

Lemma allocproc_t c t : twp (allocproc (F := F) c) (alloc_post t) t.
Proof.
  unfold allocproc. tstep. eapply twp_mono; [apply allocproc_scan_t|].
  intros [i|] u [-> Hi]; [|apply twp_ret; by left]. destruct Hi as (Hi & Hs & Hmin).
  assert (Hi' : (i < nproc)%nat) by lia. clear Hi. assert (Hmin' : forall j, (j < i)%nat -> state (tprocs t j) <> UNUSED).
  { intros j Hj. apply Hmin. lia. }
  unfold allocpid. tsteps.
  assert (Hslot : forall g g', slot_only i (Tab (tprocs t) (i32 (tnext t + 1)) (tinit t) (tcur t))
    (Tab (at_proc (at_proc (tprocs t) i g) i g') (i32 (tnext t + 1)) (tinit t) (tcur t))).
  { intros g g'. split; cbn; [|done..]. intros k Hk. by rewrite !at_proc_ne. }
  destruct (a =? 0); [apply alloc_fail_t; auto|].
  tstep. apply proc_pagetable_t. intros pg. tstep. tstep. destruct (pg =? 0).
  - apply alloc_fail_t; [done..|]. eapply slot_only_trans; [apply Hslot|apply (slot_only_at i _ (Tab _ _ _ _))].
  - tsteps. right. exists i. split_and!; try done; cbn.
    + intros j Hj. by rewrite !at_proc_ne.
    + right. rewrite !at_proc_eq. by destruct (tprocs t i).
Qed.

Lemma dup_files_t c n fd p np t : twp (F := F) (dup_files c n fd p np) (fun _ t' => priv np t t') t.
Proof.
  revert fd t. induction n as [|n IH]; intros fd t; cbn [dup_files]; [apply twp_ret, priv_refl|].
  tstep. destruct (ofile p fd) as [f|].
  - tstep. apply fo_filedup_t. intros g. tsteps. eapply twp_mono; [apply IH|]. intros [] t' H. eapply priv_trans; [|exact H]. same_row.
  - tsteps. apply IH.
Qed.

Lemma kfork_copy_t c i t :
  twp (F := F) (kfork_copy c i) (fun r t' => alloc_post t (fst <$> r) t' /\ from_option (fun x => snd x = tnext t) True r) t.
Proof.
  unfold kfork_copy. tstep. eapply twp_mono; [apply allocproc_t|]. intros r u Hu.
  destruct r as [np|]; [|apply twp_ret; done].
  destruct Hu as [[_ [=]]|(k & Hk & Hs & Hmin & Ho & Hn & Hi & Hc & [[[=] _]|([= <-] & Hst & Hpid & Hpar & Hkil)])].
  tsteps. case_match.
  - tstep. eapply twp_mono; [apply freeproc_t|]. intros [] u' [[A B C D] Hd]. tsteps. split; [|done].
    right. exists np. split_and!; try done; try congruence; [|by left].
    intros j Hj. by rewrite A, Ho.
  - tsteps. eapply twp_mono; [apply dup_files_t|]. intros [] u' Hu'.
    assert (Hp : priv np u u').
    { eapply priv_trans; [|exact Hu']. same_row. }
    clear Hu'. tstep. destruct (cwd (tprocs u i)) as [ip|]; [|apply twp_panic].
    tstep. apply fo_idup_t. intros d. tsteps.
    match goal with |- context [alloc_post _ _ ?w] => set (u'' := w) end.
    assert (Hq : priv np u u'') by (eapply priv_trans; [exact Hp|same_row]).
    change (pid _) with (pid (tprocs u'' np)). clearbody u''. clear Hp.
    destruct Hq as [[A B C D] (E1 & E2 & E3 & E4 & E5)]. cbn [fmap option_fmap option_map fst from_option snd].
    split; [|congruence]. right. exists np. split_and!; try done; try congruence.
    + intros j Hj. by rewrite A, Ho.
    + right. split_and!; congruence.
Qed.

Lemma wakeup_loop_t c ch n i t :
  twp (F := F) (wakeup_loop c ch n i) (fun _ t' => woken t t' /\
    (forall k, (i <= k < i + n)%nat -> Some k <> tcur t c -> state (tprocs t' k) = SLEEPING -> chan (tprocs t' k) <> ch) /\
    (forall k, Some k = tcur t c -> tprocs t' k = tprocs t k)) t.
Proof.
  revert i t. induction n as [|n IH]; intros i t; cbn [wakeup_loop].
  { apply twp_ret. split; [reflexivity|]. split; [lia|done]. }
  assert (Hgo : forall u, woken t u -> (forall k, Some k = tcur t c -> tprocs u k = tprocs t k) ->
    (Some i <> tcur t c -> state (tprocs u i) = SLEEPING -> chan (tprocs u i) <> ch) ->
    twp (F := F) (wakeup_loop c ch n (S i)) (fun _ t' => woken t t' /\
      (forall k, (i <= k < i + S n)%nat -> Some k <> tcur t c -> state (tprocs t' k) = SLEEPING -> chan (tprocs t' k) <> ch) /\
      (forall k, Some k = tcur t c -> tprocs t' k = tprocs t k)) u).
  { intros u Hu Hcu Hi. eapply twp_mono; [apply IH|]. intros [] t' (Hw & Hk & Hc').
    rewrite (wk_cur _ _ Hu) in *. split; [by etrans|]. split.
    - intros k Hr Hne Hst. destruct (decide (k = i)) as [->|]; [|apply Hk; auto; lia].
      destruct (wk_rows _ _ Hw i) as (_ & _ & -> & [Es|[_ Es]]); [apply Hi; congruence|congruence].
    - intros k Hr. rewrite Hc', Hcu; done. }
  tstep. tstep. tstep. destruct (decide _) as [E|E].
  - apply twp_ret. apply Hgo; [reflexivity|done|done].
  - tsteps. destruct (decide _) as [[E1 E2]|E1].
    + tsteps. apply Hgo.
      * apply woken_at. unfold row_le. destruct (tprocs t i); cbn in *. naive_solver.
      * intros k Hk. cbn. apply at_proc_ne. congruence.
      * cbn. rewrite at_proc_eq. by destruct (tprocs t i).
    + tsteps. apply Hgo; [reflexivity|done|]. naive_solver.
Qed.

Lemma wakeup_t c ch t :
  twp (F := F) (wakeup c ch) (fun _ t' => woken t t' /\
    (forall k, (k < nproc)%nat -> Some k <> tcur t c -> state (tprocs t' k) = SLEEPING -> chan (tprocs t' k) <> ch) /\
    (forall k, Some k = tcur t c -> tprocs t' k = tprocs t k)) t.
Proof.
  eapply twp_mono; [apply wakeup_loop_t|]. intros [] t' (Hw & Hk & Hc). split; [done|]. split; [|done].
  intros k Hn. apply Hk. lia.
Qed.

(** The process on [c] has left it, its row as it set it before [sched]. *)
Record left_cpu c i t t' : Prop := {
  lv_procs : forall k, k <> i -> tprocs t' k = tprocs t k;
  lv_row : same_row (tprocs t i) (tprocs t' i);
  lv_next : tnext t' = tnext t;
  lv_init : tinit t' = tinit t;
  lv_cur : tcur t' c = None;
  lv_others : forall k, k <> c -> tcur t' k = tcur t k
}.

Lemma sched_t c ctx t :
  twp (F := F) (sched c ctx) (fun _ t' => exists i, tcur t c = Some i /\ left_cpu c i t t') t.
Proof.
  unfold sched. tsteps. case_decide; [tsteps|]. tsteps. case_match; [tsteps|]. tsteps. case_decide; [tsteps|].
  tsteps. case_match; [tsteps|]. unfold scheduler_resume. tsteps.
  exists i. split; [done|]. split; cbn; try done.
  - intros k Hk. by rewrite at_proc_ne.
  - rewrite at_proc_eq. by destruct (tprocs t i).
  - by rewrite decide_True.
  - intros k Hk. by rewrite decide_False.
Qed.

Lemma kwait_scan_t c p addr n pp hk t :
  twp (F := F) (kwait_scan c p addr n pp hk) (fun r t' =>
    match r with
    | inl _ => t' = t \/ exists k, parent (tprocs t k) = Some p /\ state (tprocs t k) = ZOMBIE /\
                              slot_only k t t' /\ dead (tprocs t' k)
    | inr _ => t' = t /\ forall k, (pp <= k < pp + n)%nat -> parent (tprocs t k) = Some p -> state (tprocs t k) <> ZOMBIE
    end) t.
Proof.
  revert pp hk. induction n as [|n IH]; intros pp hk; cbn [kwait_scan].
  { apply twp_ret. split; [done|lia]. }
  assert (Hgo : forall hk', (parent (tprocs t pp) = Some p -> state (tprocs t pp) <> ZOMBIE) ->
    twp (F := F) (kwait_scan c p addr n (S pp) hk') (fun r t' =>
    match r with
    | inl _ => t' = t \/ exists k, parent (tprocs t k) = Some p /\ state (tprocs t k) = ZOMBIE /\
                              slot_only k t t' /\ dead (tprocs t' k)
    | inr _ => t' = t /\ forall k, (pp <= k < pp + S n)%nat -> parent (tprocs t k) = Some p -> state (tprocs t k) <> ZOMBIE
    end) t).
  { intros hk' Hpp. eapply twp_mono; [apply IH|]. intros [v|b] t'; [done|]. intros [-> H]. split; [done|].
    intros k Hk. destruct (decide (k = pp)) as [->|]; [done|apply H; lia]. }
  tsteps. destruct (decide _) as [E|E]; [|apply Hgo; done].
  tsteps. destruct (decide _) as [E'|E']; [|tsteps; apply Hgo; done].
  tsteps.
  assert (Hco : forall m Q, (forall e, Q e t) -> twp (F := F) (if addr =? 0 then ret 0 else on_km m) Q t).
  { intros m Q H. destruct (addr =? 0); [by apply twp_ret|by apply twp_on_km]. }
  apply Hco. intros e. destruct (e <? 0); [tsteps; by left|].
  tstep. eapply twp_mono; [apply freeproc_t|]. intros [] t' [Hs Hd]. tsteps. right. exists pp. done.
Qed.

(** The process on [c] has gone to sleep on [ch]. *)
Definition slept c ch t t' : Prop :=
  exists i, tcur t c = Some i /\ left_cpu c i (Tab (at_proc (tprocs t) i (fun p => set_state SLEEPING (set_chan ch p)))
                                                (tnext t) (tinit t) (tcur t)) t'.
Lemma sleep_t c ch lk t : twp (F := F) (sleep c ch lk) (fun _ t' => slept c ch t t') t.
Proof.
  unfold sleep. tsteps. eapply twp_mono; [apply sched_t|]. cbn. intros [] t' (j & Hj & HL). simplify_eq.
  eexists. done.
Qed.

Lemma kwait_t c addr t :
  twp (F := F) (kwait c addr) (fun r t' => exists p, tcur t c = Some p /\
    match r with
    | Some _ => t' = t \/ exists k, parent (tprocs t k) = Some p /\ state (tprocs t k) = ZOMBIE /\
                               slot_only k t t' /\ dead (tprocs t' k)
    | None => slept c (Some (CProc p)) t t' /\
              forall k, (k < nproc)%nat -> parent (tprocs t k) = Some p -> state (tprocs t k) <> ZOMBIE
    end) t.
Proof.
  unfold kwait, killed. tsteps. eapply twp_mono; [apply kwait_scan_t|]. intros [v|b] t' H'.
  { apply twp_ret. eauto. }
  destruct H' as [-> H']. destruct (negb b); [tsteps; eauto|].
  tsteps. case_match; [tsteps; eauto|]. tstep. eapply twp_mono; [apply sleep_t|]. intros [] t' Hs.
  apply twp_ret. exists i. split; [done|]. split; [done|]. intros k Hk. apply H'. lia.
Qed.

Lemma kkill_loop_t c pd n i t : twp (F := F) (kkill_loop c pd n i) (fun _ t' => woken t t') t.
Proof.
  revert i. induction n as [|n IH]; intros i; cbn [kkill_loop]; [by apply twp_ret|].
  tsteps. destruct (_ =? _); [|tsteps; apply IH].
  tsteps. destruct (decide _) as [E|E]; tsteps; (split; cbn; [|done..]); intros k; unfold at_proc;
    destruct (decide (k = i)) as [->|]; try reflexivity; rewrite ?decide_True by done;
    unfold row_le; destruct (tprocs t i); cbn in *; naive_solver.
Qed.

Lemma close_files_t c n fd i t : twp (F := F) (close_files c n fd i) (fun _ t' => woken t t') t.
Proof.
  revert fd t. induction n as [|n IH]; intros fd t; cbn [close_files]; [by apply twp_ret|].
  tsteps. destruct (ofile _ fd) as [f|]; [|tsteps; apply IH].
  tstep. eapply twp_mono; [apply fo_fileclose_t|]. intros [] t1 H1. tsteps.
  eapply twp_mono; [apply IH|]. intros [] t' H. etrans; [exact H1|]. etrans; [|exact H].
  apply woken_at. row_same.
Qed.

Lemma growproc_t c n t : twp (F := F) (growproc c n) (fun _ t' => exists i, tcur t c = Some i /\ priv i t t') t.
Proof.
  unfold growproc. tsteps.
  repeat case_match; tsteps; repeat case_match; tsteps; exists i; (split; [done|]); apply priv_refl || same_row.
Qed.

(** The processor has taken process [i] on, or left it. *)
Definition taken c i t t' : Prop :=
  state (tprocs t i) = RUNNABLE /\
  (forall k, k <> i -> tprocs t' k = tprocs t k) /\
  state (tprocs t' i) = RUNNING /\ pid (tprocs t' i) = pid (tprocs t i) /\
  parent (tprocs t' i) = parent (tprocs t i) /\
  tnext t' = tnext t /\ tinit t' = tinit t /\ tcur t' c = Some i /\ (forall k, k <> c -> tcur t' k = tcur t k).
Lemma scheduler_try_t c i t :
  twp (F := F) (scheduler_try c i) (fun r t' => if r then taken c i t t' else t' = t) t.
Proof.
  unfold scheduler_try, swtch_to. tsteps. destruct (decide _) as [E|E]; [|by tsteps].
  tsteps. unfold taken. destruct (pcontext _); tsteps; cbn; rewrite ?at_proc_eq;
    (split_and!; [done|intros; by rewrite !at_proc_ne|by destruct (tprocs t i)..|done|done
      |by rewrite decide_True|intros; by rewrite decide_False]).
Qed.
End Routines.
