(* ===== verification/ProcProps.v ===== *)
(** * Processes: the reachable states of the process table

    [pstep]: any processor executes one critical section of proc.c.  [pinv] is
    what all reachable states satisfy: pids name processes, the tree of parents
    has no dangling link and no zombie without a parent to collect it, a process
    runs on at most one processor, and no process sleeps in [kwait] beside a
    child that has exited. *)
From S2P Require Import Prelude Machine Kalloc Vm Spinlock Proc ProcInv.

(** ** The system *)

(** How far a process is in [kfork], its child being [np]. *)
Inductive fphase : Type := FNone | FLink (np : nat) | FStart (np : nat).

Section Steps.
Context `{KI : KernelImage} {F : Type} `{FO : FileOps F}.

Record psys : Type := Psys { ks : kst F; fk : nat -> fphase }.
Definition set_fk (p : nat) (x : fphase) (f : nat -> fphase) : nat -> fphase :=
  fun k => if decide (k = p) then x else f k.

(** Processor [c] runs process [p], which is not inside a [kfork]. *)
Definition runs (x : psys) (c p : nat) : Prop := cproc (ks x) c = Some p /\ fk x p = FNone.

Inductive pstep : psys -> psys -> Prop :=
| S_schedule c i s f r s' :
    cproc s c = None -> (i < nproc)%nat -> scheduler_try c i s = Ok (r, s') -> pstep (Psys s f) (Psys s' f)
| S_yield c s f s' : yield c s = Ok (tt, s') -> pstep (Psys s f) (Psys s' f)
| S_fork c p s f r s' :
    runs (Psys s f) c p -> kfork_copy c p s = Ok (r, s') ->
    pstep (Psys s f) (Psys s' match r with Some (np, _) => set_fk p (FLink np) f | None => f end)
| S_fork_link c p np s f s' :
    cproc s c = Some p -> f p = FLink np -> kfork_link c p np s = Ok (tt, s') ->
    pstep (Psys s f) (Psys s' (set_fk p (FStart np) f))
| S_fork_start c p np s f s' :
    cproc s c = Some p -> f p = FStart np -> kfork_start c np s = Ok (tt, s') ->
    pstep (Psys s f) (Psys s' (set_fk p FNone f))
| S_exit c p status s f s' :
    runs (Psys s f) c p -> kexit c status s = Ok (tt, s') -> pstep (Psys s f) (Psys s' f)
| S_wait c p addr s f r s' :
    runs (Psys s f) c p -> kwait c addr s = Ok (r, s') -> pstep (Psys s f) (Psys s' f)
| S_sleep c p a lk s f s' :
    runs (Psys s f) c p -> bind (acquire c lk) (fun _ => sleep c (Some (CAddr a)) lk) s = Ok (tt, s') ->
    pstep (Psys s f) (Psys s' f)
| S_wakeup c ch s f s' : wakeup c ch s = Ok (tt, s') -> pstep (Psys s f) (Psys s' f)
| S_kill c pd s f r s' : kkill c pd s = Ok (r, s') -> pstep (Psys s f) (Psys s' f)
| S_setkilled c i s f s' : setkilled c i s = Ok (tt, s') -> pstep (Psys s f) (Psys s' f)
| S_grow c n s f r s' : growproc c n s = Ok (r, s') -> pstep (Psys s f) (Psys s' f).
End Steps.
Arguments psys F : clear implicits.

(** ** The invariant *)

Definition live (p : proc) : Prop := state p <> UNUSED /\ state p <> USED /\ state p <> ZOMBIE.

(** [X]: processes that may still have to be woken. *)
Record pinv (X : nat -> Prop) (t : ptab) (f : nat -> fphase) : Prop := {
  i_next : 1 <= tnext t;
  i_slots : forall i, (nproc <= i)%nat -> state (tprocs t i) = UNUSED;
  i_unused : forall i, state (tprocs t i) = UNUSED -> pid (tprocs t i) = 0 /\ parent (tprocs t i) = None;
  i_pid : forall i, state (tprocs t i) <> UNUSED -> 1 <= pid (tprocs t i) < tnext t;
  i_uniq : forall i j, state (tprocs t i) <> UNUSED -> state (tprocs t j) <> UNUSED ->
             pid (tprocs t i) = pid (tprocs t j) -> i = j;
  i_init : exists r, tinit t = Some r /\ live (tprocs t r);
  i_parent : forall i j, parent (tprocs t i) = Some j -> live (tprocs t j);
  i_haspar : forall i, state (tprocs t i) <> UNUSED -> state (tprocs t i) <> USED -> tinit t <> Some i ->
               parent (tprocs t i) <> None;
  i_used : forall i, state (tprocs t i) = USED -> exists p, f p = FLink i \/ f p = FStart i;
  i_link : forall p i, f p = FLink i -> live (tprocs t p) /\ state (tprocs t i) = USED /\ parent (tprocs t i) = None;
  i_start : forall p i, f p = FStart i -> live (tprocs t p) /\ state (tprocs t i) = USED /\ parent (tprocs t i) = Some p;
  i_forks : forall p q i, f p = FLink i \/ f p = FStart i -> f q = FLink i \/ f q = FStart i -> p = q;
  i_running : forall i, state (tprocs t i) = RUNNING <-> exists c, tcur t c = Some i;
  i_one : forall c c' i, tcur t c = Some i -> tcur t c' = Some i -> c = c';
  i_wait : forall p i, ~ X p -> state (tprocs t p) = SLEEPING -> chan (tprocs t p) = Some (CProc p) ->
             parent (tprocs t i) = Some p -> state (tprocs t i) <> ZOMBIE
}.
Definition nobody (i : nat) : Prop := False.

Lemma row_le_live p p' : row_le p p' -> live p -> live p'.
Proof. intros (_ & _ & _ & [E|[E1 E2]]); unfold live; [by rewrite E|rewrite E2; done]. Qed.

Lemma pinv_woken X t t' f : pinv X t f -> woken t t' -> pinv X t' f.
Proof.
  intros [] [Hr Hn Hi Hc].
  assert (Hu : forall i st, st <> SLEEPING -> st <> RUNNABLE -> state (tprocs t' i) = st <-> state (tprocs t i) = st).
  { intros i st H1 H2. destruct (Hr i) as (_ & _ & _ & [E|[E1 E2]]); [by rewrite E|]. rewrite E1, E2. naive_solver. }
  assert (Hp : forall i, pid (tprocs t' i) = pid (tprocs t i)) by (intros i; apply Hr).
  assert (Hpar : forall i, parent (tprocs t' i) = parent (tprocs t i)) by (intros i; apply Hr).
  assert (Hl : forall i, live (tprocs t i) -> live (tprocs t' i)) by (intros i; apply row_le_live, Hr).
  split; rewrite ?Hn, ?Hi, ?Hc; try done.
  - intros i H. apply Hu; auto.
  - intros i H. rewrite Hp, Hpar. apply i_unused0, Hu; auto.
  - intros i H. rewrite Hp. apply i_pid0. by rewrite <- Hu.
  - intros i j H1 H2. rewrite !Hp. apply i_uniq0; by rewrite <- Hu.
  - destruct i_init0 as (r & -> & H). exists r. auto.
  - intros i j. rewrite Hpar. eauto.
  - intros i H1 H2 H3. rewrite Hpar. apply i_haspar0; rewrite <- ?Hu; done.
  - intros i H. apply i_used0, Hu; auto.
  - intros p i H. rewrite Hpar. destruct (i_link0 _ _ H) as (? & ? & ?). split_and!; auto. by apply Hu.
  - intros p i H. rewrite Hpar. destruct (i_start0 _ _ H) as (? & ? & ?). split_and!; auto. by apply Hu.
  - intros i. rewrite Hu by done. apply i_running0.
  - intros p i HX Hs Hch. rewrite Hpar. intros H1 H2%Hu; [|done..].
    destruct (Hr p) as (_ & _ & Hch' & [E|[E1 E2]]); [|congruence].
    rewrite Hch' in Hch. rewrite E in Hs. eapply i_wait0; eauto.
Qed.

Lemma priv_woken i t t' : priv i t t' -> woken t t'.
Proof.
  intros [[A B C D] (E1 & E2 & E3 & E4 & _)]. split; try done. intros k.
  destruct (decide (k = i)) as [->|]; [unfold row_le; naive_solver|]. rewrite A by done. reflexivity.
Qed.

(** [slots H i]: every row of the new table the goal or a hypothesis mentions is
    the changed slot [i] or, by [H], a row of the old table. *)
Ltac slots H i :=
  repeat match goal with
  | |- context [tprocs ?t ?k] =>
      lazymatch type of H with context [tprocs t _ = _] => idtac end;
      lazymatch k with i => fail | _ => idtac end;
      destruct (decide (k = i)) as [->|]; [|rewrite (H k) in * by done]
  | E : context [tprocs ?t ?k] |- _ =>
      lazymatch E with H => fail | _ => idtac end;
      lazymatch type of H with context [tprocs t _ = _] => idtac end;
      lazymatch k with i => fail | _ => idtac end;
      destruct (decide (k = i)) as [->|]; [|rewrite (H k) in * by done]
  end.

Section Preserve.
Implicit Types (t : ptab) (f : nat -> fphase) (c i : nat).

Lemma pinv_taken X t t' f c i : pinv X t f -> tcur t c = None -> taken c i t t' -> pinv X t' f.
Proof.
  intros [] Hc0 (Hst & Hk & Hst' & Hpid & Hpar & Hn & Hi & Hc & Hcs).
  assert (Hl : forall k, live (tprocs t k) -> live (tprocs t' k)).
  { intros k H. slots Hk i; [|done]. unfold live. by rewrite Hst'. }
  split; rewrite ?Hn, ?Hi; try done.
  - intros k H. slots Hk i; [|auto]. rewrite i_slots0 in Hst by done. done.
  - intros k H. slots Hk i; [congruence|auto].
  - intros k H. slots Hk i; [|auto]. rewrite Hpid. apply i_pid0. by rewrite Hst.
  - intros k j H1 H2 E. assert (state (tprocs t i) <> UNUSED) by by rewrite Hst.
    slots Hk i; rewrite ?Hpid in *; auto.
  - destruct i_init0 as (r & -> & H). eauto.
  - intros k j H. assert (parent (tprocs t k) = Some j) by (slots Hk i; congruence). eauto.
  - intros k H1 H2 H3. slots Hk i; [|auto]. rewrite Hpar. apply i_haspar0; by rewrite ?Hst.
  - intros k H. slots Hk i; [congruence|auto].
  - intros p k H. destruct (i_link0 _ _ H) as (? & ? & ?). split; [auto|]. slots Hk i; [congruence|done].
  - intros p k H. destruct (i_start0 _ _ H) as (? & ? & ?). split; [auto|]. slots Hk i; [congruence|done].
  - intros k. slots Hk i; [naive_solver|]. rewrite i_running0. split; intros [c' H'].
    + exists c'. rewrite Hcs; [done|]. congruence.
    + exists c'. rewrite Hcs in H'; [done|]. intros ->. congruence.
  - intros c1 c2 k H1 H2. assert (forall d, tcur t d <> Some i).
    { intros d Hd. assert (state (tprocs t i) = RUNNING) by (apply i_running0; eauto). congruence. }
    destruct (decide (c1 = c)) as [->|], (decide (c2 = c)) as [->|]; rewrite ?Hcs in * by done; naive_solver.
  - intros p k HX Hs Hch H. assert (Hpk : parent (tprocs t k) = Some p) by (slots Hk i; congruence).
    destruct (decide (p = i)) as [->|]; [congruence|]. rewrite Hk in Hs, Hch by done.
    slots Hk i; [congruence|eauto].
Qed.

(** Process [i] of processor [c] has become [RUNNABLE], [SLEEPING] or, with
    nothing pending on it, [ZOMBIE]. *)
Lemma pinv_left X t t' f c i :
  pinv X t f -> tcur t c = Some i ->
  (forall k, k <> i -> tprocs t' k = tprocs t k) ->
  pid (tprocs t' i) = pid (tprocs t i) -> parent (tprocs t' i) = parent (tprocs t i) ->
  state (tprocs t' i) <> UNUSED -> state (tprocs t' i) <> USED -> state (tprocs t' i) <> RUNNING ->
  (state (tprocs t' i) = ZOMBIE -> tinit t <> Some i /\ f i = FNone /\ (forall k, parent (tprocs t k) <> Some i) /\
     forall p, parent (tprocs t i) = Some p -> state (tprocs t p) = SLEEPING -> chan (tprocs t p) <> Some (CProc p)) ->
  (state (tprocs t' i) = SLEEPING -> chan (tprocs t' i) = Some (CProc i) ->
     forall k, parent (tprocs t k) = Some i -> state (tprocs t k) <> ZOMBIE) ->
  tnext t' = tnext t -> tinit t' = tinit t -> tcur t' c = None -> (forall k, k <> c -> tcur t' k = tcur t k) ->
  pinv X t' f.
Proof.
  intros [] Hcur Hk Hpid Hpar N1 N2 N3 HZ HS Hn Hi Hc Hcs.
  assert (Hst : state (tprocs t i) = RUNNING) by (apply i_running0; eauto).
  assert (HlZ : forall k, live (tprocs t k) -> live (tprocs t' k) \/ k = i /\ state (tprocs t' i) = ZOMBIE).
  { intros k H. slots Hk i; [|by left]. unfold live. destruct (state (tprocs t' i)); auto. }
  assert (Hl : forall k, live (tprocs t k) -> (k = i -> state (tprocs t' i) = ZOMBIE -> False) -> live (tprocs t' k)).
  { intros k H H'. destruct (HlZ k H) as [?|[-> ?]]; [done|]. exfalso. auto. }
  split; rewrite ?Hn, ?Hi; try done.
  - intros k H. slots Hk i; [|auto]. rewrite i_slots0 in Hst by done. done.
  - intros k H. slots Hk i; [congruence|auto].
  - intros k H. slots Hk i; [|auto]. rewrite Hpid. apply i_pid0. by rewrite Hst.
  - intros k j H1 H2 E. assert (state (tprocs t i) <> UNUSED) by by rewrite Hst.
    slots Hk i; rewrite ?Hpid in *; auto.
  - destruct i_init0 as (r & Er & H). exists r. split; [done|]. apply Hl; [done|]. intros -> HZ'. by destruct (HZ HZ').
  - intros k j H. assert (parent (tprocs t k) = Some j) by (slots Hk i; congruence).
    apply Hl; [eauto|]. intros -> HZ'. destruct (HZ HZ') as (_ & _ & HZ3 & _). by eapply HZ3.
  - intros k H1 H2 H3. slots Hk i; [|auto]. rewrite Hpar. apply i_haspar0; by rewrite ?Hst.
  - intros k H. slots Hk i; [congruence|auto].
  - intros p k H. destruct (i_link0 _ _ H) as (? & ? & ?). split.
    { apply Hl; [done|]. intros -> HZ'. destruct (HZ HZ') as (_ & HZ2 & _). congruence. }
    slots Hk i; [congruence|done].
  - intros p k H. destruct (i_start0 _ _ H) as (? & ? & ?). split.
    { apply Hl; [done|]. intros -> HZ'. destruct (HZ HZ') as (_ & HZ2 & _). congruence. }
    slots Hk i; [congruence|done].
  - intros k. slots Hk i.
    + split; [done|]. intros [c' H']. destruct (decide (c' = c)) as [->|]; [congruence|].
      rewrite Hcs in H' by done. by destruct (n (i_one0 _ _ _ H' Hcur)).
    + rewrite i_running0. split; intros [c' H']; exists c'.
      * rewrite Hcs; [done|]. congruence.
      * destruct (decide (c' = c)) as [->|]; [congruence|]. by rewrite Hcs in H'.
  - intros c1 c2 k H1 H2. destruct (decide (c1 = c)) as [->|], (decide (c2 = c)) as [->|];
      rewrite ?Hcs in * by done; try congruence. eauto.
  - intros p k HX Hs Hch H. assert (Hpk : parent (tprocs t k) = Some p) by (slots Hk i; congruence).
    destruct (decide (p = i)) as [->|Hpi].
    + slots Hk i; [congruence|eauto].
    + rewrite Hk in Hs, Hch by done. slots Hk i; [|eauto]. intros HZ'.
      destruct (HZ HZ') as (_ & _ & _ & HZ4). by eapply HZ4.
Qed.

(** A slot stays free while a pid is used up. *)
Lemma pinv_dead X t t' f k :
  pinv X t f -> state (tprocs t k) = UNUSED -> (forall j, j <> k -> tprocs t' j = tprocs t j) ->
  dead (tprocs t' k) -> tnext t <= tnext t' -> tinit t' = tinit t -> tcur t' = tcur t -> pinv X t' f.
Proof.
  intros [] Hst Hk (D1 & D2 & D3) Hn Hi Hc.
  assert (Hl : forall j, live (tprocs t j) -> live (tprocs t' j)).
  { intros j H. slots Hk k; [|done]. by destruct H. }
  destruct (i_unused0 _ Hst) as [U1 U2].
  split; rewrite ?Hi, ?Hc; try done.
  - lia.
  - intros j H. slots Hk k; auto.
  - intros j H. slots Hk k; auto.
  - intros j H. slots Hk k; [done|]. specialize (i_pid0 j H). lia.
  - intros i j H1 H2 E. slots Hk k; congruence || auto.
  - destruct i_init0 as (r & -> & H). eauto.
  - intros i j H. assert (parent (tprocs t i) = Some j) by (slots Hk k; congruence). eauto.
  - intros i H1 H2 H3. slots Hk k; auto.
  - intros i H. slots Hk k; [congruence|auto].
  - intros p i H. destruct (i_link0 _ _ H) as (? & ? & ?). split; [auto|]. slots Hk k; [congruence|done].
  - intros p i H. destruct (i_start0 _ _ H) as (? & ? & ?). split; [auto|]. slots Hk k; [congruence|done].
  - intros i. rewrite <- i_running0. slots Hk k; [|done]. by rewrite D1, Hst.
  - intros p i HX Hs Hch H. assert (parent (tprocs t i) = Some p) by (slots Hk k; congruence).
    destruct (decide (p = k)) as [->|]; [congruence|]. rewrite Hk in Hs, Hch by done.
    slots Hk k; [congruence|eauto].
Qed.

Lemma set_fk_eq p x f : set_fk p x f p = x.
Proof. unfold set_fk. by rewrite decide_True. Qed.
Lemma set_fk_ne p x f q : q <> p -> set_fk p x f q = f q.
Proof. intros. unfold set_fk. by rewrite decide_False. Qed.

(** Process [p] moves on in its [kfork]; [kid] is the child's row. *)
Lemma pinv_fork X t t' f p k x :
  pinv X t f -> live (tprocs t p) ->
  (forall j, j <> k -> tprocs t' j = tprocs t j) ->
  tinit t' = tinit t -> tcur t' = tcur t -> tnext t <= tnext t' ->
  1 <= pid (tprocs t' k) < tnext t' ->
  (forall j, j <> k -> state (tprocs t j) <> UNUSED -> pid (tprocs t j) <> pid (tprocs t' k)) ->
  (k < nproc)%nat -> state (tprocs t k) = UNUSED \/ state (tprocs t k) = USED ->
  (forall q, f q = FLink k \/ f q = FStart k -> q = p) -> (forall i, f p = FLink i \/ f p = FStart i -> i = k) ->
  (state (tprocs t' k) = USED /\ parent (tprocs t' k) = None /\ x = FLink k \/
   state (tprocs t' k) = USED /\ parent (tprocs t' k) = Some p /\ x = FStart k \/
   state (tprocs t' k) = RUNNABLE /\ parent (tprocs t' k) = Some p /\ x = FNone) ->
  pinv X t' (set_fk p x f).
Proof.
  intros [] Hp Hk Hi Hc Hn Hpid Hnew Hkn Hst Hf Hfp Hx.
  assert (Hl : forall j, live (tprocs t j) -> live (tprocs t' j)).
  { intros j H. slots Hk k; [|done]. destruct H, Hst; intuition congruence. }
  assert (Hpk : p <> k) by (intros ->; destruct Hp, Hst; intuition congruence).
  assert (Hsk : state (tprocs t' k) <> UNUSED /\ state (tprocs t' k) <> RUNNING /\ state (tprocs t' k) <> ZOMBIE /\
                state (tprocs t' k) <> SLEEPING) by (split_and!; intuition congruence).
  destruct Hsk as (K1 & K2 & K3 & K4).
  assert (Hpar : forall i j, parent (tprocs t' i) = Some j -> i <> k -> parent (tprocs t i) = Some j).
  { intros i j H ?. by rewrite Hk in H. }
  split; rewrite ?Hi, ?Hc; try done.
  - lia.
  - intros j H. slots Hk k; [lia|auto].
  - intros j H. slots Hk k; [done|auto].
  - intros j H. slots Hk k; [done|]. specialize (i_pid0 j H). lia.
  - intros i j H1 H2 E. slots Hk k; auto; [by destruct (Hnew j)|by destruct (Hnew i)].
  - destruct i_init0 as (r & -> & H). eauto.
  - intros i j H. destruct (decide (i = k)) as [->|]; [|by apply Hl, (i_parent0 i), Hpar].
    assert (j = p) as -> by intuition congruence. auto.
  - intros i H1 H2 H3. slots Hk k; [|auto]. intuition congruence.
  - intros i H. slots Hk k.
    + exists p. rewrite set_fk_eq. intuition congruence.
    + destruct (i_used0 i H) as (q & Hq). exists q. rewrite set_fk_ne; [done|]. intros ->.
      by specialize (Hfp i Hq).
  - intros q i H. destruct (decide (q = p)) as [->|].
    + rewrite set_fk_eq in H. assert (i = k) as -> by intuition congruence. split; [auto|]. intuition congruence.
    + rewrite set_fk_ne in H by done. destruct (i_link0 _ _ H) as (? & ? & ?). split; [auto|].
      assert (i <> k) by (intros ->; destruct n; apply Hf; auto). by rewrite Hk.
  - intros q i H. destruct (decide (q = p)) as [->|].
    + rewrite set_fk_eq in H. assert (i = k) as -> by intuition congruence. split; [auto|]. intuition congruence.
    + rewrite set_fk_ne in H by done. destruct (i_start0 _ _ H) as (? & ? & ?). split; [auto|].
      assert (i <> k) by (intros ->; destruct n; apply Hf; auto). by rewrite Hk.
  - intros q r i H1 H2.
    assert (Hq : forall z, set_fk p x f z = FLink i \/ set_fk p x f z = FStart i -> z <> p -> f z = FLink i \/ f z = FStart i).
    { intros z Hz ?. by rewrite set_fk_ne in Hz. }
    assert (Hi' : set_fk p x f p = FLink i \/ set_fk p x f p = FStart i -> i = k).
    { rewrite set_fk_eq. intuition congruence. }
    destruct (decide (q = p)) as [->|], (decide (r = p)) as [->|]; [done| | |eauto].
    + rewrite (Hi' H1) in *. symmetry. eauto.
    + rewrite (Hi' H2) in *. eauto.
  - intros i. rewrite <- i_running0. slots Hk k; [|done]. intuition congruence.
  - intros q i HX Hs Hch H. destruct (decide (q = k)) as [->|]; [congruence|].
    rewrite Hk in Hs, Hch by done. slots Hk k; [done|eauto].
Qed.

(** A collected child. *)
Lemma pinv_reap X t t' f p k :
  pinv X t f -> parent (tprocs t k) = Some p -> state (tprocs t k) = ZOMBIE ->
  slot_only k t t' -> dead (tprocs t' k) -> pinv X t' f.
Proof.
  intros [] Hpar Hst [Hk Hn Hi Hc] (D1 & D2 & D3).
  assert (Hl : forall j, live (tprocs t j) -> live (tprocs t' j)).
  { intros j H. slots Hk k; [|done]. by destruct H as (_ & _ & []). }
  split; rewrite ?Hn, ?Hi, ?Hc; try done.
  - intros j H. slots Hk k; auto.
  - intros j H. slots Hk k; auto.
  - intros j H. slots Hk k; [done|auto].
  - intros i j H1 H2 E. slots Hk k; congruence || auto.
  - destruct i_init0 as (r & -> & H). eauto.
  - intros i j H. assert (parent (tprocs t i) = Some j) by (slots Hk k; congruence). eauto.
  - intros i H1 H2 H3. slots Hk k; auto.
  - intros i H. slots Hk k; [congruence|auto].
  - intros q i H. destruct (i_link0 _ _ H) as (? & ? & ?). split; [auto|]. slots Hk k; [congruence|done].
  - intros q i H. destruct (i_start0 _ _ H) as (? & ? & ?). split; [auto|]. slots Hk k; [congruence|done].
  - intros i. rewrite <- i_running0. slots Hk k; [|done]. by rewrite D1, Hst.
  - intros q i HX Hs Hch H. assert (parent (tprocs t i) = Some q) by (slots Hk k; congruence).
    destruct (decide (q = k)) as [->|]; [congruence|]. rewrite Hk in Hs, Hch by done.
    slots Hk k; [congruence|eauto].
Qed.

(** A child given to init, which may now have to be woken. *)
Lemma pinv_adopt t f p r k :
  pinv nobody t f -> tinit t = Some r -> f p = FNone -> parent (tprocs t k) = Some p ->
  pinv (eq r) (Tab (at_proc (tprocs t) k (set_parent (Some r))) (tnext t) (tinit t) (tcur t)) f.
Proof.
  intros [] Hr Hf Hpar. set (h := at_proc _ _ _).
  assert (Hrow : forall j, state (h j) = state (tprocs t j) /\ pid (h j) = pid (tprocs t j) /\
    chan (h j) = chan (tprocs t j) /\ parent (h j) = if decide (j = k) then Some r else parent (tprocs t j)).
  { intros j. unfold h, at_proc. destruct (decide (j = k)) as [->|]; [by destruct (tprocs t k)|done]. }
  assert (Hs : forall j, state (h j) = state (tprocs t j)) by apply Hrow.
  assert (Hp : forall j, pid (h j) = pid (tprocs t j)) by apply Hrow.
  assert (Hch : forall j, chan (h j) = chan (tprocs t j)) by apply Hrow.
  assert (Hpa : forall j, parent (h j) = if decide (j = k) then Some r else parent (tprocs t j)) by apply Hrow.
  assert (Hl : forall j, live (h j) <-> live (tprocs t j)) by (intros j; unfold live; by rewrite Hs).
  assert (Hlr : live (tprocs t r)) by (destruct i_init0 as (r' & E & H); naive_solver).
  clearbody h. split; cbn [tprocs tnext tinit tcur]; try done; intros *; rewrite ?Hs, ?Hp, ?Hch, ?Hpa, ?Hl; auto.
  - intros H. destruct (i_unused0 _ H) as [E1 E2]. rewrite decide_False by congruence. done.
  - exists r. by rewrite Hl.
  - destruct (decide _); [by intros [= <-]|eauto].
  - destruct (decide _); [done|auto].
  - intros H. destruct (i_link0 _ _ H) as (? & ? & ?). rewrite decide_False by congruence. done.
  - intros H. destruct (i_start0 _ _ H) as (? & ? & ?). rewrite decide_False; [done|]. intros ->. congruence.
  - intros HX Hst Hc. destruct (decide _) as [->|]; [intros [= <-]; done|]. eapply i_wait0; eauto.
Qed.

(** Once woken, it has no wakeup to miss. *)
Lemma pinv_awake r t t' f :
  pinv (eq r) t f -> woken t t' -> (state (tprocs t' r) = SLEEPING -> chan (tprocs t' r) <> Some (CProc r)) ->
  pinv nobody t' f.
Proof.
  intros Hinv Hw Hr. destruct (pinv_woken _ _ _ _ Hinv Hw). split; try done.
  intros p i _ Hs Hch. destruct (decide (r = p)) as [->|]; [by destruct Hr|eauto].
Qed.
End Preserve.

Section Inv.
Context `{KI : KernelImage} {F : Type} `{FO : FileOps F} `{FOL : !FileOpsLaws F}.
Implicit Types (t : ptab) (f : nat -> fphase) (c i p : nat).

Lemma reparent_loop_inv c p r f n pp t :
  pinv nobody t f -> tcur t c = Some p -> f p = FNone -> tinit t = Some r -> r <> p ->
  (forall k, (k < pp)%nat -> parent (tprocs t k) <> Some p) ->
  twp (F := F) (reparent_loop c p n pp) (fun _ t' => pinv nobody t' f /\ tcur t' = tcur t /\ tinit t' = tinit t /\
    tnext t' = tnext t /\ forall k, (k < pp + n)%nat -> parent (tprocs t' k) <> Some p) t.
Proof.
  intros Hinv Hc Hf Hr Hne. revert pp t Hinv Hc Hr. induction n as [|n IH]; intros pp t Hinv Hc Hr Hlow; cbn [reparent_loop].
  { apply twp_ret. split_and!; try done. intros k Hk. apply Hlow. lia. }
  tsteps. destruct (decide _) as [E|E].
  - tsteps. rewrite Hr. cbn [fmap option_fmap option_map].
    set (u := Tab _ _ _ _). assert (Hu : pinv (eq r) u f) by (pose proof (pinv_adopt t f p r pp Hinv Hr Hf E) as H; rewrite Hr in H; exact H).
    assert (Hup : forall k, (k < S pp)%nat -> parent (tprocs u k) <> Some p).
    { intros k Hk. unfold u. cbn. unfold at_proc. destruct (decide (k = pp)) as [->|]; [|apply Hlow; lia].
      destruct (tprocs t pp); cbn. congruence. }
    assert (Hcu : tcur u c = Some p) by done. assert (Hiu : tinit u = Some r) by done.
    assert (tcur u = tcur t /\ tinit u = tinit t /\ tnext u = tnext t) as (E1 & E2 & E3) by (rewrite Hr; done).
    clearbody u. eapply twp_mono; [apply wakeup_t|]. intros [] v (Hw & Hk & _).
    assert (Hv : pinv nobody v f).
    { apply (pinv_awake r u); [done..|]. apply Hk; [|congruence].
      destruct (i_init _ _ _ Hu) as (r' & ? & [Hl _]). destruct (decide (r < nproc)%nat); [done|].
      destruct Hl. assert (r' = r) as -> by congruence. apply (i_slots _ _ _ Hu). lia. }
    destruct Hw as [W1 W2 W3 W4].
    eapply twp_mono; [apply (IH (S pp) v)|]; [done|congruence|congruence| |].
    + intros k Hlt. destruct (W1 k) as (_ & -> & _). by apply Hup.
    + intros [] w (? & ? & ? & ? & Hlt). split_and!; try congruence. intros k ?. apply Hlt. lia.
  - tsteps. eapply twp_mono; [apply (IH (S pp) t)|]; [done..| |].
    + intros k Hk. destruct (decide (k = pp)) as [->|]; [done|apply Hlow; lia].
    + intros [] w (? & ? & ? & ? & Hlt). split_and!; try congruence. intros k ?. apply Hlt. lia.
Qed.

Lemma kexit_inv c status p f t :
  pinv nobody t f -> tcur t c = Some p -> f p = FNone ->
  twp (F := F) (kexit c status) (fun _ t' => pinv nobody t' f /\ tnext t' = tnext t) t.
Proof.
  intros Hinv Hc Hf. unfold kexit. tsteps. simplify_eq. destruct (decide _) as [E|E]; [apply twp_panic|].
  tstep. eapply twp_mono; [apply close_files_t|]. intros [] ta Ha. tsteps.
  eapply twp_mono; [apply fo_begin_op_t|]. intros [] tb Hb. tstep.
  destruct (cwd _); [|apply twp_panic]. eapply twp_mono; [apply fo_iput_t|]. intros [] tc Htc. tstep.
  eapply twp_mono; [apply fo_end_op_t|]. intros [] td Hd. tsteps.
  set (t2 := Tab _ _ _ _).
  assert (H2 : woken t t2).
  { etrans; [exact Ha|]. etrans; [exact Hb|]. etrans; [exact Htc|]. etrans; [exact Hd|]. apply woken_at. row_same. }
  assert (Hinv2 : pinv nobody t2 f) by (eapply pinv_woken; eauto).
  destruct H2 as [_ B2 C2 D2]. clearbody t2. clear Hinv Ha Hb Htc Hd.
  destruct (i_init _ _ _ Hinv2) as (r & Hr & _).
  assert (Hrp : r <> p) by congruence.
  eapply twp_mono; [apply (reparent_loop_inv c p r f nproc 0 t2)|]; [done|congruence|done..|lia|].
  intros [] t3 (Hinv3 & Hc3 & Hi3 & Hn3 & Hkids). tsteps.
  eapply twp_mono; [apply wakeup_t|]. intros [] t4 (Hw & Hawake & Hme). tsteps.
  assert (Hinv4 : pinv nobody t4 f) by (by eapply pinv_woken).
  assert (Hc4 : tcur t4 c = Some p) by (rewrite (wk_cur _ _ Hw); congruence).
  assert (Hpar4 : forall k, parent (tprocs t4 k) = parent (tprocs t3 k)) by (intros k; apply (wk_rows _ _ Hw k)).
  assert (Hnokids : forall k, parent (tprocs t4 k) <> Some p).
  { intros k. rewrite Hpar4. destruct (decide (k < nproc)%nat); [by apply Hkids|].
    destruct (i_unused _ _ _ Hinv3 k) as [_ ->]; [|done]. apply (i_slots _ _ _ Hinv3). lia. }
  eapply twp_mono; [apply sched_t|]. cbn [tcur]. intros [] t5 (i & Hi & [L1 (L2 & L3 & L4 & L5 & _) L6 L7 L8 L9]).
  assert (i = p) as -> by congruence. cbn [tprocs tnext tinit tcur] in *. rewrite at_proc_eq in *.
  split; [|rewrite L6, (wk_next _ _ Hw); congruence].
  assert (Hst5 : state (tprocs t5 p) = ZOMBIE) by (rewrite L2; by destruct (tprocs t4 p)).
  eapply (pinv_left nobody t4 t5 f c p); rewrite ?Hst5; try done.
  - intros k Hk. rewrite L1 by done. by apply at_proc_ne.
  - rewrite L3. by destruct (tprocs t4 p).
  - rewrite L4. by destruct (tprocs t4 p).
  - intros _. split_and!; try done.
    + rewrite (wk_init _ _ Hw). congruence.
    + intros q Hq. rewrite Hpar4 in Hq. rewrite Hq in Hawake. cbn in Hawake. apply Hawake.
      * pose proof (i_parent _ _ _ Hinv3 _ _ Hq) as [Hl _]. destruct (decide (q < nproc)%nat); [done|].
        destruct Hl. apply (i_slots _ _ _ Hinv3). lia.
      * rewrite Hc3, D2, Hc. intros [= ->]. apply (Hnokids p). congruence.
Qed.

Definition good (t : ptab) (f : nat -> fphase) (t' : ptab) (f' : nat -> fphase) : Prop :=
  pinv nobody t' f' /\ tnext t' <= tnext t + 1.
Lemma good_woken t f t' : pinv nobody t f -> woken t t' -> good t f t' f.
Proof. intros H Hw. split; [by eapply pinv_woken|]. rewrite (wk_next _ _ Hw). lia. Qed.
Lemma good_priv i t f t' : pinv nobody t f -> priv i t t' -> good t f t' f.
Proof. intros H Hp. eapply good_woken, priv_woken; eauto. Qed.

Lemma cur_live t f c p : pinv nobody t f -> tcur t c = Some p -> live (tprocs t p).
Proof.
  intros H Hc. assert (state (tprocs t p) = RUNNING) as E by (apply (i_running _ _ _ H); eauto).
  unfold live. by rewrite E.
Qed.

Lemma alloc_inv c p t f r t' :
  pinv nobody t f -> tcur t c = Some p -> f p = FNone -> tnext t < 2 ^ 31 - 1 -> alloc_post t r t' ->
  good t f t' (match r with Some np => set_fk p (FLink np) f | None => f end).
Proof.
  intros Hinv Hc Hf Hlt [[-> ->]|(k & Hk & Hs & _ & Ho & Hn & Hi & Hcur & Hr)]; [split; [done|lia]|].
  pose proof (i_next _ _ _ Hinv). rewrite i32_id in Hn by (unfold is_i32; lia).
  split; [|lia]. destruct Hr as [[-> Hd]|(-> & Hst & Hpid & Hpar & _)].
  - eapply (pinv_dead _ t t' f k); try done. lia.
  - destruct (i_unused _ _ _ Hinv _ Hs) as [_ Hp0].
    eapply (pinv_fork _ t t' f p k (FLink k)); try done; try lia; [by eapply cur_live| | | | |].
    + intros j Hj Hju. rewrite Hpid. pose proof (i_pid _ _ _ Hinv j Hju). lia.
    + by left.
    + intros q [Hq|Hq]; [destruct (i_link _ _ _ Hinv _ _ Hq) as (_ & ? & _)|destruct (i_start _ _ _ Hinv _ _ Hq) as (_ & ? & _)];
        congruence.
    + intros i [Hq|Hq]; congruence.
    + left. split_and!; congruence.
Qed.

(** The child of a [kfork] in progress. *)
Lemma fork_row_inv t f p k x g :
  pinv nobody t f -> (f p = FLink k /\ x = FStart k /\ g = set_parent (Some p) \/ f p = FStart k /\ x = FNone /\ g = set_state RUNNABLE) ->
  good t f (Tab (at_proc (tprocs t) k g) (tnext t) (tinit t) (tcur t)) (set_fk p x f).
Proof.
  intros Hinv Hg. split; [|cbn; lia].
  assert (Hk : live (tprocs t p) /\ state (tprocs t k) = USED).
  { destruct Hg as [(Hp & _)|(Hp & _)];
      [destruct (i_link _ _ _ Hinv _ _ Hp) as (? & ? & _)|destruct (i_start _ _ _ Hinv _ _ Hp) as (? & ? & _)]; done. }
  destruct Hk as [Hlive Hused].
  assert (Hnu : state (tprocs t k) <> UNUSED) by by rewrite Hused.
  assert (Hf : f p = FLink k \/ f p = FStart k) by intuition auto.
  assert (Hpid : pid (g (tprocs t k)) = pid (tprocs t k))
    by (destruct Hg as [(_ & _ & ->)|(_ & _ & ->)]; by destruct (tprocs t k)).
  eapply (pinv_fork _ t _ f p k x); cbn [tprocs tnext tinit tcur]; rewrite ?at_proc_eq; try done; try lia.
  - intros j Hj. by apply at_proc_ne.
  - rewrite Hpid. by apply (i_pid _ _ _ Hinv).
  - intros j Hj Hju E. rewrite Hpid in E. by destruct (Hj (i_uniq _ _ _ Hinv _ _ Hju Hnu E)).
  - destruct (decide (k < nproc)%nat); [done|]. destruct Hnu. apply (i_slots _ _ _ Hinv). lia.
  - by right.
  - intros q Hq. by eapply (i_forks _ _ _ Hinv).
  - intros i Hi. destruct Hf, Hi; congruence.
  - destruct Hg as [(Hp & -> & ->)|(Hp & -> & ->)].
    + right. left. by destruct (tprocs t k).
    + right. right. destruct (i_start _ _ _ Hinv _ _ Hp) as (_ & _ & Hpar). by destruct (tprocs t k).
Qed.

(** Leaving the processor by [yield] or [sleep]. *)
Lemma left_inv c p t f t' st ch :
  pinv nobody t f -> tcur t c = Some p ->
  left_cpu c p (Tab (at_proc (tprocs t) p (fun q => set_state st (set_chan ch q))) (tnext t) (tinit t) (tcur t)) t' ->
  st = RUNNABLE \/ st = SLEEPING ->
  (st = SLEEPING -> ch = Some (CProc p) -> forall k, parent (tprocs t k) = Some p -> state (tprocs t k) <> ZOMBIE) ->
  good t f t' f.
Proof.
  intros Hinv Hc [L1 (L2 & L3 & L4 & L5 & _) L6 L7 L8 L9] Hst Hch.
  cbn [tprocs tnext tinit tcur] in *. rewrite at_proc_eq in *. split; [|lia].
  assert (Hst' : state (tprocs t' p) = st) by (rewrite L2; by destruct (tprocs t p)).
  eapply (pinv_left nobody t t' f c p); rewrite ?Hst'; try done.
  - intros k Hk. rewrite L1 by done. by apply at_proc_ne.
  - rewrite L3. by destruct (tprocs t p).
  - rewrite L4. by destruct (tprocs t p).
  - by destruct Hst as [-> | ->].
  - by destruct Hst as [-> | ->].
  - by destruct Hst as [-> | ->].
  - intros ->. by destruct Hst.
  - intros Hsl Hch'. apply Hch; [done|]. rewrite L5 in Hch'. by destruct (tprocs t p).
Qed.

Lemma slept_inv c ch t f t' :
  pinv nobody t f -> slept c ch t t' ->
  (forall p, tcur t c = Some p -> ch = Some (CProc p) -> forall k, parent (tprocs t k) = Some p -> state (tprocs t k) <> ZOMBIE) ->
  good t f t' f.
Proof. intros Hinv (i & Hi & HL) Hch. eapply left_inv; eauto. Qed.

Lemma yield_inv c t f : pinv nobody t f -> twp (F := F) (yield c) (fun _ t' => good t f t' f) t.
Proof.
  intros Hinv. unfold yield. tsteps. eapply twp_mono; [apply sched_t|]. cbn [tcur].
  intros [] t' (j & Hj & HL). assert (j = i) as -> by congruence.
  eapply (left_inv c i t f t' RUNNABLE (chan (tprocs t i))); [done..| |by left|done].
  - destruct HL as [L1 L2 L3 L4 L5 L6]. split; cbn [tprocs tnext tinit tcur] in *; try done.
    + intros k Hk. rewrite L1 by done. by rewrite !at_proc_ne.
    + rewrite at_proc_eq in *. destruct L2 as (? & ? & ? & ? & ?). unfold same_row. by destruct (tprocs t i).
Qed.

Lemma pstep_inv (x y : psys F) :
  pstep x y -> pinv nobody (tab (ks x)) (fk x) -> nextpid (ks x) < 2 ^ 31 - 1 -> good (tab (ks x)) (fk x) (tab (ks y)) (fk y).
Proof.
  intros Hstep Hinv Hlt. destruct Hstep as
    [c i s f r s' Hc Hi E|c s f s' E|c p s f r s' [Hc Hf] E|c p np s f s' Hc Hf E|c p np s f s' Hc Hf E
    |c p st s f s' [Hc Hf] E|c p a s f r s' [Hc Hf] E|c p a lk s f s' [Hc Hf] E|c ch s f s' E|c pd s f r s' E
    |c i s f s' E|c n s f r s' E]; cbn [ks fk] in *.
  - pose proof (scheduler_try_t c i (tab s) s r s' eq_refl E) as H. cbn beta in H. destruct r.
    + split; [by eapply pinv_taken|]. destruct H as (_ & _ & _ & _ & _ & -> & _). lia.
    + rewrite H. split; [done|lia].
  - exact (yield_inv c (tab s) f Hinv s tt s' eq_refl E).
  - destruct (kfork_copy_t c p (tab s) s r s' eq_refl E) as [H _]. cbn beta in H.
    pose proof (alloc_inv c p (tab s) f _ _ Hinv Hc Hf Hlt H). by destruct r as [[np pd]|].
  - assert (H : twp (F := F) (kfork_link c p np) (fun _ t' => good (tab s) f t' (set_fk p (FStart np) f)) (tab s)).
    { unfold kfork_link. tsteps. apply (fork_row_inv (tab s)); [done|]. left. done. }
    exact (H s tt s' eq_refl E).
  - assert (H : twp (F := F) (kfork_start c np) (fun _ t' => good (tab s) f t' (set_fk p FNone f)) (tab s)).
    { unfold kfork_start. tsteps. apply (fork_row_inv (tab s)); [done|]. right. done. }
    exact (H s tt s' eq_refl E).
  - destruct (kexit_inv c st p f (tab s) Hinv Hc Hf s tt s' eq_refl E) as [H1 H2]. split; [done|lia].
  - destruct (kwait_t c a (tab s) s r s' eq_refl E) as (q & Hq & H). assert (q = p) as -> by (cbn in Hq; congruence).
    destruct r as [v|].
    + destruct H as [->|(k & H1 & H2 & H3 & H4)]; [split; [done|lia]|].
      split; [by eapply pinv_reap|]. rewrite (so_next _ _ _ H3). lia.
    + destruct H as [H1 H2]. eapply slept_inv; [done..|]. intros q Hq' [= <-] k Hk.
      destruct (decide (k < nproc)%nat) as [?|Hge]; [by apply H2|].
      rewrite (i_slots _ _ _ Hinv) by lia. done.
  - assert (H : twp (F := F) (acquire c lk ;; sleep c (Some (CAddr a)) lk) (fun _ t' => slept c (Some (CAddr a)) (tab s) t') (tab s)).
    { tsteps. apply sleep_t. }
    eapply slept_inv; [done|exact (H s tt s' eq_refl E)|]. done.
  - destruct (wakeup_t c ch (tab s) s tt s' eq_refl E) as (H & _). by apply good_woken.
  - pose proof (kkill_loop_t c pd nproc 0 (tab s) s r s' eq_refl E) as H. by apply good_woken.
  - assert (H : twp (F := F) (setkilled c i) (fun _ t' => woken (tab s) t') (tab s)).
    { unfold setkilled. tsteps. apply (woken_at (tab s)). unfold row_le. cbn. destruct (procs s i); cbn. tauto. }
    apply good_woken; [done|]. exact (H s tt s' eq_refl E).
  - destruct (growproc_t c n (tab s) s r s' eq_refl E) as (i & _ & H). by eapply good_priv.
Qed.

(** ** Booting *)

(** The table as the loader clears it; no processor runs a process. *)
Definition bss_proc : proc :=
  Proc UNUSED None 0 0 0 0 0 0 (Vregion 0 0) None 0 0 0 0 Zeroed (fun _ => None) None (replicate 16 0).
Definition at_boot (s : kst F) : Prop :=
  (forall i, procs s i = bss_proc) /\ nextpid s = 1 /\ forall c, cproc s c = None.
Definition first_process (c : nat) : M (kst F) unit := procinit ;; userinit c.

Definition blank (t : ptab) : Prop :=
  (forall i, dead (tprocs t i)) /\ tnext t = 1 /\ forall c, tcur t c = None.
Lemma procinit_loop_t n i t : blank t -> twp (F := F) (procinit_loop n i) (fun _ t' => blank t') t.
Proof.
  revert i t. induction n as [|n IH]; intros i t Ht; cbn [procinit_loop]; [by apply twp_ret|].
  tsteps. apply IH. destruct Ht as (H1 & H2 & H3). split; [|done]. cbn. intros k. unfold at_proc.
  destruct (decide (k = i)) as [->|]; [|apply H1]. destruct (H1 i) as (? & ? & ?). unfold dead. by destruct (tprocs t i).
Qed.

Lemma boot_inv c t :
  blank t -> twp (F := F) (first_process c) (fun _ t' => pinv nobody t' (fun _ => FNone) /\ tnext t' = 2) t.
Proof.
  intros Ht. unfold first_process, procinit. tsteps. eapply twp_mono; [by apply procinit_loop_t|]. clear t Ht.
  intros [] t (Hd & Hn & Hc). unfold userinit. tsteps. eapply twp_mono; [apply allocproc_t|].
  intros r t1 Hr. tsteps. destruct r as [i|]; [|apply twp_panic].
  destruct Hr as [[_ [=]]|(k & Hk & _ & _ & Ho & Hn1 & _ & Hc1 & [[[=] _]|([= <-] & Hst & Hpid & Hpar & _)])].
  tstep. apply fo_namei_t. intros ip. tsteps. rewrite Hn in *. change (i32 (1 + 1)) with 2 in Hn1.
  set (u := Tab _ _ _ _).
  assert (Hu : forall j, j <> i -> dead (tprocs u j)).
  { intros j Hj. cbn. rewrite !at_proc_ne, Ho by done. apply Hd. }
  assert (Hui : state (tprocs u i) = RUNNABLE /\ pid (tprocs u i) = 1 /\ parent (tprocs u i) = None).
  { destruct (Hd i) as (_ & _ & Hp0). cbn. rewrite !at_proc_eq. destruct (tprocs t1 i); cbn in *. split_and!; congruence. }
  destruct Hui as (U1 & U2 & U3).
  assert (Hall : forall j, j = i \/ dead (tprocs u j)) by (intros j; destruct (decide (j = i)); auto).
  assert (tnext u = 2 /\ tinit u = Some i /\ forall d, tcur u d = None) as (E1 & E2 & E3).
  { cbn. split; [done|]. split; [done|]. intros d. by rewrite Hc1. }
  clearbody u. split; [|done].
  assert (Hpar0 : forall j, parent (tprocs u j) = None) by (intros j; destruct (Hall j) as [->|(_ & _ & ?)]; done).
  assert (Hnu : forall j, state (tprocs u j) <> UNUSED -> j = i) by (intros j ?; destruct (Hall j) as [->|[? _]]; done).
  split; try done; rewrite ?E1, ?E2.
  - lia.
  - intros j Hj. destruct (Hall j) as [->|[? _]]; [lia|done].
  - intros j Hj. destruct (Hall j) as [->|(_ & ? & ?)]; [congruence|done].
  - intros j Hj. rewrite (Hnu j Hj), U2. lia.
  - intros j j' Hj Hj'. by rewrite (Hnu j Hj), (Hnu j' Hj').
  - exists i. split; [done|]. unfold live. by rewrite U1.
  - intros j p. by rewrite Hpar0.
  - intros j Hj _ Hne. by rewrite (Hnu j Hj) in Hne.
  - intros j Hj. assert (j = i) as -> by (apply Hnu; congruence). congruence.
  - by intros ? ? ? [[=]|[=]].
  - intros j. split; [|intros [d Hd']; by rewrite E3 in Hd'].
    intros Hj. assert (j = i) as -> by (apply Hnu; congruence). congruence.
  - intros d d' j Hd1. by rewrite E3 in Hd1.
  - intros p j _ _ _. by rewrite Hpar0.
Qed.

Lemma reach_inv c s0 s1 n (x : psys F) :
  at_boot s0 -> first_process c s0 = Ok (tt, s1) -> nsteps pstep n (Psys s1 (fun _ => FNone)) x ->
  Z.of_nat n < 2 ^ 31 - 2 -> pinv nobody (tab (ks x)) (fk x).
Proof.
  intros (B1 & B2 & B3) Hb Hsteps Hn.
  assert (Hbl : blank (tab s0)).
  { split; [|done]. intros i. cbn. rewrite B1. done. }
  destruct (boot_inv c (tab s0) Hbl s0 tt s1 eq_refl Hb) as [Hinv H2].
  assert (Hgen : forall m (y z : psys F), nsteps pstep m y z -> pinv nobody (tab (ks y)) (fk y) ->
    nextpid (ks y) + Z.of_nat m < 2 ^ 31 -> pinv nobody (tab (ks z)) (fk z)).
  { intros m y z Hyz. induction Hyz as [y|m y w z H1 H3 IH]; intros Hy Hm; [done|].
    destruct (pstep_inv _ _ H1 Hy) as [Hw Hw2]; [lia|]. apply IH; [done|]. cbn in Hw2. lia. }
  eapply Hgen; [done..|]. cbn in *. lia.
Qed.
End Inv.

(** ** Properties *)

Section Props.
Context `{KI : KernelImage} {F : Type} `{FO : FileOps F} `{FOL : !FileOpsLaws F}.

(** C2: The process table, in every state reachable from boot by fewer than
    2^31 - 2 critical sections of any processors in any order: the processes
    that exist have distinct positive pids; every process that has exited has a
    parent, and that parent is alive to collect it; the parent link of a process
    never names a free or exited slot; and a process is [RUNNING] exactly when
    one processor, and only one, executes it. *)
Theorem process_table_invariant c s0 s1 n (x : psys F) :
  at_boot s0 -> first_process c s0 = Ok (tt, s1) -> nsteps pstep n (Psys s1 (fun _ => FNone)) x ->
  Z.of_nat n < 2 ^ 31 - 2 ->
  let P i := procs (ks x) i in
  (forall i, state (P i) <> UNUSED -> 1 <= pid (P i)) /\
  (forall i j, state (P i) <> UNUSED -> state (P j) <> UNUSED -> pid (P i) = pid (P j) -> i = j) /\
  (forall i, state (P i) = ZOMBIE -> exists p, parent (P i) = Some p /\ live (P p)) /\
  (forall i p, parent (P i) = Some p -> live (P p)) /\
  (forall i, state (P i) = RUNNING <-> exists d, cproc (ks x) d = Some i /\ forall d', cproc (ks x) d' = Some i -> d' = d).
Proof.
  intros H1 H2 H3 H4. cbv zeta. destruct (reach_inv c s0 s1 n x H1 H2 H3 H4). cbn in *. split_and!.
  - intros i Hi. by apply i_pid0.
  - done.
  - intros i Hi. destruct (parent (procs (ks x) i)) as [p|] eqn:E; [by eauto|].
    destruct (i_haspar0 i); [congruence|congruence| |done].
    destruct i_init0 as (r & -> & _ & _ & Hr). intros [= ->]. done.
  - eauto.
  - intros i. rewrite i_running0. split; [intros [d Hd]; exists d|intros (d & Hd & _)]; eauto.
Qed.

(** C8: No exit is missed by a waiting parent: in every reachable state, a
    process that sleeps in [kwait] has no child that has exited, whatever the
    order of the exits and waits; and a call of [kwait] in a state where a child
    of the caller has exited does not go to sleep. *)
Theorem wait_never_misses_exit c s0 s1 n (x : psys F) :
  at_boot s0 -> first_process c s0 = Ok (tt, s1) -> nsteps pstep n (Psys s1 (fun _ => FNone)) x ->
  Z.of_nat n < 2 ^ 31 - 2 ->
  (forall p i, state (procs (ks x) p) = SLEEPING -> chan (procs (ks x) p) = Some (CProc p) ->
     parent (procs (ks x) i) = Some p -> state (procs (ks x) i) <> ZOMBIE) /\
  (forall d p i addr r s', cproc (ks x) d = Some p -> parent (procs (ks x) i) = Some p ->
     state (procs (ks x) i) = ZOMBIE -> kwait d addr (ks x) = Ok (r, s') -> r <> None).
Proof.
  intros H1 H2 H3 H4. pose proof (reach_inv c s0 s1 n x H1 H2 H3 H4) as Hinv. split.
  - intros p i. apply (i_wait _ _ _ Hinv). tauto.
  - intros d p i addr r s' Hd Hp Hz E ->.
    destruct (kwait_t d addr (tab (ks x)) (ks x) None s' eq_refl E) as (q & Hq & _ & Hno).
    cbn in *. assert (q = p) as -> by congruence. apply (Hno i); [|done..].
    destruct (decide (i < nproc)%nat); [done|]. pose proof (i_slots _ _ _ Hinv i ltac:(lia)) as Hs. cbn in Hs. congruence.
Qed.

(** What [kkill] of pid 0 does where free slots, and only they, have pid 0. *)
Lemma kkill_zero_t c n i t :
  (forall j, pid (tprocs t j) = 0 <-> state (tprocs t j) = UNUSED) ->
  twp (F := F) (kkill_loop c 0 n i) (fun r t' =>
    r = -1 /\ t' = t /\ (forall j, (i <= j < i + n)%nat -> state (tprocs t j) <> UNUSED) \/
    r = 0 /\ exists k, (i <= k < i + n)%nat /\ (forall j, (i <= j < k)%nat -> state (tprocs t j) <> UNUSED) /\
      state (tprocs t k) = UNUSED /\ (forall j, j <> k -> tprocs t' j = tprocs t j) /\
      tprocs t' k = set_pkilled 1 (tprocs t k)) t.
Proof.
  intros Ht. revert i. induction n as [|n IH]; intros i; cbn [kkill_loop].
  { apply twp_ret. left. split_and!; [done..|lia]. }
  tsteps. destruct (Z.eqb_spec (pid (tprocs t i)) 0) as [E|E].
  - apply Ht in E. tsteps. rewrite decide_False by congruence. tsteps. right. split; [done|]. exists i.
    split_and!; [lia..|done| |cbn; by rewrite at_proc_eq]. intros j Hj. cbn. by apply at_proc_ne.
  - tsteps. eapply twp_mono; [apply IH|].
    assert (Hi : state (tprocs t i) <> UNUSED) by by rewrite <- Ht.
    intros r t' [(-> & -> & H)|(-> & k & H1 & H2 & H3 & H4 & H5)]; [left|right].
    + split_and!; [done..|]. intros j Hj. destruct (decide (j = i)) as [->|]; [done|apply H; lia].
    + split; [done|]. exists k. split_and!; try done; try lia. intros j Hj.
      destruct (decide (j = i)) as [->|]; [done|apply H2; lia].
Qed.

Lemma free_slots (x : psys F) :
  pinv nobody (tab (ks x)) (fk x) -> forall j, pid (procs (ks x) j) = 0 <-> state (procs (ks x) j) = UNUSED.
Proof.
  intros Hinv j. split; intros H; [|by apply (i_unused _ _ _ Hinv j)].
  destruct (decide (state (procs (ks x) j) = UNUSED)) as [E|E]; [done|].
  pose proof (i_pid _ _ _ Hinv j E) as Hp. cbn in Hp. lia.
Qed.

(** C39: [kill(0)] succeeds whenever a process can still be created, and kills
    it: pid 0 is the pid of the free slots, [kkill] marks the first of them, and
    [allocproc], which takes that slot next, does not clear the mark. *)
Theorem kill_zero_dooms_next_process c (s : kst F) r s1 i s2 :
  (forall j, pid (procs s j) = 0 <-> state (procs s j) = UNUSED) ->
  kkill c 0 s = Ok (r, s1) -> allocproc c s1 = Ok (Some i, s2) ->
  r = 0 /\ state (procs s i) = UNUSED /\ pid (procs s2 i) = nextpid s1 /\ pkilled (procs s2 i) = 1.
Proof.
  intros Hz E1 E2.
  pose proof (kkill_zero_t c nproc 0 (tab s) Hz s r s1 eq_refl E1) as H1.
  destruct (allocproc_t c (tab s1) s1 _ s2 eq_refl E2) as
    [[_ [=]]|(k & Hk & Hs & Hmin & Ho & Hn & _ & _ & [[[=] _]|([= <-] & Hst & Hpid & _ & Hkil)])]. cbn in *.
  destruct H1 as [(-> & H & Hno)|(-> & k & Hk' & Hmin' & Hun & Ho' & Hkk)].
  - injection H as H _ _ _. rewrite H in Hs. destruct (Hno i); [lia|done].
  - assert (k = i) as ->.
    { destruct (lt_eq_lt_dec k i) as [[Hlt| ->]|Hgt]; [|done|].
      - destruct (Hmin k Hlt). rewrite Hkk. by destruct (procs s k).
      - rewrite Ho' in Hs by lia. destruct (Hmin' i); [lia|done]. }
    split_and!; [done..|]. rewrite Hkil, Hkk. by destruct (procs s i).
Qed.

(** Taking and giving back a lock, and reading the current process, when no
    check fails. *)
Lemma kacquire_wp c lk Q (s : kst F) :
  Cpu.cpu_ok (harts s c) -> locks s lk = None ->
  Q tt (set_locks lk (Some c) (set_hart c (Cpu.Mk (Cpu.noff (harts s c) + 1) (Cpu.outer (harts s c)) false) s)) ->
  wp (acquire c lk) Q s.
Proof.
  intros Hc Hl HQ. unfold acquire. wp_step. unfold on_cpu. wp_step.
  unfold wp at 1. rewrite Cpu.push_off_ok by done. wp_step. wp_step. cbn [set_hart locks]. rewrite Hl. by wp_step.
Qed.
Lemma krelease_wp c lk Q (s : kst F) :
  locks s lk = Some c -> 1 <= Cpu.noff (harts s c) < 2 ^ 31 -> Cpu.sie (harts s c) = false ->
  Q tt (set_hart c (Cpu.Mk (Cpu.noff (harts s c) - 1) (Cpu.intena (harts s c))
                           ((Cpu.noff (harts s c) =? 1) && Cpu.intena (harts s c))) (set_locks lk None s)) ->
  wp (release c lk) Q s.
Proof.
  intros Hl Hn Hs HQ. unfold release. wp_step. wp_step. rewrite decide_True by done. wp_step. wp_step.
  unfold on_cpu. wp_step. unfold wp. cbn [set_locks harts]. by rewrite Cpu.pop_off_ok.
Qed.
Lemma curproc_wp c i Q (s : kst F) :
  Cpu.cpu_ok (harts s c) -> cproc s c = Some i ->
  (forall s', km s' = km s -> kf s' = kf s -> procs s' = procs s -> nextpid s' = nextpid s -> initproc s' = initproc s ->
     cproc s' = cproc s -> locks s' = locks s ->
     harts s' c = Cpu.Mk (Cpu.noff (harts s c)) (Cpu.outer (harts s c)) (Cpu.sie (harts s c)) -> Q i s') ->
  wp (curproc c) Q s.
Proof.
  intros Hc Hi HQ. unfold curproc, myproc, on_cpu. wp_step. wp_step. wp_step.
  unfold wp at 1. rewrite Cpu.push_off_ok by done. wp_steps. cbn [set_hart harts cproc]. rewrite decide_True by done.
  unfold wp at 1. destruct Hc as [Hc1 Hc2]. rewrite Cpu.pop_off_ok by (cbn; (done || lia)). wp_steps. rewrite Hi. wp_step.
  apply HQ; try done. cbn [set_hart harts]. rewrite decide_True by done. cbn. f_equal; [lia|].
  unfold Cpu.outer. destruct (Z.eqb_spec (Cpu.noff (harts s c)) 0) as [->|]; [done|].
  destruct (Z.eqb_spec (Cpu.noff (harts s c) + 1) 1); [lia|]. rewrite Hc2 by lia. done.
Qed.

Lemma sched_wp c i ctx en (s : kst F) :
  cproc s c = Some i -> locks s (LProc i) = Some c -> harts s c = Cpu.Mk 1 en false -> state (procs s i) <> RUNNING ->
  wp (sched c ctx) (fun _ s' => procs s' = at_proc (procs s) i (set_context (ctx en)) /\ cproc s' c = None /\
    (forall lk, locks s' lk = if decide (lk = LProc i) then None else locks s lk) /\ harts s' c = Cpu.Mk 0 en en) s.
Proof.
  intros Hc Hl Hh Hst. unfold sched. wp_step. apply curproc_wp with i; [rewrite Hh; split; cbn; lia|done|].
  rewrite Hh. intros s1 _ _ P1 _ _ C1 L1 H1. cbn in H1.
  wp_steps. rewrite L1, decide_False by naive_solver. unfold on_cpu. wp_steps. rewrite H1. cbn [Cpu.noff Z.eqb negb Pos.eqb].
  unfold pt. wp_steps. cbn [set_hart procs harts]. rewrite P1, decide_False by done. unfold Cpu.intr_get. wp_steps.
  cbn [set_hart harts]. rewrite decide_True by done. cbn [Cpu.sie]. unfold pupd, scheduler_resume. wp_steps.
  apply krelease_wp; cbn [set_hart set_procs set_cproc set_locks locks harts procs cproc]; rewrite ?decide_True by done;
    cbn [Cpu.noff Cpu.sie Cpu.intena]; [by rewrite L1|lia|done|].
  rewrite P1. split_and!; rewrite ?decide_True by done; try done. intros lk. by rewrite L1.
Qed.

(** C22: [sleep] called with its condition lock as the only lock held passes
    every check of [sched]: the process is left [SLEEPING] on the channel, the
    condition lock and its own lock are free, and the processor has no process,
    no lock nesting left, and the interrupt state it had outside the locks. *)
Theorem sleep_switches_away c i ch lk (s : kst F) :
  cproc s c = Some i -> locks s lk = Some c -> lk <> LProc i -> locks s (LProc i) = None ->
  Cpu.noff (harts s c) = 1 -> Cpu.sie (harts s c) = false ->
  wp (sleep c ch lk) (fun _ s' =>
    state (procs s' i) = SLEEPING /\ chan (procs s' i) = ch /\
    pcontext (procs s' i) = InSleep (Cpu.intena (harts s c)) lk /\
    cproc s' c = None /\ locks s' lk = None /\ locks s' (LProc i) = None /\
    harts s' c = Cpu.Mk 0 (Cpu.intena (harts s c)) (Cpu.intena (harts s c))) s.
Proof.
  intros Hc Hlk Hne Hp Hn Hs. destruct (harts s c) as [n en ie] eqn:Eh. cbn in Hn, Hs. subst n ie.
  unfold sleep. wp_step. apply curproc_wp with i; [rewrite Eh; split; cbn; lia|done|].
  rewrite Eh. intros s1 _ _ P1 _ _ C1 L1 H1. cbn in H1.
  wp_step. apply kacquire_wp; [rewrite H1; split; cbn; lia|by rewrite L1|]. rewrite H1.
  wp_step. apply krelease_wp; cbn [set_hart set_locks locks harts]; rewrite ?(decide_True (P := c = c)) by done;
    cbn [Cpu.noff Cpu.sie]; [rewrite decide_False by done; congruence|lia|done|].
  unfold pupd. wp_steps. eapply wp_mono; [apply (sched_wp c i _ en)|];
    cbn [set_hart set_locks set_procs cproc locks harts procs]; rewrite ?(decide_True (P := c = c)) by done.
  - congruence.
  - rewrite decide_False by done. by rewrite decide_True.
  - done.
  - rewrite at_proc_eq. by destruct (procs s1 i).
  - intros [] s' (P2 & C2 & L2 & H2). rewrite P2, !at_proc_eq, !L2. destruct (procs s1 i); cbn.
    split_and!; try done; [rewrite decide_False by done; by rewrite decide_True|by rewrite decide_True].
Qed.
End Props.

(** ** Witnesses: init forks a child and waits; the child exits on another
    processor *)

Section Demo.
#[local] Instance demo_kernel : KernelImage :=
  {| kend := PHYSTOP - 12 * PGSIZE; etext := KERNBASE + 32768; trampoline := KERNBASE + 28672 |}.
#[local] Instance demo_files : FileOps unit :=
  {| fo_filedup _ f := ret f; fo_fileclose _ _ := ret tt; fo_begin_op _ := ret tt; fo_end_op _ := ret tt;
     fo_idup _ i := ret i; fo_iput _ _ := ret tt; fo_namei _ _ := ret (Some O) |}.
#[local] Instance demo_files_laws : FileOpsLaws unit.
Proof. split; intros; cbn; apply twp_ret; reflexivity || auto. Qed.
Definition d_boot : kst unit :=
  Kst (run_or kinit (Kmem (fun _ => 0) 0) tt).2 tt (fun _ => bss_proc) 1 None (fun _ => None)
      (fun _ => Cpu.Mk 0 false false) (fun _ => None).
Definition d_init : kst unit := (run_or (first_process 0) d_boot tt).2.
Definition d_run : kst unit := (run_or (scheduler_try 0 0) d_init false).2.
Definition d_copy : kst unit := (run_or (kfork_copy 0 0) d_run None).2.
Definition d_link : kst unit := (run_or (kfork_link 0 0 1) d_copy tt).2.
Definition d_start : kst unit := (run_or (kfork_start 0 1) d_link tt).2.
Definition d_wait : kst unit := (run_or (kwait 0 0) d_start None).2.
Definition d_child : kst unit := (run_or (scheduler_try 1 1) d_wait false).2.
Definition d_exit : kst unit := (run_or (kexit 1 3) d_child tt).2.
Definition d_fk : nat -> fphase := set_fk 0 FNone (set_fk 0 (FStart 1) (set_fk 0 (FLink 1) (fun _ => FNone))).

Definition d_final : psys unit := Psys d_exit d_fk.

Lemma demo_run : nsteps pstep 7 (Psys d_init (fun _ => FNone)) d_final.
Proof.
  unfold d_final.
  assert (E1 : scheduler_try 0 0 d_init = Ok ((run_or (scheduler_try 0 0) d_init false).1, d_run)) by (unfold d_run; apply run_or_ok; by vm_compute).
  assert (E2 : kfork_copy 0 0 d_run = Ok ((run_or (kfork_copy 0 0) d_run None).1, d_copy)) by (unfold d_copy; apply run_or_ok; by vm_compute).
  replace (run_or (kfork_copy 0 0) d_run None).1 with (Some (1%nat, 2)) in E2 by by vm_compute.
  assert (E3 : kfork_link 0 0 1 d_copy = Ok (tt, d_link)) by (unfold d_link; apply run_or_tt; by vm_compute).
  assert (E4 : kfork_start 0 1 d_link = Ok (tt, d_start)) by (unfold d_start; apply run_or_tt; by vm_compute).
  assert (E5 : kwait 0 0 d_start = Ok ((run_or (kwait 0 0) d_start None).1, d_wait)) by (unfold d_wait; apply run_or_ok; by vm_compute).
  assert (E6 : scheduler_try 1 1 d_wait = Ok ((run_or (scheduler_try 1 1) d_wait false).1, d_child)) by (unfold d_child; apply run_or_ok; by vm_compute).
  assert (E7 : kexit 1 3 d_child = Ok (tt, d_exit)) by (unfold d_exit; apply run_or_tt; by vm_compute).
  refine (nsteps_l _ _ _ _ _ (S_schedule 0 0 _ _ _ _ _ _ E1) _); [by vm_compute|by apply Nat.ltb_lt|].
  refine (nsteps_l _ _ _ _ _ (S_fork 0 0 _ _ _ _ _ E2) _); [split; by vm_compute|].
  refine (nsteps_l _ _ _ _ _ (S_fork_link 0 0 1 _ _ _ _ _ E3) _); [by vm_compute..|].
  refine (nsteps_l _ _ _ _ _ (S_fork_start 0 0 1 _ _ _ _ _ E4) _); [by vm_compute..|].
  refine (nsteps_l _ _ _ _ _ (S_wait 0 0 0 _ _ _ _ _ E5) _); [split; by vm_compute|].
  refine (nsteps_l _ _ _ _ _ (S_schedule 1 1 _ _ _ _ _ _ E6) _); [by vm_compute|by apply Nat.ltb_lt|].
  refine (nsteps_l _ _ _ _ _ (S_exit 1 1 3 _ _ _ _ E7) _); [split; by vm_compute|].
  apply nsteps_O.
Qed.
Lemma demo_boots : at_boot d_boot /\ first_process 0 d_boot = Ok (tt, d_init).
Proof.
  split; [split; [intros i; reflexivity|split; [reflexivity|intros c; reflexivity]]|].
  unfold d_init. apply run_or_tt. by vm_compute.
Qed.

Lemma process_table_invariant_witness :
  state (procs (ks d_final) 1) = ZOMBIE /\ exists p, parent (procs (ks d_final) 1) = Some p /\ live (procs (ks d_final) p).
Proof.
  assert (Hz : state (procs (ks d_final) 1) = ZOMBIE) by by vm_compute. split; [exact Hz|].
  destruct demo_boots as [H1 H2].
  destruct (process_table_invariant 0 d_boot d_init 7 d_final H1 H2 demo_run ltac:(lia)) as (_ & _ & H & _).
  exact (H 1%nat Hz).
Defined.

Lemma wait_never_misses_exit_witness :
  parent (procs (ks d_final) 1) = Some O /\ state (procs (ks d_final) 1) = ZOMBIE /\ chan (procs (ks d_final) 0) = Some (CProc 0) /\
  state (procs (ks d_final) 0) <> SLEEPING.
Proof.
  assert (Hp : parent (procs (ks d_final) 1) = Some O) by by vm_compute.
  assert (Hz : state (procs (ks d_final) 1) = ZOMBIE) by by vm_compute.
  assert (Hc : chan (procs (ks d_final) 0) = Some (CProc 0)) by by vm_compute.
  split; [exact Hp|]. split; [exact Hz|]. split; [exact Hc|]. intros Hs. destruct demo_boots as [H1 H2].
  destruct (wait_never_misses_exit 0 d_boot d_init 7 d_final H1 H2 demo_run ltac:(lia)) as [H _].
  exact (H O 1%nat Hs Hc Hp Hz).
Defined.

Definition d_one : psys unit := Psys d_run (fun _ => FNone).
Lemma d_one_inv : pinv nobody (tab (ks d_one)) (fk d_one).
Proof.
  destruct demo_boots as [H1 H2]. apply (reach_inv 0 d_boot d_init 1 d_one H1 H2); [|lia].
  assert (E1 : scheduler_try 0 0 d_init = Ok ((run_or (scheduler_try 0 0) d_init false).1, d_run)) by (unfold d_run; apply run_or_ok; by vm_compute).
  refine (nsteps_l _ _ _ _ _ (S_schedule 0 0 _ _ _ _ _ _ E1) (nsteps_O _ _)); [by vm_compute|by apply Nat.ltb_lt].
Qed.

Definition d_kill0 : kst unit := (run_or (kkill 0 0) (ks d_one) 7).2.
Definition d_next : kst unit := (run_or (allocproc 0) d_kill0 None).2.
Lemma kill_zero_dooms_next_process_witness : pid (procs d_next 1) = 2 /\ pkilled (procs d_next 1) = 1.
Proof.
  assert (E1 : kkill 0 0 (ks d_one) = Ok ((run_or (kkill 0 0) (ks d_one) 7).1, d_kill0))
    by (unfold d_kill0; apply run_or_ok; by vm_compute).
  assert (E2 : allocproc 0 d_kill0 = Ok ((run_or (allocproc 0) d_kill0 None).1, d_next))
    by (unfold d_next; apply run_or_ok; by vm_compute).
  replace (run_or (allocproc 0) d_kill0 None).1 with (Some 1%nat) in E2 by by vm_compute.
  destruct (kill_zero_dooms_next_process 0 (ks d_one) _ d_kill0 1 d_next (free_slots _ d_one_inv) E1 E2) as (_ & _ & H1 & H2).
  split; [|exact H2]. rewrite H1. by vm_compute.
Defined.

Lemma sleep_switches_away_witness :
  wp (sleep 0 (Some (CAddr 5)) LWait) (fun _ s' => state (procs s' 0) = SLEEPING /\ cproc s' 0%nat = None)
     (run_or (acquire 0 LWait) d_run tt).2.
Proof.
  eapply wp_mono.
  - apply (sleep_switches_away 0 0 (Some (CAddr 5)) LWait); by vm_compute.
  - intros [] s' H. split; [exact (proj1 H)|]. exact (proj1 (proj2 (proj2 (proj2 H)))).
Defined.
End Demo.
