(* ===== verification/File.v ===== *)
(** * Open files: kernel/file.c, pipealloc of kernel/pipe.c

    The table of open files, over the file system of [Fs], the pipes of [Pipe]
    and the device switch.  The routines run on behalf of one process: [me] is
    its pid, [UM] its memory as the kernel reaches it, [killed] its killed flag.
    A call that has to wait returns [FBlocks] with the channel it sleeps on. *)
From S2P Require Import Prelude Machine Memory Kalloc Vm UserMem Bytes Bio Log Fs Pipe.

Inductive fdtype : Type := FD_NONE | FD_PIPE | FD_INODE | FD_DEVICE.
#[export] Instance fdtype_eq : EqDecision fdtype.
Proof. solve_decision. Defined.

(** [pipe] is the address of the pipe's page; 0 is no inode. *)
Record file : Type := File {
  ftype : fdtype; fref : Z; readable : Z; writable : Z;
  fpipe : Z; fip : option nat; foff : Z; fmajor : Z
}.
Definition set_fref r x := match x with File a _ c d e f g h => File a r c d e f g h end.
Definition set_foff o x := match x with File a b c d e f _ h => File a b c d e f o h end.
Definition set_ftype t x := match x with File _ b c d e f g h => File t b c d e f g h end.

Definition nfile : nat := Z.to_nat NFILE.
(** Offsets of [nread] and [nwrite] in [struct pipe], the addresses slept on. *)
Definition PIPE_NREAD : Z := 536.
Definition PIPE_NWRITE : Z := 540.
Definition chan_addr (pi : Z) (c : pchan) : Z :=
  match c with CNread => pi + PIPE_NREAD | CNwrite => pi + PIPE_NWRITE end.
(** sizeof(struct stat): int, uint, short, short, uint64. *)
Definition stat_bytes (dev ino type nlink size : Z) : list Z :=
  le 4 (u32 dev) ++ le 4 (u32 ino) ++ le 2 (u16 type) ++ le 2 (u16 nlink) ++ replicate 4 0 ++ le 8 (u64 size).

(** A call returns, or has to sleep on a channel having moved [i] bytes. *)
Inductive fresult : Type := FDone (r : Z) | FBlocks (ch : Z) (i : Z).

Section File.
Context `{KI : KernelImage} {B : Type} {D : Type}.

(** The file system with the kernel's memory, the table, the pipes by address,
    the devices' state and the wakeups issued. *)
Record fv : Type := Fv {
  vfs : fs (B := B) (U := kmem); ftable : nat -> file; pipes : Z -> pipe; devs : D; fwakes : list Z
}.

(** [struct devsw]: the driver's functions, of the calling process's memory. *)
Definition dev_fn : Type := UserMem kmem -> bool -> Z -> Z -> Z -> M (D * kmem) fresult.
Record devsw_entry : Type := Devsw { dev_read : option dev_fn; dev_write : option dev_fn }.

Context (devsw : Z -> devsw_entry).
Context `{BC : BufCache B} `{UM : UserMem kmem} (me : Z) (killed : bool).

Definition vf {A} (m : M (fs (B := B) (U := kmem)) A) : M fv A :=
  zoom vfs (fun x v => Fv x (ftable v) (pipes v) (devs v) (fwakes v)) m.
Definition vlog {A} (m : M (lst (B := B)) A) : M fv A := vf (ls m).
Definition vmem {A} (m : M kmem A) : M fv A := vf (usr m).
Definition fat (f : nat) : M fv file := gets (fun v => ftable v f).
Definition fupd (f : nat) (g : file -> file) : M fv unit :=
  modify (fun v => Fv (vfs v) (fun k => if decide (k = f) then g (ftable v f) else ftable v k) (pipes v) (devs v) (fwakes v)).
Definition vdev (m : M (D * kmem) fresult) : M fv fresult :=
  zoom (fun v => (devs v, fu (vfs v)))
       (fun x v => Fv (Fs (fl (vfs v)) (fsb (vfs v)) (itable (vfs v)) x.2) (ftable v) (pipes v) x.1 (fwakes v)) m.
(** A pipe routine on the pipe at address [pi]; its wakeups are of its channels. *)
Definition vpipe {A} (pi : Z) (m : M (pst (U := kmem)) A) : M fv A := fun v =>
  match m (Pst (pipes v pi) (fu (vfs v)) []) with
  | Ok (a, s) =>
      Ok (a, Fv (Fs (fl (vfs v)) (fsb (vfs v)) (itable (vfs v)) (um s)) (ftable v)
               (fun k => if decide (k = pi) then Pipe.pi s else pipes v k) (devs v)
               (fwakes v ++ (chan_addr pi <$> wakes s)))
  | Panic msg => Panic msg
  | Sleep c => Sleep c
  | Fuel => Fuel
  end.

Fixpoint filealloc_loop (n f : nat) : M fv (option nat) :=
  match n with
  | O => ret None
  | S n' =>
      let! x := fat f in
      if fref x =? 0 then fupd f (set_fref 1) ;; ret (Some f)
      else filealloc_loop n' (S f)
  end.
Definition filealloc : M fv (option nat) := filealloc_loop nfile 0.

Definition filedup (f : nat) : M fv nat :=
  let! x := fat f in
  if fref x <? 1 then panic "filedup"
  else fupd f (fun x => set_fref (i32 (fref x + 1)) x) ;; ret f.

(** [pipeclose(pi, writable)], freeing the page of a pipe both ends have left. *)
Definition close_pipe (pi writable : Z) : M fv unit :=
  let! gone := vpipe pi (pipeclose writable) in
  if (gone : bool) then vmem (kfree pi) else ret tt.

Definition fileclose (f : nat) : M fv unit :=
  let! x := fat f in
  if fref x <? 1 then panic "fileclose"
  else
    fupd f (fun x => set_fref (fref x - 1) x) ;;
    if 0 <? fref x - 1 then ret tt
    else
      let! ff := fat f in
      fupd f (fun x => set_ftype FD_NONE (set_fref 0 x)) ;;
      match ftype ff with
      | FD_PIPE => close_pipe (fpipe ff) (writable ff)
      | FD_INODE | FD_DEVICE =>
          vlog begin_op ;;
          match fip ff with Some ip => vf (iput me ip) | None => panic "kerneltrap" end ;;
          vlog end_op
      | FD_NONE => ret tt
      end.

Definition filestat (f : nat) (addr : Z) : M fv Z :=
  let! x := fat f in
  if bool_decide (ftype x = FD_INODE) || bool_decide (ftype x = FD_DEVICE) then
    vf (ilock me (fip x)) ;;
    match fip x with
    | None => panic "kerneltrap"
    | Some ip =>
        let! '(dev, ino, type, nlink, size) := vf (stati ip) in
        vf (iunlock me (fip x)) ;;
        let! r := vmem (um_copyout addr (stat_bytes dev ino type nlink size)) in
        if r <? 0 then ret (-1) else ret 0
    end
  else ret (-1).

Definition of_presult (pi : Z) (r : presult) : fresult :=
  match r with Returned v => FDone v | Blocked c i => FBlocks (chan_addr pi c) i end.

Definition fileread (f : nat) (addr n : Z) : M fv fresult :=
  let! x := fat f in
  if readable x =? 0 then ret (FDone (-1))
  else
    match ftype x with
    | FD_PIPE => let! r := vpipe (fpipe x) (piperead killed addr n) in ret (of_presult (fpipe x) r)
    | FD_DEVICE =>
        if (fmajor x <? 0) || (NDEV <=? fmajor x) then ret (FDone (-1))
        else match dev_read (devsw (fmajor x)) with
             | None => ret (FDone (-1))
             | Some rd => vdev (rd UM killed 1 addr n)
             end
    | FD_INODE =>
        vf (ilock me (fip x)) ;;
        match fip x with
        | None => panic "kerneltrap"
        | Some ip =>
            let! '(r, _) := vf (readi ip 1 addr (foff x) (u32 n)) in
            (if 0 <? r then fupd f (fun x => set_foff (u32 (foff x + r)) x) else ret tt) ;;
            vf (iunlock me (fip x)) ;;
            ret (FDone r)
        end
    | FD_NONE => panic "fileread"
    end.

(** [max] of [filewrite]: what one transaction can hold. *)
Definition WRITE_MAX : Z := (MAXOPBLOCKS - 1 - 1 - 2) / 2 * BSIZE.

(** The write loop of an inode; the result is [i] when it stops. *)
Fixpoint filewrite_loop (fuel : nat) (f ip : nat) (addr n i : Z) : M fv Z :=
  match fuel with
  | O => out_of_fuel
  | S fl =>
      if i <? n then
        let n1 := if WRITE_MAX <? n - i then WRITE_MAX else n - i in
        vlog begin_op ;;
        vf (ilock me (Some ip)) ;;
        let! x := fat f in
        let! r := vf (writei ip 1 (u64 (addr + i)) [] (foff x) n1) in
        (if 0 <? r then fupd f (fun x => set_foff (u32 (foff x + r)) x) else ret tt) ;;
        vf (iunlock me (Some ip)) ;;
        vlog end_op ;;
        if negb (r =? n1) then ret i
        else filewrite_loop fl f ip addr n (i + r)
      else ret i
  end.

(** [i0]: where a blocked pipe write resumes; 0 for a new call. *)
Definition filewrite (f : nat) (addr n i0 : Z) : M fv fresult :=
  let! x := fat f in
  if writable x =? 0 then ret (FDone (-1))
  else
    match ftype x with
    | FD_PIPE => let! r := vpipe (fpipe x) (pipewrite (fun _ => killed) addr n i0) in ret (of_presult (fpipe x) r)
    | FD_DEVICE =>
        if (fmajor x <? 0) || (NDEV <=? fmajor x) then ret (FDone (-1))
        else match dev_write (devsw (fmajor x)) with
             | None => ret (FDone (-1))
             | Some wr => vdev (wr UM killed 1 addr n)
             end
    | FD_INODE =>
        match fip x with
        | None => panic "kerneltrap"
        | Some ip =>
            let! i := filewrite_loop (S (Z.to_nat n)) f ip addr n 0 in
            ret (FDone (if i =? n then n else -1))
        end
    | FD_NONE => panic "filewrite"
    end.

(** [pipealloc]: two open files on a new pipe. *)
Definition pipe_end (rd wr pi : Z) (x : file) : file :=
  match x with File _ b _ _ _ f g h => File FD_PIPE b rd wr pi f g h end.
Definition pipealloc : M fv (option (nat * nat)) :=
  let! f0 := filealloc in
  match f0 with
  | None => ret None
  | Some a =>
      let! f1 := filealloc in
      match f1 with
      | None => fileclose a ;; ret None
      | Some b =>
          let! pg := vmem kalloc in
          if pg =? 0 then fileclose a ;; fileclose b ;; ret None
          else
            let! m := gets (fun v => phys (fu (vfs v))) in
            modify (fun v => Fv (vfs v) (ftable v)
              (fun k => if decide (k = pg) then pipe_init (get_bytes m (pg + 24) (Z.to_nat PIPESIZE)) else pipes v k)
              (devs v) (fwakes v)) ;;
            fupd a (pipe_end 1 0 pg) ;;
            fupd b (pipe_end 0 1 pg) ;;
            ret (Some (a, b))
      end
  end.
End File.
Arguments fv B D : clear implicits.
Arguments devsw_entry D : clear implicits.
