(* ===== verification/Kernel.v ===== *)
(** * The whole kernel's state: processes with their files

    [kfs] is the state of the file layer, the devices, the clock and the text
    printed on the console; [kst kfs] is the state of the kernel.  A routine of
    [File] or [Fs] runs in it on behalf of the process of a processor
    ([on_file]); the file layer so built is an instance of the interface the
    process code uses, with its laws. *)
From S2P Require Import Prelude Machine Memory Kalloc Vm UserMem Bytes Bio Log Fs Pipe Printf File Spinlock Proc ProcInv.

Section Kernel.
Context `{KI : KernelImage} {B : Type} {D : Type}.
(** The block cache as the process with a given pid uses it, and the drivers. *)
Context (BCs : Z -> BufCache B) (devsw : Z -> devsw_entry D).

Record kfs : Type := Kfs {
  x_log : lst (B := B); x_sb : superblock; x_it : nat -> inode;
  x_ft : nat -> file; x_pipes : Z -> pipe; x_devs : D;
  x_ticks : Z; x_out : list Z
}.

(** What the file routines see, and storing it back. *)
Definition view (s : kst kfs) : fv B D :=
  let x := kf s in
  Fv (Fs (x_log x) (x_sb x) (x_it x) (km s)) (x_ft x) (x_pipes x) (x_devs x) [].
Definition unview (v : fv B D) (s : kst kfs) : kst kfs :=
  Kst (fu (vfs v))
      (Kfs (fl (vfs v)) (fsb (vfs v)) (itable (vfs v)) (ftable v) (pipes v) (devs v) (x_ticks (kf s)) (x_out (kf s)))
      (procs s) (nextpid s) (initproc s) (cproc s) (harts s) (locks s).
Definition on_view {A} (m : M (fv B D) A) : M (kst kfs) A := zoom view unview m.

Fixpoint wake_all (c : nat) (chs : list Z) : M (kst kfs) unit :=
  match chs with [] => ret tt | ch :: chs' => wakeup c (Some (CAddr ch)) ;; wake_all c chs' end.

(** The process of processor [c], or a process-less processor's stand-in. *)
Definition proc_of (c : nat) : M (kst kfs) proc :=
  let! mp := myproc c in
  match mp with
  | Some i => pt i
  | None => ret (Proc UNUSED None 0 0 0 0 0 0 (Vregion 0 0) None 0 0 0 0 Zeroed (fun _ => None) None [])
  end.

(** A file routine of the current process, then the wakeups it issued. *)
Definition on_file {A} (c : nat) (m : forall (BC : BufCache B) (UM : UserMem kmem) (me : Z) (killed : bool), M (fv B D) A)
    : M (kst kfs) A :=
  let! p := proc_of c in
  let! '(a, ws) := on_view (
    let! a := m (BCs (pid p)) (vm_user_mem (Uvm (sz p) (pagetable p))) (pid p) (c_true (pkilled p)) in
    let! ws := gets fwakes in
    ret (a, ws)) in
  wake_all c ws ;;
  ret a.
(** A file-system routine without wakeups. *)
Definition on_fs {A} (c : nat) (m : forall (BC : BufCache B) (UM : UserMem kmem) (me : Z), M (fs (B := B) (U := kmem)) A)
    : M (kst kfs) A :=
  let! p := proc_of c in
  on_view (vf (m (BCs (pid p)) (vm_user_mem (Uvm (sz p) (pagetable p))) (pid p))).

Definition kernel_files : FileOps kfs := {|
  fo_filedup c f := on_view (filedup f);
  fo_fileclose c f := on_file c (fun BC UM me killed => fileclose (BC := BC) me f);
  fo_begin_op c := on_fs c (fun BC UM me => ls begin_op);
  fo_end_op c := on_fs c (fun BC UM me => ls end_op);
  fo_idup c i := on_fs c (fun BC UM me => idup i);
  fo_iput c i := on_fs c (fun BC UM me => iput me i);
  fo_namei c path := on_fs c (fun BC UM me => namei me 0 path)
|}.

(** The file-system calls that system calls make, for the current process. *)
Definition k_begin_op (c : nat) : M (kst kfs) unit := on_fs c (fun BC UM me => ls begin_op).
Definition k_end_op (c : nat) : M (kst kfs) unit := on_fs c (fun BC UM me => ls end_op).
Definition k_ilock (c ip : nat) : M (kst kfs) unit := on_fs c (fun BC UM me => ilock me (Some ip)).
Definition k_iunlock (c ip : nat) : M (kst kfs) unit := on_fs c (fun BC UM me => iunlock me (Some ip)).
Definition k_iunlockput (c ip : nat) : M (kst kfs) unit := on_fs c (fun BC UM me => iunlockput me ip).
Definition k_iput (c ip : nat) : M (kst kfs) unit := on_fs c (fun BC UM me => iput me ip).
Definition k_iupdate (c ip : nat) : M (kst kfs) unit := on_fs c (fun BC UM me => iupdate ip).
Definition k_inode (ip : nat) : M (kst kfs) inode := gets (fun s => x_it (kf s) ip).
Definition k_iupd (c ip : nat) (g : inode -> inode) : M (kst kfs) unit := on_fs c (fun BC UM me => iupd ip g).
(** A relative path starts at the process's directory, which every process has. *)
Definition k_namei (c : nat) (path : list Z) : M (kst kfs) (option nat) :=
  let! p := proc_of c in
  on_fs c (fun BC UM me => namei me (default O (cwd p)) path).
Definition k_nameiparent (c : nat) (path : list Z) : M (kst kfs) (option nat * list Z) :=
  let! p := proc_of c in
  on_fs c (fun BC UM me => nameiparent me (default O (cwd p)) path).
Definition k_dirlookup (c dp : nat) (name : list Z) : M (kst kfs) (option (nat * Z)) :=
  on_fs c (fun BC UM me => dirlookup dp name).
Definition k_dirlink (c dp : nat) (name : list Z) (inm : Z) : M (kst kfs) Z :=
  on_fs c (fun BC UM me => dirlink me dp name inm).
(** Transfers to and from kernel memory. *)
Definition k_readi (c ip : nat) (off n : Z) : M (kst kfs) (Z * list Z) :=
  on_fs c (fun BC UM me => readi ip 0 0 off n).
Definition k_writei (c ip : nat) (bs : list Z) (off n : Z) : M (kst kfs) Z :=
  on_fs c (fun BC UM me => writei ip 0 0 bs off n).

(** [printf] in the kernel: the text is appended to the console's output. *)
Definition set_out (l : list Z) (s : kst kfs) : kst kfs :=
  let x := kf s in
  Kst (km s) (Kfs (x_log x) (x_sb x) (x_it x) (x_ft x) (x_pipes x) (x_devs x) (x_ticks x) l)
      (procs s) (nextpid s) (initproc s) (cproc s) (harts s) (locks s).
Definition set_ticks (n : Z) (s : kst kfs) : kst kfs :=
  let x := kf s in
  Kst (km s) (Kfs (x_log x) (x_sb x) (x_it x) (x_ft x) (x_pipes x) (x_devs x) n (x_out x))
      (procs s) (nextpid s) (initproc s) (cproc s) (harts s) (locks s).
Definition kprint (fmt : list Z) (args : list arg) : M (kst kfs) unit :=
  match kernel_printf fmt args with
  | Some l => modify (fun s => set_out (x_out (kf s) ++ l) s)
  | None => out_of_fuel
  end.
(** A format that ends with a newline. *)
Definition kprintln (fmt : string) (args : list arg) : M (kst kfs) unit := kprint (bytes_of fmt ++ [10]) args.

(** ** The laws of the interface *)

Lemma on_view_t {A} (m : M (fv B D) A) Q t : (forall a, Q a t) -> twp (F := kfs) (on_view m) Q t.
Proof. intros H s a s' <- E. unfold on_view, zoom in E. destruct (m (view s)) as [[b v]| | |]; simplify_eq/=. apply H. Qed.

Lemma wake_all_t c chs t : twp (F := kfs) (wake_all c chs) (fun _ t' => woken t t') t.
Proof.
  revert t. induction chs as [|ch chs IH]; intros t; cbn [wake_all]; [by apply twp_ret|].
  tstep. eapply twp_mono; [apply wakeup_t|]. intros [] t1 (H1 & _). eapply twp_mono; [apply IH|].
  intros [] t2 H2. by etrans.
Qed.

Lemma proc_of_t c Q t : (forall p, Q p t) -> twp (F := kfs) (proc_of c) Q t.
Proof. intros H. unfold proc_of. tsteps. destruct (tcur t c); tsteps; apply H. Qed.

Lemma on_file_t {A} c (m : forall (BC : BufCache B) (UM : UserMem kmem) (me : Z) (killed : bool), M (fv B D) A) t :
  twp (F := kfs) (on_file c m) (fun _ t' => woken t t') t.
Proof.
  unfold on_file. tstep. apply proc_of_t. intros p. tstep. apply on_view_t. intros [a ws].
  tstep. eapply twp_mono; [apply wake_all_t|]. intros [] t' H. by apply twp_ret.
Qed.
Lemma on_fs_t {A} c (m : forall (BC : BufCache B) (UM : UserMem kmem) (me : Z), M (fs (B := B) (U := kmem)) A) Q t :
  (forall a, Q a t) -> twp (F := kfs) (on_fs c m) Q t.
Proof. intros H. unfold on_fs. tstep. apply proc_of_t. intros p. by apply on_view_t. Qed.

Lemma kernel_files_laws : FileOpsLaws kfs (H := kernel_files).
Proof.
  split; intros; cbn [fo_filedup fo_fileclose fo_begin_op fo_end_op fo_idup fo_iput fo_namei kernel_files].
  - by apply on_view_t.
  - by apply on_fs_t.
  - by apply on_fs_t.
  - apply on_file_t.
  - apply on_fs_t. by intros [].
  - apply on_fs_t. by intros [].
  - apply on_fs_t. by intros [].
Qed.
End Kernel.
Arguments kfs B D : clear implicits.
