(* ===== verification/Sysarg.v ===== *)
(** * System-call arguments: the first half of kernel/syscall.c *)
From S2P Require Import Prelude Machine Memory Kalloc Vm UserMem Bytes Spinlock Proc.

(** Offsets in [struct trapframe]. *)
Definition TF_KERNEL_SATP : Z := 0.
Definition TF_KERNEL_SP : Z := 8.
Definition TF_KERNEL_TRAP : Z := 16.
Definition TF_EPC : Z := 24.
Definition TF_KERNEL_HARTID : Z := 32.
Definition TF_SP : Z := 48.
Definition TF_A1 : Z := 120.
Definition TF_A2 : Z := 128.
Definition TF_A7 : Z := 168.

Section Sysarg.
Context `{KI : KernelImage} {F : Type}.

(** The uint64 at a user address. *)
Definition fetchaddr (c : nat) (addr : Z) : M (kst F) (option Z) :=
  let! i := curproc c in
  let! p := pt i in
  if (sz p <=? addr) || (sz p <? u64 (addr + 8)) then ret None
  else
    let! '(r, bs) := on_km (copyin (Uvm (sz p) (pagetable p)) (pagetable p) addr 8) in
    if negb (r =? 0) then ret None else ret (Some (of_le bs)).

(** The length of the string and the string, without its nul. *)
Definition fetchstr (c : nat) (addr max : Z) : M (kst F) (Z * list Z) :=
  let! i := curproc c in
  let! p := pt i in
  let! '(r, buf) := on_km (copyinstr (pagetable p) addr max) in
  if r <? 0 then ret (-1, buf)
  else let str := str_upto (length buf) buf in ret (Z.of_nat (length str), str).

Definition argraw (c : nat) (n : Z) : M (kst F) Z :=
  let! i := curproc c in
  let! p := pt i in
  if (0 <=? n) && (n <=? 5) then on_km (rd64 (trapframe p + TF_A0 + 8 * n)) else panic "argraw".
Definition argint (c : nat) (n : Z) : M (kst F) Z := let! v := argraw c n in ret (i32 v).
Definition argaddr (c : nat) (n : Z) : M (kst F) Z := argraw c n.
Definition argstr (c : nat) (n max : Z) : M (kst F) (Z * list Z) :=
  let! addr := argaddr c n in
  fetchstr c addr max.
End Sysarg.
