(* ===== verification/Sysproc.v ===== *)
(** * Process system calls: kernel/sysproc.c, vmprint of kernel/vm.c

    A call returns its value, or [None] when the process has left the processor:
    it sleeps and continues later, or it has exited. *)
From S2P Require Import Prelude Machine Memory Kalloc Vm UserMem Bytes Bio Log Fs Printf File Spinlock Proc Kernel Sysarg.

(** [tickslock], and a stand-in for the address of [ticks], which no pipe has. *)
Definition LTicks : lockid := LOther 1.
Definition TICKS : option channel := Some (CAddr 0).

Section Sysproc.
Context `{KI : KernelImage} {B : Type} {D : Type} (BCs : Z -> BufCache B).
#[local] Instance files : FileOps (kfs B D) := kernel_files BCs.
Let K := kst (kfs B D).

Definition returns (m : M K Z) : M K (option Z) := let! r := m in ret (Some (u64 r)).

Definition sys_exit (c : nat) : M K (option Z) :=
  let! n := argint c 0 in
  kexit c n ;;
  ret None.
Definition sys_getpid (c : nat) : M K (option Z) :=
  let! i := curproc c in
  let! p := pt i in
  ret (Some (u64 (pid p))).
Definition sys_fork (c : nat) : M K (option Z) := returns (kfork c).
Definition sys_wait (c : nat) : M K (option Z) :=
  let! a := argaddr c 0 in
  let! r := kwait c a in
  ret (u64 <$> r).

Definition sys_sbrk (c : nat) : M K (option Z) :=
  let! i := curproc c in
  let! n := argint c 0 in
  let! t := argint c 1 in
  let! p := pt i in
  let addr := sz p in
  if n <? 0 then
    let! r := growproc c n in
    if r <? 0 then ret (Some (u64 (-1))) else ret (Some addr)
  else if u64 (addr + n) <? addr then ret (Some (u64 (-1)))
  else if TRAPFRAME <? u64 (addr + n) then ret (Some (u64 (-1)))
  else pupd i (fun p => set_sz (u64 (sz p + n)) p) ;; ret (Some addr).

(** The loop of [sys_pause] from a point where [tickslock] is held, until the
    call returns or sleeps; a process that slept continues here. *)
Definition sys_pause_loop (c : nat) (ticks0 n : Z) : M K (option Z) :=
  let! t := gets (fun s => x_ticks (kf s)) in
  if u32 (t - ticks0) <? n then
    let! i := curproc c in
    let! k := killed c i in
    if c_true k then release c LTicks ;; ret (Some (u64 (-1)))
    else sleep c TICKS LTicks ;; ret None
  else release c LTicks ;; ret (Some 0).
Definition sys_pause (c : nat) : M K (option Z) :=
  let! n := argint c 0 in
  let n := if n <? 0 then 0 else n in
  acquire c LTicks ;;
  let! ticks0 := gets (fun s => x_ticks (kf s)) in
  sys_pause_loop c ticks0 n.

Definition sys_kill (c : nat) : M K (option Z) :=
  let! pid := argint c 0 in
  returns (kkill c pid).
Definition sys_uptime (c : nat) : M K (option Z) :=
  acquire c LTicks ;;
  let! xticks := gets (fun s => x_ticks (kf s)) in
  release c LTicks ;;
  ret (Some (u32 xticks)).

(** One page, shared read-write with another process at the same address. *)
Definition sys_shmem (c : nat) : M K (option Z) :=
  let! pid := argint c 0 in
  let! va := argaddr c 1 in
  let! i := curproc c in
  let! other := findproc c pid in
  match other with
  | None => ret (Some (u64 (-1)))
  | Some o =>
      let! mem := on_km kalloc in
      if mem =? 0 then ret (Some (u64 (-1)))
      else
        on_km (zero_page mem) ;;
        let perm := Z.lor (Z.lor PTE_R PTE_W) PTE_U in
        let! p := pt i in
        let! r := on_km (mappages (pagetable p) va PGSIZE mem perm) in
        if negb (r =? 0) then on_km (kfree mem) ;; ret (Some (u64 (-1)))
        else
          let! q := pt o in
          let! r := on_km (mappages (pagetable q) va PGSIZE mem perm) in
          if negb (r =? 0) then
            on_km (uvmunmap (pagetable p) va 1 false) ;;
            on_km (kfree mem) ;;
            ret (Some (u64 (-1)))
          else ret (Some va)
  end.

Definition sys_hello : M K (option Z) := ret (Some 42).
Definition sys_trace (c : nat) : M K (option Z) :=
  let! mask := argint c 0 in
  let! i := curproc c in
  pupd i (fun p => set_extra mask (page_faults p) (has_region p) (region p) p) ;;
  ret (Some 0).

(** [vmprint]: the recursion goes down the three levels of the table. *)
Fixpoint vmprint_dots (n : nat) : M K unit :=
  match n with O => ret tt | S n' => kprint (bytes_of " ..") [] ;; vmprint_dots n' end.
Definition vmprint_flag (pte bit : Z) (txt : string) : M K unit :=
  if pte_has pte bit then kprint (bytes_of txt) [] else ret tt.
Fixpoint vmprint_entries (sub : Z -> M K unit) (pagetable : Z) (level : nat) (n : nat) : M K unit :=
  match n with
  | O => ret tt
  | S n' =>
      let i := 512 - Z.of_nat n in
      let! pte := on_km (rd64 (pte_addr pagetable i)) in
      (if pte_has pte PTE_V then
         let pa := PTE2PA pte in
         vmprint_dots level ;;
         kprint (bytes_of "%d: pte 0x%lx pa 0x%lx") [VInt i; VInt pte; VInt pa] ;;
         vmprint_flag pte PTE_R " R" ;;
         vmprint_flag pte PTE_W " W" ;;
         vmprint_flag pte PTE_X " X" ;;
         vmprint_flag pte PTE_U " U" ;;
         kprint [10] [] ;;
         (if negb (pte_has pte (Z.lor PTE_R (Z.lor PTE_W PTE_X))) then sub pa else ret tt)
       else ret tt) ;;
      vmprint_entries sub pagetable level n'
  end.
Fixpoint vmprint_level (fuel : nat) (pagetable : Z) (level : nat) : M K unit :=
  match fuel with
  | O => out_of_fuel
  | S f => vmprint_entries (fun pa => vmprint_level f pa (S level)) pagetable level 512
  end.
Definition vmprint (pagetable : Z) : M K unit :=
  kprintln "page table %p" [VInt pagetable] ;;
  vmprint_level 3 pagetable 1.
Definition sys_dumpvm (c : nat) : M K (option Z) :=
  let! i := curproc c in
  let! p := pt i in
  vmprint (pagetable p) ;;
  ret (Some 0).

(** The text of [sys_map_ro], copied with its nul. *)
Definition ro_msg : list Z := bytes_of "mensaje solo lectura".
Definition sys_map_ro (c : nat) : M K (option Z) :=
  let! va := argaddr c 0 in
  let va := PGROUNDDOWN va in
  let! i := curproc c in
  let! p := pt i in
  let! mapped := on_km (ismapped (pagetable p) va) in
  if c_true mapped then ret (Some (u64 (-1)))
  else
    let! mem := on_km kalloc in
    if mem =? 0 then ret (Some (u64 (-1)))
    else
      on_km (zero_page mem) ;;
      on_km (modify (fun k => set_phys (put_bytes (phys k) mem (str_upto 20 ro_msg ++ [0])) k)) ;;
      let! r := on_km (mappages (pagetable p) va PGSIZE mem (Z.lor PTE_R PTE_U)) in
      if negb (r =? 0) then on_km (kfree mem) ;; ret (Some (u64 (-1)))
      else ret (Some 0).

Definition sys_getpfaults (c : nat) : M K (option Z) :=
  let! i := curproc c in
  let! p := pt i in
  ret (Some (u64 (page_faults p))).
Definition sys_resetpfaults (c : nat) : M K (option Z) :=
  let! i := curproc c in
  pupd i (fun p => set_extra (trace_mask p) 0 (has_region p) (region p) p) ;;
  ret (Some 0).

(** [start] of [sys_mapzero]; the size is rounded in [int] arithmetic. *)
Definition MAPZERO : Z := 1879048192.
Definition sys_mapzero (c : nat) : M K (option Z) :=
  let! i := curproc c in
  let! size := argint c 0 in
  if size <=? 0 then ret (Some (u64 (-1)))
  else
    let size := Z.land (i32 (size + PGSIZE - 1)) (Z.lnot (PGSIZE - 1)) in
    let! p := pt i in
    if c_true (has_region p) then ret (Some (u64 (-1)))
    else if u64 (MAPZERO + size) <? MAPZERO then ret (Some (u64 (-1)))
    else if TRAPFRAME <=? u64 (MAPZERO + size) then ret (Some (u64 (-1)))
    else
      pupd i (fun p => set_extra (trace_mask p) (page_faults p) 1 (Vregion MAPZERO size) p) ;;
      ret (Some MAPZERO).
End Sysproc.
