(* ===== verification/Exec.v ===== *)
(** * Loading a program: kernel/exec.c

    [kexec] for the process of a processor.  The executable's headers are read
    through the file system as bytes; a segment's pages receive the file's bytes
    in physical memory; the arguments are the strings themselves. *)
From S2P Require Import Prelude Machine Memory Kalloc Vm UserMem Bytes Bio Log Fs File Spinlock Proc Kernel Sysarg.

Definition ELF_MAGIC : Z := 1179403647.
Definition ELF_PROG_LOAD : Z := 1.
Definition ELFHDR : nat := 64.  (* sizeof(struct elfhdr) *)
Definition PROGHDR : nat := 56. (* sizeof(struct proghdr) *)

Record elfhdr : Type := Elfhdr { emagic : Z; entry : Z; phoff : Z; phnum : Z }.
Definition elfhdr_of (bs : list Z) : elfhdr :=
  Elfhdr (get_le 4 bs 0) (get_le 8 bs 24) (get_le 8 bs 32) (get_le 2 bs 56).
Record proghdr : Type := Proghdr { phtype : Z; phflags : Z; phfoff : Z; vaddr : Z; filesz : Z; memsz : Z }.
Definition proghdr_of (bs : list Z) : proghdr :=
  Proghdr (get_le 4 bs 0) (get_le 4 bs 4) (get_le 8 bs 8) (get_le 8 bs 16) (get_le 8 bs 32) (get_le 8 bs 40).

Definition flags2perm (flags : Z) : Z :=
  let perm := if c_true (Z.land flags 1) then PTE_X else 0 in
  if c_true (Z.land flags 2) then Z.lor perm PTE_W else perm.

(** The last component of a path. *)
Fixpoint last_elem (s last : list Z) : list Z :=
  match s with
  | [] => last
  | ch :: s' => last_elem s' (if ch =? SLASH then s' else last)
  end.

Section Exec.
Context `{KI : KernelImage} {B : Type} {D : Type} (BCs : Z -> BufCache B).
Let K := kst (kfs B D).

Fixpoint loadseg_loop (fuel : nat) (c : nat) (pagetable va : Z) (ip : nat) (offset size i : Z) : M K Z :=
  match fuel with
  | O => out_of_fuel
  | S f =>
      if i <? size then
        let! pa := on_km (walkaddr pagetable (u64 (va + i))) in
        if pa =? 0 then panic "loadseg: address should exist"
        else
          let n := if size - i <? PGSIZE then size - i else PGSIZE in
          let! '(r, bs) := k_readi BCs c ip (u32 (offset + i)) n in
          on_km (modify (fun k => set_phys (put_bytes (phys k) pa bs) k)) ;;
          if negb (r =? n) then ret (-1)
          else loadseg_loop f c pagetable va ip offset size (u32 (i + PGSIZE))
      else ret 0
  end.
Definition loadseg (c : nat) (pagetable va : Z) (ip : nat) (offset size : Z) : M K Z :=
  loadseg_loop (S (Z.to_nat ((size + PGSIZE) / PGSIZE))) c pagetable va ip offset size 0.

(** The program headers from the [i]th on; the result is whether all segments
    were loaded, and the size reached. *)
Fixpoint load_program (n : nat) (c : nat) (ip : nat) (pagetable sz off : Z) : M K (bool * Z) :=
  match n with
  | O => ret (true, sz)
  | S n' =>
      let! '(r, bs) := k_readi BCs c ip (u32 off) (Z.of_nat PROGHDR) in
      if negb (r =? Z.of_nat PROGHDR) then ret (false, sz)
      else
        let ph := proghdr_of bs in
        let next := i32 (off + Z.of_nat PROGHDR) in
        if negb (phtype ph =? ELF_PROG_LOAD) then load_program n' c ip pagetable sz next
        else if memsz ph <? filesz ph then ret (false, sz)
        else if u64 (vaddr ph + memsz ph) <? vaddr ph then ret (false, sz)
        else if negb (vaddr ph mod PGSIZE =? 0) then ret (false, sz)
        else
          let! sz1 := on_km (uvmalloc pagetable sz (u64 (vaddr ph + memsz ph)) (flags2perm (phflags ph))) in
          if sz1 =? 0 then ret (false, sz)
          else
            let! r := loadseg c pagetable (vaddr ph) ip (u32 (phfoff ph)) (u32 (filesz ph)) in
            if r <? 0 then ret (false, sz1)
            else load_program n' c ip pagetable sz1 next
  end.

(** The argument strings onto the stack; [None] when they do not fit. *)
Fixpoint push_args (p : uvm) (pagetable stackbase : Z) (argv : list (list Z)) (sp : Z) (ustack : list Z)
    : M K (option (Z * list Z)) :=
  match argv with
  | [] => ret (Some (sp, ustack))
  | s :: argv' =>
      if MAXARG <=? Z.of_nat (length ustack) then ret None
      else
        let sp := u64 (sp - (Z.of_nat (length s) + 1)) in
        let sp := u64 (sp - sp mod 16) in
        if sp <? stackbase then ret None
        else
          let! r := on_km (copyout p pagetable sp (s ++ [0])) in
          if r <? 0 then ret None
          else push_args p pagetable stackbase argv' sp (ustack ++ [sp])
  end.

(** The label [bad]: the new page table and the inode are given back. *)
Definition exec_bad (c : nat) (pagetable sz : Z) (ip : option nat) : M K Z :=
  (if c_true pagetable then on_km (proc_freepagetable pagetable sz) else ret tt) ;;
  match ip with
  | Some i => k_iunlockput BCs c i ;; k_end_op BCs c
  | None => ret tt
  end ;;
  ret (-1).

(** [kexec] after the program is loaded: the stack, and the switch. *)
Definition exec_stack (c : nat) (path : list Z) (argv : list (list Z)) (elf : elfhdr) (pagetable sz : Z) : M K Z :=
  let! i := curproc c in
  let! p := pt i in
  let oldsz := Proc.sz p in
  let sz := PGROUNDUP sz in
  let! sz1 := on_km (uvmalloc pagetable sz (u64 (sz + (USERSTACK + 1) * PGSIZE)) PTE_W) in
  if sz1 =? 0 then exec_bad c pagetable sz None
  else
    on_km (uvmclear pagetable (u64 (sz1 - (USERSTACK + 1) * PGSIZE))) ;;
    let stackbase := u64 (sz1 - USERSTACK * PGSIZE) in
    let me := Uvm (Proc.sz p) (Proc.pagetable p) in
    let! r := push_args me pagetable stackbase argv sz1 [] in
    match r with
    | None => exec_bad c pagetable sz1 None
    | Some (sp, ustack) =>
        let argc := Z.of_nat (length ustack) in
        let sp := u64 (sp - (argc + 1) * 8) in
        let sp := u64 (sp - sp mod 16) in
        if sp <? stackbase then exec_bad c pagetable sz1 None
        else
          let! r := on_km (copyout me pagetable sp (concat (le 8 <$> (ustack ++ [0])))) in
          if r <? 0 then exec_bad c pagetable sz1 None
          else
            on_km (wr64 (trapframe p + TF_A1) sp) ;;
            pupd i (fun q => set_pname (safestrcpy_l (pname q) (last_elem path path) 16) q) ;;
            let oldpagetable := Proc.pagetable p in
            pupd i (fun q => set_sz sz1 (set_pagetable pagetable q)) ;;
            on_km (wr64 (trapframe p + TF_EPC) (entry elf)) ;;
            on_km (wr64 (trapframe p + TF_SP) sp) ;;
            on_km (proc_freepagetable oldpagetable oldsz) ;;
            ret argc
    end.

Definition kexec (c : nat) (path : list Z) (argv : list (list Z)) : M K Z :=
  let! i := curproc c in
  k_begin_op BCs c ;;
  let! ip := k_namei BCs c path in
  match ip with
  | None => k_end_op BCs c ;; ret (-1)
  | Some ip =>
      k_ilock BCs c ip ;;
      let! '(r, bs) := k_readi BCs c ip 0 (Z.of_nat ELFHDR) in
      if negb (r =? Z.of_nat ELFHDR) then exec_bad c 0 0 (Some ip)
      else
        let elf := elfhdr_of bs in
        if negb (emagic elf =? ELF_MAGIC) then exec_bad c 0 0 (Some ip)
        else
          let! pagetable := proc_pagetable i in
          if pagetable =? 0 then exec_bad c 0 0 (Some ip)
          else
            let! '(ok, sz) := load_program (Z.to_nat (phnum elf)) c ip pagetable 0 (i32 (phoff elf)) in
            if negb ok then exec_bad c pagetable sz (Some ip)
            else
              k_iunlockput BCs c ip ;;
              k_end_op BCs c ;;
              exec_stack c path argv elf pagetable sz
  end.
End Exec.
