(* ===== verification/Sysfile.v ===== *)
(** * File system calls: kernel/sysfile.c

    The handlers over the kernel's state: arguments from the trap frame, the
    process's descriptor table, and the calls of [File] and [Fs].  A call
    returns its value, or [None] when it has gone to sleep on a pipe or a
    device. *)
From S2P Require Import Prelude Machine Memory Kalloc Vm UserMem Bytes Bio Log Fs File Spinlock Proc Kernel Sysarg Exec.

(** ** kernel/fcntl.h *)

Definition DOT : list Z := [46].
Definition DOTDOT : list Z := [46; 46].
(** The lock of the pipe or device a call sleeps under. *)
Definition LDevice : lockid := LOther 2.

Section Sysfile.
Context `{KI : KernelImage} {B : Type} {D : Type} (BCs : Z -> BufCache B) (devsw : Z -> devsw_entry D).
Let K := kst (kfs B D).
Let err : M K (option Z) := ret (Some (u64 (-1))).

(** ** Descriptors *)

(** The descriptor and the open file of the [n]th argument. *)
Definition argfd (c : nat) (n : Z) : M K (option (Z * nat)) :=
  let! fd := argint c n in
  if (fd <? 0) || (NOFILE <=? fd) then ret None
  else
    let! i := curproc c in
    let! p := pt i in
    match ofile p (Z.to_nat fd) with
    | None => ret None
    | Some f => ret (Some (fd, f))
    end.

Fixpoint fdalloc_loop (i f : nat) (n fd : nat) : M K Z :=
  match n with
  | O => ret (-1)
  | S n' =>
      let! p := pt i in
      match ofile p fd with
      | None => pupd i (set_ofile fd (Some f)) ;; ret (Z.of_nat fd)
      | Some _ => fdalloc_loop i f n' (S fd)
      end
  end.
Definition fdalloc (c f : nat) : M K Z :=
  let! i := curproc c in
  fdalloc_loop i f nofile 0.

Definition k_fileclose (c f : nat) : M K unit := on_file BCs c (fun BC UM me killed => fileclose (BC := BC) me f).

(** The outcome of a transfer: its value, or sleep on the channel it waits for. *)
Definition finish (c : nat) (r : fresult) : M K (option Z) :=
  match r with
  | FDone v => ret (Some (u64 v))
  | FBlocks ch _ =>
      acquire c LDevice ;;
      sleep c (Some (CAddr ch)) LDevice ;;
      ret None
  end.

Definition sys_dup (c : nat) : M K (option Z) :=
  let! a := argfd c 0 in
  match a with
  | None => err
  | Some (_, f) =>
      let! fd := fdalloc c f in
      if fd <? 0 then err
      else on_view (filedup f) ;; ret (Some (u64 fd))
  end.
Definition sys_read (c : nat) : M K (option Z) :=
  let! p := argaddr c 1 in
  let! n := argint c 2 in
  let! a := argfd c 0 in
  match a with
  | None => err
  | Some (_, f) =>
      let! r := on_file BCs c (fun BC UM me killed => fileread devsw me killed f p n) in
      finish c r
  end.
Definition sys_write (c : nat) : M K (option Z) :=
  let! p := argaddr c 1 in
  let! n := argint c 2 in
  let! a := argfd c 0 in
  match a with
  | None => err
  | Some (_, f) =>
      let! r := on_file BCs c (fun BC UM me killed => filewrite devsw me killed f p n 0) in
      finish c r
  end.
Definition sys_close (c : nat) : M K (option Z) :=
  let! a := argfd c 0 in
  match a with
  | None => err
  | Some (fd, f) =>
      let! i := curproc c in
      pupd i (set_ofile (Z.to_nat fd) None) ;;
      k_fileclose c f ;;
      ret (Some 0)
  end.
Definition sys_fstat (c : nat) : M K (option Z) :=
  let! st := argaddr c 1 in
  let! a := argfd c 0 in
  match a with
  | None => err
  | Some (_, f) =>
      let! r := on_file BCs c (fun BC UM me killed => filestat me f st) in
      ret (Some (u64 r))
  end.

(** ** Links *)

(** The label [bad] of [sys_link]. *)
Definition link_bad (c ip : nat) : M K (option Z) :=
  k_ilock BCs c ip ;;
  k_iupd BCs c ip (fun x => set_nlink (i16 (nlink x - 1)) x) ;;
  k_iupdate BCs c ip ;;
  k_iunlockput BCs c ip ;;
  k_end_op BCs c ;;
  err.
Definition sys_link (c : nat) : M K (option Z) :=
  let! '(r0, old) := argstr c 0 MAXPATH in
  if r0 <? 0 then err
  else
    let! '(r1, new) := argstr c 1 MAXPATH in
    if r1 <? 0 then err
    else
      k_begin_op BCs c ;;
      let! ip := k_namei BCs c old in
      match ip with
      | None => k_end_op BCs c ;; err
      | Some ip =>
          k_ilock BCs c ip ;;
          let! x := k_inode ip in
          if itype x =? T_DIR then
            k_iunlockput BCs c ip ;;
            k_end_op BCs c ;;
            err
          else
            k_iupd BCs c ip (fun x => set_nlink (i16 (nlink x + 1)) x) ;;
            k_iupdate BCs c ip ;;
            k_iunlock BCs c ip ;;
            let! '(dp, name) := k_nameiparent BCs c new in
            match dp with
            | None => link_bad c ip
            | Some dp =>
                k_ilock BCs c dp ;;
                let! d := k_inode dp in
                let! x := k_inode ip in
                let! r := if idev d =? idev x then k_dirlink BCs c dp name (inum x) else ret (-1) in
                if r <? 0 then k_iunlockput BCs c dp ;; link_bad c ip
                else
                  k_iunlockput BCs c dp ;;
                  k_iput BCs c ip ;;
                  k_end_op BCs c ;;
                  ret (Some 0)
            end
      end.

Fixpoint isdirempty_loop (fuel : nat) (c dp : nat) (off : Z) : M K Z :=
  match fuel with
  | O => out_of_fuel
  | S f =>
      let! d := k_inode dp in
      if off <? isize d then
        let! '(r, de) := k_readi BCs c dp off DIRENT in
        if negb (r =? DIRENT) then panic "isdirempty: readi"
        else if negb (de_inum de =? 0) then ret 0
        else isdirempty_loop f c dp (off + DIRENT)
      else ret 1
  end.
Definition isdirempty (c dp : nat) : M K Z :=
  let! d := k_inode dp in
  isdirempty_loop (S (Z.to_nat (isize d))) c dp (2 * DIRENT).

(** The label [bad] of [sys_unlink]. *)
Definition unlink_bad (c dp : nat) : M K (option Z) :=
  k_iunlockput BCs c dp ;;
  k_end_op BCs c ;;
  err.
(** [sys_unlink] once the entry at [off] of [dp] is known to name [ip]. *)
Definition unlink_entry (c dp ip : nat) (off : Z) : M K (option Z) :=
  k_ilock BCs c ip ;;
  let! x := k_inode ip in
  if nlink x <? 1 then panic "unlink: nlink < 1"
  else
    let! busy := if itype x =? T_DIR then let! e := isdirempty c ip in ret (e =? 0) else ret false in
    if (busy : bool) then k_iunlockput BCs c ip ;; unlink_bad c dp
    else
      let! r := k_writei BCs c dp (replicate (Z.to_nat DIRENT) 0) off DIRENT in
      if negb (r =? DIRENT) then panic "unlink: writei"
      else
        (if itype x =? T_DIR then
           k_iupd BCs c dp (fun d => set_nlink (i16 (nlink d - 1)) d) ;;
           k_iupdate BCs c dp
         else ret tt) ;;
        k_iunlockput BCs c dp ;;
        k_iupd BCs c ip (fun x => set_nlink (i16 (nlink x - 1)) x) ;;
        k_iupdate BCs c ip ;;
        k_iunlockput BCs c ip ;;
        k_end_op BCs c ;;
        ret (Some 0).
Definition sys_unlink (c : nat) : M K (option Z) :=
  let! '(r, path) := argstr c 0 MAXPATH in
  if r <? 0 then err
  else
    k_begin_op BCs c ;;
    let! '(dp, name) := k_nameiparent BCs c path in
    match dp with
    | None => k_end_op BCs c ;; err
    | Some dp =>
        k_ilock BCs c dp ;;
        if (namecmp name DOT =? 0) || (namecmp name DOTDOT =? 0) then unlink_bad c dp
        else
          let! e := k_dirlookup BCs c dp name in
          match e with
          | None => unlink_bad c dp
          | Some (ip, off) => unlink_entry c dp ip off
          end
    end.

(** ** Creating and opening *)

(** The label [fail] of [create]. *)
Definition create_fail (c dp ip : nat) : M K (option nat) :=
  k_iupd BCs c ip (set_nlink 0) ;;
  k_iupdate BCs c ip ;;
  k_iunlockput BCs c ip ;;
  k_iunlockput BCs c dp ;;
  ret None.
(** [create] once the new inode [ip] is allocated, locked and written. *)
Definition create_entry (c dp ip : nat) (name : list Z) (type : Z) : M K (option nat) :=
  let! x := k_inode ip in
  let! d := k_inode dp in
  let! r :=
    if type =? T_DIR then
      let! r := k_dirlink BCs c ip DOT (inum x) in
      if r <? 0 then ret (-1) else k_dirlink BCs c ip DOTDOT (inum d)
    else ret 0 in
  if r <? 0 then create_fail c dp ip
  else
    let! r := k_dirlink BCs c dp name (inum x) in
    if r <? 0 then create_fail c dp ip
    else
      (if type =? T_DIR then
         k_iupd BCs c dp (fun d => set_nlink (i16 (nlink d + 1)) d) ;;
         k_iupdate BCs c dp
       else ret tt) ;;
      k_iunlockput BCs c dp ;;
      ret (Some ip).
Definition create (c : nat) (path : list Z) (type major minor : Z) : M K (option nat) :=
  let! '(dp, name) := k_nameiparent BCs c path in
  match dp with
  | None => ret None
  | Some dp =>
      k_ilock BCs c dp ;;
      let! e := k_dirlookup BCs c dp name in
      match e with
      | Some (ip, _) =>
          k_iunlockput BCs c dp ;;
          k_ilock BCs c ip ;;
          let! x := k_inode ip in
          if (type =? T_FILE) && ((itype x =? T_FILE) || (itype x =? T_DEVICE)) then ret (Some ip)
          else k_iunlockput BCs c ip ;; ret None
      | None =>
          let! d := k_inode dp in
          let! ip := on_fs BCs c (fun BC UM me => ialloc (idev d) type) in
          match ip with
          | None => k_iunlockput BCs c dp ;; ret None
          | Some ip =>
              k_ilock BCs c ip ;;
              k_iupd BCs c ip (fun x => set_nlink 1 (set_devno (i16 major) (i16 minor) x)) ;;
              k_iupdate BCs c ip ;;
              create_entry c dp ip name type
          end
      end
  end.

(** The fields [sys_open] sets in the open file. *)
Definition opened (ip : nat) (x : inode) (omode : Z) (f : file) : file :=
  match f with
  | File _ ref _ _ pi _ off maj =>
      let rd := if c_true (Z.land omode O_WRONLY) then 0 else 1 in
      let wr := if c_true (Z.land omode O_WRONLY) || c_true (Z.land omode O_RDWR) then 1 else 0 in
      if itype x =? T_DEVICE then File FD_DEVICE ref rd wr pi (Some ip) off (imajor x)
      else File FD_INODE ref rd wr pi (Some ip) 0 maj
  end.
(** [sys_open] from the locked inode on. *)
Definition open_inode (c ip : nat) (omode : Z) : M K (option Z) :=
  let abandon := k_iunlockput BCs c ip ;; k_end_op BCs c ;; err in
  let! x := k_inode ip in
  if (itype x =? T_DEVICE) && ((imajor x <? 0) || (NDEV <=? imajor x)) then abandon
  else
    let! f := on_view filealloc in
    match f with
    | None => abandon
    | Some f =>
        let! fd := fdalloc c f in
        if fd <? 0 then k_fileclose c f ;; abandon
        else
          on_view (fupd f (opened ip x omode)) ;;
          (if c_true (Z.land omode O_TRUNC) && (itype x =? T_FILE) then
             on_fs BCs c (fun BC UM me => itrunc ip)
           else ret tt) ;;
          k_iunlock BCs c ip ;;
          k_end_op BCs c ;;
          ret (Some (u64 fd))
    end.
Definition sys_open (c : nat) : M K (option Z) :=
  let! omode := argint c 1 in
  let! '(n, path) := argstr c 0 MAXPATH in
  if n <? 0 then err
  else
    k_begin_op BCs c ;;
    if c_true (Z.land omode O_CREATE) then
      let! ip := create c path T_FILE 0 0 in
      match ip with
      | None => k_end_op BCs c ;; err
      | Some ip => open_inode c ip omode
      end
    else
      let! ip := k_namei BCs c path in
      match ip with
      | None => k_end_op BCs c ;; err
      | Some ip =>
          k_ilock BCs c ip ;;
          let! x := k_inode ip in
          if (itype x =? T_DIR) && negb (omode =? O_RDONLY) then
            k_iunlockput BCs c ip ;;
            k_end_op BCs c ;;
            err
          else open_inode c ip omode
      end.

(** The common end of [sys_mkdir] and [sys_mknod]. *)
Definition created (c : nat) (ip : option nat) : M K (option Z) :=
  match ip with
  | None => k_end_op BCs c ;; err
  | Some ip => k_iunlockput BCs c ip ;; k_end_op BCs c ;; ret (Some 0)
  end.
Definition sys_mkdir (c : nat) : M K (option Z) :=
  k_begin_op BCs c ;;
  let! '(r, path) := argstr c 0 MAXPATH in
  if r <? 0 then k_end_op BCs c ;; err
  else let! ip := create c path T_DIR 0 0 in created c ip.
Definition sys_mknod (c : nat) : M K (option Z) :=
  k_begin_op BCs c ;;
  let! major := argint c 1 in
  let! minor := argint c 2 in
  let! '(r, path) := argstr c 0 MAXPATH in
  if r <? 0 then k_end_op BCs c ;; err
  else let! ip := create c path T_DEVICE (i16 major) (i16 minor) in created c ip.

Definition sys_chdir (c : nat) : M K (option Z) :=
  let! i := curproc c in
  k_begin_op BCs c ;;
  let! '(r, path) := argstr c 0 MAXPATH in
  if r <? 0 then k_end_op BCs c ;; err
  else
    let! ip := k_namei BCs c path in
    match ip with
    | None => k_end_op BCs c ;; err
    | Some ip =>
        k_ilock BCs c ip ;;
        let! x := k_inode ip in
        if negb (itype x =? T_DIR) then
          k_iunlockput BCs c ip ;;
          k_end_op BCs c ;;
          err
        else
          k_iunlock BCs c ip ;;
          let! p := pt i in
          match cwd p with Some d => k_iput BCs c d | None => panic "kerneltrap" end ;;
          k_end_op BCs c ;;
          pupd i (set_cwd (Some ip)) ;;
          ret (Some 0)
    end.

(** ** exec and pipe *)

(** The arguments: the pages allocated for them, and the strings when all could
    be fetched. *)
Fixpoint exec_args (n : nat) (c : nat) (uargv i : Z) (pages : list Z) (argv : list (list Z))
    : M K (list Z * option (list (list Z))) :=
  match n with
  | O => ret (pages, None)
  | S n' =>
      let! uarg := fetchaddr c (u64 (uargv + 8 * i)) in
      match uarg with
      | None => ret (pages, None)
      | Some 0 => ret (pages, Some argv)
      | Some a =>
          let! pg := on_km kalloc in
          if pg =? 0 then ret (pages, None)
          else
            let! '(r, str) := fetchstr c a PGSIZE in
            if r <? 0 then ret (pages ++ [pg], None)
            else
              on_km (modify (fun k => set_phys (put_bytes (phys k) pg (str ++ [0])) k)) ;;
              exec_args n' c uargv (i + 1) (pages ++ [pg]) (argv ++ [str])
      end
  end.
Fixpoint free_pages (pages : list Z) : M K unit :=
  match pages with [] => ret tt | pg :: pages' => on_km (kfree pg) ;; free_pages pages' end.
Definition sys_exec (c : nat) : M K (option Z) :=
  let! uargv := argaddr c 1 in
  let! '(r, path) := argstr c 0 MAXPATH in
  if r <? 0 then err
  else
    let! '(pages, argv) := exec_args (Z.to_nat MAXARG) c uargv 0 [] [] in
    match argv with
    | None => free_pages pages ;; err
    | Some argv =>
        let! r := kexec BCs c path argv in
        free_pages pages ;;
        ret (Some (u64 r))
    end.

Definition sys_pipe (c : nat) : M K (option Z) :=
  let! i := curproc c in
  let! fdarray := argaddr c 0 in
  let! fs := on_file BCs c (fun BC UM me killed => pipealloc me) in
  match fs with
  | None => err
  | Some (rf, wf) =>
      let close_both := k_fileclose c rf ;; k_fileclose c wf ;; err in
      let! fd0 := fdalloc c rf in
      if fd0 <? 0 then close_both
      else
        let! fd1 := fdalloc c wf in
        if fd1 <? 0 then pupd i (set_ofile (Z.to_nat fd0) None) ;; close_both
        else
          let! p := pt i in
          let me := Uvm (sz p) (pagetable p) in
          let! e0 := on_km (copyout me (pagetable p) fdarray (le 4 (u32 fd0))) in
          let! e1 := if e0 <? 0 then ret (-1) else on_km (copyout me (pagetable p) (u64 (fdarray + 4)) (le 4 (u32 fd1))) in
          if e1 <? 0 then
            pupd i (set_ofile (Z.to_nat fd0) None) ;;
            pupd i (set_ofile (Z.to_nat fd1) None) ;;
            close_both
          else ret (Some 0)
  end.
End Sysfile.
