(* ===== verification/Syscall.v ===== *)
(** * The system-call dispatcher: kernel/syscall.c, kernel/syscall.h *)
From S2P Require Import Prelude Machine Memory Kalloc Vm UserMem Bytes Bio Log Fs Printf File Spinlock Proc Kernel Sysarg Sysproc Exec Sysfile.

(** The system calls, and their numbers. *)
Inductive sysname : Type :=
| SYS_fork | SYS_exit | SYS_wait | SYS_pipe | SYS_read | SYS_kill | SYS_exec | SYS_fstat
| SYS_chdir | SYS_dup | SYS_getpid | SYS_sbrk | SYS_pause | SYS_uptime | SYS_open | SYS_write
| SYS_mknod | SYS_unlink | SYS_link | SYS_mkdir | SYS_close | SYS_hello | SYS_trace | SYS_dumpvm
| SYS_map_ro | SYS_shmem | SYS_getpfaults | SYS_resetpfaults | SYS_mapzero.
Definition sysno (n : sysname) : Z :=
  match n with
  | SYS_fork => 1 | SYS_exit => 2 | SYS_wait => 3 | SYS_pipe => 4 | SYS_read => 5 | SYS_kill => 6
  | SYS_exec => 7 | SYS_fstat => 8 | SYS_chdir => 9 | SYS_dup => 10 | SYS_getpid => 11 | SYS_sbrk => 12
  | SYS_pause => 13 | SYS_uptime => 14 | SYS_open => 15 | SYS_write => 16 | SYS_mknod => 17 | SYS_unlink => 18
  | SYS_link => 19 | SYS_mkdir => 20 | SYS_close => 21 | SYS_hello => 22 | SYS_trace => 23 | SYS_dumpvm => 24
  | SYS_map_ro => 25 | SYS_shmem => 26 | SYS_getpfaults => 27 | SYS_resetpfaults => 28 | SYS_mapzero => 29
  end.

(** [syscall_names]. *)
Definition syscall_names : list (sysname * string) :=
  [(SYS_fork, "fork"); (SYS_exit, "exit"); (SYS_wait, "wait"); (SYS_pipe, "pipe"); (SYS_read, "read");
   (SYS_kill, "kill"); (SYS_exec, "exec"); (SYS_fstat, "fstat"); (SYS_chdir, "chdir"); (SYS_dup, "dup");
   (SYS_getpid, "getpid"); (SYS_sbrk, "sbrk"); (SYS_pause, "pause"); (SYS_uptime, "uptime"); (SYS_open, "open");
   (SYS_write, "write"); (SYS_mknod, "mknod"); (SYS_unlink, "unlink"); (SYS_link, "link"); (SYS_mkdir, "mkdir");
   (SYS_close, "close"); (SYS_hello, "hello"); (SYS_trace, "trace"); (SYS_dumpvm, "dumpvm"); (SYS_map_ro, "map_ro");
   (SYS_shmem, "shmem"); (SYS_getpfaults, "getpfaults"); (SYS_resetpfaults, "resetpfaults"); (SYS_mapzero, "mapzero")]%string.

Fixpoint table_lookup {A} (t : list (sysname * A)) (num : Z) : option A :=
  match t with [] => None | (n, a) :: t' => if sysno n =? num then Some a else table_lookup t' num end.

Section Syscall.
Context `{KI : KernelImage} {B : Type} {D : Type} (BCs : Z -> BufCache B) (devsw : Z -> devsw_entry D).
Let K := kst (kfs B D).

(** [syscalls]: the handlers by number. *)
Definition syscalls : list (sysname * (nat -> M K (option Z))) :=
  [(SYS_fork, sys_fork BCs); (SYS_exit, sys_exit BCs); (SYS_wait, sys_wait); (SYS_pipe, sys_pipe BCs);
   (SYS_read, sys_read BCs devsw); (SYS_kill, sys_kill); (SYS_exec, sys_exec BCs); (SYS_fstat, sys_fstat BCs);
   (SYS_chdir, sys_chdir BCs); (SYS_dup, sys_dup); (SYS_getpid, sys_getpid); (SYS_sbrk, sys_sbrk);
   (SYS_pause, sys_pause); (SYS_uptime, sys_uptime); (SYS_open, sys_open BCs); (SYS_write, sys_write BCs devsw);
   (SYS_mknod, sys_mknod BCs); (SYS_unlink, sys_unlink BCs); (SYS_link, sys_link BCs); (SYS_mkdir, sys_mkdir BCs);
   (SYS_close, sys_close BCs); (SYS_hello, fun _ => sys_hello); (SYS_trace, sys_trace); (SYS_dumpvm, sys_dumpvm);
   (SYS_map_ro, sys_map_ro); (SYS_shmem, sys_shmem); (SYS_getpfaults, sys_getpfaults);
   (SYS_resetpfaults, sys_resetpfaults); (SYS_mapzero, sys_mapzero)].

Definition handler (num : Z) : option (nat -> M K (option Z)) := table_lookup syscalls num.

(** The trace line of a finished call. *)
Definition trace_call (i : nat) (num a0 a1 a2 r : Z) : M K unit :=
  let! p := pt i in
  if c_true (Z.land (trace_mask p) (Z.shiftl 1 num)) then
    kprintln "trace: pid=%d name=%s syscall=%d (%s) a0=0x%lx a1=0x%lx a2=0x%lx ret=0x%lx"
      [VInt (pid p); VStr (Some (str_upto 16 (pname p))); VInt num;
       VStr (bytes_of <$> table_lookup syscall_names num); VInt a0; VInt a1; VInt a2; VInt r]
  else ret tt.

(** The end of a call that has its result [r]. *)
Definition syscall_return (i : nat) (num a0 a1 a2 r : Z) : M K unit :=
  let! p := pt i in
  on_km (wr64 (trapframe p + TF_A0) r) ;;
  trace_call i num a0 a1 a2 r.

(** The result tells whether the call is finished; if not, the process has left
    the processor, and [syscall_return] follows when its handler ends. *)
Definition syscall (c : nat) : M K bool :=
  let! i := curproc c in
  let! p := pt i in
  let! a7 := on_km (rd64 (trapframe p + TF_A7)) in
  let num := i32 a7 in
  match (if 0 <? num then handler num else None) with
  | Some h =>
      let! a0 := on_km (rd64 (trapframe p + TF_A0)) in
      let! a1 := on_km (rd64 (trapframe p + TF_A1)) in
      let! a2 := on_km (rd64 (trapframe p + TF_A2)) in
      let! r := h c in
      match r with
      | None => ret false
      | Some r => syscall_return i num a0 a1 a2 r ;; ret true
      end
  | None =>
      kprintln "%d %s: unknown sys call %d" [VInt (pid p); VStr (Some (str_upto 16 (pname p))); VInt num] ;;
      on_km (wr64 (trapframe p + TF_A0) (u64 (-1))) ;;
      ret true
  end.
End Syscall.
