(* ===== verification/Trap.v ===== *)
(** * Traps: kernel/trap.c, kernel/plic.c (claim and complete), forkret of
    kernel/proc.c

    Each processor's control registers are part of the state ([csr]); the
    hardware sets [scause], [stval], [sepc] and the interrupt controller's claim
    register before a trap routine runs.  The device handlers are those of the
    UART and the disk.  A trap that gives the processor up ends with how the
    process continues: after the timer in [usertrap_return], in a blocked system
    call, or not at all. *)
From S2P Require Import Prelude Machine Memory Kalloc Vm UserMem Bytes Bio Log Fs Printf File Spinlock Proc Kernel Sysarg Sysproc Exec Sysfile Syscall.

Definition SSTATUS_SPP : Z := Z.shiftl 1 8.
Definition SSTATUS_SPIE : Z := Z.shiftl 1 5.
(** scause: environment call from user mode, load and store page faults, and the
    two interrupts. *)
Definition SCAUSE_ECALL : Z := 8.
Definition SCAUSE_LOAD : Z := 13.
Definition SCAUSE_STORE : Z := 15.
Definition SCAUSE_EXTERNAL : Z := 2 ^ 63 + 9.
Definition SCAUSE_TIMER : Z := 2 ^ 63 + 5.

Record csr : Type := Csr {
  sepc : Z; scause : Z; stval : Z; sstatus : Z; stvec : Z; satp : Z; time : Z; stimecmp : Z; sclaim : Z
}.
Definition set_sepc v r := match r with Csr _ b c d e f g h i => Csr v b c d e f g h i end.
Definition set_sstatus v r := match r with Csr a b c _ e f g h i => Csr a b c v e f g h i end.
Definition set_stvec v r := match r with Csr a b c d _ f g h i => Csr a b c d v f g h i end.
Definition set_stimecmp v r := match r with Csr a b c d e f g _ i => Csr a b c d e f g v i end.
Definition set_sclaim v r := match r with Csr a b c d e f g h _ => Csr a b c d e f g h v end.

(** Addresses of trampoline.S, kernelvec.S and [usertrap]. *)
Record vectors : Type := Vectors { uservec : Z; kernelvec : Z; usertrap_addr : Z }.

Inductive tresult : Type :=
| ToUser (satp : Z)   (* back to user mode with this page table *)
| Yielded             (* continues in [usertrap_return] *)
| Blocked_call        (* continues in its system call *)
| Exited.

Section Trap.
Context `{KI : KernelImage} {B : Type} {D : Type} (BCs : Z -> BufCache B) (devsw : Z -> devsw_entry D).
Let K := kst (kfs B D).
Context (vec : vectors) (uartintr virtio_disk_intr : nat -> M K unit).
#[local] Instance trap_files : FileOps (kfs B D) := kernel_files BCs.

(** The kernel, the control registers and [forkret]'s static variable. *)
Record tst : Type := Tst { tk : K; csrs : nat -> csr; first : Z }.
Definition onk {A} (m : M K A) : M tst A := zoom tk (fun k s => Tst k (csrs s) (first s)) m.
Definition rcsr {A} (c : nat) (f : csr -> A) : M tst A := gets (fun s => f (csrs s c)).
Definition wcsr (c : nat) (f : csr -> csr) : M tst unit :=
  modify (fun s => Tst (tk s) (fun k => if decide (k = c) then f (csrs s c) else csrs s k) (first s)).

(** ** Devices *)

Definition plic_claim (c : nat) : M tst Z := let! v := rcsr c sclaim in ret (i32 v).
Definition plic_complete (c : nat) (irq : Z) : M tst unit := wcsr c (set_sclaim irq).

Definition clockintr (c : nat) : M tst unit :=
  (if decide (c = O) then
     onk (acquire c LTicks ;;
          modify (fun s => set_ticks (u32 (x_ticks (kf s) + 1)) s) ;;
          wakeup c TICKS ;;
          release c LTicks)
   else ret tt) ;;
  let! t := rcsr c time in
  wcsr c (set_stimecmp (u64 (t + 1000000))).

Definition devintr (c : nat) : M tst Z :=
  let! cause := rcsr c scause in
  if cause =? SCAUSE_EXTERNAL then
    let! irq := plic_claim c in
    (if irq =? UART0_IRQ then onk (uartintr c)
     else if irq =? VIRTIO0_IRQ then onk (virtio_disk_intr c)
     else if c_true irq then onk (kprintln "unexpected interrupt irq=%d" [VInt irq])
     else ret tt) ;;
    (if c_true irq then plic_complete c irq else ret tt) ;;
    ret 1
  else if cause =? SCAUSE_TIMER then clockintr c ;; ret 2
  else ret 0.

(** ** Returning to user mode *)

Definition prepare_return (c : nat) : M tst unit :=
  let! i := onk (curproc c) in
  onk (on_cpu c Cpu.intr_off) ;;
  wcsr c (set_stvec (u64 (TRAMPOLINE + (uservec vec - trampoline)))) ;;
  let! p := onk (pt i) in
  let! sp := rcsr c satp in
  onk (on_km (wr64 (trapframe p + TF_KERNEL_SATP) sp)) ;;
  onk (on_km (wr64 (trapframe p + TF_KERNEL_SP) (u64 (kstack p + PGSIZE)))) ;;
  onk (on_km (wr64 (trapframe p + TF_KERNEL_TRAP) (usertrap_addr vec))) ;;
  onk (on_km (wr64 (trapframe p + TF_KERNEL_HARTID) (Z.of_nat c))) ;;
  let! x := rcsr c sstatus in
  wcsr c (set_sstatus (Z.lor (Z.land x (u64 (Z.lnot SSTATUS_SPP))) SSTATUS_SPIE)) ;;
  let! epc := onk (on_km (rd64 (trapframe p + TF_EPC))) in
  wcsr c (set_sepc epc).

(** The end of [usertrap]; a process that yielded to the timer continues here. *)
Definition usertrap_return (c : nat) : M tst tresult :=
  let! i := onk (curproc c) in
  prepare_return c ;;
  let! p := onk (pt i) in
  ret (ToUser (MAKE_SATP (pagetable p))).

(** ** Page faults *)

Definition report_fault (c i : nat) (sc badva : Z) : M tst unit :=
  let! p := onk (pt i) in
  let! pc := rcsr c sepc in
  onk (kprintln "page fault: pid=%d scause=%d stval=0x%lx sepc=0x%lx" [VInt (pid p); VInt sc; VInt badva; VInt pc]) ;;
  onk (setkilled c i).
Definition count_fault (i : nat) : M K unit :=
  pupd i (fun p => set_extra (trace_mask p) (i32 (page_faults p + 1)) (has_region p) (region p) p).
Definition in_region (p : proc) (badva : Z) : bool :=
  c_true (has_region p) && (rstart (region p) <=? badva) && (badva <? u64 (rstart (region p) + rsize (region p))).

Definition page_fault (c i : nat) (badva sc : Z) : M tst unit :=
  let va := PGROUNDDOWN badva in
  let! p := onk (pt i) in
  if in_region p badva then
    let! mapped := onk (on_km (ismapped (pagetable p) va)) in
    if c_true mapped then report_fault c i sc badva
    else
      let! mem := onk (on_km kalloc) in
      if mem =? 0 then report_fault c i sc badva
      else
        onk (on_km (modify (fun k => set_phys (fill_range (phys k) mem 65 PGSIZE) k))) ;;
        let! r := onk (on_km (mappages (pagetable p) va PGSIZE mem (Z.lor (Z.lor PTE_R PTE_W) PTE_U))) in
        if negb (r =? 0) then
          onk (on_km (kfree mem)) ;;
          report_fault c i sc badva
        else
          onk (count_fault i) ;;
          onk (kprintln "mapzero alloc: pid=%d scause=%d stval=0x%lx" [VInt (pid p); VInt sc; VInt badva])
  else
    let! r := onk (on_km (vmfault (Uvm (sz p) (pagetable p)) (pagetable p) badva (sc =? 13))) in
    if negb (r =? 0) then
      onk (count_fault i) ;;
      onk (kprintln "lazy alloc: pid=%d scause=%d stval=0x%lx" [VInt (pid p); VInt sc; VInt badva])
    else report_fault c i sc badva.

(** ** usertrap *)

(** What follows the handling of the cause: exit if killed, yield after a timer
    interrupt, otherwise back to user mode. *)
Definition usertrap_tail (c i : nat) (which_dev : Z) : M tst tresult :=
  let! k := onk (killed c i) in
  if c_true k then onk (kexit c (-1)) ;; ret Exited
  else if which_dev =? 2 then onk (yield c) ;; ret Yielded
  else usertrap_return c.

Definition usertrap (c : nat) : M tst tresult :=
  let! st := rcsr c sstatus in
  if c_true (Z.land st SSTATUS_SPP) then panic "usertrap: not from user mode"
  else
    wcsr c (set_stvec (kernelvec vec)) ;;
    let! i := onk (curproc c) in
    let! p := onk (pt i) in
    let! pc := rcsr c sepc in
    onk (on_km (wr64 (trapframe p + TF_EPC) pc)) ;;
    let! cause := rcsr c scause in
    if cause =? SCAUSE_ECALL then
      let! k := onk (killed c i) in
      if c_true k then onk (kexit c (-1)) ;; ret Exited
      else
        onk (on_km (wr64 (trapframe p + TF_EPC) (u64 (pc + 4)))) ;;
        onk (on_cpu c Cpu.intr_on) ;;
        let! done := onk (syscall BCs devsw c) in
        if negb done then ret Blocked_call
        else usertrap_tail c i 0
    else
      let! which_dev := devintr c in
      (if c_true which_dev then ret tt
       else
         let! badva := rcsr c stval in
         if (cause =? SCAUSE_LOAD) || (cause =? SCAUSE_STORE) then page_fault c i badva (i32 cause)
         else
           onk (kprintln "usertrap(): unexpected scause 0x%lx pid=%d" [VInt cause; VInt (pid p)]) ;;
           onk (kprintln "            sepc=0x%lx stval=0x%lx" [VInt pc; VInt badva]) ;;
           onk (setkilled c i)) ;;
      usertrap_tail c i which_dev.

(** ** kerneltrap *)

(** The result tells whether the processor was given up; the registers are
    restored when the process is back. *)
Definition kerneltrap (c : nat) : M tst bool :=
  let! pc := rcsr c sepc in
  let! st := rcsr c sstatus in
  let! cause := rcsr c scause in
  if negb (c_true (Z.land st SSTATUS_SPP)) then panic "kerneltrap: not from supervisor mode"
  else
    let! on := onk (on_cpu c Cpu.intr_get) in
    if (on : bool) then panic "kerneltrap: interrupts enabled"
    else
      let! which_dev := devintr c in
      if which_dev =? 0 then
        let! tv := rcsr c stval in
        onk (kprintln "scause=0x%lx sepc=0x%lx stval=0x%lx" [VInt cause; VInt pc; VInt tv]) ;;
        panic "kerneltrap"
      else
        let! p := if which_dev =? 2 then onk (myproc c) else ret None in
        if bool_decide (p <> None) then onk (yield c) ;; ret true
        else
          wcsr c (set_sepc pc) ;;
          wcsr c (set_sstatus st) ;;
          ret false.

(** ** forkret, after it has released the process's lock *)

Definition INIT : list Z := bytes_of "/init".
Definition forkret (c : nat) : M tst tresult :=
  let! i := onk (curproc c) in
  let! fst := gets first in
  (if c_true fst then
     onk (on_fs BCs c (fun BC UM me => fsinit me ROOTDEV)) ;;
     modify (fun s => Tst (tk s) (csrs s) 0) ;;
     let! a0 := onk (kexec BCs c INIT [INIT]) in
     let! p := onk (pt i) in
     onk (on_km (wr64 (trapframe p + TF_A0) (u64 a0))) ;;
     if u64 a0 =? u64 (-1) then panic "exec" else ret tt
   else ret tt) ;;
  prepare_return c ;;
  let! p := onk (pt i) in
  ret (ToUser (MAKE_SATP (pagetable p))).
End Trap.
Arguments tst B D : clear implicits.
