(* ===== verification/TrapProps.v ===== *)
(** * What a page fault of a user program leads to

    The contract of the page-fault branch of [usertrap]: the access is served by
    one fresh page, or the process is marked for killing and its address space
    is as it was. *)
From S2P Require Import Prelude Machine Memory Kalloc Vm VmTables VmMap VmUser VmGrow VmProps UserMem Bytes Bio Log Fs Printf File Spinlock Proc ProcInv ProcProps Kernel Trap.

(** ** Printing numbers always succeeds *)

Definition zeros (zs : list Z) : list Z := (fun _ => 0) <$> zs.

Lemma conv_int_some digits putc f base sign used z args :
  base = 10 \/ base = 16 -> (- 2 ^ 63 <= f z < 2 ^ 63) \/ (sign = 0 /\ 0 <= f z < 2 ^ 64) ->
  exists o, conv_int digits putc f base sign used (VInt z :: args) = Some (o, used, args).
Proof.
  intros Hb Hf. destruct (printint_ok digits putc (f z) base sign Hb Hf) as (ds & E & _).
  unfold conv_int. rewrite E. by eexists.
Qed.
Lemma i64_bounds z : - 2 ^ 63 <= i64 z < 2 ^ 63.
Proof. unfold i64. pose proof (Z.mod_pos_bound (z + 2 ^ 63) (2 ^ 64)). lia. Qed.

(** With numbers for arguments, whether a conversion succeeds and what it uses
    does not depend on the numbers. *)
Lemma conversion_numbers digits putc c0 c1 c2 zs o used args :
  conversion digits putc c0 c1 c2 (VInt <$> zeros zs) = Some (o, used, args) ->
  exists o' zs', args = VInt <$> zeros zs' /\ conversion digits putc c0 c1 c2 (VInt <$> zs) = Some (o', used, VInt <$> zs').
Proof.
  assert (Hc : forall f base sign used' o used args, base = 10 \/ base = 16 ->
    (forall z, (- 2 ^ 63 <= f z < 2 ^ 63) \/ (sign = 0 /\ 0 <= f z < 2 ^ 64)) ->
    conv_int digits putc f base sign used' (VInt <$> zeros zs) = Some (o, used, args) ->
    exists o' zs', args = VInt <$> zeros zs' /\ conv_int digits putc f base sign used' (VInt <$> zs) = Some (o', used, VInt <$> zs')).
  { clear. intros f base sign used' o used args Hb Hf. destruct zs as [|z zs]; [done|].
    cbn [zeros fmap list_fmap]. intros H.
    destruct (conv_int_some digits putc f base sign used' 0 (VInt <$> zeros zs) Hb (Hf 0)) as (o0 & E0).
    destruct (conv_int_some digits putc f base sign used' z (VInt <$> zs) Hb (Hf z)) as (o1 & E1).
    unfold zeros in E0. rewrite E0 in H. simplify_eq. exists o1, zs. by rewrite <- E1. }
  pose proof (fun z => i32_range z) as Hi. pose proof (fun z => u32_range z) as Hu. pose proof i64_bounds as Hl.
  unfold is_i32, is_u32 in *. unfold conversion.
  assert (H32 : forall z, (- 2 ^ 63 <= i32 z < 2 ^ 63) \/ (1 = 0 /\ 0 <= i32 z < 2 ^ 64)) by (intros z; specialize (Hi z); lia).
  assert (H64 : forall sign z, (- 2 ^ 63 <= i64 z < 2 ^ 63) \/ (sign = 0 /\ 0 <= i64 z < 2 ^ 64)) by (intros ? z; specialize (Hl z); lia).
  assert (HU : forall z, (- 2 ^ 63 <= u32 z < 2 ^ 63) \/ (0 = 0 /\ 0 <= u32 z < 2 ^ 64)) by (intros z; specialize (Hu z); lia).
  repeat (case_match; [eapply Hc; eauto; fail|]). clear.
  repeat (case_match; [destruct zs as [|z zs]; intros; simplify_eq/=; eexists _, zs; split; reflexivity|]).
  case_match; intros; simplify_eq; eexists _, zs; split; reflexivity.
Qed.
Lemma kprintf_loop_numbers digits putc fmt fuel : forall i zs,
  is_Some (kprintf_loop digits putc fuel fmt i (VInt <$> zeros zs)) ->
  is_Some (kprintf_loop digits putc fuel fmt i (VInt <$> zs)).
Proof.
  induction fuel as [|fuel IH]; intros i zs; [done|]. cbn [kprintf_loop].
  destruct (_ =? 0); [by intros; eexists|]. destruct (negb _).
  { intros [o H]. case_match eqn:E; [|done]. destruct (IH (i + 1)%nat zs) as [o' ->]; [by rewrite E; eexists|by eexists]. }
  destruct (_ =? 0); [by intros; eexists|]. intros [o H].
  destruct (conversion _ _ _ _ _ (VInt <$> zeros zs)) as [[[o1 used] args']|] eqn:E1; [|done].
  destruct (conversion_numbers _ _ _ _ _ _ _ _ _ E1) as (o2 & zs' & -> & E2). rewrite E2.
  destruct (IH (i + 1 + used + 1)%nat zs') as [o' ->]; [|by eexists].
  destruct (kprintf_loop _ _ _ _ _ (VInt <$> zeros zs')); [by eexists|done].
Qed.
Lemma kernel_printf_numbers fmt zs :
  is_Some (kernel_printf fmt (VInt <$> zeros zs)) -> is_Some (kernel_printf fmt (VInt <$> zs)).
Proof. apply kprintf_loop_numbers. Qed.

(** ** The page-fault branch *)

Section Fault.
Context `{KI : KernelImage, KIO : !KernelImageOk} {B D : Type}.
Implicit Types (s : tst B D) (k : kst (kfs B D)).

Lemma onk_wp {A} (m : M (kst (kfs B D)) A) Q s :
  wp m (fun a k => Q a (Tst k (csrs s) (first s))) (tk s) -> wp (onk m) Q s.
Proof. unfold onk. by rewrite wp_zoom. Qed.
Lemma kprintln_wp fmt zs Q k :
  is_Some (kernel_printf (bytes_of fmt ++ [10]) (VInt <$> zeros zs)) ->
  (forall out, Q tt (set_out out k)) -> wp (kprintln fmt (VInt <$> zs)) Q k.
Proof.
  intros Hf HQ. unfold kprintln, kprint. destruct (kernel_printf_numbers _ _ Hf) as [o ->]. wp_step. apply HQ.
Qed.

(** The processor holds no lock of the process and its lock nesting is sane. *)
Definition can_lock (c i : nat) k : Prop := Cpu.cpu_ok (harts k c) /\ locks k (LProc i) = None.
Lemma setkilled_wp c i Q k :
  can_lock c i k ->
  (forall k', km k' = km k -> procs k' = at_proc (procs k) i (set_pkilled 1) -> (forall lk, locks k' lk = locks k lk) -> Q tt k') ->
  wp (setkilled c i) Q k.
Proof.
  intros [Hc Hl] HQ. unfold setkilled. wp_step. apply kacquire_wp; [done..|]. unfold pupd. wp_steps.
  destruct Hc as [Hc1 Hc2].
  apply krelease_wp; cbn [set_hart set_locks set_procs locks harts]; rewrite ?decide_True by done; cbn [Cpu.noff Cpu.sie];
    [done|lia|done|].
  apply HQ; [done..|]. intros lk. cbn. destruct (decide (lk = LProc i)) as [->|]; done.
Qed.

(** The process is marked, its memory untouched. *)
Definition doomed (i : nat) (s s' : tst B D) : Prop :=
  procs (tk s') = at_proc (procs (tk s)) i (set_pkilled 1) /\ (forall lk, locks (tk s') lk = locks (tk s) lk).
Lemma report_fault_wp c i sc badva (Q : unit -> tst B D -> Prop) s :
  can_lock c i (tk s) ->
  (forall s', km (tk s') = km (tk s) -> doomed i s s' -> Q tt s') ->
  wp (report_fault c i sc badva) Q s.
Proof.
  intros Hc HQ. unfold report_fault. wp_step. apply onk_wp. unfold pt.
  wp_step. unfold rcsr. wp_steps. apply onk_wp. cbn [tk csrs first].
  apply (kprintln_wp _ [pid (procs (tk s) i); sc; badva; sepc (csrs s c)]); [by eexists; vm_compute|].
  intros out. apply onk_wp, setkilled_wp; [exact Hc|]. intros k' H1 H2 H3.
  apply HQ; [exact H1|]. split; [exact H2|exact H3].
Qed.

(** The page is one taken from the free list [l], mapped with [perm], every byte
    of it [v]. *)
Definition filled (m : memory) (root : Z) (l : list Z) (perm v va : Z) : Prop :=
  exists pg, pg ∈ l /\ tr m root va = Some (mkpte pg perm) /\ forall x, in_page pg x -> m x = v.
Definition counted (p : proc) : proc :=
  set_extra (trace_mask p) (i32 (page_faults p + 1)) (has_region p) (region p) p.
(** The two ends of a fault. *)
Definition killed_unchanged (i : nat) (root : Z) (s s' : tst B D) : Prop :=
  procs (tk s') = at_proc (procs (tk s)) i (set_pkilled 1) /\
  forall va', 0 <= va' < MAXVA -> tr (phys (km (tk s'))) root va' = tr (phys (km (tk s))) root va'.
Definition served (i : nat) (root : Z) (l : list Z) (v badva : Z) (s s' : tst B D) : Prop :=
  procs (tk s') = at_proc (procs (tk s)) i counted /\
  forall va', 0 <= va' < MAXVA ->
    if va' / PGSIZE =? badva / PGSIZE then filled (phys (km (tk s'))) root l perm_vmfault v va'
    else tr (phys (km (tk s'))) root va' = tr (phys (km (tk s))) root va'.
Definition fault_post (i : nat) (root : Z) (l : list Z) (v badva : Z) (can : Prop) (s s' : tst B D) : Prop :=
  exists l', as_step no_page (km (tk s)) (km (tk s')) root l l' /\ (forall lk, locks (tk s') lk = locks (tk s) lk) /\
    (killed_unchanged i root s s' \/ can /\ served i root l v badva s s').

(** The allocation of the mapzero branch is [alloc_map]. *)
Lemma region_alloc root va perm v (X Y : M (tst B D) unit) s :
  (let! mem := onk (on_km kalloc) in
   if mem =? 0 then X
   else
     onk (on_km (modify (fun h => set_phys (fill_range (phys h) mem v PGSIZE) h))) ;;
     let! r := onk (on_km (mappages root va PGSIZE mem perm)) in
     if negb (r =? 0) then onk (on_km (kfree mem)) ;; X else Y) s =
  (let! ok := onk (on_km (alloc_map (fun pg m => fill_range m pg v PGSIZE) (ret false) (ret false) (fun _ => ret true) root va perm)) in
   if (ok : bool) then Y else X) s.
Proof.
  unfold alloc_map, onk, on_km, zoom, bind, modify, ret.
  repeat (case_match; simplify_eq/=; try done).
Qed.

Lemma onkm_wp {A} (m : M kmem A) (Q : A -> tst B D -> Prop) s :
  wp m (fun a h => forall s', tk s' = Kst h (kf (tk s)) (procs (tk s)) (nextpid (tk s)) (initproc (tk s)) (cproc (tk s)) (harts (tk s)) (locks (tk s)) ->
    csrs s' = csrs s -> Q a s') (km (tk s)) -> wp (onk (on_km m)) Q s.
Proof.
  intros H. apply onk_wp. unfold on_km. rewrite wp_zoom. eapply wp_mono; [exact H|]. cbn beta. intros a h HQ. by apply HQ.
Qed.
Lemma count_wp i fmt zs (Q : unit -> tst B D -> Prop) s :
  is_Some (kernel_printf (bytes_of fmt ++ [10]) (VInt <$> zeros zs)) ->
  (forall s', km (tk s') = km (tk s) -> procs (tk s') = at_proc (procs (tk s)) i counted ->
     locks (tk s') = locks (tk s) -> Q tt s') ->
  wp (onk (count_fault i) ;; onk (kprintln fmt (VInt <$> zs))) Q s.
Proof.
  intros Hf HQ. wp_step. apply onk_wp. unfold count_fault, pupd. wp_step. apply onk_wp, kprintln_wp; [done|].
  intros out. by apply HQ.
Qed.
Lemma fault_killed c i root l v badva can sc s0 s :
  kmem_inv (km (tk s0)) l -> as_inv (phys (km (tk s0))) root l -> can_lock c i (tk s) ->
  procs (tk s) = procs (tk s0) -> locks (tk s) = locks (tk s0) ->
  (exists l', as_step no_page (km (tk s0)) (km (tk s)) root l l') ->
  (forall va', 0 <= va' < MAXVA -> tr (phys (km (tk s))) root va' = tr (phys (km (tk s0))) root va') ->
  wp (report_fault c i sc badva) (fun _ s' => fault_post i root l v badva can s0 s') s.
Proof.
  intros HK Has Hc Hp Hl [l' St] Ht. apply report_fault_wp; [done|]. intros s' Hm [Hp' Hl'].
  exists l'. rewrite Hm. split; [done|]. split; [intros lk; by rewrite Hl', Hl|]. left. split; [by rewrite Hp', Hp|].
  by rewrite Hm.
Qed.

(** The page of a user address. *)
Lemma round_user va :
  in_user va ->
  page_aligned (PGROUNDDOWN va) /\ in_user (PGROUNDDOWN va) /\ PGROUNDDOWN va / PGSIZE = va / PGSIZE /\
  forall m root, mapped m root (PGROUNDDOWN va) = mapped m root va.
Proof.
  intros Hu. destruct (PGROUNDDOWN_bounds va) as (Hdb & Hda & Hd0); [unfold in_user in Hu; mlia|].
  assert (Hdu : in_user (PGROUNDDOWN va)) by (unfold in_user in *; lia).
  assert (Hdp : PGROUNDDOWN va / PGSIZE = va / PGSIZE)
    by (symmetry; apply Z.eqb_eq; rewrite div_page_range by done; case_range; done || lia).
  split_and!; [done..|]. intros m root. unfold mapped.
  rewrite (pte_of_same_page m root va (PGROUNDDOWN va)); [done| | |done]; by apply in_user_MAXVA.
Qed.
Lemma frame_fill_any v pg m : frame (eq pg) m (fill_range m pg v PGSIZE).
Proof. apply frame_fill. Qed.

(** The mapzero branch, once the page is known not to be mapped. *)
Lemma region_wp c i root badva sc s l fmt zs (can : Prop) :
  can -> can_lock c i (tk s) -> kmem_inv (km (tk s)) l -> as_inv (phys (km (tk s))) root l -> in_user badva ->
  mapped (phys (km (tk s))) root badva = false ->
  is_Some (kernel_printf (bytes_of fmt ++ [10]) (VInt <$> zeros zs)) ->
  wp (let! ok := onk (on_km (alloc_map (fun pg m => fill_range m pg 65 PGSIZE) (ret false) (ret false) (fun _ => ret true)
        root (PGROUNDDOWN badva) (Z.lor (Z.lor PTE_R PTE_W) PTE_U))) in
      if (ok : bool) then onk (count_fault i) ;; onk (kprintln fmt (VInt <$> zs)) else report_fault c i sc badva)
    (fun _ s' => fault_post i root l 65 badva can s s') s.
Proof.
  intros Hcan Hc HK Has Hu Hm Hf. destruct (round_user badva Hu) as (Hda & Hdu & Hdp & Hmp).
  assert (Hkill : forall s1, can_lock c i (tk s1) -> procs (tk s1) = procs (tk s) -> locks (tk s1) = locks (tk s) ->
    (exists l', as_step no_page (km (tk s)) (km (tk s1)) root l l') ->
    (forall va', 0 <= va' < MAXVA -> pte_of (phys (km (tk s1))) root va' = pte_of (phys (km (tk s))) root va') ->
    wp (report_fault c i sc badva) (fun _ s' => fault_post i root l 65 badva can s s') s1).
  { intros s1 H1 H2 H3 H4 H5. apply fault_killed; [done..|]. intros. by apply tr_ext, H5. }
  wp_step. apply onkm_wp.
  apply (alloc_map_wp _ _ _ _ (frame_fill_any 65) _ l _ _ _ _ HK Has Hda Hdu); [by split|by rewrite Hmp|..].
  - intros ->. wp_step. intros s1 E Ec. apply Hkill; rewrite E; try done. exists []. by apply as_step_refl.
  - intros h l' St Hpte. wp_step. intros s1 E Ec. apply Hkill; rewrite E; try done. by exists l'.
  - intros h l' pg m1 St Hl Hl1 Hn Hpte _ Hz. wp_step. intros s1 E Ec.
    assert (Hpgv : valid_page pg) by (pose proof (ki_valid _ _ HK) as HFa; rewrite Forall_forall in HFa; by apply HFa).
    destruct (valid_page_range pg Hpgv) as (Hp0 & _ & Hppa).
    apply count_wp; [done|]. intros s2 Hm2 Hp2 Hl2. exists l'. rewrite Hm2, E. cbn [km].
    split; [done|]. split; [intros lk; by rewrite Hl2, E|]. right. split; [done|]. split; [by rewrite Hp2, E|].
    rewrite Hm2, E. cbn [km]. intros va' Hva'. specialize (Hpte va' Hva'). rewrite Hdp in Hpte.
    destruct (_ =? _); [|by apply tr_ext]. exists pg. split_and!; [done|by apply tr_mkpte|].
    intros x Hx. rewrite Hz by done. apply fill_range_in. by unfold in_page in Hx.
Qed.

(** C24: a load or store fault of a user program is answered in one of two ways.
    Served: the address was below the process size or in its mapzero region and not
    mapped, the page of the address is now a fresh page of the allocator, readable
    and writable by the user, holding zeros (or the byte 'A' in a mapzero region),
    every other translation is as before and the process has one more page fault.
    Killed: the process is marked for killing and no translation changed.  Either
    way the allocator and the page table stay well formed and no lock is kept. *)
Theorem page_fault_serves_or_kills c i badva sc s l :
  let p := procs (tk s) i in
  let m := phys (km (tk s)) in
  can_lock c i (tk s) -> kmem_inv (km (tk s)) l -> as_inv m (pagetable p) l ->
  0 <= badva -> sz p <= TRAPFRAME -> (in_region p badva = true -> badva < TRAPFRAME) ->
  wp (page_fault c i badva sc) (fun _ s' =>
    fault_post i (pagetable p) l (if in_region p badva then 65 else 0) badva
      ((in_region p badva = true \/ badva < sz p) /\ mapped m (pagetable p) badva = false) s s') s.
Proof.
  intros p m Hc HK Has Hb Hsz Hreg. unfold page_fault. wp_step. apply onk_wp. unfold pt. wp_step. fold p.
  assert (Hkill : forall v can s1, tk s1 = tk s -> wp (report_fault c i sc badva) (fun _ s' => fault_post i (pagetable p) l v badva can s s') s1)
    by (intros v can s1 E; apply fault_killed; rewrite ?E; [done..|exists l; by apply as_step_refl|done]).
  replace (Tst (tk s) (csrs s) (first s)) with s by by destruct s.
  destruct (in_region p badva) eqn:Er.
  - assert (Hu : in_user badva) by (unfold in_user; auto).
    destruct (round_user badva Hu) as (Hda & Hdu & Hdp & Hmp).
    wp_step. apply onkm_wp. unfold wp at 1. rewrite (ismapped_spec _ _ l) by (apply Has || by apply in_user_MAXVA). fold m. rewrite Hmp.
    intros s1 E Ec. replace (Kst _ _ _ _ _ _ _ _) with (tk s) in E by by destruct (tk s).
    destruct (mapped m (pagetable p) badva) eqn:Em; [by apply Hkill|]. change (c_true 0) with false. cbv iota.
    unfold wp. rewrite region_alloc.
    eapply (wp_mono _ (fun _ s' => fault_post i (pagetable p) l 65 badva True s1 s')).
    + apply (region_wp c i (pagetable p) badva sc s1 l _ [pid p; sc; badva]); rewrite ?E; done.
    + intros _ s' (l' & H1 & H2 & H3). unfold fault_post, killed_unchanged, served in *. rewrite E in *. exists l'. split_and!; [done..|].
      destruct H3 as [H3|[_ H3]]; [by left|right]. split; [|done]. split; [by left|done].
  - wp_step. apply onkm_wp. eapply wp_mono; [by apply (vmfault_wp (km (tk s)) l (Uvm (sz p) (pagetable p)))|].
    cbn [u_sz u_pagetable]. cbn beta. intros r h Hr s1 E Ec. fold m in Hr.
    destruct (Z.leb_spec (sz p) badva) as [Hge|Hlt]; cbn [orb] in Hr.
    { destruct Hr as [-> ->]. cbn. apply Hkill. rewrite E. by destruct (tk s). }
    destruct (mapped m (pagetable p) badva) eqn:Em.
    { destruct Hr as [-> ->]. cbn. apply Hkill. rewrite E. by destruct (tk s). }
    destruct Hr as (l' & St & [[-> Ht]|[Hr Ht]]).
    + cbn. apply fault_killed; rewrite ?E; try done. by exists l'.
    + rewrite (proj2 (Z.eqb_neq _ _) Hr). cbn [negb]. apply (count_wp i _ [pid p; sc; badva]); [by eexists; vm_compute|].
      intros s2 Hm2 Hp2 Hl2. exists l'. rewrite Hm2, E. cbn [km]. split; [done|]. split; [intros lk; by rewrite Hl2, E|].
      right. split; [by split; [right|]|]. split; [by rewrite Hp2, E|]. rewrite Hm2, E. cbn [km].
      intros va' Hva'. specialize (Ht va' Hva'). destruct (_ =? _); [|done]. by destruct Ht as [Ht _].
Qed.
End Fault.

(** ** A process with an empty address space and two pages of heap reads its heap *)

#[local] Existing Instance demo_image.
#[local] Existing Instance demo_image_ok.
Definition heap_proc : proc :=
  Proc RUNNING None 0 0 3 0 7 0 (Vregion 0 0) (Some 0%nat) 0 8192 demo_root 0 Zeroed (fun _ => None) None [].
Definition idle_files : kfs unit unit :=
  Kfs (Lst (Log 0 0 0 (Lh 0 []) 0) tt) (Sb 0 0 0 0 0 0 0 0) (fun _ => Inode 0 0 0 (SleepLock.Sl 0 0) 0 0 0 0 0 0 [])
      (fun _ => File FD_NONE 0 0 0 0 None 0 0) (fun _ => Pipe.Pipe [] 0 0 0 0) tt 0 [].
Definition heap_fault : tst unit unit :=
  Tst (Kst demo_one idle_files (fun _ => heap_proc) 4 (Some 0%nat) (fun _ => Some 1%nat) (fun _ => Cpu.Mk 0 false false) (fun _ => None))
      (fun _ => Csr 0 13 4100 0 0 0 0 0 0) 0.
Lemma page_fault_serves_or_kills_witness :
  wp (page_fault 0 1 4100 13) (fun _ s' =>
    fault_post 1 demo_root (tail demo_pages) 0 4100
      ((in_region heap_proc 4100 = true \/ 4100 < 8192) /\ mapped (phys demo_one) demo_root 4100 = false) heap_fault s') heap_fault.
Proof.
  destruct demo_one_inv as (HK & Has & _).
  apply (page_fault_serves_or_kills 0 1 4100 13 heap_fault (tail demo_pages)).
  - split; [split; cbn; lia|reflexivity].
  - exact HK.
  - exact Has.
  - lia.
  - cbn; mlia.
  - discriminate.
Defined.
