(* ===== verification/Grep.v ===== *)
(** * user/grep.c: the pattern matcher and the line filter

    Strings are lists of bytes without their nul.  The matcher is proved to
    decide the language of the pattern, given by a parser of patterns and a
    denotation; the filter is proved to print the matching lines of its input
    however [read] cuts it into pieces. *)
From S2P Require Import Prelude.

Definition CARET : Z := 94.
Definition DOLLAR : Z := 36.
Definition PERIOD : Z := 46.
Definition ASTERISK : Z := 42.
Definition NEWLINE : Z := 10.
Definition BUFSZ : nat := 1024. (* sizeof(buf) *)

(** ** The matcher *)

(** [matchhere(re, text)] for the rest of the pattern is the argument [mh]. *)
Fixpoint matchstar (mh : list Z -> bool) (c : Z) (text : list Z) : bool :=
  if mh text then true
  else
    match text with
    | [] => false
    | t :: text' => if (t =? c) || (c =? PERIOD) then matchstar mh c text' else false
    end.
Fixpoint matchhere (re text : list Z) : bool :=
  match re with
  | [] => true
  | r0 :: re1 =>
      let one :=
        match text with
        | [] => false
        | t :: text' => if (r0 =? PERIOD) || (r0 =? t) then matchhere re1 text' else false
        end in
      match re1 with
      | r1 :: re2 => if r1 =? ASTERISK then matchstar (matchhere re2) r0 text else one
      | [] => if r0 =? DOLLAR then match text with [] => true | _ => false end else one
      end
  end.
Fixpoint match_any (re text : list Z) : bool :=
  if matchhere re text then true
  else match text with [] => false | _ :: text' => match_any re text' end.
Definition match_ (re text : list Z) : bool :=
  match re with
  | r0 :: re1 => if r0 =? CARET then matchhere re1 text else match_any re text
  | [] => match_any re text
  end.

(** ** The filter *)

(** [strchr(p, '\n')]: the line before it and what follows, if there is one
    before the end of the string. *)
Fixpoint cut_line (p : list Z) : option (list Z * list Z) :=
  match p with
  | [] => None
  | c :: p' =>
      if c =? NEWLINE then Some ([], p')
      else if c =? 0 then None
      else match cut_line p' with Some (l, r) => Some (c :: l, r) | None => None end
  end.
(** The inner loop: what stays in the buffer, and what was written. *)
Fixpoint grep_lines (fuel : nat) (pattern p : list Z) : list Z * list Z :=
  match fuel with
  | O => (p, [])
  | S f =>
      match cut_line p with
      | None => (p, [])
      | Some (line, rest) =>
          let '(p', out) := grep_lines f pattern rest in
          (p', (if match_ pattern line then line ++ [NEWLINE] else []) ++ out)
      end
  end.
(** The outer loop: [held] are the [m] bytes in the buffer, [inp] what the file
    still has, [lim k] one less than the most the [k]th [read] returns.  The
    result is the output, or [None] when the iterations did not suffice. *)
Fixpoint grep_loop (fuel : nat) (pattern held inp : list Z) (lim : nat -> nat) (k : nat) : option (list Z) :=
  match fuel with
  | O => None
  | S f =>
      let n := Nat.min (Nat.min (BUFSZ - length held - 1) (S (lim k))) (length inp) in
      match n with
      | O => Some []
      | _ =>
          let buf := held ++ take n inp in
          let '(held', out) := grep_lines (length buf) pattern buf in
          match grep_loop f pattern held' (drop n inp) lim (S k) with
          | Some more => Some (out ++ more)
          | None => None
          end
      end
  end.
Definition grep (pattern inp : list Z) (lim : nat -> nat) : option (list Z) :=
  grep_loop (S (length inp)) pattern [] inp lim 0.

(** ** Patterns and what they match *)

Inductive atom : Type := Lit (c : Z) | Any.
Inductive item : Type := One (a : atom) | Many (a : atom) | End_.

Definition atom_of (c : Z) : atom := if c =? PERIOD then Any else Lit c.
Definition accepts (a : atom) (x : Z) : Prop := match a with Lit c => x = c | Any => True end.
Fixpoint parse (re : list Z) : list item :=
  match re with
  | [] => []
  | r0 :: re1 =>
      match re1 with
      | r1 :: re2 => if r1 =? ASTERISK then Many (atom_of r0) :: parse re2 else One (atom_of r0) :: parse re1
      | [] => if r0 =? DOLLAR then [End_] else [One (atom_of r0)]
      end
  end.
(** The text starts with something the items match. *)
Fixpoint starts (its : list item) (text : list Z) : Prop :=
  match its with
  | [] => True
  | One a :: its' => exists x rest, text = x :: rest /\ accepts a x /\ starts its' rest
  | Many a :: its' => exists u v, text = u ++ v /\ Forall (accepts a) u /\ starts its' v
  | End_ :: its' => text = [] /\ starts its' text
  end.
(** The meaning of a whole pattern. *)
Definition found (re text : list Z) : Prop :=
  match re with
  | r0 :: re1 => if r0 =? CARET then starts (parse re1) text else exists u v, text = u ++ v /\ starts (parse re) v
  | [] => exists u v, text = u ++ v /\ starts (parse re) v
  end.

Lemma accepts_atom_of c x : accepts (atom_of c) x <-> (x =? c) || (c =? PERIOD) = true.
Proof.
  unfold atom_of. rewrite orb_true_iff, !Z.eqb_eq. destruct (Z.eqb_spec c PERIOD); cbn; naive_solver.
Qed.

Lemma matchstar_correct mh c text :
  matchstar mh c text = true <-> exists u v, text = u ++ v /\ Forall (accepts (atom_of c)) u /\ mh v = true.
Proof.
  induction text as [|t text IH]; cbn [matchstar].
  - destruct (mh []) eqn:E; split; try done.
    + intros _. by exists [], [].
    + intros (u & v & Huv & _ & Hv). symmetry in Huv. apply app_eq_nil in Huv as [-> ->]. congruence.
  - destruct (mh (t :: text)) eqn:E; [split; [intros _; by exists [], (t :: text)|done]|].
    destruct (_ || _) eqn:Et.
    + rewrite IH. apply accepts_atom_of in Et. split.
      * intros (u & v & -> & Hu & Hv). exists (t :: u), v. split; [done|]. by split; [constructor|].
      * intros ([|x u] & v & Huv & Hu & Hv); [cbn in Huv; congruence|]. injection Huv as <- ->.
        exists u, v. by inv Hu.
    + split; [done|]. intros ([|x u] & v & Huv & Hu & Hv); [cbn in Huv; congruence|]. injection Huv as <- ->.
      inv Hu as [|? ? Hx]. apply accepts_atom_of in Hx. congruence.
Qed.

Lemma one_correct r0 re1 text :
  (match text with
   | [] => false
   | t :: text' => if (r0 =? PERIOD) || (r0 =? t) then matchhere re1 text' else false
   end = true) <->
  exists x rest, text = x :: rest /\ accepts (atom_of r0) x /\ matchhere re1 rest = true.
Proof.
  destruct text as [|t text]; [naive_solver|].
  assert (Ha : (r0 =? PERIOD) || (r0 =? t) = true <-> accepts (atom_of r0) t).
  { rewrite accepts_atom_of, orb_comm, (Z.eqb_sym r0 t). done. }
  destruct ((r0 =? PERIOD) || (r0 =? t)); naive_solver.
Qed.

Lemma matchhere_correct re text : matchhere re text = true <-> starts (parse re) text.
Proof.
  revert text. remember (length re) as n eqn:Hn. revert re Hn.
  induction (lt_wf n) as [n _ IH]. intros re -> text.
  destruct re as [|r0 re1]; [done|]. cbn [matchhere parse].
  assert (H1 : forall t, matchhere re1 t = true <-> starts (parse re1) t) by (intros t; eapply IH; [|done]; cbn; lia).
  destruct re1 as [|r1 re2].
  - destruct (r0 =? DOLLAR); [destruct text; cbn; naive_solver|].
    rewrite one_correct. cbn [starts]. setoid_rewrite H1. done.
  - destruct (r1 =? ASTERISK).
    + rewrite matchstar_correct. cbn [starts].
      assert (H2 : forall t, matchhere re2 t = true <-> starts (parse re2) t) by (intros t; eapply IH; [|done]; cbn; lia).
      setoid_rewrite H2. done.
    + rewrite one_correct. cbn [starts]. setoid_rewrite H1. done.
Qed.

Lemma match_any_correct re text :
  match_any re text = true <-> exists u v, text = u ++ v /\ starts (parse re) v.
Proof.
  induction text as [|t text IH]; cbn [match_any].
  - destruct (matchhere re []) eqn:E.
    + apply matchhere_correct in E. split; [|done]. intros _. by exists [], [].
    + split; [done|]. intros (u & v & Huv & Hv). symmetry in Huv. apply app_eq_nil in Huv as [-> ->].
      apply matchhere_correct in Hv. congruence.
  - destruct (matchhere re (t :: text)) eqn:E.
    + apply matchhere_correct in E. split; [|done]. intros _. by exists [], (t :: text).
    + rewrite IH. split.
      * intros (u & v & -> & Hv). by exists (t :: u), v.
      * intros ([|x u] & v & Huv & Hv).
        -- cbn in Huv. subst v. apply matchhere_correct in Hv. congruence.
        -- injection Huv as <- ->. by exists u, v.
Qed.

(** C20: The matcher decides the language of the pattern: for every pattern and
    text it returns, and it answers yes exactly when the text contains (with a
    leading caret: starts with) a string the pattern denotes, where a dot
    denotes any byte, a starred byte any number of repetitions, a final dollar
    the end of the text, and every other byte itself. *)
Theorem match_decides_pattern re text : match_ re text = true <-> found re text.
Proof.
  destruct re as [|r0 re1]; cbn [match_ found]; [apply match_any_correct|].
  destruct (r0 =? CARET); [apply matchhere_correct|apply match_any_correct].
Qed.

(** ** The filter prints the matching lines *)

(** The newline-terminated lines of a text, and the rest after the last one. *)
Fixpoint lines_of (l : list Z) : list (list Z) * list Z :=
  match l with
  | [] => ([], [])
  | c :: l' =>
      let '(ls, tail) := lines_of l' in
      if c =? NEWLINE then ([] :: ls, tail)
      else match ls with [] => ([], c :: tail) | w :: ls' => ((c :: w) :: ls', tail) end
  end.
Definition print_matching (pattern : list Z) (ls : list (list Z)) : list Z :=
  concat ((fun w => if match_ pattern w then w ++ [NEWLINE] else []) <$> ls).

Definition no_nul (l : list Z) : Prop := Forall (fun c => c <> 0) l.
Definition line_free (l : list Z) : Prop := Forall (fun c => c <> NEWLINE) l.

Lemma lines_of_spec l :
  Forall line_free (lines_of l).1 /\ line_free (lines_of l).2 /\
  concat ((fun w => w ++ [NEWLINE]) <$> (lines_of l).1) ++ (lines_of l).2 = l.
Proof.
  induction l as [|c l (IH1 & IH2 & IH3)]; [split_and!; constructor|].
  cbn [lines_of]. destruct (lines_of l) as [ls tail]. cbn [fst snd] in *.
  destruct (Z.eqb_spec c NEWLINE) as [->|Hc].
  - cbn. split_and!; [by constructor; [constructor|]|done|by rewrite IH3].
  - destruct ls as [|w ls]; cbn in *.
    + split_and!; [constructor|by constructor|by rewrite IH3].
    + inv IH1 as [|? ? Hw Hls]. split_and!; [by constructor; [constructor|]|done|done].
Qed.

Lemma cut_line_none p : no_nul p -> line_free p -> cut_line p = None.
Proof.
  induction p as [|c p IH]; [done|]. intros Hn Hl. inv Hn. inv Hl. cbn.
  rewrite (proj2 (Z.eqb_neq c NEWLINE)), (proj2 (Z.eqb_neq c 0)) by done. by rewrite IH.
Qed.
Lemma cut_line_some w r : no_nul w -> line_free w -> cut_line (w ++ NEWLINE :: r) = Some (w, r).
Proof.
  induction w as [|c w IH]; [done|]. intros Hn Hl. inv Hn. inv Hl. cbn.
  rewrite (proj2 (Z.eqb_neq c NEWLINE)), (proj2 (Z.eqb_neq c 0)) by done. by rewrite IH.
Qed.

Lemma grep_lines_spec fuel pattern ls tail :
  Forall line_free ls -> Forall no_nul ls -> line_free tail -> no_nul tail -> (length ls <= fuel)%nat ->
  grep_lines fuel pattern (concat ((fun w => w ++ [NEWLINE]) <$> ls) ++ tail) = (tail, print_matching pattern ls).
Proof.
  revert fuel. induction ls as [|w ls IH]; intros fuel H1 H2 H3 H4 Hf.
  - destruct fuel; cbn; [done|]. by rewrite cut_line_none.
  - destruct fuel as [|fuel]; [cbn in Hf; lia|]. inv H1. inv H2. cbn [fmap list_fmap concat grep_lines].
    rewrite <- !(assoc_L (++)). cbn [app].
    rewrite cut_line_some by done. rewrite IH by (done || (cbn in Hf; lia)). done.
Qed.

Lemma lines_of_free l : line_free l -> lines_of l = ([], l).
Proof.
  induction l as [|c l IH]; [done|]. intros H. inv H. cbn. rewrite IH by done.
  by rewrite (proj2 (Z.eqb_neq c NEWLINE)).
Qed.
Lemma lines_of_app a b :
  lines_of (a ++ b) = ((lines_of a).1 ++ (lines_of ((lines_of a).2 ++ b)).1, (lines_of ((lines_of a).2 ++ b)).2).
Proof.
  induction a as [|c a IH]; [cbn; by destruct (lines_of b)|]. cbn [app lines_of]. rewrite IH.
  destruct (lines_of a) as [ls tail]. cbn [fst snd].
  destruct (Z.eqb_spec c NEWLINE) as [->|Hc]; [done|]. destruct ls as [|w ls]; [|done].
  cbn [app fst snd lines_of]. destruct (lines_of (tail ++ b)) as [ls' tail']. cbn [fst snd].
  rewrite (proj2 (Z.eqb_neq c NEWLINE)) by done. by destruct ls'.
Qed.
(** What is held back is the beginning of the first line. *)
Lemma lines_of_prefix held l w ls :
  line_free held -> (lines_of (held ++ l)).1 = w :: ls -> (length held <= length w)%nat.
Proof.
  revert w ls. induction held as [|c held IH]; intros w ls Hf E; [cbn; lia|]. inv Hf.
  cbn in E. destruct (lines_of (held ++ l)) as [ls' tail]. rewrite (proj2 (Z.eqb_neq c NEWLINE)) in E by done.
  destruct ls' as [|w' ls']; [done|]. cbn in E. injection E as <- <-. cbn.
  specialize (IH w' ls' ltac:(done) eq_refl). lia.
Qed.
Lemma lines_of_count l : (length (lines_of l).1 <= length l)%nat.
Proof.
  induction l as [|c l IH]; [done|]. cbn [lines_of length]. destruct (lines_of l) as [ls tail]. cbn in *.
  destruct (c =? NEWLINE); [cbn; lia|]. destruct ls; cbn in *; lia.
Qed.
Lemma lines_of_nul l : no_nul l -> Forall no_nul (lines_of l).1 /\ no_nul (lines_of l).2.
Proof.
  unfold no_nul. intros H. destruct (lines_of_spec l) as (_ & _ & E). rewrite <- E in H. apply Forall_app in H as [H1 H2].
  split; [|done]. revert H1. generalize (lines_of l).1. intros ls. induction ls as [|w ls IH]; intros H1; [done|].
  cbn in H1. apply Forall_app in H1 as [Hw Hls]. apply Forall_app in Hw as [Hw _]. constructor; auto.
Qed.

Lemma grep_loop_spec fuel pattern held inp lim k :
  line_free held -> no_nul (held ++ inp) -> (length inp < fuel)%nat ->
  Forall (fun w => (length w <= BUFSZ - 2)%nat) (lines_of (held ++ inp)).1 ->
  grep_loop fuel pattern held inp lim k = Some (print_matching pattern (lines_of (held ++ inp)).1).
Proof.
  revert held inp k. induction fuel as [|fuel IH]; intros held inp k Hh Hn Hf Hlen; [lia|].
  cbn [grep_loop]. destruct (Nat.min _ (length inp)) as [|m] eqn:Em.
  - destruct (lines_of (held ++ inp)).1 as [|w ls] eqn:E; [done|]. exfalso.
    destruct inp as [|c inp].
    + rewrite app_nil_r, lines_of_free in E by done. done.
    + pose proof (lines_of_prefix _ _ _ _ Hh E). inv Hlen. unfold BUFSZ in *. cbn [length] in Em. lia.
  - set (buf := held ++ take (S m) inp).
    assert (Hsplit : held ++ inp = buf ++ drop (S m) inp) by (unfold buf; by rewrite <- (assoc_L (++)), take_drop).
    rewrite Hsplit in *. apply Forall_app in Hn as [Hnb Hnd].
    destruct (lines_of_spec buf) as (L1 & L2 & L3). destruct (lines_of_nul buf Hnb) as [N1 N2].
    rewrite <- L3 at 2. rewrite (grep_lines_spec _ pattern _ _ L1 N1 L2 N2) by apply lines_of_count.
    rewrite lines_of_app in Hlen |- *. cbn [fst] in Hlen |- *. apply Forall_app in Hlen as [_ Hlen].
    rewrite IH; [|done|apply Forall_app; done|rewrite length_drop; lia|done].
    unfold print_matching. by rewrite fmap_app, concat_app.
Qed.

(** C21: [grep] prints exactly the newline-terminated lines of its input that
    match the pattern, in order and complete, however the reads cut the input:
    for any sizes [read] returns, and input without nul bytes whose lines have at
    most 1022 bytes, the loop ends and the output is those lines. *)
Theorem grep_prints_matching_lines pattern inp lim :
  no_nul inp -> Forall (fun w => (length w <= 1022)%nat) (lines_of inp).1 ->
  grep pattern inp lim = Some (print_matching pattern (lines_of inp).1).
Proof. intros Hn Hl. apply grep_loop_spec; [constructor|done|lia|done]. Qed.

Lemma grep_prints_matching_lines_witness :
  grep [97; 46; 42; 99; 36] [97; 98; 10; 97; 98; 99; 10; 99; 10] (fun k => k) = Some [97; 98; 99; 10].
Proof.
  rewrite (grep_prints_matching_lines [97; 46; 42; 99; 36] [97; 98; 10; 97; 98; 99; 10; 99; 10] (fun k => k));
    [reflexivity|repeat constructor; discriminate|].
  cbn. repeat constructor; cbn; lia.
Defined.
