(* ===== verification/Sh.v ===== *)
(** * user/sh.c: the command parser

    The parser's pointer into the line is the text from it to the end; a token
    is its text with the distance of its end from the end of the line, which is
    where [nulterminate] writes.  [panic] prints and exits; the constructors of the
    command tree are taken to find memory, as the code does.  The mutual recursion
    follows the code with a bound on its depth that is proved to be enough. *)
From S2P Require Import Prelude Machine.

Definition MAXARGS : nat := 10.

Definition C_BAR : Z := 124.
Definition C_LPAR : Z := 40.
Definition C_RPAR : Z := 41.
Definition C_SEMI : Z := 59.
Definition C_AMP : Z := 38.
Definition C_LT : Z := 60.
Definition C_GT : Z := 62.
Definition C_PLUS : Z := 43. (* the token for >> *)
Definition C_WORD : Z := 97.

Definition whitespace : list Z := [32; 9; 13; 10; 11].
Definition symbols : list Z := [C_LT; C_BAR; C_GT; C_AMP; C_SEMI; C_LPAR; C_RPAR].
Definition isin (c : Z) (l : list Z) : bool := existsb (Z.eqb c) l.
Arguments isin : simpl never.

Record tok : Type := Tok { t_text : list Z; t_end : nat }.

(** The five kinds of [struct cmd], over the type of their strings. *)
Inductive cmd (T : Type) : Type :=
| Exec (argv : list T)
| Redir (c : cmd T) (file : T) (mode fd : Z)
| Pipe (left right : cmd T)
| List_ (left right : cmd T)
| Back (c : cmd T).
Arguments Exec {T} argv.
Arguments Redir {T} c file mode fd.
Arguments Pipe {T} left right.
Arguments List_ {T} left right.
Arguments Back {T} c.

(** ** Tokens *)

Fixpoint skip_ws (s : list Z) : list Z :=
  match s with [] => [] | c :: s' => if isin c whitespace then skip_ws s' else s end.
(** The characters of a word, and what follows. *)
Fixpoint word (s : list Z) : list Z * list Z :=
  match s with
  | [] => ([], [])
  | c :: s' =>
      if isin c whitespace || isin c symbols then ([], s)
      else let '(w, r) := word s' in (c :: w, r)
  end.
(** [gettoken]: the kind and the token. *)
Definition gettoken : M (list Z) (Z * tok) := fun s0 =>
  let s := skip_ws s0 in
  let '(ret, text, r) :=
    match s with
    | [] => (0, [], [])
    | c :: s' =>
        if isin c [C_BAR; C_LPAR; C_RPAR; C_SEMI; C_AMP; C_LT] then (c, [c], s')
        else if c =? C_GT then
          match s' with
          | c' :: s'' => if c' =? C_GT then (C_PLUS, [c; c'], s'') else (c, [c], s')
          | [] => (c, [c], s')
          end
        else let '(w, r) := word s in (C_WORD, w, r)
    end in
  Ok (ret, Tok text (length r), skip_ws r).
(** [peek]. *)
Definition peek (toks : list Z) : M (list Z) bool := fun s0 =>
  let s := skip_ws s0 in
  Ok (match s with [] => false | c :: _ => isin c toks end, s).

(** ** The grammar *)

(** A redirection: file, mode and descriptor. *)
Definition redir : Type := (tok * Z * Z)%type.
Fixpoint parseredirs_loop (fuel : nat) (rs : list redir) : M (list Z) (list redir) :=
  match fuel with
  | O => out_of_fuel
  | S f =>
      let! p := peek [C_LT; C_GT] in
      if (p : bool) then
        let! '(t, _) := gettoken in
        let! '(k, q) := gettoken in
        if negb (k =? C_WORD) then panic "missing file for redirection"
        else
          let r :=
            if t =? C_LT then [(q, O_RDONLY, 0)]
            else if t =? C_GT then [(q, Z.lor (Z.lor O_WRONLY O_CREATE) O_TRUNC, 1)]
            else if t =? C_PLUS then [(q, Z.lor O_WRONLY O_CREATE, 1)]
            else [] in
          parseredirs_loop f (rs ++ r)
      else ret rs
  end.
(** The redirections at the pointer, in order; [wrap] puts them around a command.
    In [parseexec] they go around the [execcmd] whose arguments are still being
    added. *)
Definition parseredirs : M (list Z) (list redir) :=
  let! s := get in
  parseredirs_loop (S (length s)) [].
Definition wrap {T} (c : cmd T) (rs : list (T * Z * Z)) : cmd T :=
  fold_left (fun c '(f, m, d) => Redir c f m d) rs c.

(** The argument loop of [parseexec]. *)
Fixpoint parseargs (fuel : nat) (argv : list tok) (rs : list redir) : M (list Z) (list tok * list redir) :=
  match fuel with
  | O => out_of_fuel
  | S f =>
      let! p := peek [C_BAR; C_RPAR; C_AMP; C_SEMI] in
      if (p : bool) then ret (argv, rs)
      else
        let! '(t, q) := gettoken in
        if t =? 0 then ret (argv, rs)
        else if negb (t =? C_WORD) then panic "syntax"
        else
          let argv := argv ++ [q] in
          if (MAXARGS <=? length argv)%nat then panic "too many args"
          else
            let! more := parseredirs in
            parseargs f argv (rs ++ more)
  end.

(** The loop over ampersands of [parseline]. *)
Fixpoint parseamps (fuel : nat) (c : cmd tok) : M (list Z) (cmd tok) :=
  match fuel with
  | O => out_of_fuel
  | S f =>
      let! p := peek [C_AMP] in
      if (p : bool) then gettoken ;; parseamps f (Back c) else ret c
  end.

Fixpoint parseline (fuel : nat) : M (list Z) (cmd tok) :=
  match fuel with
  | O => out_of_fuel
  | S f =>
      let! c := parsepipe f in
      let! s := get in
      let! c := parseamps (S (length s)) c in
      let! p := peek [C_SEMI] in
      if (p : bool) then
        gettoken ;;
        let! r := parseline f in
        ret (List_ c r)
      else ret c
  end
with parsepipe (fuel : nat) : M (list Z) (cmd tok) :=
  match fuel with
  | O => out_of_fuel
  | S f =>
      let! c := parseexec f in
      let! p := peek [C_BAR] in
      if (p : bool) then
        gettoken ;;
        let! r := parsepipe f in
        ret (Pipe c r)
      else ret c
  end
with parseexec (fuel : nat) : M (list Z) (cmd tok) :=
  match fuel with
  | O => out_of_fuel
  | S f =>
      let! p := peek [C_LPAR] in
      if (p : bool) then parseblock f
      else
        let! rs := parseredirs in
        let! s := get in
        let! '(argv, rs) := parseargs (S (length s)) [] rs in
        ret (wrap (Exec argv) rs)
  end
with parseblock (fuel : nat) : M (list Z) (cmd tok) :=
  match fuel with
  | O => out_of_fuel
  | S f =>
      let! p := peek [C_LPAR] in
      if negb p then panic "parseblock"
      else
        gettoken ;;
        let! c := parseline f in
        let! p := peek [C_RPAR] in
        if negb p then panic "syntax - missing )"
        else
          gettoken ;;
          let! rs := parseredirs in
          ret (wrap c rs)
  end.

(** Four calls deep for each character read, and the outermost four. *)
Definition parse_depth (s : list Z) : nat := 4 * length s + 4.
Definition parsecmd_tree (s : list Z) : outcome (cmd tok * list Z) :=
  (let! c := parseline (parse_depth s) in
   peek [] ;;
   let! s := get in
   match s with [] => ret c | _ => panic "syntax" end) s.

(** [nulterminate]: a nul at the end of every token of the tree; the end of the
    line has one already. *)
Definition nul_at (e : nat) (buf : list Z) : list Z := <[(length buf - e)%nat := 0]> buf.
Fixpoint nulterminate (c : cmd tok) (buf : list Z) : list Z :=
  match c with
  | Exec argv => fold_left (fun b t => nul_at (t_end t) b) argv buf
  | Redir c f _ _ => nul_at (t_end f) (nulterminate c buf)
  | Pipe l r | List_ l r => nulterminate r (nulterminate l buf)
  | Back c => nulterminate c buf
  end.

(** [parsecmd]: the tree, and the line with its tokens terminated. *)
Definition parsecmd (s : list Z) : outcome (cmd tok * list Z) :=
  match parsecmd_tree s with
  | Ok (c, _) => Ok (c, nulterminate c s)
  | Panic msg => Panic msg
  | Sleep ch => Sleep ch
  | Fuel => Fuel
  end.

(** ** Every line is parsed or rejected *)

Definition plain (c : Z) : bool := negb (isin c whitespace || isin c symbols).
(** [m] returns with [Q], or panics. *)
Definition swp {A} (m : M (list Z) A) (Q : A -> list Z -> Prop) (s : list Z) : Prop :=
  match m s with Ok (a, s') => Q a s' | Panic _ => True | _ => False end.
(** The strings of a tree. *)
Fixpoint strings {T} (c : cmd T) : list T :=
  match c with
  | Exec argv => argv
  | Redir c f _ _ => strings c ++ [f]
  | Pipe l r | List_ l r => strings l ++ strings r
  | Back c => strings c
  end.
(** [t] is a word of the line: plain characters up to a delimiter or the end. *)
Definition word_of (line : list Z) (t : tok) : Prop :=
  exists pre suf, line = pre ++ t_text t ++ suf /\ length suf = t_end t /\ t_text t <> [] /\
    Forall (fun c => plain c = true) (t_text t) /\ (forall c, head suf = Some c -> plain c = false).

Lemma swp_ret {A} (a : A) (Q : A -> list Z -> Prop) s : Q a s -> swp (ret a) Q s.
Proof. done. Qed.
Lemma swp_get (Q : list Z -> list Z -> Prop) s : Q s s -> swp get Q s.
Proof. done. Qed.
Lemma swp_panic {A} msg (Q : A -> list Z -> Prop) s : swp (panic msg) Q s.
Proof. done. Qed.
Lemma swp_bind {A B} (m : M (list Z) A) (k : A -> M (list Z) B) Q s :
  swp m (fun a => swp (k a) Q) s -> swp (bind m k) Q s.
Proof. unfold swp, bind. by destruct (m s) as [[a s']| | |]. Qed.
Lemma swp_mono {A} (m : M (list Z) A) (P Q : A -> list Z -> Prop) s :
  swp m P s -> (forall a s', P a s' -> Q a s') -> swp m Q s.
Proof. unfold swp. destruct (m s) as [[a s']| | |]; auto. Qed.

Lemma skip_ws_suffix s : skip_ws s `suffix_of` s.
Proof.
  induction s as [|c s IH]; [done|]. simpl. case_match; [|done]. by apply suffix_cons_r.
Qed.
Lemma skip_ws_length s : (length (skip_ws s) <= length s)%nat.
Proof. apply suffix_length, skip_ws_suffix. Qed.
Lemma skip_ws_head s c : head (skip_ws s) = Some c -> isin c whitespace = false.
Proof. induction s as [|d s IH]; [done|]. simpl. case_match eqn:E; [done|]. naive_solver. Qed.
Lemma word_spec s w r :
  word s = (w, r) -> s = w ++ r /\ Forall (fun c => plain c = true) w /\ (forall c, head r = Some c -> plain c = false).
Proof.
  revert w r. induction s as [|c s IH]; intros w r H; simpl in H; [by simplify_eq|].
  destruct (isin c whitespace || isin c symbols) eqn:E.
  - simplify_eq. repeat split; [done|]. intros d [= <-]. unfold plain. by rewrite E.
  - destruct (word s) as [w' r'] eqn:Ew. simplify_eq. destruct (IH _ _ eq_refl) as (-> & Hw & Hr).
    repeat split; [|done]. constructor; [|done]. unfold plain. by rewrite E.
Qed.
(** A character that is not blank and starts no symbol token starts a word. *)
Lemma plain_start c :
  isin c whitespace = false -> isin c [C_BAR; C_LPAR; C_RPAR; C_SEMI; C_AMP; C_LT] = false -> (c =? C_GT) = false ->
  plain c = true.
Proof.
  intros Hw Hs Hg. unfold plain. rewrite Hw. unfold isin in *. simpl in Hs |- *. rewrite !orb_false_r in Hs |- *.
  apply negb_true_iff. repeat (apply orb_false_iff in Hs; destruct Hs as [? Hs]).
  repeat (apply orb_false_iff; split); auto.
Qed.

(** What one token leaves: a shorter text, and for a word its place in the line. *)
Lemma gettoken_swp (line s : list Z) (Q : Z * tok -> list Z -> Prop) :
  s `suffix_of` line ->
  (forall k t s', s' `suffix_of` line -> (length s' <= length s)%nat ->
     (k <> 0 \/ skip_ws s <> [] -> (length s' < length s)%nat) ->
     (k = C_WORD -> word_of line t) -> Q (k, t) s') ->
  swp gettoken Q s.
Proof.
  intros Hs HQ. unfold swp, gettoken.
  pose proof (skip_ws_length s) as Hl. pose proof (skip_ws_head s) as Hh.
  assert (Hs2 : skip_ws s `suffix_of` line) by (etrans; [apply skip_ws_suffix|done]).
  destruct (skip_ws s) as [|c u] eqn:Eu; [apply HQ; [apply suffix_nil|simpl; lia|simpl; intros [?|?]; done|done]|].
  assert (Hc : forall k text r, text ++ r = c :: u -> text <> [] -> (k = C_WORD -> word_of line (Tok text (length r))) ->
    Q (k, Tok text (length r)) (skip_ws r)).
  { intros k text r E Ht Hw.
    assert (length r < length s)%nat
      by (apply (f_equal length) in E; rewrite length_app in E; destruct text; [done|simpl in *; lia]).
    pose proof (skip_ws_length r). apply HQ; [|lia|lia|done].
    etrans; [apply skip_ws_suffix|]. etrans; [|exact Hs2]. rewrite <- E. by apply suffix_app_r. }
  specialize (Hh c eq_refl).
  destruct (isin c [C_BAR; C_LPAR; C_RPAR; C_SEMI; C_AMP; C_LT]) eqn:E1.
  { apply Hc; [done..|]. intros ->. by vm_compute in E1. }
  destruct (c =? C_GT) eqn:E2.
  { destruct u as [|c' u']; [by apply Hc; [..|intros ->]|].
    destruct (c' =? C_GT); apply Hc; try done. intros ->. by vm_compute in E2. }
  destruct (word (c :: u)) as [w r] eqn:Ew. destruct (word_spec _ _ _ Ew) as (E & Hw & Hr).
  assert (w <> []).
  { intros ->. simpl in E. subst r. specialize (Hr c eq_refl).
    by rewrite (plain_start c) in Hr. }
  apply Hc; [done..|]. intros _. destruct Hs2 as [pre Hp]. exists pre, r. simpl. by rewrite <- E.
Qed.
Lemma peek_swp (line s toks : list Z) (Q : bool -> list Z -> Prop) :
  s `suffix_of` line ->
  (forall b s', s' `suffix_of` line -> (length s' <= length s)%nat -> (b = true -> skip_ws s' <> []) -> Q b s') ->
  swp (peek toks) Q s.
Proof.
  intros Hs HQ. unfold swp, peek. apply HQ.
  - etrans; [apply skip_ws_suffix|done].
  - apply skip_ws_length.
  - pose proof (skip_ws_head s) as Hh. destruct (skip_ws s) as [|c u]; [done|]. intros _.
    simpl. by rewrite (Hh c eq_refl).
Qed.

Section Line.
Context (line : list Z).
(** Where a routine started at [s] may leave the pointer, and its tree. *)
Definition within (s s' : list Z) : Prop := s' `suffix_of` line /\ (length s' <= length s)%nat.
Definition good_tree (s : list Z) (c : cmd tok) (s' : list Z) : Prop :=
  within s s' /\ Forall (word_of line) (strings c).
Definition good_redirs (s : list Z) (rs : list redir) (s' : list Z) : Prop :=
  within s s' /\ Forall (fun r => word_of line r.1.1) rs.

Lemma parseredirs_loop_swp (f : nat) : forall (rs : list redir) (s : list Z),
  (length s < f)%nat -> s `suffix_of` line -> Forall (fun r => word_of line r.1.1) rs ->
  swp (parseredirs_loop f rs) (good_redirs s) s.
Proof.
  induction f as [|f IH]; intros rs s Hf Hs Hrs; [lia|]. simpl.
  apply swp_bind. apply (peek_swp line); [done|]. intros b s1 Hs1 L1 Hb.
  destruct b; [|apply swp_ret; by repeat split].
  apply swp_bind. apply (gettoken_swp line); [done|]. intros k t s2 Hs2 L2 Hk _.
  apply swp_bind. apply (gettoken_swp line); [done|]. intros k' q s3 Hs3 L3 _ Hw.
  destruct (k' =? C_WORD) eqn:E; [|apply swp_panic]. apply Z.eqb_eq in E. simpl.
  specialize (Hk (or_intror (Hb eq_refl))). eapply swp_mono.
  - apply IH; [lia|done|]. apply Forall_app. split; [done|].
    repeat case_match; repeat constructor; simpl; auto.
  - intros rs' s4 [[? ?] ?]. repeat split; [done|lia|done].
Qed.
Lemma parseredirs_swp (s : list Z) : s `suffix_of` line -> swp parseredirs (good_redirs s) s.
Proof. intros Hs. apply swp_bind, swp_get, parseredirs_loop_swp; [lia|done|constructor]. Qed.

Lemma parseargs_swp (f : nat) : forall (argv : list tok) (rs : list redir) (s : list Z),
  (length s < f)%nat -> s `suffix_of` line -> Forall (word_of line) argv -> Forall (fun r => word_of line r.1.1) rs ->
  swp (parseargs f argv rs) (fun r s' => within s s' /\ Forall (word_of line) r.1 /\ Forall (fun r => word_of line r.1.1) r.2) s.
Proof.
  induction f as [|f IH]; intros argv rs s Hf Hs Ha Hr; [lia|]. simpl.
  apply swp_bind. apply (peek_swp line); [done|]. intros b s1 Hs1 L1 _.
  destruct b; [by apply swp_ret|].
  apply swp_bind. apply (gettoken_swp line); [done|]. intros k q s2 Hs2 L2 Hk Hw.
  destruct (k =? 0) eqn:E0; [apply swp_ret; repeat split; auto; simpl; lia|]. apply Z.eqb_neq in E0.
  destruct (k =? C_WORD) eqn:E; [|apply swp_panic]. apply Z.eqb_eq in E. simpl negb. cbv iota.
  case_match; [apply swp_panic|].
  apply swp_bind. eapply swp_mono; [by apply parseredirs_swp|]. intros more s3 [[Hs3 L3] Hm].
  specialize (Hk (or_introl E0)). eapply swp_mono.
  - apply IH; [lia|done|apply Forall_app; auto|by apply Forall_app].
  - intros [argv' rs'] s4 [[? ?] ?]. repeat split; [done|lia|naive_solver..].
Qed.

Lemma parseamps_swp (f : nat) : forall (c : cmd tok) (s : list Z),
  (length s < f)%nat -> s `suffix_of` line -> Forall (word_of line) (strings c) ->
  swp (parseamps f c) (good_tree s) s.
Proof.
  induction f as [|f IH]; intros c s Hf Hs Hc; [lia|]. simpl.
  apply swp_bind. apply (peek_swp line); [done|]. intros b s1 Hs1 L1 Hb.
  destruct b; [|by apply swp_ret].
  apply swp_bind. apply (gettoken_swp line); [done|]. intros k t s2 Hs2 L2 Hk _.
  specialize (Hk (or_intror (Hb eq_refl))). eapply swp_mono; [apply IH; [lia|done|done]|].
  intros c' s3 [[? ?] ?]. repeat split; [done|lia|done].
Qed.

Lemma strings_wrap (c : cmd tok) (rs : list redir) : strings (wrap c rs) = strings c ++ ((fun r => r.1.1) <$> rs).
Proof.
  unfold wrap. revert c. induction rs as [|[[q m] d] rs IH]; intros c; simpl; [by rewrite app_nil_r|].
  rewrite IH. simpl. by rewrite <- app_assoc.
Qed.
Lemma good_wrap (c : cmd tok) (rs : list redir) :
  Forall (word_of line) (strings c) -> Forall (fun r => word_of line r.1.1) rs ->
  Forall (word_of line) (strings (wrap c rs)).
Proof. intros Hc Hr. rewrite strings_wrap. apply Forall_app. split; [done|]. by apply Forall_fmap. Qed.

Lemma good_tree_le s1 s2 c s' : (length s1 <= length s2)%nat -> good_tree s1 c s' -> good_tree s2 c s'.
Proof. intros ? [[? ?] ?]. repeat split; [done|lia|done]. Qed.

(** The four routines, by induction on the depth of their calls: each character
    read pays for four calls. *)
Lemma parse_swp (f : nat) : forall s : list Z, s `suffix_of` line ->
  ((4 * length s + 4 <= f)%nat -> swp (parseline f) (good_tree s) s) /\
  ((4 * length s + 3 <= f)%nat -> swp (parsepipe f) (good_tree s) s) /\
  ((4 * length s + 2 <= f)%nat -> swp (parseexec f) (good_tree s) s) /\
  ((4 * length s + 1 <= f)%nat -> swp (parseblock f) (good_tree s) s).
Proof.
  induction f as [|f IH]; intros s Hs; [lia|].
  repeat split; intros Hf; cbn [parseline parsepipe parseexec parseblock].
  - apply swp_bind. eapply swp_mono; [apply (IH s Hs); lia|]. intros c s1 [[Hs1 L1] Hc].
    apply swp_bind, swp_get, swp_bind. eapply swp_mono; [apply parseamps_swp; [lia|done..]|].
    intros c' s2 [[Hs2 L2] Hc']. apply swp_bind. apply (peek_swp line); [done|]. intros b s3 Hs3 L3 Hb.
    destruct b; [|apply swp_ret; repeat split; [done|lia|done]].
    apply swp_bind. apply (gettoken_swp line); [done|]. intros k t s4 Hs4 L4 Hk _.
    specialize (Hk (or_intror (Hb eq_refl))).
    apply swp_bind. eapply swp_mono; [apply (IH s4 Hs4); lia|]. intros r s5 [[Hs5 L5] Hr].
    apply swp_ret. repeat split; [done|lia|]. simpl. by apply Forall_app.
  - apply swp_bind. eapply swp_mono; [apply (IH s Hs); lia|]. intros c s1 [[Hs1 L1] Hc].
    apply swp_bind. apply (peek_swp line); [done|]. intros b s3 Hs3 L3 Hb.
    destruct b; [|apply swp_ret; repeat split; [done|lia|done]].
    apply swp_bind. apply (gettoken_swp line); [done|]. intros k t s4 Hs4 L4 Hk _.
    specialize (Hk (or_intror (Hb eq_refl))).
    apply swp_bind. eapply swp_mono; [apply (IH s4 Hs4); lia|]. intros r s5 [[Hs5 L5] Hr].
    apply swp_ret. repeat split; [done|lia|]. simpl. by apply Forall_app.
  - apply swp_bind. apply (peek_swp line); [done|]. intros b s1 Hs1 L1 _.
    destruct b; [eapply swp_mono; [apply (IH s1 Hs1); lia|]; intros c s2; by apply good_tree_le|].
    apply swp_bind. eapply swp_mono; [by apply parseredirs_swp|]. intros rs s2 [[Hs2 L2] Hr].
    apply swp_bind, swp_get, swp_bind.
    eapply swp_mono; [apply parseargs_swp; [lia|done|constructor|done]|].
    intros [argv rs'] s3 ([Hs3 L3] & Ha & Hr'). apply swp_ret. repeat split; [done|lia|]. by apply good_wrap.
  - apply swp_bind. apply (peek_swp line); [done|]. intros b s1 Hs1 L1 Hb.
    destruct b; [|apply swp_panic]. simpl negb. cbv iota.
    apply swp_bind. apply (gettoken_swp line); [done|]. intros k t s2 Hs2 L2 Hk _.
    specialize (Hk (or_intror (Hb eq_refl))).
    apply swp_bind. eapply swp_mono; [apply (IH s2 Hs2); lia|]. intros c s3 [[Hs3 L3] Hc].
    apply swp_bind. apply (peek_swp line); [done|]. intros b s4 Hs4 L4 _.
    destruct b; [|apply swp_panic]. simpl negb. cbv iota.
    apply swp_bind. apply (gettoken_swp line); [done|]. intros k' t' s5 Hs5 L5 _ _.
    apply swp_bind. eapply swp_mono; [by apply parseredirs_swp|]. intros rs s6 [[Hs6 L6] Hr].
    apply swp_ret. repeat split; [done|lia|]. by apply good_wrap.
Qed.
End Line.

(** ** The terminated strings *)

(** The C string at the head of [l]; the line is followed by its nul. *)
Fixpoint cstr (l : list Z) : list Z :=
  match l with [] => [] | c :: l' => if c =? 0 then [] else c :: cstr l' end.
(** The string the pointer of [t] denotes in the buffer. *)
Definition string_at (buf : list Z) (t : tok) : list Z :=
  cstr (drop (length buf - t_end t - length (t_text t)) buf).

Lemma cstr_app (w l : list Z) : Forall (fun c => c <> 0) w -> (forall c, head l = Some c -> c = 0) -> cstr (w ++ l) = w.
Proof.
  induction 1 as [|c w Hc Hw IH]; intros Hl; simpl.
  - destruct l as [|d l]; [done|]. by rewrite (Hl d eq_refl).
  - apply Z.eqb_neq in Hc. rewrite Hc. f_equal. auto.
Qed.
Lemma nulterminate_fold (c : cmd tok) : forall buf,
  nulterminate c buf = fold_left (fun b t => nul_at (t_end t) b) (strings c) buf.
Proof. induction c as [argv|c IH q m d|l IHl r IHr|l IHl r IHr|c IH]; intros buf; simpl; auto; rewrite fold_left_app; simpl; by congruence. Qed.
Lemma nuls_length (ts : list tok) : forall buf, length (fold_left (fun b t => nul_at (t_end t) b) ts buf) = length buf.
Proof. induction ts as [|t ts IH]; intros buf; simpl; [done|]. rewrite IH. apply length_insert. Qed.
(** The buffer afterwards: a nul at the end of each string, the line elsewhere. *)
Lemma nuls_lookup (ts : list tok) : forall buf i,
  (forall t, t ∈ ts -> i <> (length buf - t_end t)%nat) ->
  fold_left (fun b t => nul_at (t_end t) b) ts buf !! i = buf !! i.
Proof.
  induction ts as [|t ts IH]; intros buf i Hi; simpl; [done|]. rewrite IH.
  - apply list_lookup_insert_ne. apply not_eq_sym, Hi, list_elem_of_here.
  - intros t' Ht'. unfold nul_at. rewrite length_insert. by apply Hi, list_elem_of_further.
Qed.
Lemma nuls_keep (ts : list tok) : forall buf i,
  buf !! i = Some 0 -> fold_left (fun b t => nul_at (t_end t) b) ts buf !! i = Some 0.
Proof.
  induction ts as [|t ts IH]; intros buf i Hi; simpl; [done|]. apply IH. unfold nul_at.
  destruct (decide (i = (length buf - t_end t)%nat)) as [->|Hn].
  - apply list_lookup_insert_eq. by eapply lookup_lt_Some.
  - by rewrite list_lookup_insert_ne by done.
Qed.
Lemma nuls_set (ts : list tok) (t : tok) : forall buf,
  t ∈ ts -> (0 < t_end t <= length buf)%nat ->
  fold_left (fun b t => nul_at (t_end t) b) ts buf !! (length buf - t_end t)%nat = Some 0.
Proof.
  induction ts as [|t' ts IH]; intros buf Ht Hb; [by apply elem_of_nil in Ht|]. simpl.
  assert (El : length (nul_at (t_end t') buf) = length buf) by apply length_insert.
  apply elem_of_cons in Ht as [<-|Ht].
  - apply nuls_keep. apply list_lookup_insert_eq. lia.
  - rewrite <- El. apply IH; [done|lia].
Qed.

Lemma string_terminated (line : list Z) (ts : list tok) (t : tok) :
  0 ∉ line -> Forall (word_of line) ts -> t ∈ ts ->
  string_at (fold_left (fun b t => nul_at (t_end t) b) ts line) t = t_text t.
Proof.
  intros H0 Hts Ht. destruct (proj1 (Forall_forall _ _) Hts t Ht) as (pre & suf & E & Hsuf & Hne & Hp & Hd).
  unfold string_at. rewrite nuls_length. set (buf := fold_left _ ts line).
  assert (Hl : length line = (length pre + length (t_text t) + t_end t)%nat)
    by (rewrite E, !length_app; lia).
  replace (length line - t_end t - length (t_text t))%nat with (length pre) by lia.
  assert (Hw : forall j c, t_text t !! j = Some c -> buf !! (length pre + j)%nat = Some c).
  { intros j c Hj. assert (Hi : line !! (length pre + j)%nat = Some c).
    { rewrite E, lookup_app_r by lia. replace (length pre + j - length pre)%nat with j by lia.
      rewrite lookup_app_l; [done|by eapply lookup_lt_Some]. }
    unfold buf. rewrite nuls_lookup; [done|]. intros u Hu Eq.
    destruct (proj1 (Forall_forall _ _) Hts u Hu) as (pre' & suf' & E' & Hsuf' & _ & _ & Hd').
    assert (Eq' : (length pre + j)%nat = length (pre' ++ t_text u))
      by (rewrite Eq, E', !length_app; lia).
    rewrite Eq', E', app_assoc, lookup_app_r, Nat.sub_diag in Hi by lia.
    rewrite <- head_lookup in Hi. apply Hd' in Hi.
    by rewrite (proj1 (Forall_lookup _ _) Hp j c Hj) in Hi. }
  assert (Eb : drop (length pre) buf = t_text t ++ drop (length pre + length (t_text t)) buf).
  { rewrite <- drop_drop. rewrite <- (take_drop (length (t_text t)) (drop (length pre) buf)) at 1. f_equal.
    apply list_eq. intros j. destruct (decide (j < length (t_text t))%nat) as [Hj|Hj].
    - rewrite lookup_take_lt, lookup_drop by done.
      destruct (lookup_lt_is_Some_2 _ _ Hj) as [c Hc]. by rewrite Hc, (Hw j c Hc).
    - rewrite lookup_take_ge, lookup_ge_None_2 by lia. done. }
  rewrite Eb. apply cstr_app.
  - apply Forall_forall. intros c Hc ->. apply H0. rewrite E. apply elem_of_app. right. apply elem_of_app. by left.
  - intros c Hc. rewrite head_lookup, lookup_drop, Nat.add_0_r in Hc.
    assert (Hb : length buf = length line) by apply nuls_length.
    assert (length pre + length (t_text t) < length buf)%nat by by eapply lookup_lt_Some.
    replace (length pre + length (t_text t))%nat with (length line - t_end t)%nat in Hc by lia.
    unfold buf in Hc. rewrite nuls_set in Hc; [by simplify_eq|done|lia].
Qed.

(** What the parser leaves: every line is parsed or rejected, and the strings are in place. *)
Lemma parsecmd_spec (line : list Z) (Hz : 0 ∉ line) :
  match parsecmd line with
  | Ok (c, buf) => length buf = length line /\
      forall t, t ∈ strings c -> word_of line t /\ string_at buf t = t_text t
  | Panic msg => True
  | _ => False
  end.
Proof.
  unfold parsecmd.
  assert (H : swp (fun s => parsecmd_tree s) (fun c _ => Forall (word_of line) (strings c)) line).
  { apply swp_bind. eapply swp_mono; [by apply (parse_swp line (parse_depth line))|].
    intros c s1 [[Hs _] Hc]. apply swp_bind. apply (peek_swp line); [done|]. intros b s2 _ _ _.
    apply swp_bind, swp_get. destruct s2; [by apply swp_ret|apply swp_panic]. }
  unfold swp in H. destruct (parsecmd_tree line) as [[c s]| | |]; [|done..].
  rewrite nulterminate_fold. split; [apply nuls_length|]. intros t Ht. split.
  - by apply (proj1 (Forall_forall _ _) H).
  - by apply string_terminated.
Qed.

(** C25: on every line of text the shell's parser returns or rejects the line: no
    input sends its mutually recursive routines into a loop.  When it returns, the
    words in the tree are words of the line, and [nulterminate], which overwrites
    the characters after them, makes each pointer of the tree the C string of
    exactly its word, also where another word or an operator follows directly. *)
Theorem parser_terminates (line : list Z) (Hz : 0 ∉ line) :
  match parsecmd line with
  | Ok (c, buf) => length buf = length line /\
      forall t, t ∈ strings c -> word_of line t /\ string_at buf t = t_text t
  | Panic msg => True
  | _ => False
  end.
Proof. by apply parsecmd_spec. Qed.

(** ** Printing and parsing back *)

(** Tokens as text: each is followed by a blank. *)
Inductive tk : Type :=
| TWord (w : list Z)
| TSym (c : Z)
| TApp.
Definition tk_text (t : tk) : list Z :=
  match t with TWord w => w | TSym c => [c] | TApp => [C_GT; C_GT] end.
Definition tk_kind (t : tk) : Z :=
  match t with TWord _ => C_WORD | TSym c => c | TApp => C_PLUS end.
Definition is_word (w : list Z) : Prop := w <> [] /\ Forall (fun c => plain c = true) w.
Definition tk_ok (t : tk) : Prop :=
  match t with TWord w => is_word w | TSym c => isin c symbols = true | TApp => True end.
Fixpoint text_of (ts : list tk) : list Z :=
  match ts with [] => [] | t :: ts' => tk_text t ++ 32 :: text_of ts' end.
(** Does the token list start with a character of [toks]? *)
Definition starts_with (toks : list Z) (ts : list tk) : bool :=
  match ts with
  | TSym c :: _ => isin c toks
  | TApp :: _ => isin C_GT toks
  | _ => false
  end.

(** A redirection's operator. *)
Definition redir_op (mode fd : Z) : tk :=
  if fd =? 0 then TSym C_LT else if mode =? Z.lor O_WRONLY O_CREATE then TApp else TSym C_GT.
Definition redir_ok (r : list Z * Z * Z) : Prop :=
  let '(w, mode, fd) := r in
  is_word w /\ ((mode, fd) = (O_RDONLY, 0) \/ (mode, fd) = (Z.lor (Z.lor O_WRONLY O_CREATE) O_TRUNC, 1) \/
                (mode, fd) = (Z.lor O_WRONLY O_CREATE, 1)).
Fixpoint redir_toks (rs : list (list Z * Z * Z)) : list tk :=
  match rs with [] => [] | (w, mode, fd) :: rs' => redir_op mode fd :: TWord w :: redir_toks rs' end.

(** The tokens of a command where a line (0), the left of [;] (1), a pipeline (2)
    or a pipeline's stage (3) is expected; parentheses where they are needed. *)
Definition paren (b : bool) (ts : list tk) : list tk :=
  if b then TSym C_LPAR :: ts ++ [TSym C_RPAR] else ts.
Fixpoint show_at (lv : nat) (c : cmd (list Z)) : list tk :=
  match c with
  | Exec ws => TWord <$> ws
  | Redir c w mode fd => show_at 3 c ++ redir_toks [(w, mode, fd)]
  | Pipe l r => paren (2 <? lv)%nat (show_at 3 l ++ TSym C_BAR :: show_at 2 r)
  | Back c => paren (1 <? lv)%nat (show_at 1 c ++ [TSym C_AMP])
  | List_ l r => paren (0 <? lv)%nat (show_at 1 l ++ TSym C_SEMI :: show_at 0 r)
  end.
Definition show (c : cmd (list Z)) : list Z := text_of (show_at 0 c).

(** The commands a line can denote: at most nine words of plain characters. *)
Fixpoint cmd_ok (c : cmd (list Z)) : Prop :=
  match c with
  | Exec ws => (length ws < MAXARGS)%nat /\ Forall is_word ws
  | Redir c w mode fd => cmd_ok c /\ redir_ok (w, mode, fd)
  | Pipe l r | List_ l r => cmd_ok l /\ cmd_ok r
  | Back c => cmd_ok c
  end.
(** The tree with the text of its strings. *)
Fixpoint texts (c : cmd tok) : cmd (list Z) :=
  match c with
  | Exec argv => Exec (t_text <$> argv)
  | Redir c f mode fd => Redir (texts c) (t_text f) mode fd
  | Pipe l r => Pipe (texts l) (texts r)
  | List_ l r => List_ (texts l) (texts r)
  | Back c => Back (texts c)
  end.

Lemma plain_not_blank c : plain c = true -> isin c whitespace = false.
Proof. unfold plain. intros H. apply negb_true_iff, orb_false_iff in H. naive_solver. Qed.
Lemma isin_spec c l : isin c l = true <-> c ∈ l.
Proof.
  unfold isin. rewrite existsb_exists, list_elem_of_In. split.
  - by intros (x & Hx & ->%Z.eqb_eq).
  - intros H. exists c. by rewrite Z.eqb_refl.
Qed.
Lemma sym_not_blank c : isin c symbols = true -> isin c whitespace = false.
Proof. rewrite isin_spec. unfold symbols. rewrite !elem_of_cons, elem_of_nil. intros H. by destruct_or! H; subst. Qed.
Lemma skip_text (ts : list tk) : Forall tk_ok ts -> skip_ws (text_of ts) = text_of ts.
Proof.
  destruct 1 as [|t ts Ht _]; [done|]. destruct t as [w|c|]; simpl in *.
  - destruct Ht as [Hne Hp]. destruct w as [|c w]; [done|]. simpl. by rewrite plain_not_blank by (by inversion Hp).
  - by rewrite sym_not_blank.
  - done.
Qed.
Lemma word_text w l : Forall (fun c => plain c = true) w -> word (w ++ 32 :: l) = (w, 32 :: l).
Proof.
  induction 1 as [|c w Hc Hw IH]; [done|]. simpl. unfold plain in Hc. apply negb_true_iff in Hc.
  by rewrite Hc, IH.
Qed.
Lemma plain_start_inv c : plain c = true ->
  isin c [C_BAR; C_LPAR; C_RPAR; C_SEMI; C_AMP; C_LT] = false /\ (c =? C_GT) = false.
Proof.
  intros H. unfold plain in H. apply negb_true_iff, orb_false_iff in H as [_ H].
  assert (Hn : c ∉ symbols) by (rewrite <- isin_spec; congruence). split.
  - apply not_true_iff_false. rewrite isin_spec. unfold symbols in Hn. rewrite !elem_of_cons in Hn.
    rewrite !elem_of_cons. tauto.
  - apply Z.eqb_neq. intros ->. apply Hn. unfold symbols. rewrite !elem_of_cons. tauto.
Qed.
Lemma gettoken_text (t : tk) (ts : list tk) :
  tk_ok t -> Forall tk_ok ts ->
  gettoken (text_of (t :: ts)) = Ok (tk_kind t, Tok (tk_text t) (S (length (text_of ts))), text_of ts).
Proof.
  intros Ht Hts. unfold gettoken. rewrite (skip_text (t :: ts)) by by constructor.
  destruct t as [w|c|]; simpl.
  - destruct Ht as [Hne Hp]. destruct w as [|c w]; [done|].
    destruct (plain_start_inv c) as [E1 E2]; [by inversion Hp|].
    pose proof (word_text (c :: w) (text_of ts) Hp) as E. simpl in E |- *. rewrite E1, E2, E. simpl.
    by rewrite skip_text.
  - simpl in Ht. destruct (isin c [C_BAR; C_LPAR; C_RPAR; C_SEMI; C_AMP; C_LT]) eqn:E1; [simpl; by rewrite skip_text|].
    replace (c =? C_GT) with true; [simpl; by rewrite skip_text|].
    symmetry. apply Z.eqb_eq. apply isin_spec in Ht. apply not_true_iff_false in E1. rewrite isin_spec in E1.
    unfold symbols in Ht. rewrite !elem_of_cons in Ht. rewrite !elem_of_cons in E1. tauto.
  - by rewrite skip_text.
Qed.
Lemma peek_text (toks : list Z) (ts : list tk) :
  Forall tk_ok ts -> toks ⊆ symbols -> peek toks (text_of ts) = Ok (starts_with toks ts, text_of ts).
Proof.
  intros Hts Hsub. unfold peek. rewrite skip_text by done. do 2 f_equal.
  destruct Hts as [|t ts Ht _]; [done|]. destruct t as [w|c|]; simpl; [|done..].
  destruct Ht as [Hne Hp]. destruct w as [|c w]; [done|]. simpl.
  apply not_true_iff_false. intros Hc. apply isin_spec, Hsub, isin_spec in Hc.
  apply Forall_inv in Hp. unfold plain in Hp. by rewrite Hc, orb_true_r in Hp.
Qed.

Lemma step_peek {A} (k : bool -> M (list Z) A) (toks : list Z) (ts : list tk) :
  Forall tk_ok ts -> toks ⊆ symbols -> bind (peek toks) k (text_of ts) = k (starts_with toks ts) (text_of ts).
Proof. intros. unfold bind. by rewrite peek_text. Qed.
Lemma step_token {A} (k : Z * tok -> M (list Z) A) (t : tk) (ts : list tk) :
  Forall tk_ok (t :: ts) ->
  bind gettoken k (text_of (t :: ts)) = k (tk_kind t, Tok (tk_text t) (S (length (text_of ts)))) (text_of ts).
Proof. intros H. unfold bind. by rewrite gettoken_text by by inversion H. Qed.
Lemma step_ok {A B} (m : M (list Z) A) (k : A -> M (list Z) B) s a s' : m s = Ok (a, s') -> bind m k s = k a s'.
Proof. intros H. unfold bind. by rewrite H. Qed.
Lemma step_get {A} (k : list Z -> M (list Z) A) s : bind get k s = k s s.
Proof. done. Qed.

(** Nothing but one of [stops] follows. *)
Definition ends_at (stops : list Z) (ts : list tk) : bool :=
  match ts with [] => true | TSym c :: _ => isin c stops | _ => false end.
Definition disjoint_b (l1 l2 : list Z) : bool := forallb (fun c => negb (isin c l2)) l1.
Lemma ends_starts (stops toks : list Z) (ts : list tk) :
  ends_at stops ts = true -> disjoint_b stops toks = true -> starts_with toks ts = false.
Proof.
  intros H D. destruct ts as [|[w|c|] ts]; try done. simpl in *. unfold disjoint_b in D.
  rewrite forallb_forall in D. apply negb_true_iff, D, list_elem_of_In, isin_spec, H.
Qed.
Lemma ends_weaken (s1 s2 : list Z) (ts : list tk) :
  ends_at s1 ts = true -> forallb (fun c => isin c s2) s1 = true -> ends_at s2 ts = true.
Proof.
  intros H D. destruct ts as [|[w|c|] ts]; try done. simpl in *.
  rewrite forallb_forall in D. apply D, list_elem_of_In, isin_spec, H.
Qed.

Definition rtext (r : redir) : list Z * Z * Z := (t_text r.1.1, r.1.2, r.2).
Lemma texts_wrap (c : cmd tok) (rs : list redir) : texts (wrap c rs) = wrap (texts c) (rtext <$> rs).
Proof. unfold wrap. revert c. induction rs as [|[[q m] d] rs IH]; intros c; simpl; [done|]. by rewrite IH. Qed.
Lemma redir_toks_ok rs : Forall redir_ok rs -> Forall tk_ok (redir_toks rs).
Proof.
  induction 1 as [|[[w m] d] rs [Hw Hr] _ IH]; simpl; [constructor|].
  constructor; [|by constructor]. unfold redir_op. by repeat case_match.
Qed.
Lemma redir_toks_app rs1 rs2 : redir_toks (rs1 ++ rs2) = redir_toks rs1 ++ redir_toks rs2.
Proof. induction rs1 as [|[[w m] d] rs IH]; simpl; [done|]. by rewrite IH. Qed.
Lemma redir_head r rs ts : redir_ok r -> starts_with [C_LT; C_GT] (redir_toks (r :: rs) ++ ts) = true.
Proof. destruct r as [[w m] d]. intros [_ [H|[H|H]]]; by simplify_eq. Qed.

Lemma parseredirs_loop_text (rs : list (list Z * Z * Z)) : forall (f : nat) (acc : list redir) (ts : list tk),
  Forall redir_ok rs -> Forall tk_ok ts -> starts_with [C_LT; C_GT] ts = false -> (length rs < f)%nat ->
  exists rs', parseredirs_loop f acc (text_of (redir_toks rs ++ ts)) = Ok (acc ++ rs', text_of ts) /\ rtext <$> rs' = rs.
Proof.
  induction rs as [|[[w m] d] rs IH]; intros f acc ts Hrs Hts Hend Hf; (destruct f as [|f]; [simpl in Hf; lia|]).
  - exists []. cbn [parseredirs_loop redir_toks app]. rewrite step_peek by (done || set_solver).
    by rewrite Hend, app_nil_r.
  - inversion Hrs as [|? ? Hr Hrs']; subst.
    assert (Hok : Forall tk_ok (redir_toks ((w, m, d) :: rs) ++ ts))
      by (apply Forall_app; split; [by apply redir_toks_ok|done]).
    cbn [parseredirs_loop]. rewrite step_peek by (done || set_solver). rewrite redir_head by done.
    cbn [redir_toks app] in Hok |- *.
    rewrite step_token by done. rewrite step_token by by inversion Hok. cbn [tk_kind]. rewrite Z.eqb_refl.
    cbn [negb].
    assert (E : exists q, (if tk_kind (redir_op m d) =? C_LT then [(q, O_RDONLY, 0)]
      else if tk_kind (redir_op m d) =? C_GT then [(q, Z.lor (Z.lor O_WRONLY O_CREATE) O_TRUNC, 1)]
      else if tk_kind (redir_op m d) =? C_PLUS then [(q, Z.lor O_WRONLY O_CREATE, 1)] else []) = [(q, m, d)]
      /\ q = Tok (tk_text (TWord w)) (S (length (text_of (redir_toks rs ++ ts))))).
    { eexists. split; [|reflexivity]. destruct Hr as [_ [H|[H|H]]]; by simplify_eq. }
    destruct E as (q & E & ->). rewrite E.
    destruct (IH f (acc ++ [(Tok (tk_text (TWord w)) (S (length (text_of (redir_toks rs ++ ts)))), m, d)]) ts)
      as (rs' & -> & Hrs2); [done..|simpl in Hf; lia|].
    rewrite <- app_assoc. eexists (_ :: rs'). split; [reflexivity|]. by rewrite fmap_cons, Hrs2.
Qed.
Lemma text_length (ts : list tk) : (length ts <= length (text_of ts))%nat.
Proof. induction ts as [|t ts IH]; simpl; [lia|]. rewrite length_app. simpl. lia. Qed.
Lemma redir_toks_length rs : length (redir_toks rs) = (2 * length rs)%nat.
Proof. induction rs as [|[[w m] d] rs IH]; simpl; [done|]. rewrite IH. lia. Qed.
Lemma parseredirs_text (rs : list (list Z * Z * Z)) (ts : list tk) :
  Forall redir_ok rs -> Forall tk_ok ts -> starts_with [C_LT; C_GT] ts = false ->
  exists rs', parseredirs (text_of (redir_toks rs ++ ts)) = Ok (rs', text_of ts) /\ rtext <$> rs' = rs.
Proof.
  intros. unfold parseredirs. rewrite step_get. apply (parseredirs_loop_text rs _ []); [done..|].
  pose proof (text_length (redir_toks rs ++ ts)) as Hl. rewrite length_app, redir_toks_length in Hl. lia.
Qed.

Definition stage_stops : list Z := [C_BAR; C_RPAR; C_AMP; C_SEMI].
Definition pipe_stops : list Z := [C_RPAR; C_AMP; C_SEMI].
Definition amp_stops : list Z := [C_RPAR; C_SEMI].
Definition line_stops : list Z := [C_RPAR].

Lemma words_ok ws : Forall is_word ws -> Forall tk_ok (TWord <$> ws).
Proof. intros. by apply Forall_fmap. Qed.
(** Among the words, redirections are read where no word comes first. *)
Lemma parseredirs_words ws rs ts :
  Forall is_word ws -> Forall redir_ok rs -> Forall tk_ok ts -> ends_at stage_stops ts = true ->
  exists more rs1, parseredirs (text_of ((TWord <$> ws) ++ redir_toks rs ++ ts)) =
      Ok (more, text_of ((TWord <$> ws) ++ redir_toks rs1 ++ ts)) /\
    (ws = [] -> rs1 = []) /\ Forall redir_ok rs1 /\ (rtext <$> more) ++ rs1 = rs.
Proof.
  intros Hws Hrs Hts Hend. destruct ws as [|w ws].
  - destruct (parseredirs_text rs ts) as (more & E & Hm); [done..|by eapply ends_starts|].
    exists more, []. rewrite app_nil_r. by repeat split.
  - destruct (parseredirs_text [] ((TWord <$> w :: ws) ++ redir_toks rs ++ ts)) as (more & E & Hm); [done| |done|].
    + apply Forall_app. split; [by apply words_ok|]. apply Forall_app. split; [by apply redir_toks_ok|done].
    + apply fmap_nil_inv in Hm as ->. by exists [], rs.
Qed.
(** The redirections that follow the words are read after the last one. *)
Lemma parseargs_text (ws : list (list Z)) : forall (f : nat) argv acc rs ts,
  Forall is_word ws -> Forall redir_ok rs -> Forall tk_ok ts -> ends_at stage_stops ts = true ->
  (ws = [] -> rs = []) -> (length ws < f)%nat -> (length argv + length ws < MAXARGS)%nat ->
  exists argv' rs', parseargs f argv acc (text_of ((TWord <$> ws) ++ redir_toks rs ++ ts)) = Ok (argv ++ argv', acc ++ rs', text_of ts) /\
    t_text <$> argv' = ws /\ rtext <$> rs' = rs.
Proof.
  induction ws as [|w ws IH]; intros f argv acc rs ts Hws Hrs Hts Hend Hnil Hf Hmax; (destruct f as [|f]; [simpl in Hf; lia|]);
    cbn [parseargs].
  - rewrite (Hnil eq_refl). exists [], []. rewrite !app_nil_r. cbn [fmap list_fmap app redir_toks].
    rewrite step_peek by (done || set_solver).
    destruct ts as [|[w|c|] ts]; try done. cbn [starts_with]. simpl in Hend.
    unfold stage_stops in Hend. by rewrite Hend.
  - inversion Hws as [|? ? Hw Hws']; subst.
    assert (Hok : Forall tk_ok ((TWord <$> w :: ws) ++ redir_toks rs ++ ts))
      by (apply Forall_app; split; [by apply words_ok|apply Forall_app; split; [by apply redir_toks_ok|done]]).
    rewrite step_peek by (done || set_solver). rewrite fmap_cons in Hok |- *. cbn [app starts_with] in Hok |- *.
    rewrite step_token by done. cbn [tk_kind tk_text]. replace (C_WORD =? 0) with false by done. rewrite Z.eqb_refl. cbn [negb].
    rewrite (proj2 (Nat.leb_gt _ _)) by (rewrite length_app; simpl in *; lia).
    set (q := Tok w _).
    destruct (parseredirs_words ws rs ts) as (more & rs1 & E & Hnil1 & Hrs1 & Ers); [done..|]. rewrite (step_ok _ _ _ _ _ E).
    destruct (IH f (argv ++ [q]) (acc ++ more) rs1 ts) as (argv' & rs' & -> & Ha & Hr);
      [done..|simpl in Hf; lia|rewrite length_app; simpl in *; lia|].
    exists (q :: argv'), (more ++ rs'). rewrite <- !app_assoc. split; [done|].
    rewrite fmap_cons, fmap_app, Ha, Hr. by split.
Qed.

Fixpoint amps (n : nat) (c : cmd tok) : cmd tok :=
  match n with O => c | S n' => amps n' (Back c) end.
Lemma parseamps_text (n : nat) : forall (f : nat) (c : cmd tok) (ts : list tk),
  Forall tk_ok ts -> ends_at amp_stops ts = true -> (n < f)%nat ->
  parseamps f c (text_of (replicate n (TSym C_AMP) ++ ts)) = Ok (amps n c, text_of ts).
Proof.
  induction n as [|n IH]; intros f c ts Hts Hend Hf; (destruct f as [|f]; [lia|]); cbn [parseamps].
  - cbn [replicate app amps]. rewrite step_peek by (done || set_solver). by rewrite (ends_starts amp_stops).
  - assert (Hok : Forall tk_ok (replicate (S n) (TSym C_AMP) ++ ts))
      by (apply Forall_app; split; [by apply Forall_replicate|done]).
    rewrite step_peek by (done || set_solver). cbn [replicate app] in Hok |- *. cbn [starts_with].
    change (isin C_AMP [C_AMP]) with true. cbv iota. rewrite step_token by done. apply IH; [done..|lia].
Qed.

Lemma show_ok (c : cmd (list Z)) : forall lv, cmd_ok c -> Forall tk_ok (show_at lv c).
Proof.
  assert (Hp : forall b ts, Forall tk_ok ts -> Forall tk_ok (paren b ts)).
  { intros [] ts H; [|done]. constructor; [done|]. apply Forall_app. split; [done|]. by repeat constructor. }
  induction c as [ws|c IH w m d|l IHl r IHr|l IHl r IHr|c IH]; intros lv; simpl.
  - intros [_ H]. by apply words_ok.
  - intros [Hc Hr]. apply Forall_app. split; [by apply IH|]. apply (redir_toks_ok [(w, m, d)]). by constructor.
  - intros [Hl Hr]. apply Hp, Forall_app. split; [by apply IHl|]. constructor; [done|by apply IHr].
  - intros [Hl Hr]. apply Hp, Forall_app. split; [by apply IHl|]. constructor; [done|by apply IHr].
  - intros Hc. apply Hp, Forall_app. split; [by apply IH|]. by repeat constructor.
Qed.

(** [m] reads the tokens [s] as a tree of [c] and stops at [ts]. *)
Definition reads (m : M (list Z) (cmd tok)) (s : list tk) (c : cmd (list Z)) (ts : list tk) : Prop :=
  exists c', m (text_of s) = Ok (c', text_of ts) /\ texts c' = c.
Definition deep (k : nat) (s : list tk) (f : nat) : Prop := (4 * length (text_of s) + k <= f)%nat.
(** A command is read back where a line, the left of a list, a pipeline and a
    stage of one are expected; a stage may have more redirections. *)
Definition reads_line (c : cmd (list Z)) : Prop := forall f ts,
  Forall tk_ok ts -> ends_at line_stops ts = true -> deep 4 (show_at 0 c ++ ts) f ->
  reads (parseline f) (show_at 0 c ++ ts) c ts.
Definition reads_amps (c : cmd (list Z)) : Prop := forall n f ts,
  Forall tk_ok ts -> ends_at amp_stops ts = true -> deep 3 (show_at 1 c ++ replicate n (TSym C_AMP) ++ ts) f ->
  exists c', (let! c := parsepipe f in let! s := get in parseamps (S (length s)) c)
    (text_of (show_at 1 c ++ replicate n (TSym C_AMP) ++ ts)) = Ok (amps n c', text_of ts) /\ texts c' = c.
Definition reads_pipe (c : cmd (list Z)) : Prop := forall f ts,
  Forall tk_ok ts -> ends_at pipe_stops ts = true -> deep 3 (show_at 2 c ++ ts) f ->
  reads (parsepipe f) (show_at 2 c ++ ts) c ts.
Definition reads_stage (c : cmd (list Z)) : Prop := forall rs f ts,
  Forall redir_ok rs -> Forall tk_ok ts -> ends_at stage_stops ts = true ->
  deep 2 (show_at 3 c ++ redir_toks rs ++ ts) f ->
  reads (parseexec f) (show_at 3 c ++ redir_toks rs ++ ts) (wrap c rs) ts.

Lemma text_app s1 s2 : text_of (s1 ++ s2) = text_of s1 ++ text_of s2.
Proof. induction s1 as [|t s IH]; simpl; [done|]. by rewrite IH, <- app_assoc. Qed.
Lemma deep_S k s f : deep k s f -> (0 < k)%nat -> exists f', f = S f' /\ deep (k - 1) s f'.
Proof. unfold deep. intros H Hk. destruct f as [|f]; [lia|]. exists f. split; [done|lia]. Qed.
(** After a token is read there is depth for four more calls. *)
Lemma deep_next k t s f : deep k (t :: s) f -> (k < 4)%nat -> deep (k + 4) s f.
Proof. unfold deep. simpl. rewrite length_app. simpl. lia. Qed.

Lemma reads_pipe_of_stage c : show_at 2 c = show_at 3 c -> cmd_ok c -> reads_stage c -> reads_pipe c.
Proof.
  intros E Hc H f ts Hts Hend Hd. rewrite E in *.
  destruct (deep_S _ _ _ Hd) as (f' & -> & Hd'); [lia|].
  destruct (H [] f' ts) as (c' & Ec & Hc'); [done..|by eapply ends_weaken|done|]. cbn [redir_toks app] in Ec.
  exists c'. split; [|done]. cbn [parsepipe]. rewrite (step_ok _ _ _ _ _ Ec).
  rewrite step_peek by (done || set_solver). by rewrite (ends_starts pipe_stops).
Qed.
Lemma replicate_ends n ts : ends_at amp_stops ts = true -> ends_at pipe_stops (replicate n (TSym C_AMP) ++ ts) = true.
Proof. destruct n; simpl; intros H; [by eapply ends_weaken|done]. Qed.
Lemma replicate_amp_ok n ts : Forall tk_ok ts -> Forall tk_ok (replicate n (TSym C_AMP) ++ ts).
Proof. intros. apply Forall_app. split; [by apply Forall_replicate|done]. Qed.
Lemma reads_amps_of_pipe c : show_at 1 c = show_at 2 c -> cmd_ok c -> reads_pipe c -> reads_amps c.
Proof.
  intros E Hc H n f ts Hts Hend Hd. rewrite E in *.
  destruct (H f (replicate n (TSym C_AMP) ++ ts)) as (c' & Ec & Hc');
    [by apply replicate_amp_ok|by apply replicate_ends|done|].
  exists c'. split; [|done]. rewrite (step_ok _ _ _ _ _ Ec), step_get. apply parseamps_text; [done..|].
  pose proof (text_length (replicate n (TSym C_AMP) ++ ts)) as Hl. rewrite length_app, length_replicate in Hl. lia.
Qed.

Lemma parseline_amps f s c s1 :
  (let! c := parsepipe f in let! s := get in parseamps (S (length s)) c) s = Ok (c, s1) ->
  parseline (S f) s = (let! p := peek [C_SEMI] in
    if (p : bool) then gettoken ;; let! r := parseline f in ret (List_ c r) else ret c) s1.
Proof.
  intros H. apply bind_ok in H as (c0 & s0 & E0 & E1). cbn [parseline].
  rewrite step_get in E1. rewrite (step_ok _ _ _ _ _ E0), step_get. by rewrite (step_ok _ _ _ _ _ E1).
Qed.
Lemma reads_line_of_amps c : show_at 0 c = show_at 1 c -> reads_amps c -> reads_line c.
Proof.
  intros E H f ts Hts Hend Hd. rewrite E in *. destruct (deep_S _ _ _ Hd) as (f' & -> & Hd'); [lia|].
  destruct (H 0%nat f' ts) as (c' & Ec & Hc'); [done|by eapply ends_weaken|done|].
  cbn [replicate app amps] in Ec. exists c'. split; [|done]. rewrite (parseline_amps _ _ _ _ Ec).
  rewrite step_peek by (done || set_solver). by rewrite (ends_starts line_stops).
Qed.
Lemma reads_line_list l r : cmd_ok r -> reads_amps l -> reads_line r -> reads_line (List_ l r).
Proof.
  intros Hr Al Lr f ts Hts Hend Hd. cbn [show_at paren Nat.ltb Nat.leb] in Hd |- *. rewrite <- app_assoc in Hd |- *.
  cbn [app] in Hd |- *. destruct (deep_S _ _ _ Hd) as (f' & -> & Hd'); [lia|].
  assert (Hok : Forall tk_ok (TSym C_SEMI :: show_at 0 r ++ ts))
    by (constructor; [done|apply Forall_app; split; [by apply show_ok|done]]).
  destruct (Al 0%nat f' (TSym C_SEMI :: show_at 0 r ++ ts)) as (l' & El & Hl); [done..|].
  destruct (Lr f' ts) as (r' & Er & Hr'); [done..| |].
  { unfold deep in *. rewrite text_app, length_app in Hd'. simpl in Hd'. lia. }
  exists (List_ l' r'). split; [|simpl; congruence].
  cbn [replicate app amps] in El. rewrite (parseline_amps _ _ _ _ El).
  rewrite step_peek by (done || set_solver). cbn [starts_with]. change (isin C_SEMI [C_SEMI]) with true. cbv iota.
  rewrite step_token by done. by rewrite (step_ok _ _ _ _ _ Er).
Qed.
Lemma reads_amps_back c : reads_amps c -> reads_amps (Back c).
Proof.
  intros H n f ts Hts Hend Hd. cbn [show_at paren Nat.ltb Nat.leb] in Hd |- *. rewrite <- app_assoc in Hd |- *.
  destruct (H (S n) f ts) as (c' & Ec & Hc'); [done..|].
  exists (Back c'). split; [exact Ec|]. simpl. congruence.
Qed.
Lemma reads_pipe_pipe l r : cmd_ok r -> reads_stage l -> reads_pipe r -> reads_pipe (Pipe l r).
Proof.
  intros Hr Sl Pr f ts Hts Hend Hd. cbn [show_at paren Nat.ltb Nat.leb] in Hd |- *. rewrite <- app_assoc in Hd |- *.
  cbn [app] in Hd |- *. destruct (deep_S _ _ _ Hd) as (f' & -> & Hd'); [lia|].
  assert (Hok : Forall tk_ok (TSym C_BAR :: show_at 2 r ++ ts))
    by (constructor; [done|apply Forall_app; split; [by apply show_ok|done]]).
  destruct (Sl [] f' (TSym C_BAR :: show_at 2 r ++ ts)) as (l' & El & Hl); [done..|].
  destruct (Pr f' ts) as (r' & Er & Hr'); [done..| |].
  { unfold deep in *. rewrite text_app, length_app in Hd'. simpl in Hd'. lia. }
  change (texts l' = l) in Hl. exists (Pipe l' r'). split; [|simpl; congruence].
  cbn [redir_toks app] in El. cbn [parsepipe]. rewrite (step_ok _ _ _ _ _ El).
  rewrite step_peek by (done || set_solver). cbn [starts_with]. change (isin C_BAR [C_BAR]) with true. cbv iota.
  rewrite step_token by done. by rewrite (step_ok _ _ _ _ _ Er).
Qed.
Lemma reads_stage_redir c w m d : redir_ok (w, m, d) -> reads_stage c -> reads_stage (Redir c w m d).
Proof.
  intros Hr H rs f ts Hrs Hts Hend Hd. cbn [show_at] in Hd |- *. rewrite <- app_assoc in Hd |- *.
  rewrite (app_assoc (redir_toks [(w, m, d)])), <- redir_toks_app in Hd |- *.
  apply (H ((w, m, d) :: rs)); [by constructor|done..].
Qed.
Lemma reads_stage_exec ws : (length ws < MAXARGS)%nat -> Forall is_word ws -> reads_stage (Exec ws).
Proof.
  intros Hmax Hws rs f ts Hrs Hts Hend Hd. cbn [show_at] in Hd |- *.
  destruct (deep_S _ _ _ Hd) as (f' & -> & Hd'); [lia|].
  assert (Hok : Forall tk_ok ((TWord <$> ws) ++ redir_toks rs ++ ts))
    by (apply Forall_app; split; [by apply words_ok|apply Forall_app; split; [by apply redir_toks_ok|done]]).
  cbn [parseexec]. unfold reads. rewrite step_peek by (done || set_solver).
  assert (Hp : starts_with [C_LPAR] ((TWord <$> ws) ++ redir_toks rs ++ ts) = false).
  { destruct ws as [|w ws]; [|done]. destruct rs as [|[[w m] d] rs]; [by apply (ends_starts stage_stops)|].
    apply Forall_inv in Hrs. destruct Hrs as [_ [H|[H|H]]]; by simplify_eq. }
  rewrite Hp.
  destruct (parseredirs_words ws rs ts) as (more & rs1 & E & Hnil & Hrs1 & Ers); [done..|].
  rewrite (step_ok _ _ _ _ _ E), step_get.
  destruct (parseargs_text ws (S (length (text_of ((TWord <$> ws) ++ redir_toks rs1 ++ ts)))) [] more rs1 ts)
    as (argv & rs' & Ep & Ha & Hr); [done..| |done|].
  { pose proof (text_length ((TWord <$> ws) ++ redir_toks rs1 ++ ts)) as Hl. rewrite length_app, length_fmap in Hl. lia. }
  rewrite (step_ok _ _ _ _ _ Ep). eexists. split; [reflexivity|]. rewrite texts_wrap, fmap_app, Hr, Ers. simpl. by rewrite Ha.
Qed.
Lemma reads_stage_of_line c :
  show_at 3 c = TSym C_LPAR :: show_at 0 c ++ [TSym C_RPAR] -> cmd_ok c -> reads_line c -> reads_stage c.
Proof.
  intros E Hc H rs f ts Hrs Hts Hend Hd. rewrite E in *. cbn [app] in Hd |- *. rewrite <- app_assoc in Hd |- *.
  cbn [app] in Hd |- *.
  assert (Hok2 : Forall tk_ok (TSym C_RPAR :: redir_toks rs ++ ts))
    by (constructor; [done|apply Forall_app; split; [by apply redir_toks_ok|done]]).
  assert (Hok : Forall tk_ok (TSym C_LPAR :: show_at 0 c ++ TSym C_RPAR :: redir_toks rs ++ ts))
    by (constructor; [done|apply Forall_app; split; [by apply show_ok|done]]).
  destruct (deep_S _ _ _ Hd) as (f1 & -> & Hd1); [lia|]. destruct (deep_S _ _ _ Hd1) as (f2 & -> & Hd2); [lia|].
  destruct (H f2 (TSym C_RPAR :: redir_toks rs ++ ts)) as (c' & Ec & Hc'); [done..|by apply (deep_next 0) in Hd2; [|lia]|].
  destruct (parseredirs_text rs ts) as (rs' & Er & Hr); [done..|by eapply ends_starts|].
  exists (wrap c' rs'). split; [|by rewrite texts_wrap, Hc', Hr].
  cbn [parseexec]. rewrite step_peek by (done || set_solver). cbn [starts_with].
  change (isin C_LPAR [C_LPAR]) with true. cbv iota. cbn [parseblock].
  rewrite step_peek by (done || set_solver). cbn [starts_with].
  change (isin C_LPAR [C_LPAR]) with true. cbn [negb]. rewrite step_token by done.
  rewrite (step_ok _ _ _ _ _ Ec). rewrite step_peek by (done || set_solver). cbn [starts_with].
  change (isin C_RPAR [C_RPAR]) with true. cbn [negb]. rewrite step_token by done.
  by rewrite (step_ok _ _ _ _ _ Er).
Qed.

Lemma reads_back (c : cmd (list Z)) : cmd_ok c -> reads_line c /\ reads_amps c /\ reads_pipe c /\ reads_stage c.
Proof.
  induction c as [ws|c IH w m d|l IHl r IHr|l IHl r IHr|c IH]; intros Hok; pose proof Hok as Hok'; simpl in Hok.
  - assert (H1 : reads_stage (Exec ws)) by by apply reads_stage_exec; destruct Hok.
    assert (H2 : reads_pipe (Exec ws)) by by apply reads_pipe_of_stage.
    assert (H3 : reads_amps (Exec ws)) by by apply reads_amps_of_pipe.
    split_and!; [by apply reads_line_of_amps|done..].
  - assert (H1 : reads_stage (Redir c w m d)) by (apply reads_stage_redir; naive_solver).
    assert (H2 : reads_pipe (Redir c w m d)) by by apply reads_pipe_of_stage.
    assert (H3 : reads_amps (Redir c w m d)) by by apply reads_amps_of_pipe.
    split_and!; [by apply reads_line_of_amps|done..].
  - assert (H1 : reads_pipe (Pipe l r)) by (apply reads_pipe_pipe; naive_solver).
    assert (H2 : reads_amps (Pipe l r)) by by apply reads_amps_of_pipe.
    assert (H3 : reads_line (Pipe l r)) by by apply reads_line_of_amps.
    split_and!; [done..|by apply reads_stage_of_line].
  - assert (H1 : reads_line (List_ l r)) by (apply reads_line_list; naive_solver).
    assert (H2 : reads_stage (List_ l r)) by by apply reads_stage_of_line.
    assert (H3 : reads_pipe (List_ l r)) by by apply reads_pipe_of_stage.
    split_and!; [done|by apply reads_amps_of_pipe|done..].
  - assert (H1 : reads_amps (Back c)) by (apply reads_amps_back; naive_solver).
    assert (H2 : reads_line (Back c)) by by apply reads_line_of_amps.
    assert (H3 : reads_stage (Back c)) by by apply reads_stage_of_line.
    split_and!; [done..|by apply reads_pipe_of_stage|done].
Qed.

Lemma parsecmd_show (c : cmd (list Z)) (Hc : cmd_ok c) :
  exists c' buf, parsecmd (show c) = Ok (c', buf) /\ texts c' = c.
Proof.
  destruct (reads_back c Hc) as [H _]. destruct (H (parse_depth (show c)) []) as (c' & E & Ht); [done..| |].
  { rewrite app_nil_r. apply Nat.le_refl. }
  rewrite app_nil_r in E. exists c', (nulterminate c' (show c)). split; [|done].
  unfold parsecmd, parsecmd_tree. by rewrite (step_ok _ _ _ _ _ E).
Qed.

(** C26: every command tree the shell can run (words of plain characters, at most
    nine of them to a command, redirections, pipes, lists, background jobs, nested
    as one likes) can be written as a line, with parentheses where the precedence
    of the operators asks for them, and parsing that line gives the tree back. *)
Theorem parse_show_roundtrip (c : cmd (list Z)) (Hc : cmd_ok c) :
  exists c' buf, parsecmd (show c) = Ok (c', buf) /\ texts c' = c.
Proof. by apply parsecmd_show. Qed.

(** A list whose first part runs in the background: a pipeline with its output
    appended to a file. *)
Definition demo_cmd : cmd (list Z) :=
  List_ (Back (Redir (Pipe (Exec [[108; 115]]) (Redir (Exec [[119; 99]; [45; 108]]) [102] O_RDONLY 0)) [111] (Z.lor O_WRONLY O_CREATE) 1))
        (Exec [[101]]).
Lemma parse_show_roundtrip_witness : exists c' buf, parsecmd (show demo_cmd) = Ok (c', buf) /\ texts c' = demo_cmd.
Proof.
  apply parse_show_roundtrip. unfold demo_cmd. simpl. unfold is_word, MAXARGS.
  repeat split; repeat constructor; try done; lia || (by left) || (by right; right).
Defined.
(** The line [a|b>c]. *)
Definition demo_line : list Z := [97; 124; 98; 62; 99].
Lemma parser_terminates_witness :
  (0 ∉ demo_line) /\ (match parsecmd demo_line with Ok _ => true | _ => false end) = true /\
  match parsecmd demo_line with
  | Ok (c, buf) => length buf = length demo_line /\
      forall t, t ∈ strings c -> word_of demo_line t /\ string_at buf t = t_text t
  | Panic msg => True
  | _ => False
  end.
Proof.
  assert (H : 0 ∉ demo_line) by (unfold demo_line; rewrite !elem_of_cons, elem_of_nil; intros H; by destruct_or! H).
  split; [exact H|]. split; [by vm_compute|]. exact (parser_terminates demo_line H).
Defined.
