(* ===== verification/ShRun.v ===== *)
(** * user/sh.c: running commands

    [uprog] is a user program as the tree of its system calls; [runcmd], [getcmd]
    and [main] are the shell's.  [eval] executes a program on a table of open
    descriptors as the kernel does (descriptors are allocated lowest first, [fork]
    copies the table, [exec] keeps it) and yields the processes it becomes:
    what each runs, with which descriptors, who waits and who exits.  [plumb] says
    what a command line means: the programs of a pipeline joined by a pipe and
    redirections in place, nothing else changed in their tables. *)
From S2P Require Import Prelude Machine Printf Sh.

(** ** User programs *)

(** The system calls of the shell; the continuation takes the result.  [UExec]
    continues only when [exec] fails, [UPipe] gives the result and the two
    descriptors, [URead] the next byte of the standard input. *)
Inductive uprog : Type :=
| UExit (status : Z)
| UFork (k : Z -> uprog)
| UWait (k : uprog)
| UPipe (k : Z -> Z -> Z -> uprog)
| UClose (fd : Z) (k : uprog)
| UDup (fd : Z) (k : uprog)
| UOpen (file : list Z) (mode : Z) (k : Z -> uprog)
| UExec (path : list Z) (argv : list (list Z)) (k : uprog)
| UWrite (fd : Z) (bs : list Z) (k : uprog)
| UChdir (path : list Z) (k : Z -> uprog)
| URead (k : option Z -> uprog)
| UStuck.

(** [panic] and [fork1]. *)
Definition sh_panic (s : string) : uprog := UWrite 2 (bytes_of s ++ [10]) (UExit 1).
Definition fork1 (k : Z -> uprog) : uprog :=
  UFork (fun pid => if pid =? -1 then sh_panic "fork" else k pid).

(** [fprintf(2, "... %s ...\n", s)]. *)
Definition complain (pre s post : list Z) (k : uprog) : uprog := UWrite 2 (pre ++ s ++ post ++ [10]) k.

(** [runcmd]; the tree is not null. *)
Fixpoint runcmd (c : cmd (list Z)) : uprog :=
  match c with
  | Exec argv =>
      match argv with
      | [] => UExit 1
      | a0 :: _ => UExec a0 argv (complain (bytes_of "exec ") a0 (bytes_of " failed") (UExit 0))
      end
  | Redir c file mode fd =>
      UClose fd (UOpen file mode (fun r =>
        if r <? 0 then complain (bytes_of "open ") file (bytes_of " failed") (UExit 1)
        else runcmd c))
  | List_ l r =>
      fork1 (fun pid => if pid =? 0 then runcmd l else UWait (runcmd r))
  | Pipe l r =>
      UPipe (fun res p0 p1 =>
        if res <? 0 then sh_panic "pipe"
        else
          fork1 (fun pid =>
            if pid =? 0 then UClose 1 (UDup p1 (UClose p0 (UClose p1 (runcmd l))))
            else
              fork1 (fun pid =>
                if pid =? 0 then UClose 0 (UDup p0 (UClose p0 (UClose p1 (runcmd r))))
                else UClose p0 (UClose p1 (UWait (UWait (UExit 0)))))))
  | Back c =>
      fork1 (fun pid => if pid =? 0 then runcmd c else UExit 0)
  end.

(** [gets] of ulib.c with room for [n] characters. *)
Fixpoint sh_gets (n : nat) (buf : list Z) (k : list Z -> uprog) : uprog :=
  match n with
  | O => k buf
  | S n' =>
      URead (fun r =>
        match r with
        | None => k buf
        | Some c => if (c =? 10) || (c =? 13) then k (buf ++ [c]) else sh_gets n' (buf ++ [c]) k
        end)
  end.

(** [getcmd]: the result, and the string in [buf]. *)
Definition getcmd (nbuf : Z) (k : Z -> list Z -> uprog) : uprog :=
  UWrite 2 (bytes_of "$ ")
    (sh_gets (Z.to_nat (nbuf - 1)) [] (fun buf =>
       let line := cstr buf in
       match line with [] => k (-1) line | _ => k 0 line end)).

(** The strings of the tree as they stand in the terminated line. *)
Fixpoint strs (buf : list Z) (c : cmd tok) : cmd (list Z) :=
  match c with
  | Exec argv => Exec (string_at buf <$> argv)
  | Redir c f mode fd => Redir (strs buf c) (string_at buf f) mode fd
  | Pipe l r => Pipe (strs buf l) (strs buf r)
  | List_ l r => List_ (strs buf l) (strs buf r)
  | Back c => Back (strs buf c)
  end.

(** [runcmd(parsecmd(cmd))]. *)
Definition run_line (line : list Z) : uprog :=
  match parsecmd line with
  | Ok (c, buf) => runcmd (strs buf c)
  | Panic msg => sh_panic msg
  | _ => UStuck
  end.

Fixpoint skip_blank (s : list Z) : list Z :=
  match s with c :: s' => if (c =? 32) || (c =? 9) then skip_blank s' else s | [] => [] end.

(** The loop of [main] that reads and runs commands, for [n] lines. *)
Fixpoint command_loop (n : nat) : uprog :=
  match n with
  | O => UStuck
  | S n' =>
      getcmd 100 (fun r buf =>
        if r <? 0 then UExit 0
        else
          let cmd := skip_blank buf in
          if nth 0 cmd 0 =? 10 then command_loop n'
          else if (nth 0 cmd 0 =? 99) && (nth 1 cmd 0 =? 100) && (nth 2 cmd 0 =? 32) then
            let dir := drop 3 (take (length cmd - 1) cmd) in
            UChdir dir (fun r =>
              if r <? 0 then complain (bytes_of "cannot cd ") dir [] (command_loop n') else command_loop n')
          else fork1 (fun pid => if pid =? 0 then run_line cmd else UWait (command_loop n')))
  end.
(** Ensuring that three descriptors are open. *)
Fixpoint open_console (n : nat) (k : uprog) : uprog :=
  match n with
  | O => UStuck
  | S n' =>
      UOpen (bytes_of "console") O_RDWR (fun fd =>
        if 0 <=? fd then if 3 <=? fd then UClose fd k else open_console n' k else k)
  end.
Definition sh_main (n : nat) : uprog := open_console (S (Z.to_nat NOFILE)) (command_loop n).

(** ** The kernel's side *)

(** What a descriptor refers to; a pipe is named by who made it. *)
Inductive obj : Type :=
| OFile (name : list Z) (mode : Z)
| OPipeR (p : list nat)
| OPipeW (p : list nat)
| OInherited (n : nat).
Abbreviation fdtable := (list (option obj)).

Fixpoint lowest (fds : fdtable) : option nat :=
  match fds with [] => None | None :: _ => Some O | Some _ :: fds' => S <$> lowest fds' end.
Definition fd_get (fds : fdtable) (fd : Z) : option obj := if 0 <=? fd then mjoin (fds !! Z.to_nat fd) else None.
Definition fd_close (fds : fdtable) (fd : Z) : fdtable := if 0 <=? fd then <[Z.to_nat fd := None]> fds else fds.
(** The new descriptor, or -1, and the table. *)
Definition fd_new (fds : fdtable) (x : obj) : Z * fdtable :=
  match lowest fds with Some i => (Z.of_nat i, <[i := Some x]> fds) | None => (-1, fds) end.

(** What becomes of a process. *)
Inductive job : Type :=
| JExit (status : Z)
| JRun (path : list Z) (argv : list (list Z)) (fds : fdtable)
| JFork (child parent : job)
| JWait (k : job)
| JSay (fd : Z) (bs : list Z) (k : job)
| JChdir (dir : list Z) (k : job)
| JStuck.

Section Eval.
(** Whether the [n]-th call of the process [who] that the kernel may refuse
    (fork, pipe, open, exec, chdir) is granted. *)
Context (grant : list nat -> nat -> bool).

(** [who] is the process, [n] the number of such calls so far, [inp] what is
    typed. *)
Fixpoint eval (u : uprog) (who : list nat) (n : nat) (fds : fdtable) (inp : list Z) : job :=
  match u with
  | UExit st => JExit st
  | UFork k =>
      if grant who n then
        JFork (eval (k 0) (who ++ [n]) 0 fds inp) (eval (k (Z.of_nat (S n))) who (S n) fds inp)
      else eval (k (-1)) who (S n) fds inp
  | UWait k => JWait (eval k who n fds inp)
  | UPipe k =>
      if grant who n then
        let '(p0, f1) := fd_new fds (OPipeR (who ++ [n])) in
        let '(p1, f2) := fd_new f1 (OPipeW (who ++ [n])) in
        if (p0 <? 0) || (p1 <? 0) then eval (k (-1) 0 0) who (S n) fds inp
        else eval (k 0 p0 p1) who (S n) f2 inp
      else eval (k (-1) 0 0) who (S n) fds inp
  | UClose fd k => eval k who n (fd_close fds fd) inp
  | UDup fd k => eval k who n (match fd_get fds fd with Some x => (fd_new fds x).2 | None => fds end) inp
  | UOpen file mode k =>
      if grant who n then
        let '(fd, f1) := fd_new fds (OFile file mode) in eval (k fd) who (S n) f1 inp
      else eval (k (-1)) who (S n) fds inp
  | UExec path argv k => if grant who n then JRun path argv fds else eval k who (S n) fds inp
  | UWrite fd bs k => JSay fd bs (eval k who n fds inp)
  | UChdir dir k =>
      if grant who n then JChdir dir (eval (k 0) who (S n) fds inp) else eval (k (-1)) who (S n) fds inp
  | URead k =>
      match inp with
      | [] => eval (k None) who n fds inp
      | c :: inp' => eval (k (Some c)) who n fds inp'
      end
  | UStuck => JStuck
  end.
End Eval.

(** ** What a command means *)

Fixpoint plumb (c : cmd (list Z)) (who : list nat) (n : nat) (fds : fdtable) : job :=
  match c with
  | Exec [] => JExit 1
  | Exec ((a0 :: _) as argv) => JRun a0 argv fds
  | Redir c file mode fd => plumb c who (S n) (<[Z.to_nat fd := Some (OFile file mode)]> fds)
  | List_ l r => JFork (plumb l (who ++ [n]) 0 fds) (JWait (plumb r who (S n) fds))
  | Pipe l r =>
      let p := who ++ [n] in
      JFork (plumb l (who ++ [S n]) 0 (<[1%nat := Some (OPipeW p)]> fds))
        (JFork (plumb r (who ++ [S (S n)]) 0 (<[0%nat := Some (OPipeR p)]> fds))
           (JWait (JWait (JExit 0))))
  | Back c => JFork (plumb c (who ++ [n]) 0 fds) (JExit 0)
  end.
(** The programs started. *)
Fixpoint launches (j : job) : list (list Z * list (list Z) * fdtable) :=
  match j with
  | JExit _ | JStuck => []
  | JRun path argv fds => [(path, argv, fds)]
  | JFork c p => launches c ++ launches p
  | JWait k | JSay _ _ k | JChdir _ k => launches k
  end.

(** ** Descriptor tables *)

(** The standard descriptors are open, and two more can be opened. *)
Record table_ok (fds : fdtable) : Prop := {
  to_std : forall i, (i < 3)%nat -> exists x, fds !! i = Some (Some x);
  to_room : exists i j, (i < j)%nat /\ fds !! i = Some None /\ fds !! j = Some None
}.

Lemma lowest_spec fds i : fds !! i = Some None -> (forall k, (k < i)%nat -> exists x, fds !! k = Some (Some x)) -> lowest fds = Some i.
Proof.
  revert i. induction fds as [|[x|] fds IH]; intros i Hi Hk; [done|..]; cbn [lowest].
  - destruct i as [|i]; [done|]. rewrite (IH i); [done|done|]. intros k Hk'. apply (Hk (S k)). lia.
  - destruct i as [|i]; [done|]. destruct (Hk 0%nat) as [x Hx]; [lia|done].
Qed.
Lemma lowest_exists fds i : fds !! i = Some None -> exists k, (k <= i)%nat /\ fds !! k = Some None /\ lowest fds = Some k /\
  forall l, (l < k)%nat -> exists x, fds !! l = Some (Some x).
Proof.
  revert i. induction fds as [|[x|] fds IH]; intros i Hi; [done|..].
  - destruct i as [|i]; [done|]. destruct (IH i Hi) as (k&Hk&Hn&Hl&Ho). exists (S k). cbn [lowest]. rewrite Hl.
    split_and!; [lia|done|done|]. intros [|l] Hl'; [by exists x|]. apply Ho. lia.
  - exists 0%nat. split_and!; [lia|done|done|]. intros l Hl. lia.
Qed.

Lemma table_ok_insert fds i x : (i < 3)%nat -> table_ok fds -> table_ok (<[i := Some x]> fds).
Proof.
  intros Hi [Hs (a&b&Hab&Ha&Hb)]. split.
  - intros k Hk. destruct (decide (k = i)) as [->|]; [|rewrite list_lookup_insert_ne by done; auto].
    destruct (Hs i Hi) as [y Hy]. exists x. apply list_lookup_insert_eq. by eapply lookup_lt_Some.
  - assert (forall k, fds !! k = Some None -> k <> i) as Hne by (intros k Hk ->; destruct (Hs i Hi); congruence).
    exists a, b. split; [done|]. rewrite !list_lookup_insert_ne; [done|by apply not_eq_sym, Hne..].
Qed.

Lemma table_eq (f g : fdtable) : (forall i, f !! i = g !! i) -> f = g.
Proof. apply list_eq. Qed.
Lemma lookup_insert_cases (f : fdtable) i x k :
  (<[i := x]> f) !! k = if decide (k = i) then (if decide (i < length f)%nat then Some x else None) else f !! k.
Proof.
  destruct (decide (k = i)) as [->|]; [|apply list_lookup_insert_ne; congruence].
  case_decide; [by apply list_lookup_insert_eq|]. apply lookup_ge_None_2. rewrite length_insert. lia.
Qed.

(** [close(fd); open(...)] or [close(fd); dup(...)] on a standard descriptor. *)
Lemma reopen fds fd x :
  table_ok fds -> (fd < 3)%nat -> fd_new (fd_close fds (Z.of_nat fd)) x = (Z.of_nat fd, <[fd := Some x]> fds).
Proof.
  intros [Hs _] Hfd. unfold fd_close, fd_new. rewrite (proj2 (Z.leb_le _ _)), Nat2Z.id by lia.
  destruct (Hs fd Hfd) as [y Hy]. assert (Hl : (fd < length fds)%nat) by (by eapply lookup_lt_Some).
  rewrite (lowest_spec _ fd); [by rewrite list_insert_insert_eq| |].
  - by apply list_lookup_insert_eq.
  - intros k Hk. rewrite list_lookup_insert_ne by lia. apply Hs. lia.
Qed.

Ltac table_solve :=
  apply table_eq; intros ?k; rewrite ?lookup_insert_cases, ?length_insert;
  repeat (case_decide; subst; rewrite ?length_insert in *; try done; try lia; try congruence).

(** What the descriptor calls around a pipeline amount to. *)
Lemma pipe_tables fds p :
  table_ok fds -> exists i j f1 f2,
    fd_new fds (OPipeR p) = (i, f1) /\ fd_new f1 (OPipeW p) = (j, f2) /\ 0 <= i /\ 0 <= j /\
    (exists x, fd_get (fd_close f2 1) j = Some x /\
       fd_close (fd_close (fd_new (fd_close f2 1) x).2 i) j = <[1%nat := Some (OPipeW p)]> fds) /\
    (exists x, fd_get (fd_close f2 0) i = Some x /\
       fd_close (fd_close (fd_new (fd_close f2 0) x).2 i) j = <[0%nat := Some (OPipeR p)]> fds) /\
    fd_close (fd_close f2 i) j = fds.
Proof.
  intros Ht. pose proof Ht as [Hs (a&b&Hab&Ha&Hb)].
  destruct (lowest_exists fds a Ha) as (i&Hi&Hin&Hil&Hio).
  assert (i3 : (3 <= i)%nat) by (destruct (decide (i < 3)%nat) as [H3|]; [destruct (Hs i H3); congruence|lia]).
  assert (Hli : (i < length fds)%nat) by (by eapply lookup_lt_Some).
  set (f1 := <[i := Some (OPipeR p)]> fds).
  assert (Hb1 : f1 !! b = Some None) by (unfold f1; rewrite list_lookup_insert_ne by lia; done).
  destruct (lowest_exists f1 b Hb1) as (j&Hj&Hjn&Hjl&Hjo).
  assert (Hij : j <> i) by (intros ->; unfold f1 in Hjn; by rewrite list_lookup_insert_eq in Hjn).
  assert (Hjn' : fds !! j = Some None) by (unfold f1 in Hjn; by rewrite list_lookup_insert_ne in Hjn).
  assert (j3 : (3 <= j)%nat) by (destruct (decide (j < 3)%nat) as [H3|]; [destruct (Hs j H3); congruence|lia]).
  assert (Hlj : (j < length fds)%nat) by (by eapply lookup_lt_Some).
  set (f2 := <[j := Some (OPipeW p)]> f1).
  assert (Ht2 : forall k, (k < 3)%nat -> exists x, f2 !! k = Some (Some x)).
  { intros k Hk. unfold f2, f1. rewrite !list_lookup_insert_ne by lia. auto. }
  assert (Hre : forall k x, (k < 3)%nat -> (fd_new (fd_close f2 (Z.of_nat k)) x).2 = <[k := Some x]> f2).
  { intros k x Hk. unfold fd_close, fd_new. rewrite (proj2 (Z.leb_le _ _)), Nat2Z.id by lia.
    assert (Hl : (k < length f2)%nat) by (destruct (Ht2 k Hk); by eapply lookup_lt_Some).
    rewrite (lowest_spec _ k); [cbn; by rewrite list_insert_insert_eq|by apply list_lookup_insert_eq|].
    intros l Hl'. rewrite list_lookup_insert_ne by lia. apply Ht2. lia. }
  exists (Z.of_nat i), (Z.of_nat j), f1, f2.
  unfold fd_new at 1 2. rewrite Hil, Hjl. split_and!; [done|done|lia|lia|..].
  - exists (OPipeW p). change 1 with (Z.of_nat 1). rewrite Hre by lia. unfold fd_get, fd_close.
    rewrite !(proj2 (Z.leb_le 0 _)), !Nat2Z.id by lia. split.
    + rewrite list_lookup_insert_ne by lia. unfold f2, f1. rewrite list_lookup_insert_eq by (rewrite length_insert; lia). done.
    + unfold f2, f1. table_solve.
  - exists (OPipeR p). change 0 with (Z.of_nat 0). rewrite Hre by lia. unfold fd_get, fd_close.
    rewrite !(proj2 (Z.leb_le (Z.of_nat 0) _)), !Nat2Z.id by lia. split.
    + rewrite list_lookup_insert_ne by lia. unfold f2, f1. rewrite list_lookup_insert_ne, list_lookup_insert_eq by lia. done.
    + unfold f2, f1. table_solve.
  - unfold fd_close. rewrite !(proj2 (Z.leb_le 0 _)), !Nat2Z.id by lia. unfold f2, f1. table_solve.
Qed.

(** ** Running a command *)

(** Redirections are of the standard input and output. *)
Fixpoint redirs_ok (c : cmd (list Z)) : Prop :=
  match c with
  | Exec _ => True
  | Redir c _ _ fd => redirs_ok c /\ (fd = 0 \/ fd = 1)
  | Pipe l r | List_ l r => redirs_ok l /\ redirs_ok r
  | Back c => redirs_ok c
  end.
Lemma cmd_ok_redirs c : cmd_ok c -> redirs_ok c.
Proof.
  induction c as [|c IH f mode fd|l IHl r IHr|l IHl r IHr|c IH]; cbn; naive_solver.
Qed.

(** [runcmd] when the kernel refuses some calls: each refusal ends a process, and
    whatever is started is a program of the command, as [plumb] has it. *)
Definition starts_only (j : job) (c : cmd (list Z)) (who : list nat) (n : nat) (fds : fdtable) : Prop :=
  launches j `sublist_of` launches (plumb c who n fds).

Lemma fork1_eval grant k who n fds inp :
  eval grant (fork1 k) who n fds inp =
  if grant who n then JFork (eval grant (k 0) (who ++ [n]) 0 fds inp) (eval grant (k (Z.of_nat (S n))) who (S n) fds inp)
  else JSay 2 (bytes_of "fork" ++ [10]) (JExit 1).
Proof. unfold fork1. cbn [eval]. by destruct (grant who n). Qed.
Lemma redir_eval grant c f mode fd who n fds inp :
  table_ok fds -> fd = 0 \/ fd = 1 ->
  eval grant (runcmd (Redir c f mode fd)) who n fds inp =
  if grant who n then eval grant (runcmd c) who (S n) (<[Z.to_nat fd := Some (OFile f mode)]> fds) inp
  else JSay 2 (bytes_of "open " ++ f ++ bytes_of " failed" ++ [10]) (JExit 1).
Proof.
  intros Ht Hfd. cbn [runcmd eval]. destruct (grant who n); [|done].
  replace fd with (Z.of_nat (Z.to_nat fd)) at 1 by lia. rewrite (reopen fds (Z.to_nat fd)) by (done || lia). cbv iota beta.
  by rewrite (proj2 (Z.ltb_ge _ _)) by lia.
Qed.
Lemma pipe_eval grant l r who n fds inp :
  table_ok fds ->
  eval grant (runcmd (Pipe l r)) who n fds inp =
  if grant who n then
    if grant who (S n) then
      JFork (eval grant (runcmd l) (who ++ [S n]) 0 (<[1%nat := Some (OPipeW (who ++ [n]))]> fds) inp)
        (if grant who (S (S n)) then
           JFork (eval grant (runcmd r) (who ++ [S (S n)]) 0 (<[0%nat := Some (OPipeR (who ++ [n]))]> fds) inp)
             (JWait (JWait (JExit 0)))
         else JSay 2 (bytes_of "fork" ++ [10]) (JExit 1))
    else JSay 2 (bytes_of "fork" ++ [10]) (JExit 1)
  else JSay 2 (bytes_of "pipe" ++ [10]) (JExit 1).
Proof.
  intros Ht. destruct (pipe_tables fds (who ++ [n]) Ht) as (i&j&f1&f2&E1&E2&Hi&Hj&(x&Ex&El)&(y&Ey&Er)&Ep).
  cbn [runcmd]. cbn [eval]. destruct (grant who n); [|done]. rewrite E1. cbv iota beta. rewrite E2. cbv iota beta.
  rewrite !(proj2 (Z.ltb_ge _ 0)) by lia. cbn [orb]. change (0 <? 0) with false. cbv iota. rewrite fork1_eval.
  destruct (grant who (S n)); [|done]. change (0 =? 0) with true. cbv iota. cbn [eval]. rewrite Ex, El. f_equal.
  rewrite (proj2 (Z.eqb_neq _ 0)) by lia. rewrite fork1_eval. destruct (grant who (S (S n))); [|done].
  change (0 =? 0) with true. cbv iota. cbn [eval]. rewrite Ey, Er. f_equal.
Qed.

Lemma runcmd_starts_only grant c : redirs_ok c -> forall who n fds inp, table_ok fds ->
  starts_only (eval grant (runcmd c) who n fds inp) c who n fds.
Proof.
  unfold starts_only.
  induction c as [argv|c IH f mode fd|l IHl r IHr|l IHl r IHr|c IH]; intros Hc who n fds inp Ht; cbn in Hc.
  - destruct argv; cbn; [reflexivity|]. case_match; [reflexivity|apply sublist_nil_l].
  - rewrite redir_eval by naive_solver. cbn [plumb]. case_match; [|apply sublist_nil_l].
    apply IH; [apply Hc|]. apply table_ok_insert; [lia|done].
  - rewrite pipe_eval by done. cbn [plumb]. case_match; [|apply sublist_nil_l]. case_match; [|apply sublist_nil_l].
    cbn [launches]. rewrite app_nil_r. apply sublist_app; [apply IHl; [naive_solver|apply table_ok_insert; [lia|done]]|].
    case_match; cbn [launches]; [|apply sublist_nil_l].
    rewrite app_nil_r. apply IHr; [naive_solver|apply table_ok_insert; [lia|done]].
  - cbn [runcmd plumb]. rewrite fork1_eval. case_match; [|apply sublist_nil_l].
    change (0 =? 0) with true; change (Z.of_nat (S n) =? 0) with false; cbv iota; cbn [eval launches].
    apply sublist_app; [apply IHl; naive_solver|apply IHr; naive_solver].
  - cbn [runcmd plumb]. rewrite fork1_eval. case_match; [|apply sublist_nil_l]. cbn [launches]. rewrite app_nil_r.
    change (0 =? 0) with true; change (Z.of_nat (S n) =? 0) with false; cbv iota; cbn [eval launches]. rewrite app_nil_r. auto.
Qed.

Lemma runcmd_granted grant c : (forall who n, grant who n = true) -> redirs_ok c -> forall who n fds inp, table_ok fds ->
  eval grant (runcmd c) who n fds inp = plumb c who n fds.
Proof.
  intros Hg.
  induction c as [argv|c IH f mode fd|l IHl r IHr|l IHl r IHr|c IH]; intros Hc who n fds inp Ht; cbn in Hc.
  - destruct argv; cbn; [done|]. by rewrite Hg.
  - rewrite redir_eval, Hg by naive_solver. apply IH; [apply Hc|]. apply table_ok_insert; [lia|done].
  - rewrite pipe_eval, !Hg by done. cbn [plumb]. f_equal; [apply IHl; [naive_solver|apply table_ok_insert; [lia|done]]|].
    f_equal. apply IHr; [naive_solver|apply table_ok_insert; [lia|done]].
  - cbn [runcmd plumb]. rewrite fork1_eval, Hg. change (0 =? 0) with true; change (Z.of_nat (S n) =? 0) with false; cbv iota; cbn [eval].
    f_equal; [apply IHl; naive_solver|]. f_equal. apply IHr; naive_solver.
  - cbn [runcmd plumb]. rewrite fork1_eval, Hg. change (0 =? 0) with true; change (Z.of_nat (S n) =? 0) with false; cbv iota; cbn [eval]. f_equal. auto.
Qed.

(** Every program a command starts has the descriptors from 2 on that the shell
    had: no end of a pipe is left open in it beside its input and output. *)
Lemma plumb_no_leak c who n fds : redirs_ok c -> forall l, l ∈ launches (plumb c who n fds) ->
  forall i, (2 <= i)%nat -> l.2 !! i = fds !! i.
Proof.
  revert who n fds. induction c as [argv|c IH f mode fd|l IHl r IHr|l IHl r IHr|c IH]; intros who n fds Hc x Hx i Hi; cbn in Hc.
  - destruct argv; cbn in Hx; [by apply elem_of_nil in Hx|]. apply list_elem_of_singleton in Hx. by subst.
  - cbn in Hx. rewrite (IH _ _ _ (proj1 Hc) _ Hx i Hi). apply list_lookup_insert_ne. lia.
  - cbn in Hx. rewrite app_nil_r in Hx. apply elem_of_app in Hx as [Hx|Hx].
    + rewrite (IHl _ _ _ (proj1 Hc) _ Hx i Hi). apply list_lookup_insert_ne. lia.
    + rewrite (IHr _ _ _ (proj2 Hc) _ Hx i Hi). apply list_lookup_insert_ne. lia.
  - cbn in Hx. apply elem_of_app in Hx as [Hx|Hx]; [by eapply IHl; [apply Hc|..]|by eapply IHr; [apply Hc|..]].
  - cbn in Hx. rewrite app_nil_r in Hx. by eapply IH.
Qed.

Lemma strs_texts buf c : (forall t, t ∈ strings c -> string_at buf t = t_text t) -> strs buf c = texts c.
Proof.
  induction c as [argv|c IH f mode fd|l IHl r IHr|l IHl r IHr|c IH]; intros H; cbn in *.
  - f_equal. apply list_fmap_ext. intros i t Hi. apply H. by eapply list_elem_of_lookup_2.
  - rewrite IH, H; [done|set_solver..].
  - rewrite IHl, IHr; [done|set_solver..].
  - rewrite IHl, IHr; [done|set_solver..].
  - by rewrite IH.
Qed.
Lemma run_line_show c : cmd_ok c -> 0 ∉ show c -> run_line (show c) = runcmd c.
Proof.
  intros Hc Hz. destruct (parsecmd_show c Hc) as (c'&buf&E&Et). pose proof (parsecmd_spec (show c) Hz) as H.
  unfold run_line. rewrite E in H |- *. destruct H as [_ H]. rewrite strs_texts; [by rewrite Et|]. intros t Ht. by apply H.
Qed.

(** C9: The shell runs what was typed: a command tree written as a line is parsed
    and run so that its programs are started with their arguments, joined by
    pipes and redirected as the tree says, with every other descriptor as the
    shell had it (no end of a pipe leaks into a program); lists and pipelines
    are waited for and background jobs are not.  When the kernel refuses calls,
    only programs of the command are started, in the same way. *)
Theorem shell_runs_what_was_typed (c : cmd (list Z)) (who : list nat) (n : nat) (fds : fdtable) (inp : list Z) :
  cmd_ok c -> 0 ∉ show c -> table_ok fds ->
  eval (fun _ _ => true) (run_line (show c)) who n fds inp = plumb c who n fds /\
  forall grant l, l ∈ launches (eval grant (run_line (show c)) who n fds inp) ->
    l ∈ launches (plumb c who n fds) /\ forall i, (2 <= i)%nat -> l.2 !! i = fds !! i.
Proof.
  intros Hc Hz Ht. pose proof (cmd_ok_redirs c Hc) as Hr. rewrite (run_line_show c Hc Hz). split; [by apply runcmd_granted|].
  intros grant l Hl. assert (Hl' : l ∈ launches (plumb c who n fds)).
  { eapply elem_of_sublist; [exact Hl|apply (runcmd_starts_only grant c Hr who n fds inp Ht)]. }
  split; [done|]. by eapply plumb_no_leak.
Qed.

(** ** The command loop *)

(** A line of text that is neither blank nor a change of directory. *)
Definition command_text (w : list Z) : Prop :=
  Forall (fun c => c <> 0 /\ c <> 10 /\ c <> 13) w /\ (length w <= 98)%nat /\
  let cmd := skip_blank (w ++ [10]) in
  (nth 0 cmd 0 =? 10) = false /\ (nth 0 cmd 0 =? 99) && (nth 1 cmd 0 =? 100) && (nth 2 cmd 0 =? 32) = false.

Lemma sh_gets_line grant w : forall room acc rest k who n fds,
  Forall (fun c => c <> 0 /\ c <> 10 /\ c <> 13) w -> (length w < room)%nat ->
  eval grant (sh_gets room acc k) who n fds (w ++ 10 :: rest) = eval grant (k (acc ++ w ++ [10])) who n fds rest.
Proof.
  induction w as [|c w IH]; intros room acc rest k who n fds Hw Hl; (destruct room as [|room]; [cbn in Hl; lia|]); cbn [sh_gets eval app]; [done|].
  inversion_clear Hw as [|?? (H0&H1&H2) Hw']. rewrite (proj2 (Z.eqb_neq c 10)), (proj2 (Z.eqb_neq c 13)) by done. cbn [orb].
  rewrite IH by (done || (cbn in Hl; lia)). by rewrite <- app_assoc.
Qed.

(** What the loop does with each line: a prompt, a child for the command, and a
    wait for it; at the end of the input the shell exits. *)
Fixpoint line_jobs (grant : list nat -> nat -> bool) (who : list nat) (n : nat) (fds : fdtable) (ws : list (list Z)) : job :=
  JSay 2 (bytes_of "$ ")
    match ws with
    | [] => JExit 0
    | w :: ws' =>
        JFork (eval grant (run_line (skip_blank (w ++ [10]))) (who ++ [n]) 0 fds (concat ((fun w => w ++ [10]) <$> ws')))
              (JWait (line_jobs grant who (S n) fds ws'))
    end.
Theorem command_loop_runs_lines (ws : list (list Z)) (grant : list nat -> nat -> bool) (who : list nat) (n : nat) (fds : fdtable) :
  Forall command_text ws -> (forall k, grant who k = true) ->
  eval grant (command_loop (S (length ws))) who n fds (concat ((fun w => w ++ [10]) <$> ws)) = line_jobs grant who n fds ws.
Proof.
  intros Hws Hg. revert n. induction Hws as [|w ws (Hw&Hl&Hc) _ IH]; intros n; [done|].
  cbn [length command_loop]. unfold getcmd. cbn [eval line_jobs]. f_equal. rewrite fmap_cons. cbn [concat]. rewrite <- app_assoc.
  change (Z.to_nat (100 - 1)) with 99%nat. cbn [app]. rewrite sh_gets_line by (done || lia). cbn [app].
  assert (cstr (w ++ [10]) = w ++ [10]) as ->.
  { clear Hl Hc. induction Hw as [|c w (H0&_) _ IHw]; [done|]. cbn. by rewrite (proj2 (Z.eqb_neq c 0)), IHw. }
  destruct (w ++ [10]) as [|c0 r0] eqn:Ew; [by destruct w|]. rewrite <- Ew in *. change (0 <? 0) with false. cbv iota zeta.
  destruct Hc as [H1 H2]. rewrite H1, H2. rewrite fork1_eval, Hg. change (0 =? 0) with true; change (Z.of_nat (S n) =? 0) with false; cbv iota.
  f_equal. cbn [eval]. f_equal. apply IH.
Qed.

(** [ls | wc > f &], typed at a shell with three descriptors open. *)
Definition std_table : fdtable := [Some (OInherited 0); Some (OInherited 1); Some (OInherited 2)] ++ replicate 13 None.
Definition typed : cmd (list Z) :=
  Back (Pipe (Exec [[108; 115]]) (Redir (Exec [[119; 99]]) [102] (Z.lor (Z.lor O_WRONLY O_CREATE) O_TRUNC) 1)).
Lemma std_table_ok : table_ok std_table.
Proof.
  split; [intros [|[|[|i]]] Hi; [by eexists..|lia]|]. exists 3%nat, 4%nat. split_and!; [lia|done..].
Qed.
Lemma shell_runs_what_was_typed_witness :
  eval (fun _ _ => true) (run_line (show typed)) [] 0 std_table [] = plumb typed [] 0 std_table.
Proof.
  apply (shell_runs_what_was_typed typed [] 0 std_table []); [|by apply (bool_decide_unpack _); vm_compute|apply std_table_ok].
  unfold typed. cbn. unfold is_word, MAXARGS. repeat split; repeat constructor; try done; lia || (right; by left).
Defined.
