(* ===== verification/Utils.v ===== *)
(** * The small programs: cat, wc, echo, ls, ln, rm, mkdir, kill

    Each program over an interface of the system calls it makes ([UtilSys]); a
    program's result is the status it exits with.  Output goes through [printf] of
    user/printf.c, one [write] per character, or through [write].  [UtilLaws] is
    what the programs can rely on for readable files: [read] returns a piece of
    what is left, of any size, and nothing only at the end. *)
From S2P Require Import Prelude Machine Bytes Printf Fs.

(** The fields of [struct stat] the programs use. *)
Record statbuf : Type := Statbuf { s_ino : Z; s_type : Z; s_size : Z }.

Class UtilSys (S : Type) : Type := {
  sc_open : list Z -> Z -> M S Z;
  sc_read : Z -> Z -> M S (Z * list Z);
  sc_write : Z -> list Z -> M S Z;
  sc_close : Z -> M S Z;
  sc_fstat : Z -> M S (Z * statbuf);
  sc_link : list Z -> list Z -> M S Z;
  sc_unlink : list Z -> M S Z;
  sc_mkdir : list Z -> M S Z;
  sc_kill : Z -> M S Z
}.

(** ** user/ulib.c *)

(** The rest of the string from the first [c] on; the nul is not searched. *)
Fixpoint strchr (s : list Z) (c : Z) : option (list Z) :=
  match s with [] => None | x :: s' => if x =? c then Some s else strchr s' c end.

Fixpoint atoi_loop (n : Z) (s : list Z) : Z :=
  match s with
  | x :: s' => if (48 <=? x) && (x <=? 57) then atoi_loop (i32 (n * 10 + x - 48)) s' else n
  | [] => n
  end.
Definition atoi (s : list Z) : Z := atoi_loop 0 s.

Section Utils.
Context {S : Type} `{US : UtilSys S} (N : nat).

Definition ustat_path (n : list Z) : M S (Z * statbuf) :=
  let! fd := sc_open n O_RDONLY in
  if fd <? 0 then ret (-1, Statbuf 0 0 0)
  else
    let! '(r, st) := sc_fstat fd in
    sc_close fd ;;
    ret (r, st).

(** [putc] for each character. *)
Fixpoint put_chars (fd : Z) (bs : list Z) : M S unit :=
  match bs with [] => ret tt | b :: bs' => sc_write fd [b] ;; put_chars fd bs' end.
Definition fprintf (fd : Z) (fmt : list Z) (args : list arg) : M S unit :=
  match user_printf fmt args with Some o => put_chars fd o | None => out_of_fuel end.
Definition line (s : string) : list Z := bytes_of s ++ [10].
Definition str (s : list Z) : arg := VStr (Some s).

(** ** user/cat.c

    [Some st] is a call of [exit(st)]; at most [N] reads. *)

Definition BUF : Z := 512.
Fixpoint cat_loop (n : nat) (fd : Z) : M S (Z * option Z) :=
  match n with
  | O => out_of_fuel
  | Datatypes.S n' =>
      let! '(n, buf) := sc_read fd BUF in
      if 0 <? n then
        let! w := sc_write 1 (take (Z.to_nat n) buf) in
        if negb (w =? n) then fprintf 2 (line "cat: write error") [] ;; ret (n, Some 1)
        else cat_loop n' fd
      else ret (n, None)
  end.
Definition cat (fd : Z) : M S (option Z) :=
  let! '(n, e) := cat_loop N fd in
  match e with
  | Some st => ret (Some st)
  | None => if n <? 0 then fprintf 2 (line "cat: read error") [] ;; ret (Some 1) else ret None
  end.
Fixpoint cat_files (files : list (list Z)) : M S Z :=
  match files with
  | [] => ret 0
  | f :: files' =>
      let! fd := sc_open f O_RDONLY in
      if fd <? 0 then fprintf 2 (line "cat: cannot open %s") [str f] ;; ret 1
      else
        let! e := cat fd in
        match e with
        | Some st => ret st
        | None => sc_close fd ;; cat_files files'
        end
  end.
Definition cat_main (argv : list (list Z)) : M S Z :=
  match argv with
  | _ :: ((_ :: _) as files) => cat_files files
  | _ => let! e := cat 0 in ret (default 0 e)
  end.

(** ** user/wc.c *)

Record counts : Type := Counts { wl : Z; ww : Z; wcc : Z; inword : Z }.
(** Blank, carriage return, tab, newline, vertical tab. *)
Definition blanks : list Z := [32; 13; 9; 10; 11].
Definition wc_char (k : counts) (b : Z) : counts :=
  let c := i32 (wcc k + 1) in
  let l := if b =? 10 then i32 (wl k + 1) else wl k in
  match strchr blanks b with
  | Some _ => Counts l (ww k) c 0
  | None => if inword k =? 0 then Counts l (i32 (ww k + 1)) c 1 else Counts l (ww k) c (inword k)
  end.
Fixpoint wc_loop (n : nat) (fd : Z) (k : counts) : M S (Z * counts) :=
  match n with
  | O => out_of_fuel
  | Datatypes.S n' =>
      let! '(n, buf) := sc_read fd BUF in
      if 0 <? n then wc_loop n' fd (foldl wc_char k (take (Z.to_nat n) buf)) else ret (n, k)
  end.
Definition wc (fd : Z) (name : list Z) : M S (option Z) :=
  let! '(n, k) := wc_loop N fd (Counts 0 0 0 0) in
  if n <? 0 then fprintf 1 (line "wc: read error") [] ;; ret (Some 1)
  else fprintf 1 (line "%d %d %d %s") [VInt (wl k); VInt (ww k); VInt (wcc k); str name] ;; ret None.
Fixpoint wc_files (files : list (list Z)) : M S Z :=
  match files with
  | [] => ret 0
  | f :: files' =>
      let! fd := sc_open f O_RDONLY in
      if fd <? 0 then fprintf 1 (line "wc: cannot open %s") [str f] ;; ret 1
      else
        let! e := wc fd f in
        match e with
        | Some st => ret st
        | None => sc_close fd ;; wc_files files'
        end
  end.
Definition wc_main (argv : list (list Z)) : M S Z :=
  match argv with
  | _ :: ((_ :: _) as files) => wc_files files
  | _ => let! e := wc 0 [] in ret (default 0 e)
  end.

(** ** user/echo.c *)

Fixpoint echo_args (args : list (list Z)) : M S Z :=
  match args with
  | [] => ret 0
  | a :: args' =>
      sc_write 1 a ;;
      sc_write 1 (match args' with [] => [10] | _ => [32] end) ;;
      echo_args args'
  end.
Definition echo_main (argv : list (list Z)) : M S Z := echo_args (tail argv).

(** ** user/ln.c, user/rm.c, user/mkdir.c, user/kill.c *)

Definition ln_main (argv : list (list Z)) : M S Z :=
  match argv with
  | [_; old; new] =>
      let! r := sc_link old new in
      (if r <? 0 then fprintf 2 (line "link %s %s: failed") [str old; str new] else ret tt) ;;
      ret 0
  | _ => fprintf 2 (line "Usage: ln old new") [] ;; ret 1
  end.

(** [rm] and [mkdir] stop at the first failure, and exit with 0 all the same. *)
Fixpoint each_path (call : list Z -> M S Z) (failed : list Z) (paths : list (list Z)) : M S Z :=
  match paths with
  | [] => ret 0
  | p :: paths' =>
      let! r := call p in
      if r <? 0 then fprintf 2 failed [str p] ;; ret 0 else each_path call failed paths'
  end.
Definition rm_main (argv : list (list Z)) : M S Z :=
  if (length argv <? 2)%nat then fprintf 2 (line "Usage: rm files...") [] ;; ret 1
  else each_path sc_unlink (line "rm: %s failed to delete") (tail argv).
Definition mkdir_main (argv : list (list Z)) : M S Z :=
  if (length argv <? 2)%nat then fprintf 2 (line "Usage: mkdir files...") [] ;; ret 1
  else each_path sc_mkdir (line "mkdir: %s failed to create") (tail argv).

Fixpoint kill_args (args : list (list Z)) : M S Z :=
  match args with [] => ret 0 | a :: args' => sc_kill (atoi a) ;; kill_args args' end.
Definition kill_main (argv : list (list Z)) : M S Z :=
  if (length argv <? 2)%nat then fprintf 2 (line "usage: kill pid...") [] ;; ret 1
  else kill_args (tail argv).

(** ** user/ls.c *)

(** What follows the last slash. *)
Fixpoint base_name (path : list Z) : list Z :=
  match path with
  | [] => []
  | c :: path' => if bool_decide (SLASH ∈ path) then base_name path' else path
  end.
(** Padded with blanks to [DIRSIZ] characters. *)
Definition fmtname (path : list Z) : list Z :=
  let p := base_name path in
  if (Z.to_nat DIRSIZ <=? length p)%nat then p else p ++ replicate (Z.to_nat DIRSIZ - length p) 32.
Definition ls_line (path : list Z) (st : statbuf) : M S unit :=
  fprintf 1 (line "%s %d %d %d") [str (fmtname path); VInt (s_type st); VInt (s_ino st); VInt (i32 (s_size st))].
(** The name of a directory entry, up to its nul. *)
Fixpoint upto_nul (s : list Z) : list Z :=
  match s with [] => [] | c :: s' => if c =? 0 then [] else c :: upto_nul s' end.
Fixpoint ls_entries (n : nat) (fd : Z) (path : list Z) : M S unit :=
  match n with
  | O => out_of_fuel
  | Datatypes.S n' =>
      let! '(r, de) := sc_read fd DIRENT in
      if negb (r =? DIRENT) then ret tt
      else if de_inum de =? 0 then ls_entries n' fd path
      else
        let buf := path ++ [SLASH] ++ upto_nul (de_name de) in
        let! '(q, st) := ustat_path buf in
        (if q <? 0 then fprintf 1 (line "ls: cannot stat %s") [str buf] else ls_line buf st) ;;
        ls_entries n' fd path
  end.
Definition ls (path : list Z) : M S unit :=
  let! fd := sc_open path O_RDONLY in
  if fd <? 0 then fprintf 2 (line "ls: cannot open %s") [str path]
  else
    let! '(r, st) := sc_fstat fd in
    if r <? 0 then fprintf 2 (line "ls: cannot stat %s") [str path] ;; sc_close fd ;; ret tt
    else
      (if (s_type st =? T_DEVICE) || (s_type st =? T_FILE) then ls_line path st
       else if s_type st =? T_DIR then
         if BUF <? Z.of_nat (length path) + 1 + DIRSIZ + 1 then fprintf 1 (line "ls: path too long") []
         else ls_entries N fd path
       else ret tt) ;;
      sc_close fd ;;
      ret tt.
Fixpoint ls_paths (paths : list (list Z)) : M S Z :=
  match paths with [] => ret 0 | p :: paths' => ls p ;; ls_paths paths' end.
Definition ls_main (argv : list (list Z)) : M S Z :=
  if (length argv <? 2)%nat then ls [46] ;; ret 0 else ls_paths (tail argv).
End Utils.

(** ** What the programs rely on *)

(** [u_rest]: what a descriptor still has to deliver; [u_out]: what was written to
    descriptor 1; [u_file]: the contents of a file that can be opened. *)
Class UtilLaws (S : Type) `{US : UtilSys S} : Type := {
  u_rest : S -> Z -> option (list Z);
  u_out : S -> list Z;
  u_file : S -> list Z -> option (list Z);
  law_read s fd n l : u_rest s fd = Some l -> 0 < n ->
    wp (sc_read fd n) (fun r s' => exists p q, l = p ++ q /\ r = (Z.of_nat (length p), p) /\ Z.of_nat (length p) <= n /\
      (l <> [] -> p <> []) /\ u_rest s' fd = Some q /\ u_out s' = u_out s /\ u_file s' = u_file s) s;
  law_write s bs : wp (sc_write 1 bs) (fun r s' => r = Z.of_nat (length bs) /\ u_out s' = u_out s ++ bs /\
    u_rest s' = u_rest s /\ u_file s' = u_file s) s;
  law_open s name c : u_file s name = Some c ->
    wp (sc_open name O_RDONLY) (fun fd s' => 0 <= fd /\ u_rest s' fd = Some c /\ u_out s' = u_out s /\ u_file s' = u_file s) s;
  law_close s fd : wp (sc_close fd) (fun _ s' => u_out s' = u_out s /\ u_file s' = u_file s) s
}.

(** ** Counting *)

Definition blank_char (b : Z) : bool := match strchr blanks b with Some _ => true | None => false end.
(** A word starts at position [i]: no blank there, and a blank or nothing before it. *)
Definition word_start (c : list Z) (i : nat) : bool :=
  match c !! i with
  | Some b => negb (blank_char b) && match i with O => true | S j => default true (blank_char <$> c !! j) end
  | None => false
  end.

Definition lines (c : list Z) : nat := length (filter (fun b => b = 10) c).
Definition words (c : list Z) : nat := length (List.filter (word_start c) (seq 0 (length c))).

Definition ends_in_word (c : list Z) : Z := match last c with Some b => if blank_char b then 0 else 1 | None => 0 end.

Lemma word_start_app c b i : (i < length c)%nat -> word_start (c ++ [b]) i = word_start c i.
Proof.
  intros Hi. unfold word_start. rewrite lookup_app_l by done. destruct (c !! i); [|done]. destruct i; [done|]. by rewrite lookup_app_l by lia.
Qed.
Lemma words_snoc c b : words (c ++ [b]) = (words c + if blank_char b then 0 else if (ends_in_word c =? 0)%Z then 1 else 0)%nat.
Proof.
  unfold words. rewrite length_app, Nat.add_1_r, seq_S, List.filter_app, length_app. f_equal.
  - f_equal. apply List.filter_ext_in. intros i Hi%List.in_seq. apply word_start_app. lia.
  - cbn [List.filter Nat.add]. unfold word_start. rewrite list_lookup_middle by done. unfold ends_in_word.
    destruct c as [|x c _] using rev_ind; [by destruct (blank_char b)|]. rewrite last_snoc, length_app. cbn [length]. rewrite Nat.add_1_r.
    rewrite lookup_app_l by (rewrite length_app; cbn; lia). rewrite list_lookup_middle by done. cbn [fmap option_fmap option_map default]. by destruct (blank_char b), (blank_char x).
Qed.
Lemma words_le c : (words c <= length c)%nat.
Proof. unfold words. etrans; [apply List.filter_length_le|]. by rewrite length_seq. Qed.
Lemma lines_le c : (lines c <= length c)%nat.
Proof. apply length_filter. Qed.

(** The loop counts lines, words and characters. *)
Lemma wc_fold c : Z.of_nat (length c) < 2 ^ 31 ->
  foldl wc_char (Counts 0 0 0 0) c = Counts (Z.of_nat (lines c)) (Z.of_nat (words c)) (Z.of_nat (length c)) (ends_in_word c).
Proof.
  induction c as [|b c IH] using rev_ind; intros Hl; [done|]. rewrite length_app in *. cbn [length] in *. rewrite foldl_snoc, IH by lia.
  assert (He : ends_in_word c = 0 \/ ends_in_word c = 1) by (unfold ends_in_word; destruct (last c) as [x|]; [destruct (blank_char x)|]; auto).
  pose proof (words_le c). pose proof (lines_le c). rewrite words_snoc. assert (El : ends_in_word (c ++ [b]) = if blank_char b then 0 else 1) by (unfold ends_in_word; by rewrite last_snoc).
  rewrite El. unfold lines at 2. rewrite filter_app, length_app. fold (lines c). unfold wc_char. cbn [wl ww wcc inword]. assert (Hi : forall z, 0 <= z < 2 ^ 31 -> i32 z = z) by (intros z Hz; unfold i32; rewrite Z.mod_small; lia).
  rewrite !Hi by lia. unfold blank_char. rewrite filter_cons, filter_nil. replace (Z.of_nat (length c + 1)) with (Z.of_nat (length c) + 1) by lia.
  destruct (Z.eqb_spec b 10), (decide (b = 10)); try done; destruct (strchr blanks b) as [|]; try (destruct (Z.eqb_spec (ends_in_word c) 0)); cbn [length]; f_equal; lia.
Qed.

(** ** The programs on readable files *)

(** A number as [printf] prints it with %d. *)
Definition decimal (z : Z) : list Z := default [] (user_printint (i32 z) 10 1).
Lemma decimal_ok z : user_printint (i32 z) 10 1 = Some (decimal z).
Proof.
  unfold decimal. pose proof (i32_range z) as Hz. destruct (printint_ok user_digits putc_bytes (i32 z) 10 1) as (ds & E & _); [by left|left; unfold is_i32 in Hz; lia|].
  unfold user_printint. by rewrite E.
Qed.

(** The report of [wc] on a file. *)
Definition wc_report (f : list Z * list Z) : list Z :=
  decimal (Z.of_nat (lines f.2)) ++ [32] ++ decimal (Z.of_nat (words f.2)) ++ [32] ++ decimal (Z.of_nat (length f.2)) ++ [32] ++
  concat (map putc_bytes f.1) ++ [10].
Local Abbreviation vloop := (vprintf_loop user_digits putc_bytes).
Lemma vloop_char n fmt i args o : nth i fmt 0 <> 0 -> nth i fmt 0 <> 37 -> vloop n fmt (i + 1) 0 args = Some o ->
  vloop (S n) fmt i 0 args = Some (putc_bytes (nth i fmt 0) ++ o).
Proof.
  intros H0 H1 E. cbn [vprintf_loop]. rewrite (proj2 (Z.eqb_neq _ _) H0). unfold is_c. change (ch "%") with 37.
  rewrite (proj2 (Z.eqb_neq _ _) H1). change (0 =? 0) with true. cbv iota. by rewrite E.
Qed.
Lemma vloop_conv n fmt i args o args' o' : nth i fmt 0 = 37 -> nth (i + 1) fmt 0 <> 0 ->
  (forall c1 c2, conversion user_digits putc_bytes (nth (i + 1) fmt 0) c1 c2 args = Some (o, 0%nat, args')) ->
  vloop n fmt (i + 2) 0 args' = Some o' -> vloop (S (S n)) fmt i 0 args = Some (o ++ o').
Proof.
  intros H0 H1 Ec E. cbn [vprintf_loop]. rewrite H0. unfold is_c. change (ch "%") with 37. change (37 =? 0) with false.
  change (0 =? 0) with true. change (37 =? 37) with true. cbv iota. rewrite (proj2 (Z.eqb_neq _ _) H1), Ec.
  replace (i + 1 + 0 + 1)%nat with (i + 2)%nat by lia. by rewrite E.
Qed.
Lemma conversion_d z args c1 c2 : conversion user_digits putc_bytes 100 c1 c2 (VInt z :: args) = Some (decimal z, 0%nat, args).
Proof. pose proof (decimal_ok z) as E. unfold user_printint in E. unfold conversion, conv_int. change (is_c 100 "d") with true. cbv iota. by rewrite E. Qed.

Lemma wc_format a b c f : user_printf (line "%d %d %d %s") [VInt a; VInt b; VInt c; str f] =
  Some (decimal a ++ [32] ++ decimal b ++ [32] ++ decimal c ++ [32] ++ concat (map putc_bytes f) ++ [10]).
Proof.
  change (line "%d %d %d %s") with [37; 100; 32; 37; 100; 32; 37; 100; 32; 37; 115; 10]. unfold user_printf, vprintf. cbn [length].
  do 3 (eapply vloop_conv; [done|done|intros; apply conversion_d|]; apply vloop_char; [done|done|]).
  eapply vloop_conv; [done|done|done|]. by apply vloop_char.
Qed.

Section Correct.
Context {S : Type} `{UL : UtilLaws S} (N : nat).
Implicit Types (s : S).

Lemma put_chars_ok s bs : wp (put_chars 1 bs) (fun _ s' => u_out s' = u_out s ++ bs /\ u_rest s' = u_rest s /\ u_file s' = u_file s) s.
Proof.
  revert s. induction bs as [|b bs IH]; intros s; cbn [put_chars]; [wp_steps; by rewrite app_nil_r|]. wp_step.
  eapply wp_mono; [apply law_write|]. cbn beta. intros r s1 (_ & E1 & E2 & E3). eapply wp_mono; [apply IH|]. cbn beta.
  intros _ s2 (F1 & F2 & F3). rewrite F1, E1, <- app_assoc. split_and!; [done|congruence|congruence].
Qed.

Lemma cat_loop_ok n s fd l : u_rest s fd = Some l -> (length l < n)%nat ->
  wp (cat_loop n fd) (fun r s' => r = (0, None) /\ u_out s' = u_out s ++ l /\ u_file s' = u_file s) s.
Proof.
  revert s l. induction n as [|n IH]; intros s l Hl Hn; [lia|]. cbn [cat_loop]. wp_step.
  eapply wp_mono; [by apply law_read|]. cbn beta. intros r s1 (p & q & -> & -> & Hp & Hne & Hq & Eo & Ef).
  destruct (Z.ltb_spec 0 (Z.of_nat (length p))) as [H|H].
  - wp_step. eapply wp_mono; [apply law_write|]. cbn beta. intros w s2 (-> & Eo2 & Er2 & Ef2).
    rewrite Nat2Z.id, take_ge, Z.eqb_refl by lia. cbn [negb]. rewrite length_app in Hn. eapply wp_mono; [apply (IH s2 q); [congruence|lia]|].
    cbn beta. intros r s3 (-> & Eo3 & Ef3). rewrite Eo3, Eo2, Eo, Nat2Z.id, take_ge, <- app_assoc by lia. split_and!; [done|done|congruence].
  - destruct p; [|cbn in H; lia]. wp_steps. destruct q; [|by destruct Hne]. rewrite app_nil_r. done.
Qed.

Lemma wc_loop_ok n s fd l k : u_rest s fd = Some l -> (length l < n)%nat ->
  wp (wc_loop n fd k) (fun r s' => r = (0, foldl wc_char k l) /\ u_out s' = u_out s /\ u_file s' = u_file s) s.
Proof.
  revert s l k. induction n as [|n IH]; intros s l k Hl Hn; [lia|]. cbn [wc_loop]. wp_step.
  eapply wp_mono; [by apply law_read|]. cbn beta. intros r s1 (p & q & -> & -> & Hp & Hne & Hq & Eo & Ef).
  destruct (Z.ltb_spec 0 (Z.of_nat (length p))) as [H|H].
  - rewrite Nat2Z.id, take_ge by lia. rewrite length_app in Hn. eapply wp_mono; [apply (IH s1 q); [done|lia]|].
    cbn beta. intros r s2 (-> & Eo2 & Ef2). rewrite foldl_app. split_and!; [done|congruence|congruence].
  - destruct p; [|cbn in H; lia]. wp_steps. destruct q; [done|by destruct Hne].
Qed.

(** The files named, with their contents. *)
Definition readable s (fs : list (list Z * list Z)) : Prop := Forall (fun f => u_file s f.1 = Some f.2 /\ (length f.2 < N)%nat) fs.
Lemma cat_files_ok s fs : readable s fs -> wp (cat_files N fs.*1) (fun r s' => r = 0 /\ u_out s' = u_out s ++ concat fs.*2) s.
Proof.
  revert s. induction fs as [|[f c] fs IH]; intros s H; cbn [cat_files fmap list_fmap concat fst snd].
  - wp_steps. by rewrite app_nil_r.
  - apply Forall_cons in H as [[Hf Hn] H]. cbn [fst snd] in *. wp_step. eapply wp_mono; [by apply law_open|]. cbn beta.
    intros fd s1 (Hfd & Hr & Eo1 & Ef1). rewrite (proj2 (Z.ltb_ge _ _)) by lia. unfold cat. wp_steps.
    eapply wp_mono; [by apply cat_loop_ok|]. cbn beta. intros r s2 (-> & Eo2 & Ef2). wp_steps. change (0 <? 0) with false. cbv iota. wp_steps.
    eapply wp_mono; [apply law_close|]. cbn beta. intros _ s3 (Eo3 & Ef3).
    eapply wp_mono; [apply IH; eapply Forall_impl; [exact H|]; cbn; intros ? [? ?]; split; [congruence|done]|].
    cbn beta. intros r s4 (-> & Eo4). rewrite Eo4, Eo3, Eo2, Eo1, <- app_assoc. done.
Qed.

Lemma wc_files_ok s fs : readable s fs -> Forall (fun f => Z.of_nat (length f.2) < 2 ^ 31) fs ->
  wp (wc_files N fs.*1) (fun r s' => r = 0 /\ u_out s' = u_out s ++ concat (wc_report <$> fs)) s.
Proof.
  revert s. induction fs as [|[f c] fs IH]; intros s H Hl; cbn [wc_files fmap list_fmap concat fst snd].
  - wp_steps. by rewrite app_nil_r.
  - apply Forall_cons in H as [[Hf Hn] H]. apply Forall_cons in Hl as [Hc Hl]. cbn [fst snd] in *. wp_step.
    eapply wp_mono; [by apply law_open|]. cbn beta.
    intros fd s1 (Hfd & Hr & Eo1 & Ef1). rewrite (proj2 (Z.ltb_ge _ _)) by lia. unfold wc. wp_steps.
    eapply wp_mono; [by apply wc_loop_ok|]. cbn beta. intros r s2 (-> & Eo2 & Ef2). wp_steps. change (0 <? 0) with false. cbv iota. wp_steps.
    rewrite wc_fold by done. cbn [wl ww wcc]. unfold fprintf. rewrite wc_format.
    eapply wp_mono; [apply put_chars_ok|]. cbn beta. intros _ s3 (Eo3 & _ & Ef3). wp_steps.
    eapply wp_mono; [apply law_close|]. cbn beta. intros _ s4 (Eo4 & Ef4).
    eapply wp_mono; [apply IH; [|done]; eapply Forall_impl; [exact H|]; cbn; intros ? [? ?]; split; [congruence|done]|].
    cbn beta. intros r s5 (-> & Eo5). rewrite Eo5, Eo4, Eo3, Eo2, Eo1, <- app_assoc. done.
Qed.
End Correct.

(** C29: wc counts.  On any number of readable files of less than 2^31 bytes, however
    [read] cuts them into pieces, wc exits with 0 and prints for each the number of
    its newlines, of its words (maximal runs of characters that are not blanks, a
    word cut by a [read] counted once) and of its bytes, in decimal, and its name. *)
Theorem wc_counts_files {S : Type} `{UL : UtilLaws S} (N : nat) (s : S) (prog : list Z) (fs : list (list Z * list Z)) :
  fs <> [] -> readable N s fs -> Forall (fun f => Z.of_nat (length f.2) < 2 ^ 31) fs ->
  wp (wc_main N (prog :: fs.*1)) (fun r s' => r = 0 /\ u_out s' = u_out s ++ concat (wc_report <$> fs)) s.
Proof. intros Hne Hr Hl. destruct fs as [|f fs]; [done|]. by apply (wc_files_ok N s (f :: fs)). Qed.

(** cat writes the files one after the other to its output. *)
Theorem cat_copies_files {S : Type} `{UL : UtilLaws S} (N : nat) (s : S) (prog : list Z) (fs : list (list Z * list Z)) :
  fs <> [] -> readable N s fs -> wp (cat_main N (prog :: fs.*1)) (fun r s' => r = 0 /\ u_out s' = u_out s ++ concat fs.*2) s.
Proof. intros Hne Hr. destruct fs as [|f fs]; [done|]. by apply (cat_files_ok N s (f :: fs)). Qed.

(** ** A system: files in a list, [read] at most two bytes at a time *)

Record tiny : Type := Tiny { t_files : list (list Z * list Z); t_fds : Z -> option (list Z); t_out : list Z }.
Definition t_find (s : tiny) (name : list Z) : option (list Z) := snd <$> List.find (fun f => bool_decide (f.1 = name)) (t_files s).
Definition t_set (s : tiny) (fd : Z) (l : option (list Z)) : tiny := Tiny (t_files s) (fun j => if j =? fd then l else t_fds s j) (t_out s).
#[export] Instance tiny_sys : UtilSys tiny := {
  sc_open name _ := fun s => match t_find s name with Some c => Ok (3, t_set s 3 (Some c)) | None => Ok (-1, s) end;
  sc_read fd n := fun s =>
    match t_fds s fd with
    | Some l => let k := Z.to_nat (Z.min n 2) in Ok ((Z.of_nat (length (take k l)), take k l), t_set s fd (Some (drop k l)))
    | None => Ok ((-1, []), s)
    end;
  sc_write fd bs := fun s => Ok (Z.of_nat (length bs), if fd =? 1 then Tiny (t_files s) (t_fds s) (t_out s ++ bs) else s);
  sc_close fd := fun s => Ok (0, t_set s fd None);
  sc_fstat _ := fun s => Ok ((-1, Statbuf 0 0 0), s);
  sc_link _ _ := fun s => Ok (-1, s);
  sc_unlink _ := fun s => Ok (-1, s);
  sc_mkdir _ := fun s => Ok (-1, s);
  sc_kill _ := fun s => Ok (-1, s)
}.
#[export, refine] Instance tiny_laws : UtilLaws tiny := { u_rest := t_fds; u_out := t_out; u_file := t_find }.
Proof.
  - intros s fd n l E Hn. unfold wp. cbn [sc_read tiny_sys]. rewrite E. exists (take (Z.to_nat (Z.min n 2)) l), (drop (Z.to_nat (Z.min n 2)) l).
    split_and!; try done.
    + symmetry. apply take_drop.
    + rewrite length_take. lia.
    + destruct l as [|x l]; [done|]. destruct (Z.to_nat (Z.min n 2)) eqn:Ek; [lia|done].
    + cbn. by rewrite Z.eqb_refl.
  - intros s bs. unfold wp. cbn. done.
  - intros s name c E. unfold wp. cbn [sc_open tiny_sys]. rewrite E. done.
  - intros s fd. done.
Defined.

Definition two_lines : list Z := bytes_of "one two" ++ [10] ++ bytes_of "three" ++ [10].
Lemma wc_counts_files_witness :
  wp (wc_main 100 [bytes_of "wc"; bytes_of "a"]) (fun r s' => r = 0 /\ u_out s' = bytes_of "2 3 14 a" ++ [10])
    (Tiny [(bytes_of "a", two_lines)] (fun _ => None) []).
Proof.
  eapply wp_mono; [apply (wc_counts_files 100 (Tiny [(bytes_of "a", two_lines)] (fun _ => None) []) (bytes_of "wc") [(bytes_of "a", two_lines)])|].
  - discriminate.
  - constructor; [split; [reflexivity|cbn; lia]|constructor].
  - constructor; [reflexivity|constructor].
  - cbn beta. intros r s' [-> E]. split; [reflexivity|]. rewrite E. vm_compute. reflexivity.
Defined.
