(* ===== verification/Eafitos.v ===== *)
(** * user/eafitos.c: the EAFITos shell, with gets of user/ulib.c

    A C string is its bytes before the nul.  The shell's static variables and what
    it has written to its standard output are the state; the system calls it makes
    are the methods of [UserSys], over a state of their own.  The loops that run as
    long as a system call delivers (a file, a directory, the terminal) have a bound
    [N] given by the caller. *)
From S2P Require Import Prelude Machine Memory Bytes Fs Printf.

Definition MAXPROMPT : Z := 64.
Definition MAXLINE : Z := 256.
Definition MAXARGS : nat := 32.
Definition HIST_SIZE : Z := 10.
Definition TICKS_PER_SEC_APPROX : Z := 10.
Definition color (code : string) : list Z := 27 :: bytes_of code.
Definition DEFAULT_PROMPT : list Z := bytes_of "EAFITos".
Definition color_reset : list Z := color "[0m".
Definition color_error : list Z := color "[1;31m".
Definition color_info : list Z := color "[1;34m".

(** The fields of [struct stat] the shell looks at. *)
Record ustat : Type := Ustat { st_dev : Z; st_ino : Z }.
(** What a forked child does: it replaces itself by a program, or prints a message
    and exits with 1. *)
Record child : Type := Child { c_prog : list Z; c_argv : list (list Z); c_failure : list Z }.

(** The system calls: [read] gives the count and the bytes. *)
Class UserSys (S : Type) : Type := {
  us_open : list Z -> Z -> M S Z;
  us_read : Z -> Z -> M S (Z * list Z);
  us_fstat : Z -> M S (Z * ustat);
  us_close : Z -> M S unit;
  us_uptime : M S Z;
  us_getpid : M S Z;
  us_sbrk : Z -> M S Z;
  us_fork : child -> M S Z;
  us_wait : M S unit
}.

Section Shell.
Context {S : Type} `{US : UserSys S} (N : nat).

Record ush : Type := Ush {
  prompt_text : list Z; prompt_color : list Z;
  hist : list (list Z); hist_count : Z; hist_next : Z;
  uout : list Z; usys : S
}.
Definition set_prompt_text v u := match u with Ush _ b c d e f g => Ush v b c d e f g end.
Definition set_prompt_color v u := match u with Ush a _ c d e f g => Ush a v c d e f g end.
Definition set_uout v u := match u with Ush a b c d e _ g => Ush a b c d e v g end.
Definition sys {A} (m : M S A) : M ush A :=
  zoom usys (fun g u => match u with Ush a b c d e f _ => Ush a b c d e f g end) m.

(** ** Output *)

Definition write1 (bs : list Z) : M ush unit := modify (fun u => set_uout (uout u ++ bs) u).
Definition printf (fmt : list Z) (args : list arg) : M ush unit :=
  match user_printf fmt args with Some o => write1 o | None => out_of_fuel end.
Definition ln (s : string) : list Z := bytes_of s ++ [10].
Definition puts (s : string) : M ush unit := printf (ln s) [].
Definition str (s : list Z) : arg := VStr (Some s).

(** ** Strings *)

Definition streq (a : list Z) (b : string) : bool := bool_decide (a = bytes_of b).
Fixpoint rstrip (r : list Z) : list Z :=
  match r with c :: r' => if (c =? 10) || (c =? 13) then rstrip r' else r | [] => [] end.
Definition rstrip_newlines (s : list Z) : list Z := reverse (rstrip (reverse s)).
Definition is_blank (s : list Z) : bool :=
  forallb (fun c => (c =? 32) || (c =? 9) || (c =? 10) || (c =? 13)) s.
(** The new contents of the destination, when the text fits. *)
Definition safe_copy (dsz : Z) (src : list Z) : option (list Z) :=
  if dsz <=? 0 then None
  else if dsz <=? Z.of_nat (length src) then None else Some src.
Definition safe_cat (dst : list Z) (dsz : Z) (src : list Z) : option (list Z) :=
  if dsz <=? 0 then None
  else if dsz <=? Z.of_nat (length dst) + Z.of_nat (length src) then None else Some (dst ++ src).

Definition print_prompt : M ush unit :=
  let! u := get in
  printf (bytes_of "%s%s>%s ") [str (prompt_color u); str (prompt_text u); str color_reset].
Definition print_error (msg : string) : M ush unit :=
  printf (ln "%s%s%s") [str color_error; str (bytes_of msg); str color_reset].
Definition print_info (msg : string) : M ush unit :=
  printf (ln "%s%s%s") [str color_info; str (bytes_of msg); str color_reset].
Definition reset_ui : M ush unit :=
  modify (fun u => set_prompt_text (default (prompt_text u) (safe_copy MAXPROMPT DEFAULT_PROMPT)) u) ;;
  modify (fun u => set_prompt_color (default (prompt_color u) (safe_copy 16 (color "[1;36m"))) u).
Definition theme_of (name : list Z) : option (list Z) :=
  if streq name "default" || streq name "cyan" then Some (color "[1;36m")
  else if streq name "verde" then Some (color "[1;32m")
  else if streq name "azul" then Some (color "[1;34m")
  else if streq name "rojo" then Some (color "[1;31m")
  else if streq name "amarillo" then Some (color "[1;33m")
  else if streq name "magenta" then Some (color "[1;35m")
  else if streq name "blanco" then Some (color "[1;37m")
  else None.
Definition set_theme_color (name : list Z) : M ush bool :=
  match theme_of name with
  | None => ret false
  | Some c =>
      match safe_copy 16 c with
      | None => ret false
      | Some c => modify (set_prompt_color c) ;; ret true
      end
  end.

(** ** parse_line *)

Definition blank (c : Z) : bool := (c =? 32) || (c =? 9).
Fixpoint skip_blanks (p : list Z) : list Z :=
  match p with c :: p' => if blank c then skip_blanks p' else p | [] => [] end.
Fixpoint take_word (p : list Z) : list Z * list Z :=
  match p with
  | [] => ([], [])
  | c :: p' => if blank c then ([], p) else let '(w, r) := take_word p' in (c :: w, r)
  end.
(** [room] is [max_args - 1 - argc]; the blank after a word becomes its nul. *)
Fixpoint parse_line (room : nat) (p : list Z) : list (list Z) :=
  match room with
  | O => []
  | Datatypes.S room' =>
      match skip_blanks p with
      | [] => []
      | p1 =>
          let '(w, r) := take_word p1 in
          match r with
          | [] => [w]
          | _ :: r' => w :: parse_line room' r'
          end
      end
  end.

(** ** History *)

Definition history_add (line : list Z) : M ush unit :=
  match line with
  | [] => ret tt
  | _ =>
      let n := Z.of_nat (length line) in
      let n := if MAXLINE <=? n then MAXLINE - 1 else n in
      modify (fun u => match u with Ush a b h c nx o g =>
        Ush a b (<[Z.to_nat nx := take (Z.to_nat n) line]> h)
            (if c <? HIST_SIZE then c + 1 else c) (Z.rem (nx + 1) HIST_SIZE) o g end)
  end.
Fixpoint history_loop (k : nat) (start i : Z) : M ush unit :=
  match k with
  | O => ret tt
  | Datatypes.S k' =>
      let idx := Z.rem (start + i) HIST_SIZE in
      let! u := get in
      printf (ln "%d  %s") [VInt (i + 1); str (nth (Z.to_nat idx) (hist u) [])] ;;
      history_loop k' start (i + 1)
  end.
Definition history_print : M ush unit :=
  let! u := get in
  let start := Z.rem (hist_next u - hist_count u + HIST_SIZE) HIST_SIZE in
  history_loop (Z.to_nat (hist_count u)) start 0.

(** ** getcwd_xv6 *)

Definition O_RDONLY : Z := 0.
Definition SIZEOF_DIRENT : Z := 16.
(** A directory entry's name as the C string of its fourteen bytes. *)
Fixpoint upto_nul (l : list Z) : list Z :=
  match l with [] => [] | c :: l' => if c =? 0 then [] else c :: upto_nul l' end.
Definition entry_name (de : list Z) : list Z := upto_nul (de_name de).
Definition dots (name : list Z) : bool := streq name "." || streq name "..".

(** The scan of the parent for the entry with inode [ino]; [None]: none. *)
Fixpoint find_entry (fuel : nat) (fd ino : Z) : M ush (option (list Z)) :=
  match fuel with
  | O => out_of_fuel
  | Datatypes.S f =>
      let! '(n, de) := sys (us_read fd SIZEOF_DIRENT) in
      if negb (n =? SIZEOF_DIRENT) then ret None
      else if de_inum de =? 0 then find_entry f fd ino
      else if dots (entry_name de) then find_entry f fd ino
      else if de_inum de =? ino then ret (safe_copy (DIRSIZ + 1) (entry_name de))
      else find_entry f fd ino
  end.
Fixpoint climb (fuel : nat) (anc : list Z) (comps : list (list Z)) : M ush (list (list Z)) :=
  match fuel with
  | O => out_of_fuel
  | Datatypes.S f =>
      let! fd_cur := sys (us_open anc O_RDONLY) in
      if fd_cur <? 0 then ret comps
      else
        let! '(r, st_cur) := sys (us_fstat fd_cur) in
        sys (us_close fd_cur) ;;
        if r <? 0 then ret comps
        else
          let parent :=
            if streq anc "." then safe_copy 128 (bytes_of "..")
            else match safe_copy 128 anc with Some p => safe_cat p 128 (bytes_of "/..") | None => None end in
          match parent with
          | None => ret comps
          | Some parent =>
              let! fd_par := sys (us_open parent O_RDONLY) in
              if fd_par <? 0 then ret comps
              else
                let! '(r, st_par) := sys (us_fstat fd_par) in
                if r <? 0 then sys (us_close fd_par) ;; ret comps
                else if (st_ino st_cur =? st_ino st_par) && (st_dev st_cur =? st_dev st_par)
                then sys (us_close fd_par) ;; ret comps
                else
                  let! found := find_entry N fd_par (st_ino st_cur) in
                  sys (us_close fd_par) ;;
                  match found with
                  | None | Some [] => ret comps
                  | Some name =>
                      if (32 <=? length comps)%nat then ret comps
                      else match safe_copy 128 parent with
                           | None => ret (name :: comps)
                           | Some anc => climb f anc (name :: comps)
                           end
                  end
          end
  end.
(** The components, outermost first, joined in the caller's buffer. *)
Fixpoint join_path (outsz : Z) (comps : list (list Z)) (out : list Z) : option (list Z) :=
  match comps with
  | [] => Some out
  | n :: comps' =>
      match (if streq out "/" then Some out else safe_cat out outsz (bytes_of "/")) with
      | None => None
      | Some out => match safe_cat out outsz n with None => None | Some out => join_path outsz comps' out end
      end
  end.
Definition getcwd_xv6 (outsz : Z) : M ush (option (list Z)) :=
  if outsz <=? 0 then ret None
  else
    let! comps := climb N (bytes_of ".") [] in
    ret (join_path outsz comps (default [] (safe_copy outsz (bytes_of "/")))).

(** ** Commands: the result is 1 to leave the shell *)

Definition run_program (prog : string) (argv : list (list Z)) : M ush Z :=
  let! pid := sys (us_fork (Child (bytes_of prog) argv (bytes_of "No se pudo ejecutar " ++ bytes_of prog ++ [10]))) in
  if pid <? 0 then printf (ln "No se pudo crear el proceso para %s") [str (bytes_of prog)] ;; ret 0
  else sys us_wait ;; ret 0.

Fixpoint puts_all (l : list string) : M ush unit :=
  match l with [] => ret tt | s :: l' => puts s ;; puts_all l' end.
Definition help_usage (cmd : list Z) : M ush unit :=
  if streq cmd "listar" then puts_all ["Uso: listar"; "  Lista el contenido del directorio actual."]
  else if streq cmd "leer" then puts_all ["Uso: leer <archivo>"; "  Muestra el contenido de un archivo."]
  else if streq cmd "tiempo" then puts_all ["Uso: tiempo"; "  Muestra uptime (ticks) y hh:mm:ss aprox."]
  else if streq cmd "calc" then
    puts_all ["Uso: calc <num1> <op> <num2>"; "  Operadores: +  -  *  /  %%"; "  Nota: en xv6 esta versión usa solo enteros."]
  else if streq cmd "ayuda" then puts_all ["Uso: ayuda [comando]"; "  Lista comandos o muestra ayuda específica."]
  else if streq cmd "salir" then puts_all ["Uso: salir"; "  Termina la shell."]
  else if streq cmd "historial" then puts_all ["Uso: historial"; "  Muestra los últimos 10 comandos."]
  else if streq cmd "limpiar" then puts_all ["Uso: limpiar"; "  Limpia la pantalla (ANSI / fallback)."]
  else if streq cmd "usuario" then puts_all ["Uso: usuario"; "  Muestra info del proceso (PID + heap end)."]
  else if streq cmd "directorio" then
    puts_all ["Uso: directorio"; "  Muestra el directorio actual (reconstruido desde . y ..)."]
  else if streq cmd "pf" then
    puts_all ["Uso: pf <readlow|writelow|readhigh|writehigh>"; "  Ejecuta tpf para observar page faults."]
  else if streq cmd "sbrkpf" then
    puts_all ["Uso: sbrkpf"; "  Ejecuta tsbrkpf para mostrar el fallo tras sbrk lazy inicial."]
  else if streq cmd "sbrklazy" then
    puts_all ["Uso: sbrklazy"; "  Ejecuta tsbrklazy para mostrar lazy allocation real."]
  else if streq cmd "lazy" then
    puts_all ["Uso: lazy"; "  Ejecuta tlazy para comparar faults secuenciales y dispersos."]
  else if streq cmd "mmapsim" then
    puts_all ["Uso: mmapsim"; "  Ejecuta tmmap_sim para simular mmap bajo demanda."]
  else if streq cmd "prompt" then puts_all ["Uso: prompt <texto>"; "  Cambia el texto del prompt."]
  else if streq cmd "tema" then
    puts_all ["Uso: tema <default|verde|azul|rojo|amarillo|magenta|cyan|blanco>"; "  Cambia el color del prompt."]
  else if streq cmd "resetui" then puts_all ["Uso: resetui"; "  Restaura prompt y color por defecto."]
  else puts "Comando desconocido. Usa: ayuda".

Fixpoint list_entries (fuel : nat) (fd : Z) : M ush unit :=
  match fuel with
  | O => out_of_fuel
  | Datatypes.S f =>
      let! '(n, de) := sys (us_read fd SIZEOF_DIRENT) in
      if negb (n =? SIZEOF_DIRENT) then ret tt
      else if de_inum de =? 0 then list_entries f fd
      else if dots (entry_name de) then list_entries f fd
      else printf (ln "%s") [str (entry_name de)] ;; list_entries f fd
  end.
Definition cmd_listar (argv : list (list Z)) : M ush Z :=
  let! fd := sys (us_open (bytes_of ".") O_RDONLY) in
  if fd <? 0 then puts "listar: no se pudo abrir '.'" ;; ret 0
  else list_entries N fd ;; sys (us_close fd) ;; ret 0.

Fixpoint copy_file (fuel : nat) (fd : Z) : M ush unit :=
  match fuel with
  | O => out_of_fuel
  | Datatypes.S f =>
      let! '(n, buf) := sys (us_read fd 512) in
      if n <=? 0 then ret tt else write1 (take (Z.to_nat n) buf) ;; copy_file f fd
  end.
Definition arg_ (argv : list (list Z)) (i : nat) : list Z := nth i argv [].
Definition cmd_leer (argv : list (list Z)) : M ush Z :=
  if negb (length argv =? 2)%nat then help_usage (bytes_of "leer") ;; ret 0
  else
    let! fd := sys (us_open (arg_ argv 1) O_RDONLY) in
    if fd <? 0 then printf (ln "leer: no se pudo abrir '%s'") [str (arg_ argv 1)] ;; ret 0
    else copy_file N fd ;; sys (us_close fd) ;; ret 0.

Definition cmd_tiempo (argv : list (list Z)) : M ush Z :=
  let! t := sys us_uptime in
  let sec := Z.quot t TICKS_PER_SEC_APPROX in
  let h := Z.quot sec 3600 in
  let m := Z.quot (Z.rem sec 3600) 60 in
  let s := Z.rem sec 60 in
  printf (ln "uptime: %d ticks (~%d s) %d:%d:%d (aprox)") [VInt t; VInt sec; VInt h; VInt m; VInt s] ;;
  ret 0.

(** The digits after the sign; [int] arithmetic wraps around at 32 bits. *)
Fixpoint parse_digits (s : list Z) (v : Z) : option Z :=
  match s with
  | [] => Some v
  | c :: s' => if (c <? ch "0") || (ch "9" <? c) then None else parse_digits s' (i32 (i32 (v * 10) + (c - ch "0")))
  end.
Definition parse_int (s : list Z) : option Z :=
  let '(sign, s) := match s with c :: s' => if c =? ch "-" then (-1, s') else (1, s) | [] => (1, s) end in
  match s with
  | [] => None
  | _ => match parse_digits s 0 with Some v => Some (i32 (sign * v)) | None => None end
  end.

Definition cmd_calc (argv : list (list Z)) : M ush Z :=
  if negb (length argv =? 4)%nat then help_usage (bytes_of "calc") ;; ret 0
  else
    match parse_int (arg_ argv 1), parse_int (arg_ argv 3) with
    | Some a, Some b =>
        match arg_ argv 2 with
        | [op] =>
            let say res := printf (ln "%d") [VInt res] ;; ret 0 in
            if op =? ch "+" then say (i32 (a + b))
            else if op =? ch "-" then say (i32 (a - b))
            else if op =? ch "*" then say (i32 (a * b))
            else if op =? ch "/" then
              if b =? 0 then puts "calc: división por cero." ;; ret 0 else say (i32 (Z.quot a b))
            else if op =? ch "%" then
              if b =? 0 then puts "calc: división por cero." ;; ret 0 else say (i32 (Z.rem a b))
            else
              printf (ln "calc: operador no soportado: '%c'") [VInt op] ;;
              help_usage (bytes_of "calc") ;; ret 0
        | _ => puts "calc: operador inválido" ;; help_usage (bytes_of "calc") ;; ret 0
        end
    | _, _ => puts "calc: operandos inválidos (xv6: solo enteros)" ;; help_usage (bytes_of "calc") ;; ret 0
    end.

Definition cmd_historial (argv : list (list Z)) : M ush Z := history_print ;; ret 0.
Fixpoint newlines (n : nat) : M ush unit :=
  match n with O => ret tt | Datatypes.S n' => printf [10] [] ;; newlines n' end.
Definition cmd_limpiar (argv : list (list Z)) : M ush Z :=
  printf (color "[2J" ++ color "[H") [] ;; newlines 30 ;; ret 0.
Definition cmd_usuario (argv : list (list Z)) : M ush Z :=
  let! pid := sys us_getpid in
  let! brk := sys (us_sbrk 0) in
  puts "Proceso (xv6)" ;;
  printf (ln "PID: %d") [VInt pid] ;;
  printf (ln "Heap end: %p") [VInt brk] ;;
  ret 0.
Definition cmd_directorio (argv : list (list Z)) : M ush Z :=
  let! path := getcwd_xv6 128 in
  match path with
  | Some p => printf (ln "%s") [str p] ;; ret 0
  | None => puts "/?" ;; ret 0
  end.
Definition cmd_pf (argv : list (list Z)) : M ush Z :=
  if negb (length argv =? 2)%nat then help_usage (bytes_of "pf") ;; ret 0
  else run_program "tpf" [bytes_of "tpf"; arg_ argv 1].
Definition cmd_sbrkpf (argv : list (list Z)) : M ush Z := run_program "tsbrkpf" [bytes_of "tsbrkpf"].
Definition cmd_sbrklazy (argv : list (list Z)) : M ush Z := run_program "tsbrklazy" [bytes_of "tsbrklazy"].
Definition cmd_lazy (argv : list (list Z)) : M ush Z := run_program "tlazy" [bytes_of "tlazy"].
Definition cmd_mmapsim (argv : list (list Z)) : M ush Z := run_program "tmmap_sim" [bytes_of "tmmap_sim"].

Definition help_all : list string := [
  "Comandos disponibles:";
  "  listar                 - Lista el directorio actual";
  "  leer <archivo>         - Muestra contenido de un archivo";
  "  tiempo                 - Uptime (ticks) + hh:mm:ss aprox";
  "  calc <n1> <op> <n2>    - Calculadora (enteros)";
  "  ayuda [comando]        - Ayuda general o por comando";
  "  historial              - Últimos 10 comandos";
  "  limpiar                - Limpia la pantalla";
  "  usuario                - Info del proceso (PID + heap)";
  "  directorio             - Directorio actual (reconstruido)";
  "  pf <modo>              - Ejecuta tpf para observar page faults";
  "  sbrkpf                 - Demuestra acceso a memoria reservada con sbrk bajo lazy allocation";
  "  sbrklazy               - Prueba lazy allocation real con sbrk";
  "  lazy                   - Compara faults secuencial vs disperso";
  "  mmapsim                - Simula mmap bajo demanda con mapzero";
  "  prompt <texto>         - Cambia el texto del prompt";
  "  tema <color>           - Cambia el color del prompt";
  "  resetui                - Restaura interfaz por defecto";
  "  salir                  - Termina la shell"].
Definition cmd_ayuda (argv : list (list Z)) : M ush Z :=
  if (length argv =? 1)%nat then puts_all help_all ;; ret 0
  else if (length argv =? 2)%nat then help_usage (arg_ argv 1) ;; ret 0
  else help_usage (bytes_of "ayuda") ;; ret 0.
Definition cmd_salir (argv : list (list Z)) : M ush Z := ret 1.

(** The arguments joined by blanks; [None]: too long. *)
Fixpoint join_args (args : list (list Z)) (buf : list Z) (first : bool) : option (list Z) :=
  match args with
  | [] => Some buf
  | a :: args' =>
      match (if first then Some buf else safe_cat buf MAXPROMPT (bytes_of " ")) with
      | None => None
      | Some buf => match safe_cat buf MAXPROMPT a with None => None | Some buf => join_args args' buf false end
      end
  end.
Definition cmd_prompt (argv : list (list Z)) : M ush Z :=
  if (length argv <? 2)%nat then help_usage (bytes_of "prompt") ;; ret 0
  else
    match join_args (tail argv) [] true with
    | None => print_error "prompt: texto demasiado largo" ;; ret 0
    | Some buf =>
        match safe_copy MAXPROMPT buf with
        | None => print_error "prompt: no se pudo cambiar" ;; ret 0
        | Some t => modify (set_prompt_text t) ;; print_info "Prompt actualizado." ;; ret 0
        end
    end.
Definition cmd_tema (argv : list (list Z)) : M ush Z :=
  if negb (length argv =? 2)%nat then help_usage (bytes_of "tema") ;; ret 0
  else
    let! ok := set_theme_color (arg_ argv 1) in
    if negb ok then print_error "tema: opcion no valida" ;; help_usage (bytes_of "tema") ;; ret 0
    else print_info "Tema actualizado." ;; ret 0.
Definition cmd_resetui (argv : list (list Z)) : M ush Z :=
  reset_ui ;; print_info "Interfaz restaurada." ;; ret 0.

(** ** The table and the main loop *)

Definition COMMANDS : list (string * (list (list Z) -> M ush Z)) := [
  ("listar", cmd_listar); ("leer", cmd_leer); ("tiempo", cmd_tiempo); ("calc", cmd_calc); ("ayuda", cmd_ayuda);
  ("historial", cmd_historial); ("limpiar", cmd_limpiar); ("usuario", cmd_usuario); ("directorio", cmd_directorio);
  ("pf", cmd_pf); ("sbrkpf", cmd_sbrkpf); ("sbrklazy", cmd_sbrklazy); ("lazy", cmd_lazy); ("mmapsim", cmd_mmapsim);
  ("prompt", cmd_prompt); ("tema", cmd_tema); ("resetui", cmd_resetui); ("salir", cmd_salir)].
Fixpoint find_command (name : list Z) (t : list (string * (list (list Z) -> M ush Z))) : option (list (list Z) -> M ush Z) :=
  match t with [] => None | (n, fn) :: t' => if streq name n then Some fn else find_command name t' end.
Definition dispatch (argv : list (list Z)) : M ush Z :=
  match argv with
  | [] => ret 0
  | cmd :: _ =>
      match find_command cmd COMMANDS with
      | Some fn => fn argv
      | None =>
          printf (ln "%sComando no reconocido:%s %s") [str color_error; str color_reset; str cmd] ;;
          printf (ln "%sEscribe 'ayuda' para ver comandos.%s") [str color_info; str color_reset] ;;
          ret 0
      end
  end.

Definition print_banner : M ush unit :=
  printf [10] [] ;;
  printf [10] [] ;;
  let! u := get in
  printf (bytes_of "%s") [str (prompt_color u)] ;;
  puts "███████╗ █████╗ ███████╗██╗████████╗ ██████╗ ███████╗" ;;
  puts "██╔════╝██╔══██╗██╔════╝██║╚══██╔══╝██╔═══██╗██╔════╝" ;;
  puts "█████╗  ███████║█████╗  ██║   ██║   ██║   ██║███████╗" ;;
  puts "██╔══╝  ██╔══██║██╔══╝  ██║   ██║   ██║   ██║╚════██║" ;;
  puts "███████╗██║  ██║██║     ██║   ██║   ╚██████╔╝███████║" ;;
  puts "╚══════╝╚═╝  ╚═╝╚═╝     ╚═╝   ╚═╝    ╚═════╝ ╚══════╝" ;;
  printf (ln "%s") [str color_reset].

(** [gets] of ulib.c.  The pointer it returns is [None] for 0 and [Some] of the
    string in the buffer otherwise; the code returns the buffer always, also when
    nothing was read. *)
Fixpoint gets_loop (room : nat) (buf : list Z) : M ush (list Z) :=
  match room with
  | O => ret buf
  | Datatypes.S room' =>
      let! '(cc, bs) := sys (us_read 0 1) in
      if cc <? 1 then ret buf
      else
        let c := nth 0 bs 0 in
        if (c =? 10) || (c =? 13) then ret (buf ++ [c]) else gets_loop room' (buf ++ [c])
  end.
Definition gets_ (max : Z) : M ush (option (list Z)) :=
  let! buf := gets_loop (Z.to_nat (max - 1)) [] in
  ret (Some (upto_nul buf)).

Fixpoint main_loop (fuel : nat) : M ush unit :=
  match fuel with
  | O => out_of_fuel
  | Datatypes.S f =>
      print_prompt ;;
      let! p := gets_ MAXLINE in
      match p with
      | None => printf [10] []
      | Some line =>
          let line := rstrip_newlines line in
          if is_blank line then main_loop f
          else
            history_add line ;;
            let! should_exit := dispatch (parse_line (MAXARGS - 1) line) in
            if c_true should_exit then ret tt else main_loop f
      end
  end.
Definition main (fuel : nat) : M ush unit := print_banner ;; main_loop fuel.
End Shell.
Arguments ush S : clear implicits.

(** ** What the shell prints *)

Definition bytes (l : list Z) : Prop := Forall is_u8 l.
Lemma putc_map (l : list Z) : concat (map putc_bytes l) = u8 <$> l.
Proof. induction l as [|c l IH]; simpl; [done|]. by rewrite IH. Qed.
Lemma putc_bytes_id (l : list Z) : bytes l -> concat (map putc_bytes l) = l.
Proof.
  intros Hl. rewrite putc_map. induction Hl as [|c l Hc _ IH]; [done|]. rewrite fmap_cons, IH. f_equal. by apply u8_id.
Qed.
Lemma bytes_of_bytes (s : string) : bytes (bytes_of s).
Proof.
  unfold bytes, bytes_of. apply Forall_forall. intros z Hz. apply list_elem_of_In, in_map_iff in Hz as (a & <- & _).
  unfold is_u8. pose proof (Ascii.N_ascii_bounded a). lia.
Qed.

Section ShellProps.
Context {S : Type} `{US : UserSys S} (N : nat).
Implicit Types u : ush S.

(** ** History *)

(** The ten slots after the lines [ls] were entered: the last ten of them. *)
Definition kept (ls : list (list Z)) : nat := Nat.min 10 (length ls).
#[local] Arguments kept : simpl never.
Definition trunc (l : list Z) : list Z := take 255 l.
Record hist_inv u (ls : list (list Z)) : Prop := {
  hi_len : length (hist u) = 10%nat;
  hi_count : hist_count u = Z.of_nat (kept ls);
  hi_next : hist_next u = Z.of_nat (length ls mod 10);
  hi_slots : forall k l, ls !! k = Some l -> (length ls - kept ls <= k)%nat -> hist u !! (k mod 10)%nat = Some (trunc l)
}.
(** The text of line [i] of the listing. *)
Definition number (i : nat) : list Z := if (i <? 10)%nat then [48 + Z.of_nat i] else [49; 48].
Definition shown (i : nat) (l : list Z) : list Z := number (i + 1) ++ [32; 32] ++ l ++ [10].
Definition last_ten (ls : list (list Z)) : list (list Z) := drop (length ls - 10) ls.
Fixpoint add_all (ls : list (list Z)) : M (ush S) unit :=
  match ls with [] => ret tt | l :: ls' => history_add l ;; add_all ls' end.

Lemma mod_small_rem (n : nat) : Z.rem (Z.of_nat (n mod 10) + 1) HIST_SIZE = Z.of_nat ((n + 1) mod 10).
Proof.
  unfold HIST_SIZE. pose proof (Nat.mod_upper_bound n 10 ltac:(lia)). rewrite Z.rem_mod_nonneg by lia.
  rewrite !Nat2Z.inj_mod, Nat2Z.inj_add. by rewrite Z.add_mod_idemp_l by lia.
Qed.
Lemma add_inv u ls l :
  hist_inv u ls -> l <> [] -> exists u', history_add l u = Ok (tt, u') /\ hist_inv u' (ls ++ [l]) /\ uout u' = uout u /\ usys u' = usys u.
Proof.
  intros [H1 H2 H3 H4] Hl. destruct u as [a b h c nx o g]. cbn [hist hist_count hist_next] in *. destruct l as [|z l]; [done|].
  eexists. split; [reflexivity|]. split; [|done].
  assert (Hk : kept (ls ++ [z :: l]) = if (length ls <? 10)%nat then (length ls + 1)%nat else 10%nat).
  { unfold kept. rewrite length_app. cbn [length]. destruct (Nat.ltb_spec (length ls) 10); lia. }
  set (w := z :: l) in *. split; cbn [hist hist_count hist_next].
  - by rewrite length_insert.
  - rewrite Hk, H2. unfold HIST_SIZE, kept. destruct (Nat.ltb_spec (length ls) 10), (Z.ltb_spec (Z.of_nat (Nat.min 10 (length ls))) 10); lia.
  - rewrite H3.
    rewrite mod_small_rem, length_app. done.
  - intros k l' Hl' Hge. rewrite H3, Nat2Z.id. rewrite length_app in Hge. cbn in Hge.
    pose proof (Nat.mod_upper_bound (length ls) 10 ltac:(lia)). pose proof (Nat.mod_upper_bound k 10 ltac:(lia)).
    destruct (decide (k = length ls)) as [->|Hn].
    + rewrite list_lookup_insert_eq by lia. rewrite lookup_app_r, Nat.sub_diag in Hl' by lia. injection Hl' as <-.
      f_equal. unfold trunc, MAXLINE. destruct (Z.leb_spec 256 (Z.of_nat (length w))) as [Hle|Hlt].
      * done.
      * rewrite !take_ge; [done|lia|unfold w in *; cbn in *; lia].
    + assert (Hklt : (k < length ls)%nat) by (apply lookup_lt_Some in Hl'; rewrite length_app in Hl'; cbn in Hl'; lia).
      rewrite lookup_app_l in Hl' by done. rewrite list_lookup_insert_ne.
      * apply H4; [done|]. rewrite Hk in Hge. unfold kept. destruct (Nat.ltb_spec (length ls) 10); lia.
      * intros E. rewrite Hk in Hge. destruct (Nat.ltb_spec (length ls) 10) as [Hs|Hs].
        -- rewrite !Nat.mod_small in E by lia. lia.
        -- pose proof (Nat.div_mod k 10 ltac:(lia)). pose proof (Nat.div_mod (length ls) 10 ltac:(lia)).
           assert (length ls / 10 <= k / 10)%nat by lia. lia.
Qed.

Lemma shown_text i l :
  (i < 10)%nat -> bytes l -> user_printf (ln "%d  %s") [VInt (Z.of_nat i + 1); str l] = Some (shown i l).
Proof.
  intros Hi Hl. assert (E : shown i l = number (i + 1) ++ [32; 32] ++ concat (map putc_bytes l) ++ [10])
    by (unfold shown; by rewrite putc_bytes_id).
  rewrite E. clear E Hl. do 10 (destruct i as [|i]; [reflexivity|]). lia.
Qed.
Lemma printf_ok fmt args o u : user_printf fmt args = Some o -> printf fmt args u = Ok (tt, set_uout (uout u ++ o) u).
Proof. intros E. unfold printf. by rewrite E. Qed.
Lemma uout_set o u : uout (set_uout o u) = o.
Proof. by destruct u. Qed.
Lemma set_set o o' u : set_uout o (set_uout o' u) = set_uout o u.
Proof. by destruct u. Qed.
Lemma hist_set o u : hist (set_uout o u) = hist u.
Proof. by destruct u. Qed.

Lemma history_loop_shows ls (Hb : Forall bytes ls) : forall k i u,
  hist_inv u ls -> (i + k = kept ls)%nat ->
  history_loop k (Z.rem (hist_next u - hist_count u + HIST_SIZE) HIST_SIZE) (Z.of_nat i) u =
    Ok (tt, set_uout (uout u ++ concat (imap (fun j l => shown (i + j) (trunc l)) (drop (length ls - k) ls))) u).
Proof.
  induction k as [|k IH]; intros i u Hu Hk.
  - rewrite Nat.sub_0_r, drop_all. cbn. rewrite app_nil_r. by destruct u.
  - cbn [history_loop]. set (start := Z.rem (hist_next u - hist_count u + HIST_SIZE) HIST_SIZE).
    assert (Hlen : (kept ls <= 10 /\ kept ls <= length ls)%nat) by (unfold kept; lia).
    pose proof (Nat.mod_upper_bound (length ls) 10 ltac:(lia)).
    assert (Hidx : Z.to_nat (Z.rem (start + Z.of_nat i) HIST_SIZE) = ((length ls - Datatypes.S k) mod 10)%nat).
    { unfold start. rewrite (hi_count _ _ Hu), (hi_next _ _ Hu). unfold HIST_SIZE.
      rewrite (Z.rem_mod_nonneg (_ - _ + 10)) by lia. set (x := Z.of_nat (length ls mod 10) - _ + 10).
      pose proof (Z.mod_pos_bound x 10 ltac:(lia)).
      rewrite Z.rem_mod_nonneg by lia. unfold x.
      apply Nat2Z.inj. rewrite Z2Nat.id by (apply Z.mod_pos_bound; lia).
      rewrite Z.add_mod_idemp_l by lia. rewrite !Nat2Z.inj_mod, Nat2Z.inj_sub by lia.
      pose proof (Z.div_mod (Z.of_nat (length ls)) 10 ltac:(lia)).
      replace (Z.of_nat (length ls) mod Z.of_nat 10) with (Z.of_nat (length ls) - 10 * (Z.of_nat (length ls) / 10)) by (change (Z.of_nat 10) with 10; lia).
      replace (Z.of_nat (length ls) - 10 * (Z.of_nat (length ls) / 10) - Z.of_nat (kept ls) + 10 + Z.of_nat i)
        with (Z.of_nat (length ls) - Z.of_nat (Datatypes.S k) + (1 - Z.of_nat (length ls) / 10) * 10) by lia.
      by rewrite Z.mod_add by lia. }
    destruct (lookup_lt_is_Some_2 ls (length ls - Datatypes.S k)) as [l Hl]; [lia|].
    pose proof (hi_slots _ _ Hu _ _ Hl ltac:(lia)) as Hs.
    rewrite (drop_S _ _ _ Hl). replace (Datatypes.S (length ls - Datatypes.S k)) with (length ls - k)%nat by lia.
    unfold bind at 1, get. unfold bind. rewrite Hidx.
    assert (Hn : nth ((length ls - Datatypes.S k) mod 10) (hist u) [] = trunc l) by (by apply nth_lookup_Some).
    rewrite Hn, (printf_ok _ _ (shown i (trunc l)))
      by (apply shown_text; [lia|]; apply Forall_take; by apply (proj1 (Forall_lookup _ _) Hb _ _ Hl)).
    assert (Hu' : hist_inv (set_uout (uout u ++ shown i (trunc l)) u) ls) by (destruct Hu; by destruct u).
    specialize (IH (i + 1)%nat _ Hu' ltac:(lia)). rewrite uout_set, set_set in IH.
    replace (Z.of_nat i + 1) with (Z.of_nat (i + 1)) by lia.
    replace start with (Z.rem (hist_next (set_uout (uout u ++ shown i (trunc l)) u) - hist_count (set_uout (uout u ++ shown i (trunc l)) u) + HIST_SIZE) HIST_SIZE)
      by (by destruct u).
    rewrite IH. cbn [imap concat]. rewrite Nat.add_0_r, <- app_assoc. do 4 f_equal.
    f_equal. f_equal. apply imap_ext. intros j l' _. cbn. f_equal. lia.
Qed.

(** C27: the shell's history is the last ten lines entered.  After any sequence of
    non-empty lines, listing the history prints, numbered from 1 and in the order
    they were entered, exactly the last ten of them (all of them when there are
    fewer), each cut to the 255 characters a slot holds, although the slots are
    reused in a circle and the listing starts in the middle of it. *)
Theorem history_shows_last_ten u ls :
  hist_inv u [] -> Forall (fun l => l <> [] /\ bytes l) ls ->
  exists u', (add_all ls ;; history_print) u = Ok (tt, u') /\
    uout u' = uout u ++ concat (imap (fun i l => shown i (trunc l)) (last_ten ls)).
Proof.
  intros Hu Hls.
  assert (Hadd : forall ls0 ls u, hist_inv u ls0 -> Forall (fun l => l <> [] /\ bytes l) ls ->
    exists u', add_all ls u = Ok (tt, u') /\ hist_inv u' (ls0 ++ ls) /\ uout u' = uout u).
  { clear. intros ls0 ls. revert ls0. induction ls as [|l ls IH]; intros ls0 u Hu Hls.
    - exists u. by rewrite app_nil_r.
    - inversion Hls as [|? ? [Hl _] Hls']; subst. destruct (add_inv u ls0 l Hu Hl) as (u1 & E1 & H1 & O1 & _).
      destruct (IH (ls0 ++ [l]) u1 H1 Hls') as (u2 & E2 & H2 & O2).
      exists u2. cbn [add_all]. unfold bind. rewrite E1. rewrite <- app_assoc in H2. split; [done|]. split; [done|congruence]. }
  destruct (Hadd [] ls u Hu Hls) as (u1 & E1 & H1 & O1). cbn [app] in H1.
  assert (Hb : Forall bytes ls) by (eapply Forall_impl; [exact Hls|]; by intros l [_ ?]).
  pose proof (history_loop_shows ls Hb (kept ls) 0 u1 H1 eq_refl) as E2.
  eexists. split.
  - unfold bind at 1. rewrite E1. unfold history_print, bind, get.
    rewrite (hi_count _ _ H1) at 1. rewrite Nat2Z.id. exact E2.
  - rewrite uout_set, O1. do 3 f_equal. unfold last_ten, kept. f_equal. lia.
Qed.

(** ** End of input *)

(** The terminal has no more input: [read] returns 0. *)
Definition at_eof (s : S) : Prop := us_read 0 1 s = Ok (0, [], s).
Definition prompt_line u : list Z :=
  (u8 <$> prompt_color u) ++ (u8 <$> prompt_text u) ++ [62] ++ color_reset ++ [32].

Lemma print_prompt_ok u : print_prompt u = Ok (tt, set_uout (uout u ++ prompt_line u) u).
Proof.
  unfold print_prompt, bind, get. apply printf_ok. unfold prompt_line. rewrite <- !putc_map. by destruct u.
Qed.
Lemma gets_loop_eof room buf u : at_eof (usys u) -> gets_loop room buf u = Ok (buf, u).
Proof.
  intros H. destruct room as [|room]; [done|]. cbn [gets_loop]. unfold bind, sys, zoom. rewrite H. cbn. by destruct u.
Qed.
Lemma gets_eof u : at_eof (usys u) -> gets_ MAXLINE u = Ok (Some [], u).
Proof. intros H. unfold gets_, bind. by rewrite gets_loop_eof. Qed.

(** C38: the shell does not end with its input.  Its main loop leaves when [gets]
    returns 0, but [gets] returns the buffer also when nothing could be read: once
    the terminal is at its end, any number of rounds only prints that many prompts
    and leaves the shell where it was. *)
Theorem shell_spins_at_end_of_input u n fuel (He : at_eof (usys u)) :
  main_loop N (n + fuel) u = main_loop N fuel (set_uout (uout u ++ concat (replicate n (prompt_line u))) u).
Proof.
  revert u He. induction n as [|n IH]; intros u He; cbn [Nat.add replicate concat].
  - rewrite app_nil_r. by destruct u.
  - cbn [main_loop]. unfold bind at 1. rewrite print_prompt_ok. unfold bind at 1.
    set (u1 := set_uout _ u). assert (He1 : at_eof (usys u1)) by by destruct u.
    rewrite gets_eof by done. cbv iota beta. change (is_blank (rstrip_newlines [])) with true. cbv iota.
    rewrite IH by done. f_equal. unfold u1. rewrite uout_set, set_set, <- app_assoc. by destruct u.
Qed.

(** ** Numbers *)

Lemma i32_mod z : i32 z mod 2 ^ 32 = z mod 2 ^ 32.
Proof.
  unfold i32. rewrite Zminus_mod_idemp_l. f_equal. lia.
Qed.
Lemma i32_ext a b : a mod 2 ^ 32 = b mod 2 ^ 32 -> i32 a = i32 b.
Proof. intros E. unfold i32. by rewrite <- (Zplus_mod_idemp_l a), <- (Zplus_mod_idemp_l b), E. Qed.
Lemma i32_add_l a b : i32 (i32 a + b) = i32 (a + b).
Proof. apply i32_ext. by rewrite <- Zplus_mod_idemp_l, i32_mod, Zplus_mod_idemp_l. Qed.
Lemma i32_mul_l a b : i32 (i32 a * b) = i32 (a * b).
Proof. apply i32_ext. by rewrite <- Zmult_mod_idemp_l, i32_mod, Zmult_mod_idemp_l. Qed.
Lemma parse_digits_app l1 l2 v :
  parse_digits (l1 ++ l2) v = match parse_digits l1 v with Some v1 => parse_digits l2 v1 | None => None end.
Proof. revert v. induction l1 as [|c l IH]; intros v; simpl; [done|]. by case_match. Qed.
Lemma digit_char d : 0 <= d < 10 -> nth (Z.to_nat d) user_digits 0 = ch "0" + d.
Proof.
  intros Hd. destruct (Z_of_nat_complete d) as [n ->]; [lia|]. rewrite Nat2Z.id.
  do 10 (destruct n as [|n]; [reflexivity|]). lia.
Qed.
(** Reading digits, least significant first, after the value [v]. *)
Lemma parse_digits_eval ds v :
  Forall (fun d => 0 <= d < 10) ds ->
  parse_digits (map (fun d => nth (Z.to_nat d) user_digits 0) (rev ds)) (i32 v) =
    Some (i32 (v * 10 ^ Z.of_nat (length ds) + eval_le 10 ds)).
Proof.
  induction 1 as [|d ds Hd _ IH]; cbn [rev].
  { cbn [map parse_digits length eval_le]. do 2 f_equal. lia. }
  rewrite map_app, parse_digits_app, IH. cbn [map parse_digits]. rewrite digit_char by done.
  change (ch "0") with 48. change (ch "9") with 57.
  rewrite (proj2 (Z.ltb_ge _ _)), (proj2 (Z.ltb_ge _ _)) by lia. cbn [orb]. f_equal.
  rewrite i32_mul_l, i32_add_l. cbn [length eval_le]. rewrite Nat2Z.inj_succ, Z.pow_succ_r by lia. f_equal. ring_simplify. lia.
Qed.

(** C28: the shell's number reader inverts the library's number printer.  For every
    value, [printf] of it with [%d] is a text [parse_int] accepts, and the number
    read is the 32-bit value printed, the smallest one included, whose absolute
    value overflows on the way. *)
Theorem parse_int_inverts_printf (z : Z) :
  exists text, user_printf (bytes_of "%d") [VInt z] = Some text /\ parse_int text = Some (i32 z).
Proof.
  pose proof (i32_range z) as Hr. unfold is_i32 in Hr.
  destruct (printint_ok user_digits putc_bytes (i32 z) 10 1) as (ds & E & Hv & Hd & Hc); [by left|left; lia|].
  set (neg := c_true 1 && (i32 z <? 0)) in *.
  exists (concat (map putc_bytes ((if neg then [ch "-"] else []) ++ map (fun d => nth (Z.to_nat d) user_digits 0) (rev ds))) ++ []).
  split.
  { transitivity (match printint user_digits putc_bytes (i32 z) 10 1 with Some o => Some (o ++ []) | None => None end).
    - change (bytes_of "%d") with [37; 100]. by destruct (printint user_digits putc_bytes (i32 z) 10 1) eqn:Ep; cbv -[i32 printint user_digits putc_bytes]; rewrite Ep.
    - by rewrite E. }
  rewrite app_nil_r, putc_bytes_id.
  2:{ apply Forall_app. split; [destruct neg; by repeat constructor|]. apply Forall_forall. intros c Hc'.
      apply list_elem_of_In, in_map_iff in Hc' as (d & <- & Hin). apply in_rev, list_elem_of_In in Hin.
      apply (proj1 (Forall_forall _ _) Hd) in Hin. rewrite digit_char by done. change (ch "0") with 48. unfold is_u8. lia. }
  assert (Hne : ds <> []) by (destruct Hc as [->|(ds' & d & -> & _)]; [done|by destruct ds']).
  assert (Hp : forall sign, match map (fun d => nth (Z.to_nat d) user_digits 0) (rev ds) with
      | [] => None | _ => match parse_digits (map (fun d => nth (Z.to_nat d) user_digits 0) (rev ds)) 0 with
        Some v => Some (i32 (sign * v)) | None => None end end = Some (i32 (sign * eval_le 10 ds))).
  { intros sign. change 0 with (i32 0) at 3. rewrite parse_digits_eval by done. rewrite Z.mul_0_l, Z.add_0_l.
    destruct (rev ds) eqn:Er; [by apply (f_equal (@rev Z)) in Er; rewrite rev_involutive in Er|].
    cbn [map]. by rewrite (Z.mul_comm sign), i32_mul_l, Z.mul_comm. }
  destruct neg eqn:En; cbn [app].
  - unfold parse_int. change (ch "-" =? ch "-") with true. cbv iota. rewrite Hp, Hv. f_equal.
    replace (-1 * - i32 z) with (i32 z) by lia. by apply i32_id.
  - assert (Hm : match map (fun d => nth (Z.to_nat d) user_digits 0) (rev ds) with c :: s' => (c =? ch "-") = false | [] => True end).
    { destruct (rev ds) as [|d r] eqn:Er; [done|]. cbn [map]. assert (d ∈ ds).
      { apply list_elem_of_In, in_rev. rewrite Er. by left. }
      rewrite digit_char by (by apply (proj1 (Forall_forall _ _) Hd)). apply Z.eqb_neq. change (ch "0") with 48. change (ch "-") with 45.
      apply (proj1 (Forall_forall _ _) Hd) in H. lia. }
    unfold parse_int. destruct (map _ (rev ds)) as [|c l] eqn:Em; [by specialize (Hp 1)|].
    rewrite Hm. specialize (Hp 1). cbv iota in Hp. rewrite Hp, Hv. f_equal. rewrite Z.mul_1_l.
    assert (0 <= i32 z) by (unfold neg in En; cbn in En; apply Z.ltb_ge in En; lia).
    rewrite u64_id by (unfold is_u64; lia). by apply i32_id.
Qed.
End ShellProps.

(** ** Witnesses: a machine whose terminal is at its end *)

#[local] Instance silent : UserSys unit :=
  {| us_open _ _ := ret (-1); us_read _ _ := ret (0, []); us_fstat _ := ret (-1, Ustat 0 0); us_close _ := ret tt;
     us_uptime := ret 0; us_getpid := ret 2; us_sbrk _ := ret 0; us_fork _ := ret (-1); us_wait := ret tt |}.
Definition fresh_shell : ush unit := Ush DEFAULT_PROMPT (color "[1;36m") (replicate 10 []) 0 0 [] tt.
Lemma history_shows_last_ten_witness :
  hist_inv fresh_shell [] /\
  exists u', (add_all [bytes_of "ayuda"; bytes_of "listar"] ;; history_print) fresh_shell = Ok (tt, u') /\
    uout u' = [] ++ concat (imap (fun i l => shown i (trunc l)) (last_ten [bytes_of "ayuda"; bytes_of "listar"])).
Proof.
  assert (H : hist_inv fresh_shell []) by (split; (done || intros k l Hl; by rewrite lookup_nil in Hl)).
  split; [exact H|]. apply (history_shows_last_ten fresh_shell _ H).
  repeat constructor; cbn; try (intros [=]); try lia.
Defined.
Lemma shell_spins_at_end_of_input_witness :
  at_eof (usys fresh_shell) /\
  main_loop 5 1000 fresh_shell =
    main_loop 5 3 (set_uout (uout fresh_shell ++ concat (replicate 997 (prompt_line fresh_shell))) fresh_shell).
Proof. split; [reflexivity|]. exact (shell_spins_at_end_of_input 5 fresh_shell 997 3 eq_refl). Defined.
