(* ===== verification/Umalloc.v ===== *)
(** * The user heap: user/umalloc.c

    The Kernighan and Ritchie allocator.  Memory is the header at each address a
    header can be at, sixteen bytes apart within a block; [sbrk] is an interface
    over the rest of the process.  The loops along the circular free list are
    bounded by [N]. *)
From S2P Require Import Prelude.

Record header : Type := Hdr { ptr : Z; size : Z }.
Definition SIZEOF : Z := 16.
Definition SBRK_ERROR : Z := 2 ^ 64 - 1.

(** [sbrk] of user/ulib.c: it moves the end of the heap and returns the old one. *)
Class Sbrk (S : Type) : Type := { sbrk : Z -> M S Z; brk : S -> Z }.
Class SbrkLaws (S : Type) `{Sbrk S} : Prop := {
  sbrk_grows : forall n s, 0 < n < 2 ^ 31 ->
    wp (sbrk n) (fun r s' => (r = SBRK_ERROR /\ brk s' = brk s) \/ (r = brk s /\ brk s' = brk s + n)) s
}.

Section Malloc.
Context {S : Type} `{SB : Sbrk S}.
(** The address of the static [base], and the bound of the loops. *)
Context (base : Z) (N : nat).

Record heap : Type := Heap { cells : Z -> header; freep : Z; rest_ : S }.
Definition cell (p : Z) : M heap header := gets (fun h => cells h p).
Definition store (p : Z) (v : header) (h : heap) : heap :=
  Heap (fun q => if decide (q = p) then v else cells h q) (freep h) (rest_ h).
Definition set_ptr (p v : Z) : M heap unit := modify (fun h => store p (Hdr v (size (cells h p))) h).
Definition set_size (p v : Z) : M heap unit := modify (fun h => store p (Hdr (ptr (cells h p)) v) h).
Definition set_freep (p : Z) : M heap unit := modify (fun h => Heap (cells h) p (rest_ h)).

(** The loop of [free]: where in the list [bp] belongs. *)
Fixpoint free_find (fuel : nat) (bp p : Z) : M heap Z :=
  match fuel with
  | O => out_of_fuel
  | Datatypes.S f =>
      let! h := cell p in
      if (p <? bp) && (bp <? ptr h) then ret p
      else if (ptr h <=? p) && ((p <? bp) || (bp <? ptr h)) then ret p
      else free_find f bp (ptr h)
  end.
Definition free (ap : Z) : M heap unit :=
  let bp := ap - SIZEOF in
  let! p0 := gets freep in
  let! p := free_find N bp p0 in
  let! b := cell bp in
  let! h := cell p in
  (if bp + size b * SIZEOF =? ptr h then
     let! n := cell (ptr h) in
     set_size bp (u32 (size b + size n)) ;;
     let! h := cell p in
     let! n := cell (ptr h) in
     set_ptr bp (ptr n)
   else set_ptr bp (ptr h)) ;;
  let! h := cell p in
  (if p + size h * SIZEOF =? bp then
     let! b := cell bp in
     set_size p (u32 (size h + size b)) ;;
     let! b := cell bp in
     set_ptr p (ptr b)
   else set_ptr p bp) ;;
  set_freep p.

Definition i_sbrk (n : Z) : M heap Z := zoom rest_ (fun r h => Heap (cells h) (freep h) r) (sbrk n).
Definition morecore (nu : Z) : M heap Z :=
  let nu := if nu <? 4096 then 4096 else nu in
  let! p := i_sbrk (i32 (nu * SIZEOF)) in
  if p =? SBRK_ERROR then ret 0
  else
    set_size p nu ;;
    free (p + SIZEOF) ;;
    gets freep.

(** Taking [nunits] from the block at [p], which is large enough. *)
Definition malloc_take (nunits prevp p : Z) : M heap Z :=
  let! h := cell p in
  let! q :=
    (if size h =? nunits then
       set_ptr prevp (ptr h) ;;
       ret p
     else
       set_size p (u32 (size h - nunits)) ;;
       let! h := cell p in
       let q := p + size h * SIZEOF in
       set_size q nunits ;;
       ret q) in
  set_freep prevp ;;
  ret (q + SIZEOF).
Fixpoint malloc_loop (fuel : nat) (nunits prevp p : Z) : M heap Z :=
  match fuel with
  | O => out_of_fuel
  | Datatypes.S f =>
      let! h := cell p in
      if nunits <=? size h then malloc_take nunits prevp p
      else
        let! fp := gets freep in
        if p =? fp then
          let! p' := morecore nunits in
          if p' =? 0 then ret 0
          else
            let! h := cell p' in
            malloc_loop f nunits p' (ptr h)
        else malloc_loop f nunits p (ptr h)
  end.
Definition units (nbytes : Z) : Z := u32 ((nbytes + SIZEOF - 1) / SIZEOF + 1).
Definition malloc (nbytes : Z) : M heap Z :=
  let nunits := units nbytes in
  let! fp := gets freep in
  let! prevp :=
    (if fp =? 0 then
       set_freep base ;;
       set_ptr base base ;;
       set_size base 0 ;;
       ret base
     else ret fp) in
  let! h := cell prevp in
  malloc_loop N nunits prevp (ptr h).

(** ** The free list and the blocks in use *)

(** A block: address and number of units. *)
Definition bend (b : Z * Z) : Z := b.1 + b.2 * SIZEOF.
Definition inblk (b : Z * Z) (x : Z) : Prop := b.1 <= x < bend b.
(** The addresses in the blocks of a list. *)
Definition covers (l : list (Z * Z)) (q : Z) : Prop := exists x, x ∈ l /\ inblk x q.
Definition apart (b c : Z * Z) : Prop := bend b <= c.1 \/ bend c <= b.1.
Definition next_of (l : list (Z * Z)) (e : Z) : Z := match l with [] => e | b :: _ => b.1 end.
(** From [b] along [l] to [e]: each block's header has its size and the next. *)
Fixpoint seg (c : Z -> header) (b : Z * Z) (l : list (Z * Z)) (e : Z) : Prop :=
  c b.1 = Hdr (next_of l e) b.2 /\ match l with [] => True | b' :: l' => seg c b' l' e end.
(** Increasing addresses, no two neighbours adjacent. *)
Fixpoint ascending (b : Z * Z) (fl : list (Z * Z)) : Prop :=
  match fl with [] => True | b' :: fl' => bend b < b'.1 /\ ascending b' fl' end.

Fixpoint all_apart (al : list (Z * Z)) : Prop :=
  match al with [] => True | b :: al' => (forall c, c ∈ al' -> apart b c) /\ all_apart al' end.

Record heap_inv (h : heap) (top : Z) (fl al : list (Z * Z)) : Prop := {
  hv_linked : seg (cells h) (base, 0) fl base;
  hv_asc : ascending (base, 0) fl;
  hv_freep : exists n, (freep h, n) ∈ (base, 0) :: fl;
  hv_blocks : forall b, b ∈ fl ++ al -> base + SIZEOF <= b.1 /\ 0 < b.2 /\ bend b <= top;
  hv_apart : forall b c, b ∈ fl -> c ∈ al -> apart b c;
  hv_used : all_apart al;
  hv_sizes : forall b, b ∈ al -> size (cells h b.1) = b.2
}.

Lemma covers_cons b l q : covers (b :: l) q <-> inblk b q \/ covers l q.
Proof. unfold covers. setoid_rewrite elem_of_cons. naive_solver. Qed.
Lemma covers_app l1 l2 q : covers (l1 ++ l2) q <-> covers l1 q \/ covers l2 q.
Proof. unfold covers. setoid_rewrite elem_of_app. naive_solver. Qed.
Lemma covers_base l q : covers ((base, 0) :: l) q <-> covers l q.
Proof. rewrite covers_cons. unfold inblk, bend. cbn [fst snd]. split; [intros [?|?]; [lia|done]|by right]. Qed.
(** The space of a list in which the blocks from [P] on were rearranged. *)
Lemma covers_replace K P l2 P' M fl fl' (X Y : Z -> Prop) :
  (base, 0) :: fl = K ++ P :: l2 -> (base, 0) :: fl' = K ++ P' :: M ->
  (forall q, (inblk P' q \/ covers M q) \/ X q <-> (inblk P q \/ covers l2 q) \/ Y q) ->
  forall q, covers fl' q \/ X q <-> covers fl q \/ Y q.
Proof.
  intros E E' H q. rewrite <- (covers_base fl q), <- (covers_base fl' q), E, E', !covers_app, !covers_cons. specialize (H q). tauto.
Qed.

(** ** Walking the list *)

Lemma useg_app c l1 : forall b x l2 e, seg c b (l1 ++ x :: l2) e <-> seg c b l1 x.1 /\ seg c x l2 e.
Proof.
  induction l1 as [|y l1 IH]; intros b x l2 e; cbn [app seg next_of]; [naive_solver|]. rewrite IH. naive_solver.
Qed.
Lemma useg_ext c c' l : forall b e, (forall x, x ∈ b :: l -> c' x.1 = c x.1) -> seg c b l e -> seg c' b l e.
Proof.
  induction l as [|y l IH]; intros b e H [H1 H2]; cbn [seg].
  - split; [|done]. by rewrite H by set_solver.
  - split; [by rewrite H by set_solver|]. apply IH; [|done]. intros x Hx. apply H. set_solver.
Qed.
Lemma seg_head c b l e : seg c b l e -> c b.1 = Hdr (next_of l e) b.2.
Proof. destruct l; cbn; naive_solver. Qed.

(** Blocks of an ascending list with sizes that are not negative. *)
Lemma asc_after l : forall b x, Forall (fun y : Z * Z => 0 <= y.2) (b :: l) -> ascending b l -> x ∈ l -> bend b < x.1.
Proof.
  induction l as [|y l IH]; intros b x Hn H Hx; [by apply elem_of_nil in Hx|]. destruct H as [H1 H2].
  inversion Hn as [|? ? Hb Hn']; subst. inversion Hn' as [|? ? Hy _]; subst. unfold bend, SIZEOF in *.
  apply elem_of_cons in Hx as [->|Hx]; [done|]. pose proof (IH y x Hn' H2 Hx). lia.
Qed.
Lemma asc_app l1 : forall b x l2, ascending b (l1 ++ x :: l2) <-> ascending b (l1 ++ [x]) /\ ascending x l2.
Proof. induction l1 as [|y l1 IH]; intros b x l2; cbn [app ascending]; [naive_solver|]. rewrite IH. naive_solver. Qed.

Section Find.
Context (h : heap) (bp : Z) (Hbp : base < bp).

Lemma find_step fuel b l :
  seg (cells h) b l base -> ascending b l -> 0 <= b.2 -> base <= b.1 -> (forall x, x ∈ b :: l -> x.1 <> bp) ->
  free_find (Datatypes.S fuel) bp b.1 h =
    if (b.1 <? bp) && match l with [] => true | x :: _ => bp <? x.1 end then Ok (b.1, h)
    else free_find fuel bp (next_of l base) h.
Proof.
  intros Hs Ha Hn Hb Hne. cbn [free_find]. unfold bind, cell, gets. rewrite (seg_head _ _ _ _ Hs). cbn [ptr].
  assert (Hb1 : b.1 <> bp) by (apply Hne; set_solver). unfold ret.
  destruct l as [|x l]; cbn [next_of].
  - destruct (Z.ltb_spec b.1 bp); cbn [andb orb].
    + destruct (Z.ltb_spec bp base); [lia|]. cbn. by rewrite (proj2 (Z.leb_le _ _)) by lia.
    + rewrite (proj2 (Z.ltb_ge bp base)) by lia. by rewrite andb_false_r.
  - destruct Ha as [Ha _]. unfold bend, SIZEOF in Ha.
    rewrite (proj2 (Z.leb_gt x.1 b.1)) by lia. cbn [andb]. by destruct (_ && _).
Qed.
Lemma find_fwd l : forall fuel b,
  seg (cells h) b l base -> ascending b l -> Forall (fun y : Z * Z => 0 <= y.2) (b :: l) -> base <= b.1 -> b.1 < bp ->
  (forall x, x ∈ b :: l -> x.1 <> bp) -> (length l < fuel)%nat ->
  exists l1 l2, l = l1 ++ l2 /\ free_find fuel bp b.1 h = Ok ((default b (last l1)).1, h) /\
    Forall (fun x : Z * Z => x.1 < bp) l1 /\ match l2 with [] => True | x :: _ => bp < x.1 end.
Proof.
  induction l as [|x l IH]; intros fuel b Hs Ha Hn Hb Hlt Hne Hf; (destruct fuel as [|fuel]; [simpl in Hf; lia|]);
    inversion Hn as [|? ? Hb2 Hn']; subst.
  - exists [], []. rewrite (find_step fuel b []) by done. by rewrite (proj2 (Z.ltb_lt _ _)) by done.
  - rewrite (find_step fuel b (x :: l)) by done. rewrite (proj2 (Z.ltb_lt _ _)) by done. cbn [andb].
    destruct (Z.ltb_spec bp x.1) as [Hx|Hx]; [by exists [], (x :: l)|]. cbn [next_of].
    assert (x.1 <> bp) by (apply Hne; set_solver). destruct Hs as [_ Hs]. destruct Ha as [Ha1 Ha2].
    destruct (IH fuel x) as (l1 & l2 & -> & E & H1 & H2); try done.
    + unfold bend, SIZEOF in *. lia.
    + lia.
    + intros y Hy. apply Hne. set_solver.
    + simpl in Hf. lia.
    + exists (x :: l1), l2. rewrite E. split_and!; [done| |constructor; [lia|done]|done].
      do 3 f_equal. destruct l1 as [|z l1] using rev_ind; [done|]. by rewrite app_comm_cons, !last_snoc.
Qed.
Lemma find_wrap l : forall fuel b,
  seg (cells h) b l base -> ascending b l -> Forall (fun y : Z * Z => 0 <= y.2) (b :: l) -> base <= b.1 -> bp < b.1 ->
  (length l < fuel)%nat -> free_find fuel bp b.1 h = free_find (fuel - length l - 1) bp base h.
Proof.
  induction l as [|x l IH]; intros fuel b Hs Ha Hn Hb Hlt Hf; (destruct fuel as [|fuel]; [simpl in Hf; lia|]);
    inversion Hn as [|? ? Hb2 Hn']; subst.
  - rewrite (find_step fuel b []); try done; [|by intros x ->%list_elem_of_singleton; lia].
    rewrite (proj2 (Z.ltb_ge _ _)) by lia. cbn. by rewrite !Nat.sub_0_r.
  - pose proof (asc_after (x :: l) b) as Hafter.
    rewrite (find_step fuel b (x :: l)); try done.
    2:{ intros y [->|Hy]%elem_of_cons; [lia|]. specialize (Hafter y Hn Ha Hy). unfold bend, SIZEOF in Hafter. lia. }
    rewrite (proj2 (Z.ltb_ge _ _)) by lia. cbn [andb next_of]. destruct Hs as [_ Hs]. destruct Ha as [Ha1 Ha2].
    unfold bend, SIZEOF in Ha1. rewrite IH; try done; simpl in Hf; lia.
Qed.
(** The whole search, from wherever the last one stopped. *)
Lemma find_ok fl n :
  seg (cells h) (base, 0) fl base -> ascending (base, 0) fl -> Forall (fun y : Z * Z => 0 <= y.2) fl ->
  (forall x, x ∈ fl -> x.1 <> bp) -> (freep h, n) ∈ (base, 0) :: fl -> (2 * length fl + 2 <= N)%nat ->
  exists l1 l2, fl = l1 ++ l2 /\ free_find N bp (freep h) h = Ok ((default (base, 0) (last l1)).1, h) /\
    Forall (fun x : Z * Z => x.1 < bp) l1 /\ match l2 with [] => True | x :: _ => bp < x.1 end.
Proof.
  intros Hs Ha Hn Hne Hin HN.
  assert (Hn0 : Forall (fun y : Z * Z => 0 <= y.2) ((base, 0) :: fl)) by by constructor.
  assert (Hne0 : forall x, x ∈ (base, 0) :: fl -> x.1 <> bp).
  { intros x [->|Hx]%elem_of_cons; [cbn; lia|by apply Hne]. }
  assert (Hfwd : forall fuel, (length fl < fuel)%nat -> exists l1 l2, fl = l1 ++ l2 /\
    free_find fuel bp base h = Ok ((default (base, 0) (last l1)).1, h) /\
    Forall (fun x : Z * Z => x.1 < bp) l1 /\ match l2 with [] => True | x :: _ => bp < x.1 end).
  { intros fuel Hf. by apply (find_fwd fl fuel (base, 0)). }
  apply elem_of_cons in Hin as [[= -> _]|Hin]; [apply Hfwd; lia|].
  apply list_elem_of_split in Hin as (k1 & k2 & ->). assert (Hfb : exists b : Z * Z, (freep h, n) = b /\ freep h = b.1) by by eexists.
  destruct Hfb as (b & Eb & Ef). rewrite Eb in *. rewrite Ef. clear Eb Ef.
  apply useg_app in Hs as [Hs1 Hs2]. pose proof Ha as Ha'. apply asc_app in Ha as [Ha1 Ha2].
  rewrite length_app in HN, Hfwd. cbn [length] in HN, Hfwd.
  assert (Hbase : base <= b.1).
  { pose proof (asc_after (k1 ++ b :: k2) (base, 0) b Hn0 Ha') as H. unfold bend in H. cbn [fst snd] in H.
    specialize (H ltac:(set_solver)). lia. }
  assert (Hn2 : Forall (fun y : Z * Z => 0 <= y.2) (b :: k2)) by (apply Forall_app in Hn; naive_solver).
  destruct (Z.lt_total b.1 bp) as [Hlt|[Heq|Hgt]].
  - destruct (find_fwd k2 N b) as (l1 & l2 & -> & E & H1 & H2); try done; [|lia|].
    + intros x Hx. apply Hne. set_solver.
    + exists (k1 ++ b :: l1), l2. rewrite <- app_assoc. split; [done|]. rewrite E.
      split; [|split; [|done]].
      * do 3 f_equal. destruct l1 as [|z l1] using rev_ind; [by rewrite last_snoc|].
        by rewrite app_comm_cons, app_assoc, !last_snoc.
      * apply Forall_app. split; [|by constructor]. apply Forall_forall. intros x Hx.
        apply list_elem_of_split in Hx as (m1 & m2 & ->). rewrite <- app_assoc in Ha1. cbn in Ha1.
        apply asc_app in Ha1 as [_ Ha1]. pose proof (asc_after (m2 ++ [b]) x b) as H.
        unfold bend, SIZEOF in H. assert (0 <= x.2) by (rewrite Forall_forall in Hn; apply Hn; set_solver).
        assert (bend x < b.1).
        { apply (asc_after (m2 ++ [b])); [|done|set_solver]. apply Forall_app in Hn as [Hn _].
          apply Forall_app in Hn as [_ Hn]. rewrite app_comm_cons. apply Forall_app. split; [done|]. by apply Forall_cons in Hn2 as [? _]; repeat constructor. }
        unfold bend, SIZEOF in *. lia.
  - exfalso. apply (Hne b); [set_solver|done].
  - rewrite (find_wrap k2 N b); try done; [|lia]. apply Hfwd. lia.
Qed.
End Find.

(** ** Giving a block back *)

Definition chain (c : Z -> header) (L : list (Z * Z)) (e : Z) : Prop :=
  match L with [] => True | b :: l => seg c b l e end.
Lemma chain_app c K P m e : chain c (K ++ P :: m) e <-> chain c K P.1 /\ seg c P m e.
Proof. destruct K as [|b K]; cbn [app chain]; [tauto|apply useg_app]. Qed.
Lemma chain_ext c c' L e : (forall x, x ∈ L -> c' x.1 = c x.1) -> chain c L e -> chain c' L e.
Proof. destruct L as [|b l]; [done|]. cbn. intros H. by apply useg_ext. Qed.

Lemma wp_cell p Q (h : heap) : wp (cell p) Q h <-> Q (cells h p) h.
Proof. done. Qed.
Lemma wp_set_ptr p v Q (h : heap) : wp (set_ptr p v) Q h <-> Q tt (store p (Hdr v (size (cells h p))) h).
Proof. done. Qed.
Lemma wp_set_size p v Q (h : heap) : wp (set_size p v) Q h <-> Q tt (store p (Hdr (ptr (cells h p)) v) h).
Proof. done. Qed.
Lemma store_eq p v (h : heap) : cells (store p v h) p = v.
Proof. cbn. by rewrite decide_True. Qed.
Lemma store_ne p q v (h : heap) : q <> p -> cells (store p v h) q = cells h q.
Proof. intros. cbn. by rewrite decide_False. Qed.
(** [h'] is [h] with the header [v] at [p]. *)
Definition put (p : Z) (v : header) (h h' : heap) : Prop :=
  (forall q, cells h' q = if decide (q = p) then v else cells h q) /\ freep h' = freep h /\ rest_ h' = rest_ h.

(** Joining with the block above. *)
Lemma join_up h bp n P l2 :
  cells h P = Hdr (next_of l2 base) (size (cells h P)) -> size (cells h bp) = n -> P <> bp -> base < bp -> 0 < n ->
  match l2 with [] => True | u :: l3 => cells h u.1 = Hdr (next_of l3 base) u.2 /\ bp < u.1 /\ 0 <= n + u.2 < 2 ^ 32 end ->
  exists n1 l3, wp (let! b := cell bp in
      let! h := cell P in
      (if bp + size b * SIZEOF =? ptr h then
         let! n := cell (ptr h) in
         set_size bp (u32 (size b + size n)) ;;
         let! h := cell P in
         let! n := cell (ptr h) in
         set_ptr bp (ptr n)
       else set_ptr bp (ptr h))) (fun _ h' => put bp (Hdr (next_of l3 base) n1) h h') h /\
    ((n1 = n /\ l3 = l2 /\ bp + n * SIZEOF <> next_of l2 base) \/
     exists u, l2 = u :: l3 /\ n1 = n + u.2 /\ bp + n * SIZEOF = u.1).
Proof.
  intros HP Hn Hne Hb Hpos Hu. destruct (Z.eqb_spec (bp + n * SIZEOF) (next_of l2 base)) as [E|E].
  - destruct l2 as [|u l3]; [cbn in E; unfold SIZEOF in E; lia|]. destruct Hu as (Hu & Hlt & Hr). cbn [next_of] in *.
    exists (n + u.2), l3. split; [|right; by exists u].
    wp_steps. rewrite wp_cell. wp_steps. rewrite wp_cell, Hn, HP. cbn [ptr]. rewrite (proj2 (Z.eqb_eq _ _) E).
    wp_steps. rewrite wp_cell. wp_steps. rewrite wp_set_size. wp_steps. rewrite wp_cell. wp_steps. rewrite wp_cell, wp_set_ptr.
    rewrite (store_ne bp P) by done. rewrite HP. cbn [ptr]. rewrite (store_ne bp u.1) by lia. rewrite Hu. cbn [ptr size].
    split; [|done]. intros q. cbn. destruct (decide (q = bp)); [|done]. rewrite decide_True by done. cbn. by rewrite u32_id.
  - exists n, l2. split; [|left; done].
    wp_steps. rewrite wp_cell. wp_steps. rewrite wp_cell, Hn, HP. cbn [ptr]. rewrite (proj2 (Z.eqb_neq _ _) E).
    rewrite wp_set_ptr, Hn. by split.
Qed.
(** Joining with the block below, or linking behind it. *)
Lemma join_down h bp n P np nx :
  cells h bp = Hdr nx n -> size (cells h P) = np -> P <> bp -> 0 <= np + n < 2 ^ 32 ->
  wp (let! h := cell P in
      (if P + size h * SIZEOF =? bp then
         let! b := cell bp in
         set_size P (u32 (size h + size b)) ;;
         let! b := cell bp in
         set_ptr P (ptr b)
       else set_ptr P bp)) (fun _ h' =>
    put P (if P + np * SIZEOF =? bp then Hdr nx (np + n) else Hdr bp np) h h') h.
Proof.
  intros Hb HP Hne Hr. wp_steps. rewrite wp_cell, HP. destruct (Z.eqb_spec (P + np * SIZEOF) bp) as [E|E].
  - wp_steps. rewrite wp_cell. wp_steps. rewrite wp_set_size. wp_steps. rewrite wp_cell, wp_set_ptr.
    rewrite (store_ne P bp) by done. rewrite Hb. cbn [ptr size].
    split; [|done]. intros q. cbn. destruct (decide (q = P)); [|done]. rewrite decide_True by done. cbn. by rewrite u32_id.
  - rewrite wp_set_ptr, HP. by split.
Qed.

(** What the list is like after the block [b] joined it. *)
Record freed (h h' : heap) (top : Z) (fl fl' : list (Z * Z)) (b : Z * Z) : Prop := {
  fd_seg : seg (cells h') (base, 0) fl' base;
  fd_asc : ascending (base, 0) fl';
  fd_freep : exists n, (freep h', n) ∈ (base, 0) :: fl';
  fd_blocks : forall x, x ∈ fl' -> base + SIZEOF <= x.1 /\ 0 < x.2 /\ bend x <= top;
  fd_apart : forall c : Z * Z, 0 < c.2 -> apart b c -> (forall x, x ∈ fl -> apart x c) -> forall x, x ∈ fl' -> apart x c;
  fd_space : forall q, covers fl' q <-> covers fl q \/ inblk b q;
  fd_big : exists x, x ∈ fl' /\ b.2 <= x.2;
  fd_len : (length fl' <= Datatypes.S (length fl))%nat;
  fd_frame : forall q, q <> b.1 -> (forall x, x ∈ (base, 0) :: fl -> q <> x.1) -> cells h' q = cells h q;
  fd_rest : rest_ h' = rest_ h
}.

(** The list with [P], [b] and the blocks after it rearranged. *)
Lemma asc_replace K P m : forall b0, ascending b0 (K ++ P :: m) -> forall P' m',
  P'.1 = P.1 -> ascending P' m' -> ascending b0 (K ++ P' :: m').
Proof.
  induction K as [|k K IH]; intros b0 H P' m' E Hm; cbn [app ascending] in *.
  - rewrite E. naive_solver.
  - destruct H as [H1 H2]. split; [done|]. by apply (IH k H2).
Qed.
Lemma asc_bend x y m : bend x <= bend y -> ascending y m -> ascending x m.
Proof. destruct m; cbn; [done|]. intros ? [? ?]. split; [lia|done]. Qed.
Lemma asc_distinct L : forall b0 x y m1 m2, Forall (fun y : Z * Z => 0 <= y.2) (b0 :: L) -> ascending b0 L ->
  b0 :: L = m1 ++ y :: m2 -> x ∈ m1 -> bend x < y.1.
Proof.
  induction L as [|z L IH]; intros b0 x y m1 m2 Hn Ha E Hx.
  - destruct m1 as [|? [|? ?]]; simplify_eq/=; by apply elem_of_nil in Hx.
  - destruct m1 as [|w m1]; [by apply elem_of_nil in Hx|]. injection E as -> E. apply elem_of_cons in Hx as [->|Hx].
    + apply (asc_after (z :: L)); [done..|]. rewrite E. apply elem_of_app. right. by left.
    + inversion Hn as [|? ? _ Hn']; subst. destruct Ha as [_ Ha]. exact (IH z x y m1 m2 Hn' Ha E Hx).
Qed.

(** The predecessor of the block in the list. *)
Lemma find_split (l1 l2 : list (Z * Z)) :
  exists K, (base, 0) :: l1 ++ l2 = K ++ default (base, 0) (last l1) :: l2.
Proof.
  destruct l1 as [|P l1 _] using rev_ind; [by exists []|]. exists ((base, 0) :: l1). rewrite last_snoc. cbn. by rewrite <- app_assoc.
Qed.
(** Putting [P'] followed by [M] in the place of [P] and what follows it. *)
Lemma replace_tail c c' K P l2 P' M fl :
  (base, 0) :: fl = K ++ P :: l2 -> ascending (base, 0) fl -> Forall (fun y : Z * Z => 0 <= y.2) ((base, 0) :: fl) ->
  seg c (base, 0) fl base -> P'.1 = P.1 -> (K = [] -> P' = P) -> ascending P' M -> seg c' P' M base ->
  (forall x, x ∈ K -> c' x.1 = c x.1) ->
  exists fl', (base, 0) :: fl' = K ++ P' :: M /\ ascending (base, 0) fl' /\ seg c' (base, 0) fl' base.
Proof.
  intros E Ha Hn Hs EP HK HaM HsM Hc. destruct K as [|k K].
  - cbn in E. injection E as <- ->. rewrite (HK eq_refl) in *. by exists M.
  - cbn in E. injection E as <- ->. exists (K ++ P' :: M). split; [done|]. split; [by eapply asc_replace|].
    apply useg_app in Hs as [Hs _]. apply useg_app. split; [|done]. rewrite EP. by eapply useg_ext.
Qed.

Section Free.
Context (h : heap) (top : Z) (fl : list (Z * Z)) (b : Z * Z).
Hypothesis Hseg : seg (cells h) (base, 0) fl base.
Hypothesis Hasc : ascending (base, 0) fl.
Hypothesis Hfreep : exists n, (freep h, n) ∈ (base, 0) :: fl.
Hypothesis Hblocks : forall x, x ∈ fl -> base + SIZEOF <= x.1 /\ 0 < x.2 /\ bend x <= top.
Hypothesis Hblock : base + SIZEOF <= b.1 /\ 0 < b.2 /\ bend b <= top.
Hypothesis Hap : forall x, x ∈ fl -> apart x b.
Hypothesis Hsize : size (cells h b.1) = b.2.
Hypothesis Htop : top <= base + 2 ^ 36.
Hypothesis HN : (2 * length fl + 2 <= N)%nat.

Lemma free_nonneg : Forall (fun y : Z * Z => 0 <= y.2) ((base, 0) :: fl).
Proof. constructor; [done|]. apply Forall_forall. intros x Hx. destruct (Hblocks x Hx). lia. Qed.
(** A block below or above [b] ends or starts clear of it. *)
Lemma free_below x : x ∈ fl -> x.1 <= b.1 -> bend x <= b.1.
Proof. intros Hx Hlt. destruct (Hap x Hx), (Hblocks x Hx) as (? & ? & ?), Hblock as (? & ? & ?); unfold bend, SIZEOF in *; lia. Qed.
Lemma free_above x : x ∈ fl -> b.1 < x.1 -> bend b <= x.1.
Proof. intros Hx Hlt. destruct (Hap x Hx), (Hblocks x Hx) as (? & ? & ?), Hblock as (? & ? & ?); unfold bend, SIZEOF in *; lia. Qed.
Lemma free_after l1 l2 : fl = l1 ++ l2 -> match l2 with [] => True | x :: _ => b.1 < x.1 end ->
  forall x, x ∈ l2 -> bend b <= x.1 /\ x ∈ fl.
Proof.
  intros Efl Hl2 x Hx. assert (Hxf : x ∈ fl) by (rewrite Efl; apply elem_of_app; by right). split; [|done].
  apply free_above; [done|]. destruct l2 as [|u l3]; [by apply elem_of_nil in Hx|].
  apply elem_of_cons in Hx as [->|Hx]; [done|].
  pose proof Hasc as Ha. rewrite Efl in Ha. apply asc_app in Ha as [_ Ha].
  pose proof (Forall_inv_tail free_nonneg) as Hn. rewrite Efl in Hn. apply Forall_app in Hn as [_ Hn].
  pose proof (asc_after l3 u x Hn Ha Hx). apply Forall_inv in Hn. unfold bend, SIZEOF in *. lia.
Qed.

(** The predecessor [P] of the place of [b], the blocks [l2] after it. *)
Lemma free_place : exists K P l2,
  (base, 0) :: fl = K ++ P :: l2 /\ free_find N b.1 (freep h) h = Ok (P.1, h) /\
  (K = [] -> P = (base, 0)) /\ bend P <= b.1 /\ P.1 < b.1 /\ 0 <= P.2 /\ base <= P.1 /\ (P = (base, 0) \/ P ∈ fl) /\
  (forall x, x ∈ l2 -> bend b <= x.1 /\ x ∈ fl).
Proof.
  pose proof free_nonneg as Hn. destruct Hblock as (Hb1 & Hb2 & Hb3). unfold SIZEOF in Hb1. destruct Hfreep as [n0 Hin].
  destruct (find_ok h b.1 ltac:(lia) fl n0 Hseg Hasc) as (l1 & l2 & Efl & Efind & Hl1 & Hl2);
    [by inversion Hn| |done|done|].
  { intros x Hx E. destruct (Hap x Hx), (Hblocks x Hx) as (? & ? & ?); unfold bend, SIZEOF in *; lia. }
  destruct (find_split l1 l2) as [K EL]. rewrite <- Efl in EL.
  exists K, (default (base, 0) (last l1)), l2. split; [done|]. split; [done|].
  split; [intros ->; by injection EL as <- _|]. pose proof (free_after l1 l2 Efl Hl2) as Haft.
  destruct l1 as [|P l1 _] using rev_ind.
  { cbn [last default fst snd]. assert (E0 : bend (base, 0) = base) by (unfold bend; cbn [fst snd]; lia).
    rewrite E0. split_and!; [lia|lia|done|done|by left|exact Haft]. }
  rewrite last_snoc. cbn [default id]. unfold id. apply Forall_app in Hl1 as [_ Hl1]. apply Forall_inv in Hl1. cbn beta in Hl1.
  assert (HP : P ∈ fl) by (rewrite Efl; apply elem_of_app; left; apply elem_of_app; right; by left).
  destruct (Hblocks P HP) as (? & ? & ?). unfold SIZEOF in *.
  split_and!; [apply free_below; [done|lia]|exact Hl1|lia|lia|by right|exact Haft].
Qed.

(** After [join_up]: [b] has grown to [n1] units and is followed by [l3]. *)
Lemma free_up P l2 :
  seg (cells h) P l2 base -> ascending P l2 -> (forall x, x ∈ l2 -> bend b <= x.1 /\ x ∈ fl) -> P.1 < b.1 ->
  exists n1 l3, wp (let! x := cell b.1 in
      let! y := cell P.1 in
      (if b.1 + size x * SIZEOF =? ptr y then
         let! n := cell (ptr y) in
         set_size b.1 (u32 (size x + size n)) ;;
         let! y := cell P.1 in
         let! n := cell (ptr y) in
         set_ptr b.1 (ptr n)
       else set_ptr b.1 (ptr y))) (fun _ h' => put b.1 (Hdr (next_of l3 base) n1) h h') h /\
    (forall x, x ∈ l3 -> x ∈ l2) /\ (length l3 <= length l2)%nat /\ b.2 <= n1 /\ bend (b.1, n1) <= top /\
    ascending (b.1, n1) l3 /\ match l3 with [] => True | x :: l4 => seg (cells h) x l4 base end /\
    (forall c : Z * Z, 0 < c.2 -> apart b c -> (forall x, x ∈ fl -> apart x c) -> apart (b.1, n1) c) /\
    (forall q, inblk (b.1, n1) q \/ covers l3 q <-> inblk b q \/ covers l2 q).
Proof.
  intros Hs Ha Haft HP. pose proof (seg_head _ _ _ _ Hs) as HcP. destruct Hblock as (Hb1 & Hb2 & Hb3). unfold SIZEOF in Hb1.
  destruct (join_up h b.1 b.2 P.1 l2) as (n1 & l3 & Hup & Hcase); [by rewrite HcP|done|lia|lia|done| |].
  { destruct l2 as [|u l3]; [done|]. destruct Hs as [_ Hs]. split; [by apply seg_head in Hs|].
    destruct (Haft u) as [? Hu]; [by left|]. destruct (Hblocks u Hu) as (? & ? & ?). unfold bend, SIZEOF in *. lia. }
  exists n1, l3. split; [exact Hup|]. destruct Hcase as [(-> & -> & Hx)|(u & -> & -> & Hx)].
  - split_and!; [done|done|done| | | | |by destruct b].
    + destruct b. exact Hb3.
    + destruct l2 as [|u l3]; [done|]. destruct Ha as [_ Ha]. cbn [next_of] in Hx. destruct (Haft u) as [? _]; [by left|].
      split; [|done]. unfold bend in *. cbn [fst snd]. lia.
    + destruct l2; [done|]. by destruct Hs.
    + intros c _ Hc _. by destruct b.
  - destruct (Haft u) as [Hbu Hu]; [by left|]. destruct (Hblocks u Hu) as (? & ? & ?). destruct Ha as [_ Ha]. destruct Hs as [_ Hs].
    split_and!; [intros x; by right|cbn; lia|lia| | | | |].
    + unfold bend, SIZEOF in *. cbn [fst snd]. lia.
    + eapply asc_bend; [|exact Ha]. unfold bend, SIZEOF in *. cbn [fst snd]. lia.
    + destruct l3; [done|]. by destruct Hs.
    + intros c Hc Hbc Hall. specialize (Hall u Hu). unfold apart, bend, SIZEOF in *. cbn [fst snd]. lia.
    + intros q. rewrite covers_cons. assert (H' : inblk (b.1, b.2 + u.2) q <-> inblk b q \/ inblk u q); [|tauto].
      unfold inblk, bend, SIZEOF in *. cbn [fst snd]. lia.
Qed.

(** The list with [P'] and [M] in the place of [P] and [l2]. *)
Lemma freed_intro h' K P l2 P' M :
  (base, 0) :: fl = K ++ P :: l2 -> (K = [] -> P' = P) -> P'.1 = P.1 -> ascending P' M -> seg (cells h') P' M base ->
  (forall x, x ∈ K -> cells h' x.1 = cells h x.1) -> freep h' = P.1 -> rest_ h' = rest_ h ->
  (forall x, x ∈ P' :: M -> 0 <= x.2 /\ (base < x.1 -> base + SIZEOF <= x.1 /\ 0 < x.2 /\ bend x <= top)) ->
  (forall c : Z * Z, 0 < c.2 -> apart b c -> (forall x, x ∈ fl -> apart x c) -> forall x, x ∈ P' :: M -> base < x.1 -> apart x c) ->
  (forall q, inblk P' q \/ covers M q <-> (inblk P q \/ covers l2 q) \/ inblk b q) ->
  (exists x, x ∈ P' :: M /\ base < x.1 /\ b.2 <= x.2) -> (length M <= Datatypes.S (length l2))%nat ->
  (forall q, q <> b.1 -> q <> P.1 -> cells h' q = cells h q) ->
  exists fl', freed h h' top fl fl' b.
Proof.
  intros EL HK EP HaM HsM HcK Hfp Hr Hbl Hapt Hsp (x0 & Hx0 & Hx0b & Hx0s) HM Hfr. pose proof free_nonneg as Hn.
  destruct (replace_tail (cells h) (cells h') K P l2 P' M fl) as (fl' & EL' & Ha' & Hs'); try done.
  assert (Hnn : Forall (fun y : Z * Z => 0 <= y.2) ((base, 0) :: fl')).
  { rewrite EL'. rewrite EL in Hn. apply Forall_app in Hn as [Hn1 _]. apply Forall_app. split; [done|].
    apply Forall_forall. intros x Hx. by apply Hbl. }
  assert (Hlt : forall x, x ∈ fl' -> base < x.1).
  { intros x Hx. pose proof (asc_after fl' (base, 0) x Hnn Ha' Hx) as H. unfold bend in H. cbn [fst snd] in H. lia. }
  assert (Hsub : forall x, x ∈ fl' -> x ∈ fl \/ x ∈ P' :: M).
  { intros x Hx. assert (Hx' : x ∈ K ++ P' :: M) by (rewrite <- EL'; by right).
    apply elem_of_app in Hx' as [Hx'|Hx']; [|by right]. left.
    assert (Hin : x ∈ (base, 0) :: fl) by (rewrite EL; apply elem_of_app; by left).
    apply elem_of_cons in Hin as [->|Hin]; [specialize (Hlt _ Hx); cbn in Hlt; lia|done]. }
  assert (Hin' : forall x, x ∈ P' :: M -> x ∈ (base, 0) :: fl') by (intros x Hx; rewrite EL'; apply elem_of_app; by right).
  exists fl'. split; try done.
  - exists P'.2. rewrite Hfp, <- EP. apply Hin'. destruct P'. by left.
  - intros x Hx. destruct (Hsub x Hx) as [Hf|Hm]; [by apply Hblocks|]. destruct (Hbl x Hm) as [_ H]. by apply H, Hlt.
  - intros c Hc Hbc Hall x Hx. destruct (Hsub x Hx) as [Hf|Hm]; [by apply Hall|]. by apply Hapt; auto.
  - intros q. assert (H : covers fl' q \/ False <-> covers fl q \/ inblk b q); [|tauto]. revert q.
    apply (covers_replace K P l2 P' M fl fl' (fun _ => False) (inblk b) EL EL'). intros q. specialize (Hsp q). tauto.
  - exists x0. split; [|done]. apply Hin', elem_of_cons in Hx0 as [->|Hx0]; [cbn in Hx0b; lia|done].
  - apply (f_equal length) in EL, EL'. rewrite length_app in EL, EL'. cbn [length] in EL, EL'. lia.
  - intros q Hqb Hq. apply Hfr; [done|]. apply Hq. rewrite EL. apply elem_of_app. right. by left.
Qed.

Lemma chain_seg K P l2 : (base, 0) :: fl = K ++ P :: l2 -> seg (cells h) P l2 base /\ ascending P l2.
Proof.
  intros EL. destruct K as [|k K]; cbn in EL.
  - injection EL as <- <-. done.
  - injection EL as <- EL. pose proof Hseg as Hs. pose proof Hasc as Ha. rewrite EL in Hs, Ha.
    split; [by apply useg_app in Hs as [_ ?]|by apply asc_app in Ha as [_ ?]].
Qed.
Lemma before_place K P l2 x : (base, 0) :: fl = K ++ P :: l2 -> x ∈ K -> x.1 < P.1.
Proof.
  intros EL Hx. pose proof (asc_distinct fl (base, 0) x P K l2 free_nonneg Hasc EL Hx) as H. pose proof free_nonneg as Hn.
  rewrite EL in Hn. apply Forall_app in Hn as [Hn _]. rewrite Forall_forall in Hn. specialize (Hn x Hx). unfold bend, SIZEOF in *. lia.
Qed.

Lemma free_done K P l2 n1 l3 h2 :
  (base, 0) :: fl = K ++ P :: l2 -> (K = [] -> P = (base, 0)) -> bend P <= b.1 -> P.1 < b.1 -> 0 <= P.2 -> base <= P.1 ->
  P = (base, 0) \/ P ∈ fl -> (forall x, x ∈ l3 -> bend b <= x.1 /\ x ∈ fl) ->
  (length l3 <= length l2)%nat -> b.2 <= n1 -> bend (b.1, n1) <= top -> ascending (b.1, n1) l3 ->
  match l3 with [] => True | x :: l4 => seg (cells h) x l4 base end ->
  (forall c : Z * Z, 0 < c.2 -> apart b c -> (forall x, x ∈ fl -> apart x c) -> apart (b.1, n1) c) ->
  (forall q, inblk (b.1, n1) q \/ covers l3 q <-> inblk b q \/ covers l2 q) ->
  (forall q, cells h2 q = if decide (q = P.1) then
       if P.1 + P.2 * SIZEOF =? b.1 then Hdr (next_of l3 base) (P.2 + n1) else Hdr b.1 P.2
     else if decide (q = b.1) then Hdr (next_of l3 base) n1 else cells h q) ->
  freep h2 = P.1 -> rest_ h2 = rest_ h -> exists fl', freed h h2 top fl fl' b.
Proof.
  intros EL HK HPe HPlt HPn HPb HPin Hl3 Hlen Hn1 Htop1 Ha3 Hs3 Hapt Hsp Hc Hf Hr. destruct Hblock as (Hb1 & Hb2 & Hb3).
  assert (Hcell : forall q, q <> b.1 -> q <> P.1 -> cells h2 q = cells h q) by (intros; by rewrite Hc, !decide_False by done).
  assert (Hs3' : match l3 with [] => True | x :: l4 => seg (cells h2) x l4 base end).
  { destruct l3 as [|x l4]; [done|]. eapply useg_ext; [|exact Hs3]. intros y Hy. destruct (Hl3 y Hy) as [? _].
    unfold bend, SIZEOF in *. apply Hcell; lia. }
  assert (HKc : forall x, x ∈ K -> cells h2 x.1 = cells h x.1)
    by (intros x Hx; pose proof (before_place K P l2 x EL Hx); apply Hcell; lia).
  assert (Hl3b : forall x, x ∈ l3 -> 0 <= x.2 /\ (base < x.1 -> base + SIZEOF <= x.1 /\ 0 < x.2 /\ bend x <= top))
    by (intros x Hx; destruct (Hl3 x Hx) as [_ H]; destruct (Hblocks x H) as (? & ? & ?); split; [lia|done]).
  pose proof (Hc P.1) as HP2. rewrite decide_True in HP2 by done.
  pose proof (Hc b.1) as Hb'. rewrite decide_False, decide_True in Hb' by (done || lia).
  destruct (Z.eqb_spec (P.1 + P.2 * SIZEOF) b.1) as [E|E].
  - destruct HPin as [->|HPf]; [unfold SIZEOF in *; cbn [fst snd] in E; lia|].
    destruct (Hblocks P HPf) as (HPx & HPy & HPz).
    apply (freed_intro h2 K P l2 (P.1, P.2 + n1) l3); try done.
    + intros ->. rewrite (HK eq_refl) in HPx. unfold SIZEOF in HPx. cbn in HPx. lia.
    + eapply asc_bend; [|exact Ha3]. unfold bend, SIZEOF in *. cbn [fst snd]. lia.
    + destruct l3; (split; [exact HP2|done]).
    + intros x [->|Hx]%elem_of_cons; [|by apply Hl3b]. unfold bend, SIZEOF in *. cbn [fst snd] in *. lia.
    + intros c Hc0 Hbc Hall x [->|Hx]%elem_of_cons _; [|by apply Hall, Hl3].
      specialize (Hapt c Hc0 Hbc Hall). specialize (Hall P HPf). unfold apart, bend, SIZEOF in *. cbn [fst snd] in *. lia.
    + intros q. specialize (Hsp q). assert (H : inblk (P.1, P.2 + n1) q <-> inblk P q \/ inblk (b.1, n1) q); [|tauto].
      unfold inblk, bend, SIZEOF in *. cbn [fst snd] in *. lia.
    + eexists. split; [by left|]. unfold SIZEOF in *. cbn [fst snd]. lia.
    + lia.
  - apply (freed_intro h2 K P l2 P ((b.1, n1) :: l3)); try done.
    + split; [|exact Ha3]. unfold bend in *. cbn [fst]. lia.
    + split; [exact HP2|]. destruct l3; (split; [exact Hb'|done]).
    + intros x [->|[->|Hx]%elem_of_cons]%elem_of_cons; [| |by apply Hl3b].
      * split; [done|]. intros Hlt. destruct HPin as [->|HPf]; [cbn in Hlt; lia|by apply Hblocks].
      * cbn [fst snd]. split; [lia|]. intros _. split_and!; [done|lia|done].
    + intros c Hc0 Hbc Hall x [->|[->|Hx]%elem_of_cons]%elem_of_cons Hlt; [|by apply Hapt|by apply Hall, Hl3].
      destruct HPin as [->|HPf]; [cbn in Hlt; lia|by apply Hall].
    + intros q. specialize (Hsp q). rewrite covers_cons. tauto.
    + exists (b.1, n1). split; [right; by left|]. unfold SIZEOF in *. cbn [fst snd]. lia.
    + cbn [length]. lia.
Qed.

Lemma free_wp : wp (free (b.1 + SIZEOF)) (fun _ h' => exists fl', freed h h' top fl fl' b) h.
Proof.
  destruct free_place as (K & P & l2 & EL & Efind & HK & HPe & HPlt & HPn & HPb & HPin & Haft).
  destruct (chain_seg K P l2 EL) as [Hs Ha]. pose proof Hblock as (Hb1 & Hb2 & Hb3).
  destruct (free_up P l2 Hs Ha Haft HPlt) as (n1 & l3 & Hup & Hsub & Hlen & Hn1 & Htop1 & Ha3 & Hs3 & Hapt & Hsp).
  unfold free. replace (b.1 + SIZEOF - SIZEOF) with b.1 by lia. wp_step. wp_step. wp_step. unfold wp at 1. rewrite Efind.
  wp_step. rewrite wp_cell. wp_step. rewrite wp_cell. rewrite !wp_bind, wp_cell, wp_bind, wp_cell in Hup. wp_step.
  eapply wp_mono; [exact Hup|]. cbn beta. intros _ h1 (Hc1 & Hf1 & Hr1).
  assert (HcP : cells h1 P.1 = Hdr (next_of l2 base) P.2) by (rewrite Hc1, decide_False by lia; by apply seg_head).
  assert (Hsz : 0 <= P.2 + n1 < 2 ^ 32).
  { unfold bend, SIZEOF in *; cbn [fst snd] in Htop1. destruct HPin as [->|HPf]; [cbn [fst snd] in *; lia|].
    destruct (Hblocks P HPf) as (? & ? & ?). lia. }
  assert (Hcb : cells h1 b.1 = Hdr (next_of l3 base) n1) by (by rewrite Hc1, decide_True).
  pose proof (join_down h1 b.1 n1 P.1 P.2 (next_of l3 base) Hcb ltac:(by rewrite HcP) ltac:(lia) Hsz) as Hdn.
  wp_step. rewrite wp_cell. rewrite wp_bind, wp_cell in Hdn. wp_step.
  eapply wp_mono; [exact Hdn|]. cbn beta. intros _ h2 (Hc2 & Hf2 & Hr2). unfold set_freep. wp_step.
  apply (free_done K P l2 n1 l3); try done.
  - intros x Hx. by apply Haft, Hsub.
  - intros q. cbn [cells]. rewrite Hc2. destruct (decide (q = P.1)); [done|apply Hc1].
  - cbn. congruence.
Qed.
End Free.

(** The blocks in use are not touched by what [free] does. *)
Lemma freed_inv h h' top fl fl' b al :
  freed h h' top fl fl' b -> (forall x, x ∈ fl -> base + SIZEOF <= x.1 /\ 0 < x.2) ->
  (forall c, c ∈ al -> base + SIZEOF <= c.1 /\ 0 < c.2 /\ bend c <= top) -> 0 < b.2 ->
  (forall c, c ∈ al -> apart b c) -> (forall x c, x ∈ fl -> c ∈ al -> apart x c) ->
  all_apart al ->
  (forall c, c ∈ al -> size (cells h c.1) = c.2) ->
  heap_inv h' top fl' al.
Proof.
  intros F Hfl Hal Hb Hba Hfa Hu Hsz. split; [apply F..| | |done|].
  - intros x [Hx|Hx]%elem_of_app; [by apply (fd_blocks _ _ _ _ _ _ F)|by apply Hal].
  - intros x c Hx Hc. apply (fd_apart _ _ _ _ _ _ F); auto. by apply Hal.
  - intros c Hc. destruct (Hal c Hc) as (Hc1 & Hc2 & _). specialize (Hba c Hc). unfold SIZEOF in *.
    rewrite (fd_frame _ _ _ _ _ _ F); [by apply Hsz|unfold apart, bend, SIZEOF in *; lia|].
    intros x [->|Hx]%elem_of_cons; [cbn; lia|]. specialize (Hfa x c Hx Hc). destruct (Hfl x Hx).
    unfold apart, bend, SIZEOF in *. lia.
Qed.

Lemma inv_nonneg h top fl al : heap_inv h top fl al -> Forall (fun y : Z * Z => 0 <= y.2) ((base, 0) :: fl).
Proof.
  intros I. constructor; [done|]. apply Forall_forall. intros x Hx.
  destruct (hv_blocks _ _ _ _ I x) as (_ & ? & _); [apply elem_of_app; by left|lia].
Qed.

Lemma all_apart_middle a1 b a2 :
  all_apart (a1 ++ b :: a2) -> (forall c, c ∈ a1 ++ a2 -> apart b c) /\ all_apart (a1 ++ a2).
Proof.
  induction a1 as [|x a1 IH]; cbn [app all_apart]; [done|]. intros [Hx Ha]. destruct (IH Ha) as [H1 H2]. split.
  - intros c [->|Hc]%elem_of_cons; [|by apply H1].
    assert (H : apart x b) by (apply Hx, elem_of_app; right; by left). unfold apart in *. lia.
  - split; [|done]. intros c Hc. apply Hx. apply elem_of_app in Hc as [Hc|Hc]; apply elem_of_app; [by left|right; by right].
Qed.
(** [free] of a block in use. *)
Lemma free_used h top fl a1 b a2 :
  heap_inv h top fl (a1 ++ b :: a2) -> top <= base + 2 ^ 36 -> (2 * length fl + 2 <= N)%nat ->
  wp (free (b.1 + SIZEOF)) (fun _ h' => exists fl', heap_inv h' top fl' (a1 ++ a2) /\
    (length fl' <= Datatypes.S (length fl))%nat /\ rest_ h' = rest_ h /\
    (forall q, covers fl' q <-> covers fl q \/ inblk b q) /\ exists x, x ∈ fl' /\ b.2 <= x.2) h.
Proof.
  intros I Ht HN.
  assert (Hb : b ∈ a1 ++ b :: a2) by (apply elem_of_app; right; by left).
  assert (Hsub : forall c, c ∈ a1 ++ a2 -> c ∈ a1 ++ b :: a2).
  { intros c [Hc|Hc]%elem_of_app; apply elem_of_app; [by left|right; by right]. }
  assert (Hbl : forall x, x ∈ fl -> base + SIZEOF <= x.1 /\ 0 < x.2 /\ bend x <= top)
    by (intros x Hx; apply (hv_blocks _ _ _ _ I), elem_of_app; by left).
  assert (Hal : forall c, c ∈ a1 ++ b :: a2 -> base + SIZEOF <= c.1 /\ 0 < c.2 /\ bend c <= top)
    by (intros c Hc; apply (hv_blocks _ _ _ _ I), elem_of_app; by right).
  eapply wp_mono.
  - apply (free_wp h top fl b (hv_linked _ _ _ _ I) (hv_asc _ _ _ _ I) (hv_freep _ _ _ _ I) Hbl (Hal b Hb)); [|by apply I|done..].
    intros x Hx. by apply (hv_apart _ _ _ _ I).
  - cbn beta. intros _ h' [fl' F]. exists fl'. split; [|split_and!; apply F].
    eapply freed_inv; [exact F|intros x Hx; destruct (Hbl x Hx) as (? & ? & ?); done|intros c Hc; by apply Hal, Hsub|by apply Hal| | | |].
    + by apply (all_apart_middle a1 b a2 (hv_used _ _ _ _ I)).
    + intros x c Hx Hc. apply (hv_apart _ _ _ _ I); auto.
    + by apply (all_apart_middle a1 b a2 (hv_used _ _ _ _ I)).
    + intros c Hc. apply (hv_sizes _ _ _ _ I); auto.
Qed.

(** ** Getting more memory *)

Definition grown (nu : Z) : Z := (if nu <? 4096 then 4096 else nu) * SIZEOF.
Definition top_of (h : heap) : Z := brk (rest_ h).
Definition refused (n : Z) (h : heap) : Prop := exists s', sbrk n (rest_ h) = Ok (SBRK_ERROR, s').
(** The whole heap stays within what the 32-bit sizes can say. *)
Hypothesis Hbase : 0 < base /\ base + 2 ^ 36 < SBRK_ERROR.

Lemma inv_same h h' top top' fl al :
  (forall q, cells h' q = cells h q) -> freep h' = freep h -> top <= top' -> heap_inv h top fl al -> heap_inv h' top' fl al.
Proof.
  intros Hc Hf Ht I. destruct I as [I1 I2 I3 I4 I5 I6 I7]. split; try done.
  - by eapply useg_ext; [|exact I1].
  - by rewrite Hf.
  - intros b Hb. destruct (I4 b Hb) as (? & ? & ?). split_and!; [done|done|lia].
  - intros b Hb. by rewrite Hc, I7.
Qed.

(** The new memory as a block in use. *)
Lemma inv_extend h h1 top fl al n :
  heap_inv h top fl al -> 0 < n -> base + SIZEOF <= top -> (forall q, q <> top -> cells h1 q = cells h q) ->
  size (cells h1 top) = n -> freep h1 = freep h -> heap_inv h1 (top + n * SIZEOF) fl ((top, n) :: al).
Proof.
  intros [J1 J2 J3 J4 J5 J6 J7] Hn Hlo Hc Hs Hf. unfold SIZEOF in *.
  assert (Hc1 : forall x, x ∈ fl ++ al -> cells h1 x.1 = cells h x.1).
  { intros x Hx. apply Hc. destruct (J4 x Hx) as (? & ? & ?). unfold bend, SIZEOF in *. lia. }
  assert (J4' : forall x, x ∈ fl ++ al -> base + 16 <= x.1 /\ 0 < x.2 /\ bend x <= top + n * 16)
    by (intros x Hx; destruct (J4 x Hx) as (? & ? & ?); lia).
  split; try done.
  - eapply useg_ext; [|exact J1]. intros x [->|Hx]%elem_of_cons; [apply Hc; cbn; lia|]. apply Hc1, elem_of_app. by left.
  - by rewrite Hf.
  - intros x [Hx|[->|Hx]%elem_of_cons]%elem_of_app; [by apply J4', elem_of_app; left| |by apply J4', elem_of_app; right].
    unfold bend, SIZEOF. cbn [fst snd]. lia.
  - intros x c Hx [->|Hc']%elem_of_cons; [|by apply J5]. left. apply J4, elem_of_app. by left.
  - split; [|done]. intros c Hc'. right. apply J4, elem_of_app. by right.
  - intros c [->|Hc']%elem_of_cons; [done|]. rewrite Hc1; [by apply J7|apply elem_of_app; by right].
Qed.

Lemma morecore_wp `{SL : !SbrkLaws S} h fl al nu :
  heap_inv h (top_of h) fl al -> 0 < nu -> grown nu < 2 ^ 31 -> base + SIZEOF <= top_of h -> top_of h + grown nu <= base + 2 ^ 36 ->
  (2 * length fl + 2 <= N)%nat ->
  wp (morecore nu) (fun r h' =>
    (r = 0 /\ heap_inv h' (top_of h') fl al /\ refused (grown nu) h /\ top_of h' = top_of h) \/
    (r = freep h' /\ r <> 0 /\ top_of h' = top_of h + grown nu /\ exists fl', heap_inv h' (top_of h') fl' al /\
       (length fl' <= Datatypes.S (length fl))%nat /\ (forall q, covers fl' q <-> covers fl q \/ top_of h <= q < top_of h') /\
       exists x, x ∈ fl' /\ nu <= x.2)) h.
Proof.
  intros I Hnu Hg Hlo Hhi HN. unfold morecore. set (n := if nu <? 4096 then 4096 else nu).
  assert (Hn : nu <= n /\ 0 < n) by (unfold n; destruct (Z.ltb_spec nu 4096); lia).
  change (n * SIZEOF) with (grown nu). assert (Hgn : grown nu = n * 16) by done.
  rewrite i32_id by (unfold is_i32; lia). wp_step. unfold i_sbrk. rewrite wp_zoom.
  eapply wp_mono; [apply wp_run, (sbrk_grows (grown nu)); lia|]. cbn beta. intros r s' [[[-> Hs]|[-> Hs]] Eq].
  - rewrite Z.eqb_refl. wp_step. left. split; [done|]. unfold top_of in *. cbn [rest_]. rewrite Hs. split; [|split; [by exists s'|done]].
    by eapply inv_same; [..|exact I].
  - change (brk (rest_ h)) with (top_of h) in *. rewrite (proj2 (Z.eqb_neq _ _)) by lia. wp_step. rewrite wp_set_size. wp_step.
    set (h1 := store (top_of h) (Hdr _ n) _).
    assert (I1 : heap_inv h1 (top_of h + n * SIZEOF) fl ([] ++ (top_of h, n) :: al)).
    { apply (inv_extend h); try done; [lia| |].
      - intros q Hq. unfold h1. by rewrite store_ne.
      - unfold h1. by rewrite store_eq. }
    eapply wp_mono; [apply (free_used _ _ _ _ _ _ I1); [unfold SIZEOF; lia|done]|]. cbn beta.
    intros _ h2 (fl' & I2 & Hlen & Hr & Hsp & x & Hx & Hxs). wp_step. cbn [app fst snd] in *.
    assert (Htop : top_of h2 = top_of h + n * SIZEOF) by (unfold top_of in *; rewrite Hr; cbn [rest_ h1 store]; by rewrite Hs).
    right. rewrite Htop. split_and!; [done| |done|].
    + destruct (hv_freep _ _ _ _ I2) as [k [[= -> _]|Hk]%elem_of_cons]; [lia|].
      destruct (hv_blocks _ _ _ _ I2 (freep h2, k)) as (Hk1 & _); [apply elem_of_app; by left|]. unfold SIZEOF in Hk1. cbn in Hk1. lia.
    + exists fl'. split_and!; [done..|]. exists x. split; [done|lia].
Qed.

(** ** Taking a block *)

Definition within_free (fl : list (Z * Z)) (y : Z * Z) : Prop :=
  0 < y.2 /\ exists z, z ∈ fl /\ z.1 <= y.1 /\ bend y <= bend z.
(** A block [b] cut out of the free blocks. *)
Lemma carve h h' top fl fl' al b :
  heap_inv h top fl al -> seg (cells h') (base, 0) fl' base -> ascending (base, 0) fl' ->
  (exists k, (freep h', k) ∈ (base, 0) :: fl') -> (forall y, y ∈ b :: fl' -> within_free fl y) ->
  (forall y, y ∈ fl' -> apart y b) -> size (cells h' b.1) = b.2 ->
  (forall q, q <> base -> (forall z, z ∈ fl -> ~ inblk z q) -> cells h' q = cells h q) ->
  heap_inv h' top fl' (b :: al).
Proof.
  intros I Hs Ha Hf Hw Hb Hsz Hc.
  assert (Hwb : forall y, y ∈ b :: fl' -> base + SIZEOF <= y.1 /\ 0 < y.2 /\ bend y <= top).
  { intros y Hy. destruct (Hw y Hy) as (? & z & Hz & ? & ?).
    destruct (hv_blocks _ _ _ _ I z) as (? & ? & ?); [apply elem_of_app; by left|]. lia. }
  assert (Hwa : forall y c, y ∈ b :: fl' -> c ∈ al -> apart y c).
  { intros y c Hy Hcl. destruct (Hw y Hy) as (? & z & Hz & ? & ?). pose proof (hv_apart _ _ _ _ I z c Hz Hcl) as Hzc.
    unfold apart in *. lia. }
  split; try done.
  - intros x [Hx|[->|Hx]%elem_of_cons]%elem_of_app; [by apply Hwb; right|by apply Hwb; left|].
    apply (hv_blocks _ _ _ _ I), elem_of_app. by right.
  - intros x c Hx [->|Hcl]%elem_of_cons; [by apply Hb|]. apply Hwa; [by right|done].
  - split; [|apply I]. intros c Hcl. apply Hwa; [by left|done].
  - intros c [->|Hcl]%elem_of_cons; [done|]. destruct (hv_blocks _ _ _ _ I c) as (? & ? & ?); [apply elem_of_app; by right|].
    unfold SIZEOF in *. rewrite Hc; [by apply I|lia|]. intros z Hz. pose proof (hv_apart _ _ _ _ I z c Hz Hcl).
    unfold inblk, apart, bend, SIZEOF in *. lia.
Qed.

(** The list after [b] was cut from [x]: [M] in the place of [x] and [rest]. *)
Lemma take_done h h' top fl al K prev x rest M b :
  heap_inv h top fl al -> (base, 0) :: fl = K ++ prev :: x :: rest -> ascending prev M -> seg (cells h') prev M base ->
  (forall k, k ∈ K -> cells h' k.1 = cells h k.1) -> freep h' = prev.1 ->
  (forall y, y ∈ M -> y ∈ rest \/ (y.1 = x.1 /\ 0 < y.2 /\ bend y <= b.1)) ->
  x.1 <= b.1 -> 0 < b.2 -> bend b <= bend x -> size (cells h' b.1) = b.2 -> (length M <= Datatypes.S (length rest))%nat ->
  (forall q, q <> base -> (forall z, z ∈ fl -> ~ inblk z q) -> cells h' q = cells h q) ->
  (forall q, covers M q \/ inblk b q <-> inblk x q \/ covers rest q) ->
  exists fl', heap_inv h' top fl' (b :: al) /\ (length fl' <= length fl)%nat /\
    forall q, covers fl' q \/ inblk b q <-> covers fl q.
Proof.
  intros I EL HaM HsM HK Hfp HM Hxb Hb2 Hbx Hsz Hlen Hc Hsp. pose proof (inv_nonneg _ _ _ _ I) as Hnn.
  pose proof (hv_linked _ _ _ _ I) as Hs. pose proof (hv_asc _ _ _ _ I) as Ha.
  destruct (replace_tail (cells h) (cells h') K prev (x :: rest) prev M fl) as (fl' & EL' & Ha' & Hs'); try done.
  assert (Hbef : forall y, y ∈ K ++ [prev] -> bend y < x.1).
  { intros y Hy. apply (asc_distinct fl (base, 0) y x (K ++ [prev]) rest); try done. by rewrite <- app_assoc. }
  assert (Hx : x ∈ fl /\ ascending x rest /\ Forall (fun y : Z * Z => 0 <= y.2) (x :: rest) /\ forall y, y ∈ rest -> y ∈ fl).
  { destruct (chain_seg h fl Hs Ha K prev (x :: rest) EL) as [_ [_ Hax]].
    assert (Hin : forall y, y ∈ x :: rest -> y ∈ fl).
    { intros y Hy. destruct K as [|k K]; cbn in EL; injection EL as _ ->; [done|]. apply elem_of_app. right. by right. }
    split_and!; [by apply Hin; left|done| |intros y Hy; by apply Hin; right].
    apply Forall_forall. intros y Hy. rewrite Forall_forall in Hnn. apply Hnn. right. by apply Hin. }
  destruct Hx as (Hxf & Hax & Hnx & Hrf).
  assert (Hnp : forall y, y ∈ K ++ prev :: x :: rest -> 0 <= y.2) by (rewrite <- EL; by apply Forall_forall).
  assert (Hnn' : Forall (fun y : Z * Z => 0 <= y.2) ((base, 0) :: fl')).
  { rewrite EL'. apply Forall_forall. intros y [Hy|[->|Hy]%elem_of_cons]%elem_of_app.
    - apply Hnp, elem_of_app. by left.
    - apply Hnp, elem_of_app. right. by left.
    - destruct (HM y Hy) as [Hr|?]; [|lia]. apply Hnp, elem_of_app. right. right. by right. }
  assert (Hfl' : forall y, y ∈ fl' -> (y ∈ fl /\ bend y < x.1) \/ y ∈ M).
  { intros y Hy. pose proof (asc_after fl' (base, 0) y Hnn' Ha' Hy) as Hlt. unfold bend in Hlt at 1. cbn [fst snd] in Hlt.
    assert (Hy' : y ∈ K ++ prev :: M) by (rewrite <- EL'; by right).
    rewrite (app_assoc K [prev] M : K ++ prev :: M = _) in Hy'. apply elem_of_app in Hy' as [Hy'|?]; [left|by right].
    split; [|by apply Hbef]. assert (Hin : y ∈ (base, 0) :: fl).
    { rewrite EL. rewrite (app_assoc K [prev] (x :: rest) : K ++ prev :: x :: rest = _). apply elem_of_app. by left. }
    apply elem_of_cons in Hin as [->|?]; [cbn in Hlt; lia|done]. }
  assert (Hpos : forall y, y ∈ fl -> 0 < y.2) by (intros y Hy; apply (hv_blocks _ _ _ _ I), elem_of_app; by left).
  exists fl'. split_and!.
  - apply (carve h h' top fl); try done.
    + exists prev.2. rewrite Hfp, EL'. apply elem_of_app. right. destruct prev. by left.
    + intros y [->|Hy]%elem_of_cons; [split; [done|]; by exists x|].
      destruct (Hfl' y Hy) as [[Hf _]|Hm]; [split; [by apply Hpos|]; by exists y|].
      destruct (HM y Hm) as [Hr|(E1 & E2 & E3)]; [split; [by apply Hpos, Hrf|]; exists y; split_and!; [by apply Hrf|lia|lia]|].
      split; [done|]. exists x. split_and!; [done|lia|]. unfold bend, SIZEOF in *. lia.
    + intros y Hy. destruct (Hfl' y Hy) as [[_ Hf]|Hm]; [left; lia|].
      destruct (HM y Hm) as [Hr|(E1 & E2 & E3)]; [|by left].
      right. pose proof (asc_after rest x y Hnx Hax Hr). lia.
  - apply (f_equal length) in EL, EL'. rewrite length_app in EL, EL'. cbn [length] in EL, EL'. lia.
  - intros q. assert (H : covers fl' q \/ inblk b q <-> covers fl q \/ False); [|tauto]. revert q.
    apply (covers_replace K prev (x :: rest) prev M fl fl' (inblk b) (fun _ => False) EL EL').
    intros q. rewrite covers_cons. specialize (Hsp q). tauto.
Qed.

Section Take.
Context (h : heap) (top : Z) (fl al K : list (Z * Z)) (prev x : Z * Z) (rest : list (Z * Z)).
Hypothesis HI : heap_inv h top fl al.
Hypothesis EL : (base, 0) :: fl = K ++ prev :: x :: rest.

Record place : Prop := {
  pl_prev : cells h prev.1 = Hdr x.1 prev.2;
  pl_x : cells h x.1 = Hdr (next_of rest base) x.2;
  pl_seg : match rest with [] => True | y :: l => seg (cells h) y l base end;
  pl_asc : ascending x rest;
  pl_asc_prev : bend prev < x.1;
  pl_order : prev.1 < x.1 /\ forall k, k ∈ K -> k.1 < prev.1;
  pl_after : forall y, y ∈ rest -> bend x < y.1;
  pl_block : base + SIZEOF <= x.1 /\ 0 < x.2 /\ bend x <= top /\ x ∈ fl;
  pl_in : prev.1 <> base -> prev ∈ fl /\ 0 < prev.2
}.
Lemma take_place : place.
Proof.
  pose proof (inv_nonneg _ _ _ _ HI) as Hnn. pose proof (hv_asc _ _ _ _ HI) as Ha.
  destruct (chain_seg h fl (hv_linked _ _ _ _ HI) Ha K prev (x :: rest) EL) as [[Hp Hsx] [Hpx Hax]].
  assert (Hin : forall y, y ∈ x :: rest -> y ∈ fl).
  { intros y Hy. destruct K as [|k K']; cbn in EL; injection EL as _ ->; [done|]. apply elem_of_app. right. by right. }
  assert (Hbl : forall y, y ∈ fl -> base + SIZEOF <= y.1 /\ 0 < y.2 /\ bend y <= top)
    by (intros y Hy; apply (hv_blocks _ _ _ _ HI), elem_of_app; by left).
  assert (Hn : forall y, y ∈ K ++ prev :: x :: rest -> 0 <= y.2) by (rewrite <- EL; by apply Forall_forall).
  assert (Hpn : 0 <= prev.2) by (apply Hn, elem_of_app; right; by left).
  split; try done.
  - by apply (seg_head _ x rest).
  - by destruct rest; destruct Hsx.
  - unfold bend, SIZEOF in Hpx. split; [lia|]. intros k Hk.
    pose proof (asc_distinct fl (base, 0) k prev K (x :: rest) Hnn Ha EL Hk) as Hd.
    assert (0 <= k.2) by (apply Hn, elem_of_app; by left). unfold bend, SIZEOF in Hd. lia.
  - intros y Hy. apply (asc_after rest x y); [|done|done]. apply Forall_forall. intros z Hz.
    destruct (Hbl z (Hin z Hz)) as (? & ? & ?). lia.
  - assert (Hx : x ∈ fl) by (by apply Hin; left). destruct (Hbl x Hx) as (? & ? & ?). done.
  - intros Hne. assert (Hpf : prev ∈ (base, 0) :: fl) by (rewrite EL; apply elem_of_app; right; by left).
    apply elem_of_cons in Hpf as [->|Hpf]; [done|]. split; [done|by apply Hbl].
Qed.

(** The whole block. *)
Lemma take_exact h' :
  (forall q, cells h' q = if decide (q = prev.1) then Hdr (next_of rest base) prev.2 else cells h q) -> freep h' = prev.1 ->
  exists fl', heap_inv h' top fl' (x :: al) /\ (length fl' <= length fl)%nat /\ forall q, covers fl' q \/ inblk x q <-> covers fl q.
Proof.
  intros Hc Hf. destruct take_place as [P1 P2 P3 P4 P5 [P6 PK] P7 (P8 & P9 & P10 & P11) P12].
  assert (Hcr : match rest with [] => True | y :: l => seg (cells h') y l base end).
  { destruct rest as [|y l]; [done|]. eapply useg_ext; [|exact P3]. intros z Hz. rewrite Hc, decide_False; [done|].
    specialize (P7 z Hz). unfold bend, SIZEOF in *. lia. }
  apply (take_done h h' top fl al K prev x rest rest); try done; try lia.
  - destruct rest as [|y l]; [done|]. destruct P4 as [H1 H2]. split; [|done]. unfold bend, SIZEOF in *. lia.
  - pose proof (Hc prev.1) as H. rewrite decide_True in H by done. destruct rest; (split; [exact H|done]).
  - intros k Hk. specialize (PK k Hk). by rewrite Hc, decide_False by lia.
  - by left.
  - rewrite Hc, decide_False by lia. by rewrite P2.
  - intros q Hq Hz. rewrite Hc, decide_False; [done|]. intros ->. destruct (P12 Hq) as [Hpf Hp2]. apply (Hz prev Hpf).
    unfold inblk, bend, SIZEOF. lia.
  - intros q. tauto.
Qed.
(** The end of the block, [m] units of it staying free. *)
Lemma take_split h' m n p0 :
  0 < m -> 0 < n -> x.2 = m + n -> freep h' = prev.1 ->
  (forall q, cells h' q = if decide (q = x.1 + m * SIZEOF) then Hdr p0 n
     else if decide (q = x.1) then Hdr (next_of rest base) m else cells h q) ->
  exists fl', heap_inv h' top fl' ((x.1 + m * SIZEOF, n) :: al) /\ (length fl' <= length fl)%nat /\
    forall q, covers fl' q \/ inblk (x.1 + m * SIZEOF, n) q <-> covers fl q.
Proof.
  intros Hm Hn Hx Hf Hc. destruct take_place as [P1 P2 P3 P4 P5 [P6 PK] P7 (P8 & P9 & P10 & P11) P12].
  unfold bend, SIZEOF in *.
  assert (Hcx : cells h' x.1 = Hdr (next_of rest base) m) by (rewrite Hc, decide_False, decide_True by (done || lia); done).
  assert (Hco : forall q, q < x.1 \/ x.1 + x.2 * 16 <= q -> cells h' q = cells h q)
    by (intros q Hq; rewrite Hc, !decide_False by lia; done).
  assert (Hcr : match rest with [] => True | y :: l => seg (cells h') y l base end).
  { destruct rest as [|y l]; [done|]. eapply useg_ext; [|exact P3]. intros z Hz. apply Hco. right. specialize (P7 z Hz). lia. }
  apply (take_done h h' top fl al K prev x rest ((x.1, m) :: rest)); unfold bend, SIZEOF; cbn [fst snd]; try done; try lia.
  - split; [cbn [fst]; unfold bend, SIZEOF; lia|]. eapply asc_bend; [|exact P4]. unfold bend, SIZEOF. cbn [fst snd]. lia.
  - split; [cbn [next_of fst]; rewrite Hco by lia; done|]. destruct rest; (split; [exact Hcx|done]).
  - intros k Hk. specialize (PK k Hk). apply Hco. lia.
  - intros y [->|Hy]%elem_of_cons; [right; cbn [fst snd]; lia|by left].
  - by rewrite Hc, decide_True.
  - intros q Hq Hz. apply Hco. specialize (Hz x P11). unfold inblk, bend, SIZEOF in Hz. lia.
  - intros q. rewrite covers_cons. assert (H : inblk x q <-> inblk (x.1, m) q \/ inblk (x.1 + m * 16, n) q); [|tauto].
    unfold inblk, bend, SIZEOF. cbn [fst snd]. lia.
Qed.
End Take.

Lemma take_wp h top fl al prev n :
  heap_inv h top fl al -> top <= base + 2 ^ 36 -> 0 < n -> prev ∈ (base, 0) :: fl ->
  n <= size (cells h (ptr (cells h prev.1))) ->
  wp (malloc_take n prev.1 (ptr (cells h prev.1))) (fun r h' => r <> 0 /\ rest_ h' = rest_ h /\
    exists fl', heap_inv h' top fl' ((r - SIZEOF, n) :: al) /\ (length fl' <= length fl)%nat /\
      forall q, covers fl' q \/ inblk (r - SIZEOF, n) q <-> covers fl q) h.
Proof.
  intros I Ht Hn Hprev Hsz. apply list_elem_of_split in Hprev as (K & rest & EL).
  destruct (chain_seg h fl (hv_linked _ _ _ _ I) (hv_asc _ _ _ _ I) K prev rest EL) as [Hsp _].
  assert (Hb0 : cells h base = Hdr (next_of fl base) 0) by (apply (seg_head _ (base, 0) fl base), I).
  destruct rest as [|x rest]; [rewrite (seg_head _ _ _ _ Hsp) in Hsz; cbn [ptr next_of] in Hsz; rewrite Hb0 in Hsz; cbn in Hsz; lia|].
  destruct (take_place h top fl al K prev x rest I EL) as [P1 P2 P3 P4 P5 [P6 PK] P7 (P8 & P9 & P10 & P11) P12].
  rewrite P1 in Hsz |- *. cbn [ptr] in *. rewrite P2 in Hsz. cbn [size] in Hsz. unfold bend, SIZEOF in P8, P10.
  unfold malloc_take. wp_step. rewrite wp_cell, P2. cbn [size ptr].
  destruct (Z.eqb_spec x.2 n) as [E|E].
  - wp_steps. rewrite wp_set_ptr, P1. cbn [size]. wp_steps. unfold set_freep. wp_steps. split; [unfold SIZEOF; lia|]. split; [done|].
    replace (x.1 + SIZEOF - SIZEOF, n) with x by (destruct x; cbn in *; f_equal; lia).
    by apply (take_exact h top fl al K prev x rest).
  - rewrite u32_id by (unfold is_u32; lia). wp_steps. rewrite wp_set_size. wp_steps. rewrite wp_cell, store_eq. cbn [size].
    wp_steps. rewrite wp_set_size. wp_steps. unfold set_freep. wp_steps. split; [unfold SIZEOF; lia|]. split; [done|].
    replace (x.1 + (x.2 - n) * SIZEOF + SIZEOF - SIZEOF) with (x.1 + (x.2 - n) * SIZEOF) by lia.
    eapply (take_split h top fl al K prev x rest); try done; try lia. intros q. cbn [cells]. rewrite P2. reflexivity.
Qed.

(** ** Searching around the circle *)

Lemma search_wp h n fl V : forall b f (Q : Z -> heap -> Prop),
  seg (cells h) b V (freep h) -> (forall y, y ∈ b :: V -> y ∈ (base, 0) :: fl) -> (forall y, y ∈ V -> y.1 <> freep h) ->
  (length V < f)%nat ->
  (forall prev, prev ∈ (base, 0) :: fl -> n <= size (cells h (ptr (cells h prev.1))) ->
     wp (malloc_take n prev.1 (ptr (cells h prev.1))) Q h) ->
  ((forall y, y ∈ V -> y.2 < n) -> size (cells h (freep h)) < n ->
     wp (let! p' := morecore n in
         if p' =? 0 then ret 0 else let! h := cell p' in malloc_loop (f - length V - 1) n p' (ptr h)) Q h) ->
  wp (malloc_loop f n b.1 (next_of V (freep h))) Q h.
Proof.
  induction V as [|y V IH]; intros b f Q Hs Hin Hne Hf HT HM; (destruct f as [|f]; [simpl in Hf; lia|]);
    cbn [malloc_loop next_of]; wp_step; rewrite wp_cell.
  - destruct Hs as [Hb _]. destruct (Z.leb_spec n (size (cells h (freep h)))) as [Hle|Hlt].
    + specialize (HT b). rewrite Hb in HT. cbn [ptr next_of] in HT. apply HT; [apply Hin; by left|done].
    + wp_steps. rewrite Z.eqb_refl. replace f with (Datatypes.S f - length (@nil (Z * Z)) - 1)%nat by (simpl; lia).
      apply HM; [intros y Hy; by apply elem_of_nil in Hy|done].
  - destruct Hs as [Hb Hs]. pose proof (seg_head _ _ _ _ Hs) as Hy. rewrite Hy. cbn [size ptr].
    destruct (Z.leb_spec n y.2) as [Hle|Hlt].
    + specialize (HT b). rewrite Hb in HT. cbn [ptr next_of] in HT. rewrite Hy in HT. apply HT; [apply Hin; by left|done].
    + wp_steps. rewrite (proj2 (Z.eqb_neq _ _)) by (apply Hne; by left). apply IH; try done.
      * intros z Hz. apply Hin. by right.
      * intros z Hz. apply Hne. by right.
      * simpl in Hf. lia.
      * intros Hall Hsm. apply HM; [|done]. intros z [->|Hz]%elem_of_cons; [done|by apply Hall].
Qed.
(** The free list read from [freep] on. *)
Lemma rotate h top fl al : heap_inv h top fl al ->
  exists F V, F.1 = freep h /\ seg (cells h) F V (freep h) /\ (forall y, y ∈ F :: V <-> y ∈ (base, 0) :: fl) /\
    (forall y, y ∈ V -> y.1 <> freep h) /\ length V = length fl.
Proof.
  intros I. destruct (hv_freep _ _ _ _ I) as [k Hk]. apply list_elem_of_split in Hk as (K & R & EL).
  pose proof (hv_linked _ _ _ _ I) as Hs. pose proof (hv_asc _ _ _ _ I) as Ha. pose proof (inv_nonneg _ _ _ _ I) as Hn.
  exists (freep h, k), (R ++ K). split; [done|]. split_and!.
  - destruct K as [|k0 K]; cbn in EL.
    + injection EL as <- <- <-. by rewrite app_nil_r.
    + injection EL as <- ->. apply useg_app in Hs as [H1 H2]. apply useg_app. by split.
  - intros y. rewrite EL. rewrite !elem_of_cons, !elem_of_app, elem_of_cons. tauto.
  - intros y [Hy|Hy]%elem_of_app.
    + destruct (chain_seg h fl Hs Ha K _ R EL) as [_ HaR]. assert (HnR : Forall (fun y : Z * Z => 0 <= y.2) ((freep h, k) :: R))
        by (rewrite EL in Hn; by apply Forall_app in Hn as [_ ?]).
      pose proof (asc_after R _ y HnR HaR Hy) as Hlt. apply Forall_inv in HnR. unfold bend, SIZEOF in Hlt. cbn in Hlt, HnR. lia.
    + pose proof (asc_distinct fl (base, 0) y _ K R Hn Ha EL Hy) as Hlt. rewrite EL in Hn. apply Forall_app in Hn as [Hn _].
      rewrite Forall_forall in Hn. specialize (Hn y Hy). unfold bend, SIZEOF in Hlt. cbn in Hlt. lia.
  - apply (f_equal length) in EL. rewrite length_app in EL |- *. cbn [length] in EL. lia.
Qed.

(** Before the first [malloc], and from then on. *)
Definition heap_ok (h : heap) (fl al : list (Z * Z)) : Prop :=
  (freep h = 0 /\ fl = [] /\ al = []) \/ heap_inv h (top_of h) fl al.
Definition malloc_post (nbytes : Z) (h : heap) (fl al : list (Z * Z)) (r : Z) (h' : heap) : Prop :=
  exists fl', (length fl' <= Datatypes.S (length fl))%nat /\
    ((r = 0 /\ heap_ok h' fl' al /\ (forall x, x ∈ fl -> x.2 < units nbytes) /\ refused (grown (units nbytes)) h /\
      top_of h' = top_of h /\ forall q, covers fl' q <-> covers fl q) \/
     (r <> 0 /\ nbytes <= (units nbytes - 1) * SIZEOF /\ heap_ok h' fl' ((r - SIZEOF, units nbytes) :: al) /\
      (top_of h' = top_of h \/ (top_of h' = top_of h + grown (units nbytes) /\ forall x, x ∈ fl -> x.2 < units nbytes)) /\
      forall q, covers fl' q \/ inblk (r - SIZEOF, units nbytes) q <-> covers fl q \/ top_of h <= q < top_of h')).

Lemma units_bound nbytes : 0 <= nbytes -> nbytes < 2 ^ 31 -> 0 < units nbytes /\ nbytes <= (units nbytes - 1) * SIZEOF.
Proof.
  intros H1 H2. unfold units, SIZEOF. pose proof (Z.div_mod (nbytes + 16 - 1) 16 ltac:(lia)).
  pose proof (Z.mod_pos_bound (nbytes + 16 - 1) 16 ltac:(lia)). rewrite u32_id by (unfold is_u32; lia). lia.
Qed.

Section Alloc.
Context `{SL : !SbrkLaws S} (nbytes : Z).
Hypothesis Hnb : 0 <= nbytes < 2 ^ 31.
Hypothesis Hgr : grown (units nbytes) < 2 ^ 31.

Lemma take_post h fl al prev h0 fl0 :
  heap_inv h (top_of h) fl al -> top_of h <= base + 2 ^ 36 -> prev ∈ (base, 0) :: fl ->
  units nbytes <= size (cells h (ptr (cells h prev.1))) -> (length fl <= Datatypes.S (length fl0))%nat ->
  top_of h = top_of h0 \/ (top_of h = top_of h0 + grown (units nbytes) /\ forall x, x ∈ fl0 -> x.2 < units nbytes) ->
  (forall q, covers fl q <-> covers fl0 q \/ top_of h0 <= q < top_of h) ->
  wp (malloc_take (units nbytes) prev.1 (ptr (cells h prev.1))) (malloc_post nbytes h0 fl0 al) h.
Proof.
  intros I Ht Hp Hsz Hl Htop Hsp. destruct (units_bound nbytes) as [Hu1 Hu2]; [lia..|].
  eapply wp_mono; [by apply (take_wp h (top_of h) fl al)|]. cbn beta. intros r h' (Hr & Hrest & fl' & I' & Hl' & Hsp').
  exists fl'. split; [lia|]. right. assert (E : top_of h' = top_of h) by (unfold top_of; by rewrite Hrest). rewrite E.
  split_and!; [done|done|by right; rewrite E|done|]. intros q. rewrite Hsp'. apply Hsp.
Qed.
Lemma malloc_search h fl al :
  heap_inv h (top_of h) fl al -> base + SIZEOF <= top_of h -> top_of h + grown (units nbytes) <= base + 2 ^ 36 ->
  (2 * length fl + 3 <= N)%nat ->
  wp (let! x := cell (freep h) in malloc_loop N (units nbytes) (freep h) (ptr x)) (malloc_post nbytes h fl al) h.
Proof.
  intros I Hlo Hhi HN. destruct (units_bound nbytes) as [Hu1 Hu2]; [lia..|].
  assert (Hg0 : 0 <= grown (units nbytes)) by (unfold grown, SIZEOF; destruct (Z.ltb_spec (units nbytes) 4096); lia).
  destruct (rotate _ _ _ _ I) as (F & V & EF & Hs & Hin & Hne & HlV). wp_step. rewrite wp_cell, <- EF.
  rewrite (seg_head _ _ _ _ Hs). cbn [ptr]. apply (search_wp h (units nbytes) fl V); try done; [by intros y; apply Hin|lia| |].
  { intros prev Hp Hsz. apply (take_post h fl); try (done || lia). intros q. split; [by left|intros [?|?]; [done|lia]]. }
  intros Hsm HsmF. assert (Hsmall : forall y, y ∈ fl -> y.2 < units nbytes).
  { intros y Hy. assert (Hy' : y ∈ F :: V) by (apply Hin; by right). apply elem_of_cons in Hy' as [->|Hy']; [|by apply Hsm].
    rewrite <- EF, (seg_head _ _ _ _ Hs) in HsmF. done. }
  wp_step. eapply wp_mono; [apply (morecore_wp h fl al); (done || lia)|]. cbn beta.
  intros r h1 [(-> & I1 & Hrf & Htop)|(-> & Hr0 & Htop & fl1 & I1 & Hl1 & Hsp & x & Hx & Hxs)].
  - rewrite Z.eqb_refl. wp_step. exists fl. split; [lia|]. left. split_and!; [done|by right|done..].
  - rewrite (proj2 (Z.eqb_neq _ _) Hr0). destruct (rotate _ _ _ _ I1) as (F1 & V1 & EF1 & Hs1 & Hin1 & Hne1 & HlV1).
    wp_step. rewrite wp_cell, <- EF1, (seg_head _ _ _ _ Hs1). cbn [ptr].
    apply (search_wp h1 (units nbytes) fl1 V1); try done; [by intros y; apply Hin1|lia| |].
    { intros prev Hp Hsz. apply (take_post h1 fl1); try (done || lia). by right. }
    intros Hsm1 HsmF1. exfalso. assert (Hx' : x ∈ F1 :: V1) by (apply Hin1; by right).
    apply elem_of_cons in Hx' as [->|Hx']; [|specialize (Hsm1 x Hx'); lia].
    rewrite <- EF1, (seg_head _ _ _ _ Hs1) in HsmF1. cbn in HsmF1. lia.
Qed.
Lemma malloc_ok h fl al :
  heap_ok h fl al -> base + SIZEOF <= top_of h -> top_of h + grown (units nbytes) <= base + 2 ^ 36 -> (2 * length fl + 3 <= N)%nat ->
  wp (malloc nbytes) (malloc_post nbytes h fl al) h.
Proof.
  intros Hok Hlo Hhi HN. unfold malloc. wp_step. wp_step. wp_step. destruct Hok as [(Hf & -> & ->)|I].
  - rewrite Hf, Z.eqb_refl. unfold set_freep. wp_steps. rewrite wp_set_ptr. wp_steps. rewrite wp_set_size. wp_steps.
    set (h1 := store base _ _).
    assert (Hc1 : cells h1 base = Hdr base 0) by (unfold h1; rewrite store_eq, store_eq; done).
    assert (I1 : heap_inv h1 (top_of h1) [] []).
    { split; try done; [by eexists; left|..]; intros; set_solver. }
    exact (malloc_search h1 [] [] I1 Hlo Hhi HN).
  - assert (Hf : freep h <> 0).
    { destruct (hv_freep _ _ _ _ I) as [k [[= -> _]|Hk]%elem_of_cons]; [lia|].
      destruct (hv_blocks _ _ _ _ I (freep h, k)) as (Hk1 & _); [apply elem_of_app; by left|]. unfold SIZEOF in Hk1. cbn in Hk1. lia. }
    rewrite (proj2 (Z.eqb_neq _ _) Hf). wp_step. by apply malloc_search.
Qed.
End Alloc.

(** C23: the user heap.  In every heap whose free list is well formed (circular,
    by increasing address, no two neighbours adjacent) and apart from the blocks in
    use, [malloc] ends.  Either it returns a block of at least the bytes asked for
    that overlaps neither the blocks in use nor the free ones; the free addresses
    and those of the block are then together exactly the addresses that were free
    and the memory [sbrk] added, which it was asked for only when no free block was
    large enough.  Or it returns 0, and then no free block was large enough, [sbrk]
    had refused, and the same addresses are free.  [free] of any block in use ends,
    and the free addresses are then exactly those that were free and those of the
    block.  Both leave the free list well formed, with neighbours merged, and the
    other blocks in use as they were. *)
Theorem user_heap_keeps_blocks_apart `{SL : !SbrkLaws S} h fl al :
  heap_ok h fl al -> base + SIZEOF <= top_of h <= base + 2 ^ 36 -> (2 * length fl + 3 <= N)%nat ->
  (forall nbytes, 0 <= nbytes < 2 ^ 31 -> grown (units nbytes) < 2 ^ 31 -> top_of h + grown (units nbytes) <= base + 2 ^ 36 ->
     wp (malloc nbytes) (malloc_post nbytes h fl al) h) /\
  (forall a1 b a2, al = a1 ++ b :: a2 ->
     wp (free (b.1 + SIZEOF)) (fun _ h' => exists fl', heap_ok h' fl' (a1 ++ a2) /\ (length fl' <= Datatypes.S (length fl))%nat /\
       top_of h' = top_of h /\ forall q, covers fl' q <-> covers fl q \/ inblk b q) h).
Proof.
  intros Hok [Hlo Hhi] HN. split.
  - intros nbytes Hnb Hg Ht. by apply malloc_ok.
  - intros a1 b a2 ->. destruct Hok as [(_ & _ & E)|I]; [by destruct a1|].
    eapply wp_mono; [apply (free_used h (top_of h) fl a1 b a2 I); (done || lia)|]. cbn beta.
    intros _ h' (fl' & I' & Hl & Hr & Hsp & _). exists fl'. assert (E : top_of h' = top_of h) by (unfold top_of; by rewrite Hr).
    split_and!; [|done..]. right. by rewrite E.
Qed.
End Malloc.
Arguments heap S : clear implicits.

(** ** A heap with a free block and a block in use *)

(** [sbrk] up to a limit. *)
#[local] Instance demo_sbrk : Sbrk Z :=
  {| sbrk n := fun s => if s + n <=? 2 ^ 30 then Ok (s, s + n) else Ok (SBRK_ERROR, s); brk s := s |}.
#[local] Instance demo_sbrk_laws : SbrkLaws Z.
Proof. split. intros n s Hn. unfold wp. cbn [sbrk brk demo_sbrk]. destruct (s + n <=? 2 ^ 30); [by right|by left]. Qed.
Definition demo_heap : heap Z :=
  Heap (fun q => if q =? 4096 then Hdr 8192 0 else if q =? 8192 then Hdr 4096 10 else if q =? 8352 then Hdr 0 6 else Hdr 0 0) 8192 8448.
Lemma demo_heap_ok : heap_ok 4096 demo_heap [(8192, 10)] [(8352, 6)].
Proof.
  right. split; cbn; try done.
  - exists 10. right. by left.
  - intros b Hb. rewrite !elem_of_cons, elem_of_nil in Hb. destruct_or! Hb; subst; (done || unfold bend, SIZEOF; cbn; lia).
  - intros b c ->%list_elem_of_singleton ->%list_elem_of_singleton. left. done.
  - split; [|done]. intros c Hc. by apply elem_of_nil in Hc.
  - by intros b ->%list_elem_of_singleton.
Qed.
Lemma user_heap_keeps_blocks_apart_witness :
  wp (malloc 4096 5 100) (malloc_post 4096 100 demo_heap [(8192, 10)] [(8352, 6)]) demo_heap /\
  wp (free 5 8368) (fun _ h' => exists fl', heap_ok 4096 h' fl' [] /\ (length fl' <= 2)%nat /\
    top_of h' = top_of demo_heap /\ forall q, covers fl' q <-> covers [(8192, 10)] q \/ inblk (8352, 6) q) demo_heap.
Proof.
  destruct (user_heap_keeps_blocks_apart 4096 5 (conj eq_refl eq_refl) demo_heap [(8192, 10)] [(8352, 6)] demo_heap_ok)
    as [Hm Hf]; [split; vm_compute; congruence|cbn; lia|]. split.
  - apply Hm; [lia|reflexivity|vm_compute; congruence].
  - exact (Hf [] (8352, 6) [] eq_refl).
Defined.
